(* ===== verification/_CoqProject ===== *)
-Q . S2P
Prelude.v
Doubles.v
DoubleBounds.v
OrderTypes.v
LevelMap.v
PriceTime.v
OrderBook.v
BookInvariant.v
BookOps.v
BookQueries.v
BookCheck.v
Risk.v
MatchingEngine.v
Market.v
MarketInvariant.v
Refinement.v
Session.v
SessionRuns.v
MatchFacts.v
EngineProps.v
SessionProps.v
BookProps.v
Journal.v
JournalCodec.v
JournalReplay.v
JournalProps.v
Spsc.v
Mpmc.v
Symbols.v
LatencyHistogram.v
HistogramThreads.v
Partitioned.v
PartitionedProps.v
Sharded.v
SharedMemory.v
EngineProcess.v
Arguments.v
CommandLine.v
EngineProcessProps.v
Generators.v
CsvReader.v
CsvProps.v
Printing.v
Connection.v
FeedHandler.v
FeedProps.v
CsvPrices.v
ReportNames.v
MarketViewer.v
Pipeline.v
PipelineProps.v
ViewerProps.v
PipelineRuns.v
FuzzTarget.v
ReplayTool.v
IngressDriver.v
PartitionedFutures.v
PartitionedMain.v
BenchmarkPartitioned.v
MpmcMain.v
MpmcMainProps.v
BenchmarkStats.v
Channel.v
Timing.v
BenchmarkQueues.v
BenchmarkIpc.v
BenchmarkOrderBook.v
CleanupTool.v
ProgramOutput.v
ProgramSummaries.v
