(* ===== verification/Prelude.v ===== *)
(** * A limit order book, its engines and its journal

    The program is a C++20 limit order book.  A price-time-priority book
    ([src/include/order_book.hpp], [src/src/order_book.cpp]) is driven by a
    single-writer matching engine ([matching_engine]) behind static checks and
    pre-trade risk limits ([risk_manager]).  An append-only journal ([journal])
    makes commands recoverable.  Around one engine there are three ways to run
    it: a process between shared-memory rings ([apps/matching_engine_main.cpp],
    [shared_types.hpp], [shared_memory], [spsc_queue.hpp]); a partitioned engine
    with one queue and one worker per shard ([partitioned_engine.hpp],
    [mpmc_queue.hpp]); and a lock-per-shard engine ([sharded_engine.hpp]).  The
    process has a feed ([feed_handler.cpp]) and a viewer ([market_viewer.cpp]) at its
    ends; the two threaded engines have a driver each
    ([partitioned_matching_main.cpp], [mpmc_matching_main.cpp]); a replay tool and a
    fuzz target run the single engine.  Four benchmark programs ([src/benchmarks]) measure
    book, queues and partitioned engine.

    ** Files and what they model

    Prelude (this file)   the error monad [result] for code that can reach a failed
                          [assert], undefined behaviour or a loop bound; machine
                          integers ([u64], [i64], ...) with their ranges; sums,
                          filters and classes of lists; [inevitably], that every run
                          of a step relation comes to a state; the [word] and [sums]
                          hint databases and the tactic [range].
    OrderTypes            [order.hpp], [trade.hpp], [execution_report.hpp].
    LevelMap              [std::map] as the book uses it, for any [Comparator].
    OrderBook             the book: level maps, order lists with node identities
                          (a [std::list] iterator is a node address), the id index,
                          every operation, query and the self-check.
    Risk, MatchingEngine  [RiskManager] and [MatchingEngine].
    PriceTime, Market     the specification: a market is two lists of orders in
                          price-time order; commands are total functions on it.
    BookInvariant, BookOps, BookQueries, BookCheck
                          the book's representation invariant, what each operation
                          does to the abstract lists, the queries, and that
                          [checkInvariants] decides the invariant.
    MarketInvariant, Refinement, MatchFacts, Session, SessionRuns
                          the market's invariant, the simulation between engine and
                          market, facts on one run of matching, and sessions.
    EngineProps, SessionProps, BookProps
                          the properties of engine, sessions, book and risk gate.
    Journal, JournalCodec, JournalReplay, JournalProps
                          [journal.cpp]: codec, CRC-32, I/O loops, open, append,
                          sync, scan, replay; and the guarantees.
    Spsc, Mpmc            the two queues: as sequential objects, then as threads.
    Symbols               [symbol.hpp], [trade_log.hpp].
    Doubles, DoubleBounds IEEE arithmetic as the program uses it, with the bound on one
                          rounding that the percentile ranks need; and error bounds of
                          products, sums and quotients against the real numbers.
    LatencyHistogram, HistogramThreads, BenchmarkStats
                          [latency_histogram.hpp] as whole calls and as single atomic
                          operations on several threads; [benchmark.hpp].
    Partitioned, PartitionedProps, PartitionedFutures
                          [partitioned_engine.hpp], its threads, and the futures of its
                          clients up to the end of [shutdown].
    Sharded               [sharded_engine.hpp] and its threads.
    SharedMemory          [shared_memory.cpp]: ownership of descriptors and mappings.
    Arguments             numbers and the loop over [argv], for all programs.
    EngineProcess, CommandLine, EngineProcessProps
                          [matching_engine_main.cpp]: the main loop, its arguments,
                          and the guarantees to feed, viewer and after a crash.
    CsvReader, CsvProps, CsvPrices
                          [csv_reader.hpp] with [getline], [stod] and [stoull]; which
                          bars it reads; and the orders drawn from them.
    Generators, Connection, FeedHandler, FeedProps
                          the random orders (the random engine is the class [Random]),
                          the handshake with the shared region, [feed_handler.cpp].
    ReportNames, MarketViewer
                          [execution_report.cpp], [market_viewer.cpp].
    Pipeline, PipelineProps, ViewerProps, PipelineRuns
                          feed, engine process and viewer together: the three programs
                          simulate the processes of EngineProcess, and what follows.
    Printing, ProgramOutput, ProgramSummaries
                          what the programs write, character by character: decimal and
                          fixed-point numbers, [printf] calls as lists of [Piece]s; the
                          viewer's lines, the replay tool's report, the drivers' books;
                          banners, summaries and the tables of [benchmark.hpp].
    FuzzTarget, ReplayTool, CleanupTool
                          [fuzz_matching_engine.cpp], [journal_replay_main.cpp],
                          [cleanup_shared_memory.cpp].
    IngressDriver, PartitionedMain
                          [stats] and the producer threads in front of the partitioned
                          engine; [partitioned_matching_main.cpp].
    MpmcMain, MpmcMainProps
                          [mpmc_matching_main.cpp].
    BenchmarkPartitioned, BenchmarkOrderBook
                          [benchmark_partitioned.cpp], [benchmark_order_book.cpp].
    Timing                [timestamp.hpp], [timestamp.cpp].
    Channel, BenchmarkQueues, BenchmarkIpc
                          the promise of a queue between two threads (class [Channel]),
                          kept by the ring and by [MutexQueue]; [benchmark_spsc.cpp],
                          [benchmark_ipc.cpp] with its set-up and clean-up.

    ** What the theorems show

    Engine.  Every session of well-typed commands - any orders, cancels, limit and
    kill-switch changes - runs to completion without a failed [assert] or undefined
    behaviour, and yields the trades, reports and state of the abstract market
    ([session_refines_market]); the audit never fails ([session_audits_clean]).
    From the refinement: price-time priority, conservation of quantity, exactness
    of the fill-or-kill preflight, all-or-nothing, inertness of rejections,
    post-only and immediate orders, gapless numbering, ids never reused, exact
    cancels, the kill switch and the cap on active orders.

    Journal.  Whatever the kernel does to the writes and whenever the writer stops,
    a replay reproduces the acknowledged commands and nothing else; a cut file
    replays its whole records, a changed byte is detected, reopening continues the
    numbering or refuses; and a command refused because [fdatasync] failed is
    replayed nevertheless.

    Queues.  The SPSC ring delivers in order with stale counter reads and without
    data races; the MPMC queue is a bounded FIFO that loses no wake-up.

    Engines under threads.  Each symbol of the partitioned engine is one sequential
    engine in queue order, for every schedule, and refines the market; idleness
    means drained; [waitUntilIdle] can nevertheless miss its wake-up.  Whenever
    [shutdown] is called, every future becomes ready with the result of its own command
    or with its rejection, every worker is joined and every queue empty
    ([every_future_resolves]), and no promise is set twice ([promise_set_once]).  The
    sharded
    engine serialises each symbol in lock order, but its trade log can show trades
    out of execution order.

    Engine process.  Feed, engine and viewer exchange every message exactly once
    and in order; killed at any point, the journal restores what was applied, and a
    restart continues there.  No descriptor or mapping of [SharedMemoryRegion]
    leaks.

    Programs.  Whatever the schedule of feed, engine and viewer, a viewer that exits
    has shown exactly what the abstract market does on a prefix of the feed's plan
    ([pipeline_shows_market]); none of the three ever faults, and the viewer
    terminates once the engine has ([viewer_terminates]); the feed only sends typed,
    valid messages.  The engine can nevertheless exit with a message left in its ring.
    The fuzz target returns 0 on every input and the replay tool returns on every
    file.  Every schedule of the partitioned driver drains and validates
    ([partitioned_main_passes]), and every schedule of the MPMC driver comes to its
    summary with every order applied once ([mpmc_main_completes]).

    Output.  The text the viewer writes determines the trades, reports and book lines it
    shows ([viewer_output_readable]), the replay tool's report determines the recovered
    book ([replay_report_readable]); tables and summaries can be read back likewise, a
    printed price parses to itself ([printable_round_trip]), and a printed [double] is the
    nearest decimal ([print_fixed_nearest]).

    Data.  The CSV reader returns the bars of the rows of its file, or what the first bad
    number throws ([csv_reads_rows]); the orders of the real-data feed lie between the
    low and the high of their day, to the tick, through decimal conversion and the
    floating-point product ([csv_orders_in_their_day]).

    Benchmarks.  All runs of the partitioned benchmark drain and validate; the order-book
    benchmark never faults and every order is accepted unless the walk of its prices
    reaches zero; the throughput and ping-pong runs end with every message delivered in
    order; between processes the parent spins for ever if the child cannot start
    ([ipc_throughput_outcome]).  Whatever call fails, they lose no mapping, and a run that
    took place leaves neither descriptors nor the file behind ([ipc_cleans_up]).

    Statistics.  The ranks and indices computed in floating point are the exact
    integers around the real product, so the histogram's percentiles are bounds for
    the nearest rank; the benchmark's are not the nearest rank its comment promises.
    Threads that record at the same time lose nothing ([histogram_threads_exact]).

    ** Bounds

    The matching loop runs on a bound of one more than the number of resting orders
    ([match_fuel]); every iteration but the last removes a maker, so the refinement
    shows it is enough.  The journal's loops run on the file length ([scan_fuel])
    and on the script of system-call outcomes that stands for the kernel; scripts
    are arguments, and theorems that promise a result ask that the script moves
    enough bytes ([steady], [transfers]).  Sessions are bounded by 2^32 commands
    ([max_resting]): it keeps the 64-bit counters and the cached level totals from
    wrapping.  The queues are unbounded in time: their counters wrap.  The theorems on
    percentiles are for up to 2^40 samples, where a count is an exact [double].  Printing
    a number runs on one more than its binary logarithm: dividing by ten more than halves.

    ** Modelling decisions

    Unsigned arithmetic wraps, signed overflow is a fault.  An enum field read from
    bytes keeps values that are not enumerators.  Critical sections under a mutex
    are atomic steps; everything between them interleaves.  Memory orders are those
    of the source: the SPSC model lets acquire loads return stale values, and the histogram
    relaxed loads any value so far.  A failed attempt of a spinning thread is no step.  Clock
    readings, outcomes of system calls and random draws are arguments.

    ** Not modelled

    Sleeping, allocation failure and failures to start a thread; what the clock shows (an
    argument or a choice of a step; times are printed from [double] arguments); messages
    on [stderr] and the usage texts; the engine behind [std::mt19937_64] and its
    distributions, which are the classes [Random] and [UnitReal]; a read error of an
    opened CSV file.  The signal handler is its flag, set at any time.  What remains of the
    sources are declarations, accessors of single fields, deleted copy operations, static
    assertions and memory layout ([alignas], padding). *)

From stdpp Require Export base tactics numbers list gmap sorting.
From Stdlib Require Import Wf_nat.
From Stdlib Require Export ZArith Lia.

#[local] Open Scope Z_scope.

(** * Faults and the error monad

    Every operation that can reach a failed [assert], undefined behaviour of
    the language or of a standard container, or (for loops that are given an
    iteration bound) the bound itself returns a [result]. *)

Inductive fault : Type :=
| AssertFailed
| UndefinedBehaviour
| OutOfFuel.

Inductive result (A : Type) : Type :=
| Ok (a : A)
| Fault (f : fault).
Arguments Ok {A} a.
Arguments Fault {A} f.

#[export] Instance fault_eq_dec : EqDecision fault.
Proof. solve_decision. Defined.
#[export] Instance result_eq_dec `{EqDecision A} : EqDecision (result A).
Proof. solve_decision. Defined.

#[export] Instance result_ret : MRet result := fun A a => Ok a.
#[export] Instance result_bind : MBind result := fun A B k m =>
  match m with Ok a => k a | Fault f => Fault f end.
#[export] Instance result_fmap : FMap result := fun A B k m =>
  match m with Ok a => Ok (k a) | Fault f => Fault f end.

(** A computation that returns has returned at every step. *)
Lemma bind_Ok {A B} (m : result A) (k : A -> result B) (b : B) :
  m ≫= k = Ok b <-> exists a, m = Ok a /\ k a = Ok b.
Proof. destruct m as [a|f]; cbn; [|naive_solver]. split; [eauto|by intros (? & [= <-] & ?)]. Qed.

(** [assert(b)]. *)
Definition assert (b : bool) : result unit :=
  if b then Ok tt else Fault AssertFailed.

(** A value the standard requires to exist: [None] is undefined behaviour. *)
Definition defined {A} (o : option A) : result A :=
  match o with Some a => Ok a | None => Fault UndefinedBehaviour end.

(** * Machine integers

    Unsigned arithmetic wraps; signed arithmetic out of range is undefined. *)

Definition u8 (z : Z) : Z := z mod 2 ^ 8.
Definition u16 (z : Z) : Z := z mod 2 ^ 16.
Definition u32 (z : Z) : Z := z mod 2 ^ 32.
Definition u64 (z : Z) : Z := z mod 2 ^ 64.

Definition i64 (z : Z) : result Z :=
  if bool_decide (- 2 ^ 63 <= z < 2 ^ 63) then Ok z else Fault UndefinedBehaviour.

(** [std::bit_cast] between [int64_t] and [uint64_t]. *)
Definition bits_of_i64 (z : Z) : Z := z mod 2 ^ 64.
Definition i64_of_bits (z : Z) : Z := if z <? 2 ^ 63 then z else z - 2 ^ 64.

Definition is_u8 (z : Z) : Prop := 0 <= z < 2 ^ 8.
Definition is_u32 (z : Z) : Prop := 0 <= z < 2 ^ 32.
Definition is_u64 (z : Z) : Prop := 0 <= z < 2 ^ 64.
Definition is_i64 (z : Z) : Prop := - 2 ^ 63 <= z < 2 ^ 63.

Definition UINT32_MAX : Z := 2 ^ 32 - 1.
Definition UINT64_MAX : Z := 2 ^ 64 - 1.
Definition INT64_MAX : Z := 2 ^ 63 - 1.
Definition INT64_MIN : Z := - 2 ^ 63.

Create HintDb word.
#[export] Hint Unfold is_u8 is_u32 is_u64 is_i64 : word.

Lemma u32_small z : is_u32 z -> u32 z = z.
Proof. apply Z.mod_small. Qed.
Lemma u64_small z : is_u64 z -> u64 z = z.
Proof. apply Z.mod_small. Qed.
Lemma u64_range z : is_u64 (u64 z).
Proof. apply Z.mod_pos_bound. lia. Qed.
Lemma u32_range z : is_u32 (u32 z).
Proof. apply Z.mod_pos_bound. lia. Qed.
Lemma u8_range z : is_u8 (u8 z).
Proof. apply Z.mod_pos_bound. lia. Qed.

Lemma u64_add_l a b : u64 (u64 a + b) = u64 (a + b).
Proof. apply Zplus_mod_idemp_l. Qed.
Lemma u64_sub_l a b : u64 (u64 a - b) = u64 (a - b).
Proof. apply Zminus_mod_idemp_l. Qed.

Lemma i64_ok z : is_i64 z -> i64 z = Ok z.
Proof. intros. unfold i64. by rewrite bool_decide_true. Qed.

#[export] Hint Resolve u64_range u32_range u8_range : word.
Global Arguments u8 : simpl never.
Global Arguments u16 : simpl never.
Global Arguments u32 : simpl never.
Global Arguments u64 : simpl never.

(** Arithmetic with the range predicates unfolded. *)
Ltac range := unfold is_u8, is_u32, is_u64, is_i64 in *; lia.

(** A bitwise or stays within a power of two. *)
Lemma lor_range n a b : 0 <= n -> 0 <= a < 2 ^ n -> 0 <= b < 2 ^ n -> 0 <= Z.lor a b < 2 ^ n.
Proof.
  intros Hn Ha Hb. assert (0 <= Z.lor a b) as H0 by (apply Z.lor_nonneg; lia). split; [done|].
  destruct (decide (Z.lor a b = 0)) as [->|Hz]; [lia|]. apply Z.log2_lt_pow2; [lia|].
  assert (forall x, 0 <= x < 2 ^ n -> Z.log2 x < n \/ x = 0) as Hlog.
  { intros x Hx. destruct (decide (x = 0)); [by right|left; apply Z.log2_lt_pow2; lia]. }
  destruct (Hlog a Ha) as [H1| ->]; [destruct (Hlog b Hb) as [H2| ->]|].
  - rewrite Z.log2_lor by lia. lia.
  - by rewrite Z.lor_0_r.
  - rewrite Z.lor_0_l in *. destruct (Hlog b Hb); lia.
Qed.

(** * Sums over lists *)

Section sums.
Context {A : Type} (f : A -> Z).

Definition sum (l : list A) : Z := foldr (fun x acc => f x + acc) 0 l.

Lemma sum_nil : sum [] = 0.
Proof. done. Qed.
Lemma sum_cons x l : sum (x :: l) = f x + sum l.
Proof. done. Qed.
Lemma sum_app l1 l2 : sum (l1 ++ l2) = sum l1 + sum l2.
Proof. induction l1 as [|x l1 IH]; [done|]. rewrite <- app_comm_cons, !sum_cons. lia. Qed.
Lemma sum_nonneg l : Forall (fun x => 0 <= f x) l -> 0 <= sum l.
Proof. induction 1; rewrite ?sum_nil, ?sum_cons; lia. Qed.
Lemma sum_zero l : Forall (fun x => f x = 0) l -> sum l = 0.
Proof. induction 1 as [|x l Hx _ IH]; [done|]. rewrite sum_cons. lia. Qed.
Lemma sum_bound k l :
  Forall (fun x => f x <= k) l -> sum l <= k * Z.of_nat (length l).
Proof.
  induction 1; rewrite ?sum_nil, ?sum_cons; cbn [length]; [lia|].
  rewrite Nat2Z.inj_succ. lia.
Qed.
Lemma sum_perm l1 l2 : l1 ≡ₚ l2 -> sum l1 = sum l2.
Proof. induction 1; rewrite ?sum_cons; lia. Qed.
End sums.

Lemma sum_fmap {A B} (g : A -> B) (f : B -> Z) l : sum f (g <$> l) = sum (f ∘ g) l.
Proof. induction l as [|x l IH]; [done|]. by rewrite fmap_cons, !sum_cons, IH. Qed.

Create Rewrite HintDb sums.
#[export] Hint Rewrite @sum_nil @sum_cons @sum_app : sums.
Global Arguments sum : simpl never.

(** One element replaced. *)
Lemma sum_insert {A} (f : A -> Z) (l : list A) k x y :
  l !! k = Some x -> sum f (<[k := y]> l) = sum f l - f x + f y.
Proof.
  intros Hk. pose proof (lookup_lt_Some _ _ _ Hk) as Hlt. rewrite insert_take_drop by done.
  rewrite <- (take_drop_middle l k x Hk) at 3. rewrite !sum_app, !sum_cons. lia.
Qed.

Lemma elem_of_insert {A} (l : list A) k x y : x ∈ <[k := y]> l -> x = y \/ x ∈ l.
Proof.
  intros [i Hi]%list_elem_of_lookup. destruct (decide (i = k)) as [->|Hne].
  - left. destruct (decide (k < length l)%nat) as [Hl|Hl].
    + rewrite list_lookup_insert_eq in Hi by done. by injection Hi.
    + apply lookup_lt_Some in Hi. rewrite length_insert in Hi. lia.
  - right. rewrite list_lookup_insert_ne in Hi by done. by eapply list_elem_of_lookup_2.
Qed.

Lemma bind_insert {A B} (f : A -> list B) (l : list A) k x y :
  l !! k = Some x -> exists rest, l ≫= f ≡ₚ f x ++ rest /\ <[k := y]> l ≫= f ≡ₚ f y ++ rest.
Proof.
  intros Hk. exists ((take k l ++ drop (S k) l) ≫= f). pose proof (lookup_lt_Some _ _ _ Hk) as Hlt.
  rewrite <- (take_drop_middle l k x Hk) at 1. rewrite insert_take_drop by done.
  rewrite !bind_app, !bind_cons, !(Permutation_app_swap_app _ (f _)). done.
Qed.

(** * Lists *)

Lemma StronglySorted_app_iff {A} (R : A -> A -> Prop) l1 l2 :
  StronglySorted R (l1 ++ l2) <->
  StronglySorted R l1 /\ StronglySorted R l2 /\
  (forall x y, x ∈ l1 -> y ∈ l2 -> R x y).
Proof.
  induction l1 as [|a l1 IH]; cbn.
  - split; [intros ?; repeat split; [constructor|done|set_solver]|tauto].
  - split.
    + intros [Hs Hf]%StronglySorted_inv. apply IH in Hs as (H1 & H2 & H3).
      rewrite Forall_app in Hf. destruct Hf as [Hf1 Hf2].
      repeat split; [by constructor|done|].
      intros x y [->|Hx]%elem_of_cons Hy; [|by apply H3].
      by eapply Forall_forall in Hf2.
    + intros ([Hs Hf]%StronglySorted_inv & H2 & H3).
      constructor.
      * apply IH. repeat split; [done|done|]. intros; apply H3; set_solver.
      * apply Forall_app; split; [done|].
        apply Forall_forall. intros; apply H3; set_solver.
Qed.

Section filters.
Context {A : Type} (P : A -> Prop) `{!forall x, Decision (P x)}.

Lemma filter_all l : Forall P l -> filter P l = l.
Proof. induction 1; [done|]. rewrite filter_cons_True by done. by f_equal. Qed.

Lemma filter_none l : Forall (fun x => ~ P x) l -> filter P l = [].
Proof. induction 1; [done|]. by rewrite filter_cons_False. Qed.
End filters.

Lemma filter_same {A} (P Q : A -> Prop) `{!forall x, Decision (P x), !forall x, Decision (Q x)} l :
  Forall (fun x => P x <-> Q x) l -> filter P l = filter Q l.
Proof.
  induction 1 as [|x l Hx _ IH]; [done|]. rewrite !filter_cons, IH.
  repeat case_decide; (done || tauto).
Qed.

(** * Lists split into classes *)

Section classes.
Context {A : Type} (f : A -> nat).

Definition class (i : nat) (l : list A) : list A := filter (fun x => f x = i) l.

Lemma class_app i l1 l2 : class i (l1 ++ l2) = class i l1 ++ class i l2.
Proof. apply filter_app. Qed.
Lemma class_here x : class (f x) [x] = [x].
Proof. unfold class. by rewrite filter_cons_True. Qed.
Lemma class_other i x : f x <> i -> class i [x] = [].
Proof. intros. unfold class. by rewrite filter_cons_False. Qed.

Lemma others_step (P : nat -> Prop) `{!forall n, Decision (P n)} n l :
  length (filter (fun x => P (f x) /\ (f x < S n)%nat) l)
  = (length (filter (fun x => P (f x) /\ (f x < n)%nat) l)
     + if decide (P n) then length (class n l) else 0)%nat.
Proof.
  induction l as [|x l IH]; [by case_decide|]. unfold class in *. rewrite !filter_cons. revert IH.
  assert ((f x < S n)%nat <-> (f x < n)%nat \/ f x = n) by lia.
  destruct (decide (f x = n)) as [E|]; [rewrite E in *|];
    repeat case_decide; cbn [length]; intros; (lia || tauto || (exfalso; intuition lia)).
Qed.

Lemma filter_bounded (P : nat -> Prop) `{!forall n, Decision (P n)} n l :
  (max_list (f <$> l) < n)%nat ->
  filter (fun x => P (f x)) l = filter (fun x => P (f x) /\ (f x < n)%nat) l.
Proof.
  intros Hn. apply filter_same, Forall_forall. intros x Hx.
  enough (f x < n)%nat by tauto.
  eapply Nat.le_lt_trans; [|exact Hn]. apply max_list_elem_of_le. by apply list_elem_of_fmap_2.
Qed.

Lemma others_le (P : nat -> Prop) `{!forall n, Decision (P n)} l k :
  (forall i, length (class i l) <= length (class i k))%nat ->
  (length (filter (fun x => P (f x)) l) <= length (filter (fun x => P (f x)) k))%nat.
Proof.
  intros Hc. set (n := S (max_list (f <$> l) + max_list (f <$> k))).
  rewrite (filter_bounded P n l), (filter_bounded P n k) by (unfold n; lia).
  induction n as [|n IH]; [|rewrite !others_step; specialize (Hc n); case_decide; lia].
  rewrite (filter_none _ l); [cbn; lia|]. apply Forall_true. lia.
Qed.

Lemma class_split i l :
  length l = (length (class i l) + length (filter (fun x => f x <> i) l))%nat.
Proof.
  unfold class. induction l as [|x l IH]; [done|]. rewrite !filter_cons.
  repeat case_decide; cbn [length]; (lia || done).
Qed.

Lemma class_total_le l k :
  (forall i, length (class i l) <= length (class i k))%nat -> (length l <= length k)%nat.
Proof.
  intros Hc. pose proof (others_le (fun _ => True) l k Hc) as H.
  by rewrite !filter_all in H by (by apply Forall_true).
Qed.

(** A list that is pointwise below another and as long has the same classes. *)
Lemma classes_tight l k :
  (forall i, length (class i l) <= length (class i k))%nat -> length k = length l ->
  forall i, length (class i l) = length (class i k).
Proof.
  intros Hc Hlen i. pose proof (others_le (fun n => n <> i) l k Hc) as Ho.
  rewrite (class_split i l), (class_split i k) in Hlen. specialize (Hc i). lia.
Qed.
End classes.
Global Arguments class : simpl never.

(** * Scripted runs

    Concrete runs of a step relation: [act] performs one scripted action if it is
    enabled, and what every action preserves holds at the end. *)

Section scripted.
Context {S A : Type} (act : S -> A -> option S).

Fixpoint play (s : S) (script : list A) : option S :=
  match script with
  | [] => Some s
  | a :: script => s ← act s a; play s script
  end.

Definition played (s : S) (script : list A) : S := default s (play s script).

Lemma played_preserves (R : S -> Prop) script : forall s,
  (forall s a s', R s -> act s a = Some s' -> R s') -> R s -> R (played s script).
Proof.
  intros s Hact Hs. unfold played. destruct (play s script) as [s'|] eqn:E; [|done]. cbn.
  revert s Hs E. induction script as [|a script IH]; intros s Hs; cbn; [by intros [= <-]|].
  intros (s1 & Ha & Hp)%bind_Some. eapply IH; [|exact Hp]. by eapply Hact.
Qed.
End scripted.

(** * Inevitability

    [P] holds at some point of every run from [s]: while it does not hold some step
    is possible, and no run goes on for ever without it. *)

Section inevitable.
Context {S : Type} (step : S -> S -> Prop) (P : S -> Prop).

Inductive inevitably (s : S) : Prop :=
| inevitably_now : P s -> inevitably s
| inevitably_later s' : step s s' -> (forall s', step s s' -> inevitably s') -> inevitably s.

Lemma inevitably_by (I : S -> Prop) :
  well_founded (fun s' s => step s s') ->
  (forall s s', I s -> step s s' -> I s') -> (forall s, I s -> P s \/ exists s', step s s') ->
  forall s, I s -> inevitably s.
Proof.
  intros Hwf Hstep Hprogress s. induction (Hwf s) as [s _ IH]. intros Hs.
  destruct (Hprogress s Hs) as [HP|[s' Hs']]; [by apply inevitably_now|].
  apply (inevitably_later s s' Hs'). intros s2 Hs2. apply IH; [done|]. by eapply Hstep.
Qed.

(** With a measure that goes down where the invariant holds. *)
Lemma inevitably_measure (I : S -> Prop) (weight : S -> nat) :
  (forall s s', I s -> step s s' -> I s' /\ (weight s' < weight s)%nat) ->
  (forall s, I s -> P s \/ exists s', step s s') ->
  forall s, I s -> inevitably s.
Proof.
  intros Hstep Hprogress s. induction s as [s IH] using (induction_ltof1 _ weight). intros Hs.
  destruct (Hprogress s Hs) as [HP|[s' Hs']]; [by apply inevitably_now|].
  apply (inevitably_later s s' Hs'). intros s2 Hs2. destruct (Hstep s s2 Hs Hs2) as [Hi Hw]. by apply IH.
Qed.
End inevitable.

Lemma inevitably_weaken {S} (step : S -> S -> Prop) (P Q : S -> Prop) s :
  (forall s, P s -> Q s) -> inevitably step P s -> inevitably step Q s.
Proof.
  intros HPQ. induction 1 as [s Hs|s s' Hs _ IH]; [by apply inevitably_now, HPQ|by eapply inevitably_later].
Qed.
