(* ===== verification/Doubles.v ===== *)
(** [double] arithmetic as the program uses it: IEEE binary64 with rounding to nearest,
    ties to even, without contraction; [long double] is the x87 extended format.

    The lemmas bound one rounding, and show what a product of a percentile and a count
    is once it is rounded to an integer. *)

From Stdlib Require Import SpecFloat.
From S2P Require Import Prelude.

#[local] Open Scope Z_scope.

Definition double : Type := spec_float.
Definition double_mul : double -> double -> double := SFmul 53 1024.
Definition double_add : double -> double -> double := SFadd 53 1024.
Definition double_div : double -> double -> double := SFdiv 53 1024.
(** An integer converted to [double]; [m * 2 ^ e] in general. *)
Definition double_of (m e : Z) : double := binary_normalize 53 1024 m e false.

(** The constant [num / den] of the source, the double nearest to it. *)
Definition double_literal (num den : Z) : double := double_div (double_of num 0) (double_of den 0).

Definition long_double : Type := spec_float.
Definition long_add : long_double -> long_double -> long_double := SFadd 64 16384.
Definition long_div : long_double -> long_double -> long_double := SFdiv 64 16384.
Definition long_of (m : Z) : long_double := binary_normalize 64 16384 m 0 false.
Definition double_of_long (d : long_double) : double :=
  match d with
  | S754_finite s m e => binary_normalize 53 1024 (cond_Zopp s (Z.pos m)) e s
  | d => d
  end.

(** Towards zero and upwards; infinities and NaN have no integer. *)
Definition truncate (d : double) : option Z :=
  match d with
  | S754_zero _ => Some 0
  | S754_finite s m e =>
    let a := if 0 <=? e then Z.pos m * 2 ^ e else Z.pos m / 2 ^ (- e) in
    Some (if s then - a else a)
  | _ => None
  end.
Definition ceil (d : double) : option Z :=
  match d with
  | S754_zero _ => Some 0
  | S754_finite s m e =>
    let a := cond_Zopp s (Z.pos m) in
    Some (if 0 <=? e then a * 2 ^ e else - (- a / 2 ^ (- e)))
  | _ => None
  end.

(** [static_cast] to an integer type that cannot represent the value is undefined. *)
Definition int64_of_double (d : double) : result Z :=
  z ← defined (truncate d); if bool_decide (is_i64 z) then Ok z else Fault UndefinedBehaviour.
Definition uint32_of_double (d : double) : result Z :=
  z ← defined (truncate d); if bool_decide (is_u32 z) then Ok z else Fault UndefinedBehaviour.
Definition uint64_of_double (d : double) : result Z :=
  z ← defined (truncate d); if bool_decide (is_u64 z) then Ok z else Fault UndefinedBehaviour.

Lemma int64_of_double_range d z : int64_of_double d = Ok z -> is_i64 z.
Proof. unfold int64_of_double. intros (a & _ & H)%bind_Ok. case_bool_decide; [by injection H as <-|done]. Qed.

Lemma uint32_of_double_range d z : uint32_of_double d = Ok z -> is_u32 z.
Proof. unfold uint32_of_double. intros (a & _ & H)%bind_Ok. case_bool_decide; [by injection H as <-|done]. Qed.

(** * One rounding *)

Lemma digits2_log2 p : Z.pos (digits2_pos p) = Z.log2 (Z.pos p) + 1.
Proof.
  assert (forall q, digits2_pos q = Pos.size q) as Hsize by (induction q as [q IH|q IH|]; cbn; by rewrite ?IH).
  destruct p as [p|p|]; cbn; rewrite ?Hsize; lia.
Qed.

Lemma iter_pos_nat {A} (f : A -> A) n : forall x, SpecFloat.iter_pos f n x = Nat.iter (Pos.to_nat n) f x.
Proof.
  induction n as [n IH|n IH|]; intros x; cbn [SpecFloat.iter_pos]; [| |done].
  - change (f x) with (Nat.iter 1 f x). rewrite !IH, <- !Nat.iter_add, Pos2Nat.inj_xI. f_equal. lia.
  - rewrite !IH, <- Nat.iter_add, Pos2Nat.inj_xO. f_equal. lia.
Qed.

(** The record after [k] shifts of [M]: quotient, the last bit shifted out, and
    whether a bit below it was set. *)
Record shifted (M : Z) (k : nat) (mrs : shr_record) : Prop := {
  sh_m : shr_m mrs = M / 2 ^ Z.of_nat k;
  sh_rs : Z.b2z (shr_r mrs) * 2 ^ Z.of_nat k <= 2 * (M mod 2 ^ Z.of_nat k);
  sh_r : shr_r mrs = false -> 2 * (M mod 2 ^ Z.of_nat k) < 2 ^ Z.of_nat k;
  sh_s : shr_s mrs = false -> 2 * (M mod 2 ^ Z.of_nat k) = Z.b2z (shr_r mrs) * 2 ^ Z.of_nat k
}.

Lemma shr_1_half mrs : 0 <= shr_m mrs ->
  shr_m (shr_1 mrs) = shr_m mrs / 2 /\ shr_r (shr_1 mrs) = Z.odd (shr_m mrs) /\ shr_s (shr_1 mrs) = shr_r mrs || shr_s mrs.
Proof.
  destruct mrs as [[|[p|p|]|p] r s]; cbn [shr_m]; intros Hm; cbn [shr_1 shr_m shr_r shr_s Z.odd]; try lia; split_and!; try done.
  - rewrite Pos2Z.inj_xI. apply Z.div_unique with 1; lia.
  - rewrite Pos2Z.inj_xO. apply Z.div_unique with 0; lia.
Qed.

Lemma shifted_iter M k : 0 <= M -> shifted M k (Nat.iter k shr_1 (Build_shr_record M false false)).
Proof.
  intros HM. induction k as [|k IH].
  - split; cbn [Nat.iter nat_rect shr_m shr_r shr_s Z.of_nat]; rewrite ?Z.pow_0_r, ?Z.mod_1_r, ?Z.div_1_r; cbn; lia.
  - rewrite Nat.iter_succ. destruct IH as [Hm Hrs Hr Hs]. set (mrs := Nat.iter k _ _) in *.
    set (P := 2 ^ Z.of_nat k) in *. assert (0 < P) by (apply Z.pow_pos_nonneg; lia).
    destruct (shr_1_half mrs) as (E1 & E2 & E3); [rewrite Hm; by apply Z.div_pos|].
    assert (2 ^ Z.of_nat (S k) = P * 2) as HP by (rewrite Nat2Z.inj_succ, Z.pow_succ_r by lia; lia).
    assert (M mod (P * 2) = M mod P + P * Z.b2z (Z.odd (M / P))) as Hmod.
    { rewrite Z.rem_mul_r by lia. f_equal. f_equal. rewrite Zmod_odd. by destruct (Z.odd _). }
    pose proof (Z.mod_pos_bound M P ltac:(lia)).
    split; rewrite ?E1, ?E2, ?E3, ?Hm, HP, ?Hmod.
    + by rewrite Z.div_div by lia.
    + destruct (Z.odd _); cbn; lia.
    + intros ->. cbn. lia.
    + intros [Er Es]%orb_false_iff. specialize (Hs Es). rewrite Er in Hs. cbn in Hs. lia.
Qed.

(** Rounding to nearest errs by at most half a unit in the last place. *)
Lemma round_half M k mrs :
  0 <= M -> shifted M k mrs ->
  let m := round_nearest_even (shr_m mrs) (loc_of_shr_record mrs) in
  2 * Z.abs (m * 2 ^ Z.of_nat k - M) <= 2 ^ Z.of_nat k /\ M / 2 ^ Z.of_nat k <= m <= M / 2 ^ Z.of_nat k + 1.
Proof.
  intros HM [Hm Hrs Hr Hs]. set (P := 2 ^ Z.of_nat k) in *. assert (0 < P) by (apply Z.pow_pos_nonneg; lia).
  pose proof (Z.mod_pos_bound M P ltac:(lia)). pose proof (Z.div_mod M P ltac:(lia)) as HMP.
  destruct mrs as [m r s]. cbn in *. subst m. set (q := M / P) in *.
  destruct r, s; cbn [loc_of_shr_record round_nearest_even Z.b2z] in *.
  - split; [|lia]. rewrite HMP at 1. lia.
  - specialize (Hs eq_refl). destruct (Z.even q); (split; [|lia]); rewrite HMP at 1; lia.
  - specialize (Hr eq_refl). split; [|lia]. rewrite HMP at 1. lia.
  - specialize (Hs eq_refl). split; [|lia]. rewrite HMP at 1. lia.
Qed.

Lemma fexp_normal e : -1021 <= e -> fexp 53 1024 e = e - 53.
Proof. unfold fexp, emin. lia. Qed.

Lemma log2_between a n : 0 <= n -> 2 ^ n <= a < 2 ^ (n + 1) -> Z.log2 a = n.
Proof. intros Hn Ha. apply Z.log2_unique; [done|]. by rewrite <- Z.add_1_r. Qed.

(** Shifting a mantissa of [53 + s] bits right by [s], when no exponent is extreme. *)
Lemma shr_fexp_bits M e (s : nat) :
  -1000 <= e -> (s <= 100)%nat -> 2 ^ (52 + Z.of_nat s) <= M < 2 ^ (53 + Z.of_nat s) ->
  shr_fexp 53 1024 M e loc_Exact = (Nat.iter s shr_1 (Build_shr_record M false false), e + Z.of_nat s).
Proof.
  intros He Hs HM. assert (0 < M) by (pose proof (Z.pow_pos_nonneg 2 (52 + Z.of_nat s)); lia).
  assert (Z.log2 M = 52 + Z.of_nat s) as Hlog.
  { apply log2_between; [lia|]. by replace (52 + Z.of_nat s + 1) with (53 + Z.of_nat s) by lia. }
  unfold shr_fexp. destruct M as [|p|p]; [done| |done]. cbn [Zdigits2 shr_record_of_loc].
  rewrite digits2_log2, Hlog, fexp_normal by lia.
  replace (52 + Z.of_nat s + 1 + e - 53 - e) with (Z.of_nat s) by lia.
  destruct s as [|s]; [cbn; by rewrite Z.add_0_r|]. change (Z.of_nat (S s)) with (Z.pos (Pos.of_succ_nat s)).
  cbn [shr]. by rewrite iter_pos_nat, SuccNat2Pos.id_succ.
Qed.

(** A mantissa of [53 + s] bits rounded to 53: [X] is the value, in units of [2 ^ e]. *)
Lemma round_to_53 M e (s : nat) :
  -1000 <= e <= 800 -> (s <= 99)%nat -> 2 ^ (52 + Z.of_nat s) <= M < 2 ^ (53 + Z.of_nat s) ->
  exists X m e2, binary_round_aux 53 1024 false M e loc_Exact = S754_finite false m e2
    /\ 2 ^ 52 <= Z.pos m < 2 ^ 53 /\ (2 ^ Z.of_nat s | X) /\ 2 * Z.abs (X - M) <= 2 ^ Z.of_nat s
    /\ e <= e2 <= e + Z.of_nat s + 1 /\ Z.pos m * 2 ^ (e2 - e) = X.
Proof.
  intros He Hs HM. assert (0 <= M) as HM0 by (pose proof (Z.pow_pos_nonneg 2 (52 + Z.of_nat s)); lia).
  unfold binary_round_aux. rewrite (shr_fexp_bits M e s) by (done || lia).
  destruct (round_half M s _ HM0 (shifted_iter M s HM0)) as [Hhalf Hm].
  set (m := round_nearest_even _ _) in *. set (P := 2 ^ Z.of_nat s) in *.
  assert (0 < P) by (apply Z.pow_pos_nonneg; lia).
  assert (2 ^ 52 <= M / P < 2 ^ 53) as HMP.
  { rewrite !Z.pow_add_r in HM by lia. fold P in HM. split.
    - apply Z.div_le_lower_bound; lia.
    - apply Z.div_lt_upper_bound; lia. }
  exists (m * P). destruct (decide (m = 2 ^ 53)) as [Em|Em].
  - rewrite (shr_fexp_bits m (e + Z.of_nat s) 1) by (rewrite ?Em; cbn; lia). rewrite Em. cbn [Nat.iter nat_rect].
    rewrite (proj2 (Z.leb_le _ _)) by lia. eexists _, _. split; [reflexivity|].
    split_and!; [done|done|by exists (2 ^ 53)|by rewrite <- Em|lia|lia|].
    replace (e + Z.of_nat s + Z.of_nat 1 - e) with (1 + Z.of_nat s) by lia. rewrite Z.pow_add_r by lia. fold P. lia.
  - rewrite (shr_fexp_bits m (e + Z.of_nat s) 0) by (cbn; lia). cbn [Nat.iter nat_rect shr_m].
    destruct m as [|p|p] eqn:E; [lia| |lia]. rewrite (proj2 (Z.leb_le _ _)) by lia. eexists _, _. split; [reflexivity|].
    split_and!; [lia|lia|by exists (Z.pos p)|done|lia|lia|].
    replace (e + Z.of_nat s + Z.of_nat 0 - e) with (Z.of_nat s) by lia. done.
Qed.

(** The integers around a double that is [X / 2 ^ t]. *)
Lemma integer_parts m e X t :
  e < 0 -> - t <= e -> Z.pos m * 2 ^ (e + t) = X ->
  truncate (S754_finite false m e) = Some (X / 2 ^ t) /\ ceil (S754_finite false m e) = Some (- (- X / 2 ^ t)).
Proof.
  intros He Ht <-. unfold truncate, ceil. rewrite (proj2 (Z.leb_gt 0 e)) by lia. cbn [cond_Zopp].
  assert (2 ^ t = 2 ^ (- e) * 2 ^ (e + t)) as -> by (rewrite <- Z.pow_add_r by lia; f_equal; lia).
  assert (0 < 2 ^ (e + t)) by (apply Z.pow_pos_nonneg; lia). assert (0 < 2 ^ - e) by (apply Z.pow_pos_nonneg; lia).
  split; [by rewrite Z.div_mul_cancel_r by lia|].
  rewrite <- Z.mul_opp_l. by rewrite Z.div_mul_cancel_r by lia.
Qed.

Lemma iter_xO p k : Z.pos (Pos.iter xO p k) = Z.pos p * 2 ^ Z.pos k.
Proof.
  induction k as [|k IH] using Pos.peano_ind; [cbn; lia|].
  rewrite Pos.iter_succ, Pos2Z.inj_xO, IH, Pos2Z.inj_succ, Z.pow_succ_r by lia. lia.
Qed.

(** A count of at most 53 bits converts exactly. *)
Lemma double_of_small n :
  0 < n < 2 ^ 53 -> exists N d, double_of n 0 = S754_finite false N (d - 53) /\ 1 <= d <= 53
    /\ 2 ^ (d - 1) <= n < 2 ^ d /\ Z.pos N = n * 2 ^ (53 - d).
Proof.
  intros Hn. destruct n as [|p|p]; [lia| |lia]. pose proof (Z.log2_spec (Z.pos p) ltac:(lia)) as Hlog.
  set (d := Z.log2 (Z.pos p) + 1). assert (Z.log2 (Z.pos p) < 53) as Hd by (apply Z.log2_lt_pow2; lia).
  pose proof (Z.log2_nonneg (Z.pos p)). rewrite <- Z.add_1_r in Hlog. fold d in Hlog.
  unfold double_of, binary_normalize, binary_round. rewrite digits2_log2, Z.add_0_r. fold d.
  rewrite fexp_normal by lia. unfold shl_align. rewrite Z.sub_0_r.
  assert (exists N, match d - 53 with Z.neg k => (Pos.iter xO p k, d - 53) | _ => (p, 0) end = (N, d - 53)
    /\ Z.pos N = Z.pos p * 2 ^ (53 - d)) as (N & -> & HN).
  { destruct (d - 53) as [|k|k] eqn:E; [exists p; split; [done|]|lia|].
    - replace (53 - d) with 0 by lia. lia.
    - eexists. split; [done|]. replace (53 - d) with (Z.pos k) by lia.
      apply iter_xO. }
  exists N, d. split; [|split; [lia|split; [|done]]]; [|by replace (d - 1) with (Z.log2 (Z.pos p)) by lia].
  assert (2 ^ 52 <= Z.pos N < 2 ^ 53) as Hb.
  { assert (2 ^ 52 = 2 ^ Z.log2 (Z.pos p) * 2 ^ (53 - d)) as -> by (rewrite <- Z.pow_add_r by lia; f_equal; lia).
    assert (2 ^ 53 = 2 ^ d * 2 ^ (53 - d)) as -> by (rewrite <- Z.pow_add_r by lia; f_equal; lia).
    assert (0 < 2 ^ (53 - d)) by (apply Z.pow_pos_nonneg; lia). rewrite HN. nia. }
  unfold binary_round_aux. rewrite (shr_fexp_bits (Z.pos N) (d - 53) 0) by (cbn; lia).
  cbn [Nat.iter nat_rect shr_m loc_of_shr_record round_nearest_even].
  rewrite Z.add_0_r, (shr_fexp_bits (Z.pos N) (d - 53) 0) by (cbn; lia). cbn [Nat.iter nat_rect shr_m].
  rewrite Z.add_0_r, (proj2 (Z.leb_le _ _)) by lia. done.
Qed.

(** * A percentile of a count *)

(** The double nearest to [num / den], as a mantissa of 53 bits with exponent -53; it is
    not above, and closer than half a unit in the last place of any product. *)
Record percentile (num den mp : Z) : Prop := {
  pc_den : 0 < den <= 1000;
  pc_mantissa : 2 ^ 52 <= mp < 2 ^ 53;
  pc_below : 0 <= num * 2 ^ 53 - den * mp;
  pc_half : 2 * (num * 2 ^ 53 - den * mp) <= den;
  pc_relative : (num * 2 ^ 53 - den * mp) * 2 ^ 54 <= mp * den
}.

#[export] Instance percentile_dec num den mp : Decision (percentile num den mp).
Proof.
  refine (cast_if (decide ((0 < den <= 1000) /\ (2 ^ 52 <= mp < 2 ^ 53) /\ 0 <= num * 2 ^ 53 - den * mp
    /\ 2 * (num * 2 ^ 53 - den * mp) <= den /\ (num * 2 ^ 53 - den * mp) * 2 ^ 54 <= mp * den)));
    [constructor; tauto | intros []; tauto].
Defined.

(** A multiple of [S] near enough to [M]. *)
Lemma nearest_multiple S X Y M : 0 < S -> (S | X) -> (S | Y) -> 2 * Z.abs (X - M) <= S -> 2 * Z.abs (Y - M) < S -> X = Y.
Proof.
  intros HS [x ->] [y ->] Hx Hy. assert (Z.abs ((x - y) * S) < 1 * S) as H by (rewrite Z.mul_sub_distr_r; lia).
  rewrite Z.abs_mul, (Z.abs_eq S) in H by lia. apply Z.mul_lt_mono_pos_r in H; [|done]. f_equal. lia.
Qed.

Section product.
Context (num den mp n N P S X : Z).
Hypothesis Hpc : percentile num den mp.
Hypothesis HP : 2 ^ 66 <= P.
Hypothesis HN : 2 ^ 52 <= N < 2 ^ 53.
Hypothesis HNP : N * 2 ^ 53 = n * P.
Hypothesis HSP : (S | P).
Hypothesis HS : S = 2 ^ 52 /\ mp * N < 2 ^ 105 \/ S = 2 ^ 53.
Hypothesis HX : (S | X).
Hypothesis Hhalf : 2 * Z.abs (X - mp * N) <= S.

Lemma scaled_product : den * (mp * N) = num * n * P - (num * 2 ^ 53 - den * mp) * N.
Proof using HNP. rewrite <- Z.mul_assoc, <- HNP. ring. Qed.

Lemma small_error : 2 * ((num * 2 ^ 53 - den * mp) * N) < den * S.
Proof using Hpc HN HS.
  clear HNP Hhalf HX HSP HP. destruct Hpc as [Hd Hm Hb Hh Hr]. set (delta := num * 2 ^ 53 - den * mp) in *.
  destruct HS as [[-> HM]| ->]; [|nia].
  assert (delta * 2 ^ 54 * N <= mp * den * N) by (apply Z.mul_le_mono_nonneg_r; lia).
  assert (mp * den * N < 2 ^ 105 * den) by nia. lia.
Qed.

Lemma exact_product k : num * n = den * k -> X = k * P.
Proof using All.
  intros Hk. pose proof scaled_product as Hs. pose proof small_error as He. destruct Hpc as [Hd Hm Hb Hh Hr].
  rewrite Hk in Hs. apply (nearest_multiple S X (k * P) (mp * N)); [lia|done|by apply Z.divide_mul_r|done|].
  set (delta := num * 2 ^ 53 - den * mp) in *.
  assert (den * (k * P - mp * N) = delta * N) as Hdiff by lia.
  assert (0 <= delta * N) by (apply Z.mul_nonneg_nonneg; lia).
  assert (0 <= k * P - mp * N) by (apply (Z.mul_nonneg_cancel_l den); lia).
  rewrite Z.abs_eq by done. apply (Z.mul_lt_mono_pos_l den); lia.
Qed.

Lemma between_product k r : num * n = den * k + r -> 0 < r < den -> k * P < X < (k + 1) * P.
Proof using All.
  intros Hk Hrr. pose proof scaled_product as Hs. pose proof small_error as He. destruct Hpc as [Hd Hm Hb Hh Hr].
  rewrite Hk in Hs. set (delta := num * 2 ^ 53 - den * mp) in *.
  assert (0 <= delta * N) by (apply Z.mul_nonneg_nonneg; lia).
  assert (den * S <= 1000 * 2 ^ 53) by (apply Z.mul_le_mono_nonneg; lia).
  assert (Z.abs (den * (X - mp * N)) <= den * S) as Ha.
  { rewrite Z.abs_mul, (Z.abs_eq den) by lia. apply Z.mul_le_mono_nonneg_l; lia. }
  assert (den * (X - k * P) = den * (X - mp * N) + r * P - delta * N) as E1 by lia.
  assert (den * ((k + 1) * P - X) = (den - r) * P + delta * N - den * (X - mp * N)) as E2 by lia.
  assert (1 * P <= r * P) by (apply Z.mul_le_mono_nonneg_r; lia).
  assert (1 * P <= (den - r) * P) by (apply Z.mul_le_mono_nonneg_r; lia).
  assert (0 < X - k * P) by (apply (Z.mul_pos_cancel_l den); lia).
  assert (0 < (k + 1) * P - X) by (apply (Z.mul_pos_cancel_l den); lia). lia.
Qed.

Lemma rounded_product : X / P = num * n / den /\ - (- X / P) = - (- (num * n) / den).
Proof using All.
  pose proof exact_product as Hex. pose proof between_product as Hbt. destruct Hpc as [Hd _ _ _ _].
  pose proof (Z.div_mod (num * n) den ltac:(lia)) as Hdm. pose proof (Z.mod_pos_bound (num * n) den ltac:(lia)) as Hmod.
  set (k := num * n / den) in *. destruct (decide ((num * n) mod den = 0)) as [E|E].
  - rewrite E, Z.add_0_r in Hdm. rewrite (Hex k Hdm), Hdm, (Z.mul_comm den k), <- !Z.mul_opp_l, !Z.div_mul by lia. done.
  - destruct (Hbt k _ Hdm ltac:(lia)) as [Hlo Hhi]. split.
    + symmetry. apply Z.div_unique with (X - k * P); lia.
    + f_equal. transitivity (- (k + 1)).
      * symmetry. apply Z.div_unique with ((k + 1) * P - X); lia.
      * apply Z.div_unique with (den - (num * n) mod den); lia.
Qed.
End product.

(** [static_cast<size_t>(p * n)] and [std::ceil(p * n)] are the integers around the
    exact product: no rounding error is ever visible. *)
Lemma percentile_of_count num den mp n :
  percentile num den (Z.pos mp) -> 0 < n < 2 ^ 40 ->
  let x := double_mul (S754_finite false mp (-53)) (double_of n 0) in
  truncate x = Some (num * n / den) /\ ceil x = Some (- (- (num * n) / den)).
Proof.
  intros Hpc Hn x. destruct (double_of_small n) as (N & d & HdN & Hd & Hnd & HN); [lia|].
  assert (d <= 40) as Hd40.
  { destruct (Z.le_gt_cases d 40); [done|]. pose proof (Z.pow_le_mono_r 2 40 (d - 1)). lia. }
  assert (2 ^ 52 <= Z.pos N < 2 ^ 53) as HNb.
  { assert (2 ^ 52 = 2 ^ (d - 1) * 2 ^ (53 - d)) as -> by (rewrite <- Z.pow_add_r by lia; f_equal; lia).
    assert (2 ^ 53 = 2 ^ d * 2 ^ (53 - d)) as -> by (rewrite <- Z.pow_add_r by lia; f_equal; lia).
    assert (0 < 2 ^ (53 - d)) by (apply Z.pow_pos_nonneg; lia). rewrite HN. nia. }
  unfold x, double_mul. rewrite HdN. cbn [SFmul xorb]. rewrite Pos2Z.inj_mul.
  set (M := Z.pos mp * Z.pos N). pose proof (pc_mantissa _ _ _ Hpc) as Hmp.
  assert (2 ^ 104 <= M < 2 ^ 106) as HM.
  { unfold M. split; [change (2 ^ 104) with (2 ^ 52 * 2 ^ 52)|change (2 ^ 106) with (2 ^ 53 * 2 ^ 53)]; nia. }
  assert (exists s : nat, (s = 52%nat /\ M < 2 ^ 105 \/ s = 53%nat /\ 2 ^ 105 <= M)) as [s Hs].
  { destruct (Z.lt_ge_cases M (2 ^ 105)); [by exists 52%nat; left|by exists 53%nat; right]. }
  destruct (round_to_53 M (-53 + (d - 53)) s) as (X & m & e2 & -> & _ & HX & Hhalf & He2 & HmX); [lia|lia| |].
  { destruct Hs as [[-> ?]|[-> ?]]; cbn; lia. }
  assert (2 ^ (106 - d) = 2 ^ Z.of_nat s * 2 ^ (106 - d - Z.of_nat s)) as Hpow.
  { rewrite <- Z.pow_add_r by lia. f_equal. lia. }
  destruct (integer_parts m e2 X (106 - d)) as [-> ->]; [lia|lia|by rewrite <- HmX; do 2 f_equal; lia|].
  destruct (rounded_product num den (Z.pos mp) n (Z.pos N) (2 ^ (106 - d)) (2 ^ Z.of_nat s) X Hpc) as [-> ->]; try done.
  - apply Z.pow_le_mono_r; lia.
  - rewrite HN, <- Z.mul_assoc, <- Z.pow_add_r by lia. do 2 f_equal. lia.
  - rewrite Hpow. apply Z.divide_factor_l.
  - destruct Hs as [[-> ?]|[-> ?]]; [by left|by right].
Qed.
