(* ===== verification/DoubleBounds.v ===== *)
(** Error bounds for [double] arithmetic, on real numbers: the result of an operation on
    positive normal numbers is within a relative error of the exact result. *)

From Stdlib Require Import SpecFloat Reals Lra.
From S2P Require Import Prelude.
From S2P Require Import Doubles.

#[local] Open Scope R_scope.

Definition bp (e : Z) : R := powerRZ 2 e.

Lemma bp_pos e : 0 < bp e.
Proof. apply powerRZ_lt. lra. Qed.

Lemma bp_add a b : bp (a + b) = bp a * bp b.
Proof. apply powerRZ_add. lra. Qed.

Lemma bp_nonneg n : (0 <= n)%Z -> bp n = IZR (2 ^ n).
Proof.
  intros Hn. unfold bp. destruct n as [|p|p]; [done| |lia]. cbn. by rewrite pow_IZR, positive_nat_Z.
Qed.

Lemma bp_le a b : (a <= b)%Z -> bp a <= bp b.
Proof.
  intros Hab. replace b with (a + (b - a))%Z by lia. rewrite bp_add, (bp_nonneg (b - a)) by lia.
  pose proof (bp_pos a). assert (1 <= IZR (2 ^ (b - a))); [|nra].
  apply IZR_le. pose proof (Z.pow_pos_nonneg 2 (b - a)). lia.
Qed.

Lemma bp_lt a b : (a < b)%Z -> bp a < bp b.
Proof.
  intros Hab. pose proof (bp_le (a + 1) b ltac:(lia)) as H. rewrite bp_add in H. pose proof (bp_pos a).
  change (bp 1) with (2 * 1) in H. lra.
Qed.

(** [x] is a positive normal number of value [v]. *)
Definition holds (x : double) (v : R) : Prop :=
  exists m e, x = S754_finite false m e /\ (2 ^ 52 <= Z.pos m < 2 ^ 53)%Z /\ v = IZR (Z.pos m) * bp e.

Lemma holds_pos x v : holds x v -> 0 < v.
Proof.
  intros (m & e & _ & Hm & ->). pose proof (bp_pos e). assert (0 < IZR (Z.pos m)) by (apply IZR_lt; lia). nra.
Qed.

(** The exponent follows from the size. *)
Lemma holds_exponent m e lo hi :
  (2 ^ 52 <= Z.pos m < 2 ^ 53)%Z -> bp lo <= IZR (Z.pos m) * bp e <= bp hi -> (lo - 53 <= e <= hi - 52)%Z.
Proof.
  intros Hm Hv. pose proof (bp_pos e) as He.
  assert (bp 52 <= IZR (Z.pos m) < bp 53) as Hb.
  { rewrite !bp_nonneg by lia. split; [apply IZR_le|apply IZR_lt]; lia. }
  split.
  - destruct (Z.le_gt_cases (lo - 53) e) as [|Hlt]; [done|exfalso].
    assert (bp (53 + e) <= bp lo) by (apply bp_le; lia). rewrite bp_add in *. nra.
  - destruct (Z.le_gt_cases e (hi - 52)) as [|Hlt]; [done|exfalso].
    assert (bp hi < bp (52 + e)) by (apply bp_lt; lia). rewrite bp_add in *. nra.
Qed.

(** * One rounding *)

Definition near (eps v w : R) : Prop := Rabs (v - w) <= eps * w.

Lemma round_close M e (s : nat) :
  (-1000 <= e <= 800)%Z -> (s <= 99)%nat -> (2 ^ (52 + Z.of_nat s) <= M < 2 ^ (53 + Z.of_nat s))%Z ->
  exists v, holds (binary_round_aux 53 1024 false M e loc_Exact) v /\ near (bp (-53)) v (IZR M * bp e).
Proof.
  intros He Hs HM. destruct (round_to_53 M e s He Hs HM) as (X & m & e2 & -> & Hm & _ & Hhalf & He2 & HX).
  exists (IZR (Z.pos m) * bp e2). split; [by exists m, e2|].
  assert (IZR (Z.pos m) * bp e2 = IZR X * bp e) as ->.
  { rewrite <- HX, mult_IZR, <- bp_nonneg by lia. replace (bp e2) with (bp (e2 - e) * bp e); [lra|].
    rewrite <- bp_add. f_equal. lia. }
  unfold near. rewrite <- Rmult_minus_distr_r, Rabs_mult. pose proof (bp_pos e).
  rewrite (Rabs_pos_eq (bp e)) by lra. rewrite <- minus_IZR, <- abs_IZR.
  assert (IZR (Z.abs (X - M)) <= bp (-53) * IZR M); [|nra].
  apply (Rmult_le_reg_l (bp 53)); [apply bp_pos|]. rewrite <- Rmult_assoc, <- bp_add.
  change (bp (53 + -53)) with 1. rewrite Rmult_1_l, bp_nonneg, <- mult_IZR by lia. apply IZR_le.
  rewrite !Z.pow_add_r in HM by lia. change (2 ^ 53)%Z with (2 * 2 ^ 52)%Z. lia.
Qed.

(** Any positive integer times a power of two. *)
Lemma normalize_close M e :
  (0 < M < 2 ^ 150)%Z -> (-900 <= e <= 700)%Z ->
  exists v, holds (binary_normalize 53 1024 M e false) v /\ near (bp (-53)) v (IZR M * bp e).
Proof.
  intros HM He. destruct M as [|p|p]; [lia| |lia]. pose proof (Z.log2_spec (Z.pos p) ltac:(lia)) as Hlog.
  set (d := (Z.log2 (Z.pos p) + 1)%Z). rewrite <- Z.add_1_r in Hlog. fold d in Hlog.
  assert (Z.log2 (Z.pos p) < 150)%Z by (apply Z.log2_lt_pow2; lia). pose proof (Z.log2_nonneg (Z.pos p)).
  cbn [binary_normalize]. unfold binary_round. rewrite digits2_log2. fold d. rewrite fexp_normal by lia. unfold shl_align.
  replace (d + e - 53 - e)%Z with (d - 53)%Z by lia. destruct (d - 53)%Z as [|k|k] eqn:E.
  - apply (round_close (Z.pos p) e 0); [lia|lia|]. cbn. replace (Z.log2 (Z.pos p)) with 52%Z in Hlog by lia.
    replace d with 53%Z in Hlog by lia. done.
  - apply (round_close (Z.pos p) e (Pos.to_nat k)); [lia|lia|]. rewrite positive_nat_Z.
    replace (52 + Z.pos k)%Z with (Z.log2 (Z.pos p)) by lia. by replace (53 + Z.pos k)%Z with d by lia.
  - assert (2 ^ 52 = 2 ^ Z.log2 (Z.pos p) * 2 ^ Z.pos k)%Z as H52 by (rewrite <- Z.pow_add_r by lia; f_equal; lia).
    assert (2 ^ 53 = 2 ^ d * 2 ^ Z.pos k)%Z as H53 by (rewrite <- Z.pow_add_r by lia; f_equal; lia).
    assert (0 < 2 ^ Z.pos k)%Z by (apply Z.pow_pos_nonneg; lia).
    destruct (round_close (Z.pos (Pos.iter xO p k)) (d + e - 53) 0) as (v & Hv & Hc); [lia|lia| |].
    { rewrite iter_xO. change (52 + Z.of_nat 0)%Z with 52%Z. change (53 + Z.of_nat 0)%Z with 53%Z.
      rewrite H52, H53. nia. }
    exists v. split; [done|]. replace (IZR (Z.pos p) * bp e) with (IZR (Z.pos (Pos.iter xO p k)) * bp (d + e - 53)); [done|].
    rewrite iter_xO, mult_IZR, <- bp_nonneg by lia. replace e with (Z.pos k + (d + e - 53))%Z at 2 by lia.
    rewrite bp_add. lra.
Qed.

Lemma double_of_close n : (0 < n < 2 ^ 64)%Z -> exists v, holds (double_of n 0) v /\ near (bp (-53)) v (IZR n).
Proof.
  intros Hn. destruct (normalize_close n 0) as (v & Hv & Hc); [lia|lia|]. exists v. split; [done|].
  by rewrite Rmult_1_r in Hc.
Qed.

(** * Operations *)

Lemma mul_close x y v w :
  holds x v -> holds y w -> bp (-300) <= v <= bp 300 -> bp (-300) <= w <= bp 300 ->
  exists z, holds (double_mul x y) z /\ near (bp (-53)) z (v * w).
Proof.
  intros (m & e & -> & Hm & ->) (n & f & -> & Hn & ->) Hv Hw.
  pose proof (holds_exponent _ _ _ _ Hm Hv). pose proof (holds_exponent _ _ _ _ Hn Hw).
  unfold double_mul. cbn [SFmul xorb].
  assert (2 ^ 104 <= Z.pos (m * n) < 2 ^ 106)%Z as HM.
  { rewrite Pos2Z.inj_mul. change (2 ^ 104)%Z with (2 ^ 52 * 2 ^ 52)%Z. change (2 ^ 106)%Z with (2 ^ 53 * 2 ^ 53)%Z. nia. }
  replace (IZR (Z.pos m) * bp e * (IZR (Z.pos n) * bp f)) with (IZR (Z.pos (m * n)) * bp (e + f)).
  2: { rewrite Pos2Z.inj_mul, mult_IZR, bp_add. lra. }
  destruct (Z.lt_ge_cases (Z.pos (m * n)) (2 ^ 105)).
  - apply (round_close _ _ 52); [lia|lia|]. change (52 + Z.of_nat 52)%Z with 104%Z. change (53 + Z.of_nat 52)%Z with 105%Z. lia.
  - apply (round_close _ _ 53); [lia|lia|]. change (52 + Z.of_nat 53)%Z with 105%Z. change (53 + Z.of_nat 53)%Z with 106%Z. lia.
Qed.

Lemma shl_align_value m e g : (g <= e)%Z -> Z.pos (fst (shl_align m e g)) = (Z.pos m * 2 ^ (e - g))%Z.
Proof.
  intros Hk. unfold shl_align. replace (g - e)%Z with (- (e - g))%Z by lia.
  destruct (e - g)%Z as [|p|p] eqn:E; cbn [Z.opp fst]; [by rewrite Z.pow_0_r, Z.mul_1_r|apply iter_xO|lia].
Qed.

Lemma add_close x y v w :
  holds x v -> holds y w -> bp (-20) <= v <= bp 40 -> bp (-20) <= w <= bp 40 ->
  exists z, holds (double_add x y) z /\ near (bp (-53)) z (v + w).
Proof.
  intros (m & e & -> & Hm & ->) (n & f & -> & Hn & ->) Hv Hw.
  pose proof (holds_exponent _ _ _ _ Hm Hv). pose proof (holds_exponent _ _ _ _ Hn Hw).
  unfold double_add. cbn [SFadd cond_Zopp]. set (g := Z.min e f).
  rewrite !shl_align_value by lia. set (k := (e - g)%Z). set (l := (f - g)%Z).
  assert (e = g + k /\ f = g + l /\ 0 <= k <= 61 /\ 0 <= l <= 61)%Z as (He & Hf & Hk & Hl) by lia.
  assert (0 < 2 ^ k <= 2 ^ 61)%Z by (split; [apply Z.pow_pos_nonneg; lia|apply Z.pow_le_mono_r; lia]).
  assert (0 < 2 ^ l <= 2 ^ 61)%Z by (split; [apply Z.pow_pos_nonneg; lia|apply Z.pow_le_mono_r; lia]).
  destruct (normalize_close (Z.pos m * 2 ^ k + Z.pos n * 2 ^ l) g) as (z & Hz & Hc); [|lia|].
  { change (2 ^ 150)%Z with (2 * (2 ^ 53 * 2 ^ 61) * 2 ^ 35)%Z. nia. }
  exists z. split; [done|]. rewrite plus_IZR, !mult_IZR, <- !bp_nonneg in Hc by lia.
  rewrite He, Hf, !bp_add.
  replace (IZR (Z.pos m) * (bp g * bp k) + IZR (Z.pos n) * (bp g * bp l))
    with ((IZR (Z.pos m) * bp k + IZR (Z.pos n) * bp l) * bp g) by lra. done.
Qed.

(** The quotient [q] with the location of the remainder, as [4 q + c] shifted twice. *)
Lemma record_of_location q (l : location) : (0 <= q)%Z ->
  exists c, (0 <= c < 4)%Z /\ shr_record_of_loc q l = Nat.iter 2 shr_1 (Build_shr_record (4 * q + c) false false)
    /\ match l with loc_Exact => c = 0 | loc_Inexact Lt => c = 1 | loc_Inexact Eq => c = 2 | loc_Inexact Gt => c = 3 end%Z.
Proof.
  intros Hq. exists (match l with loc_Exact => 0 | loc_Inexact Lt => 1 | loc_Inexact Eq => 2 | loc_Inexact Gt => 3 end)%Z.
  split; [by destruct l as [|[]]|]. split; [|by destruct l as [|[]]].
  destruct q as [|p|p]; [by destruct l as [|[]]| |lia].
  destruct l as [|[]]; cbn [shr_record_of_loc].
  - by replace (4 * Z.pos p + 0)%Z with (Z.pos p~0~0) by lia.
  - by replace (4 * Z.pos p + 2)%Z with (Z.pos p~1~0) by lia.
  - by replace (4 * Z.pos p + 1)%Z with (Z.pos p~0~1) by lia.
  - by replace (4 * Z.pos p + 3)%Z with (Z.pos p~1~1) by lia.
Qed.

Lemma shr_fexp_location q e l (s : nat) c :
  (-998 <= e)%Z -> (s <= 90)%nat -> (2 ^ (52 + Z.of_nat s) <= q < 2 ^ (53 + Z.of_nat s))%Z ->
  shr_record_of_loc q l = Nat.iter 2 shr_1 (Build_shr_record (4 * q + c) false false) ->
  (0 <= c < 4)%Z ->
  shr_fexp 53 1024 q e l = shr_fexp 53 1024 (4 * q + c) (e - 2) loc_Exact.
Proof.
  intros He Hs Hq Hr Hc. rewrite (shr_fexp_bits (4 * q + c) (e - 2) (s + 2)); [|lia|lia|].
  2: { replace (52 + Z.of_nat (s + 2))%Z with (2 + (52 + Z.of_nat s))%Z by lia.
       replace (53 + Z.of_nat (s + 2))%Z with (2 + (53 + Z.of_nat s))%Z by lia.
       rewrite (Z.pow_add_r 2 2 (52 + Z.of_nat s)), (Z.pow_add_r 2 2 (53 + Z.of_nat s)) by lia. lia. }
  assert (Z.log2 q = 52 + Z.of_nat s)%Z as Hlog.
  { apply log2_between; [lia|]. by replace (52 + Z.of_nat s + 1)%Z with (53 + Z.of_nat s)%Z by lia. }
  pose proof (Z.pow_pos_nonneg 2 (52 + Z.of_nat s)).
  unfold shr_fexp. rewrite Hr. destruct q as [|p|p]; [lia| |lia]. cbn [Zdigits2].
  rewrite digits2_log2, Hlog, fexp_normal by lia.
  replace (52 + Z.of_nat s + 1 + e - 53 - e)%Z with (Z.of_nat s) by lia.
  replace (e - 2 + Z.of_nat (s + 2))%Z with (e + Z.of_nat s)%Z by lia.
  rewrite Nat.iter_add. destruct s as [|s]; [cbn [Z.of_nat shr]; by rewrite Z.add_0_r|].
  change (Z.of_nat (S s)) with (Z.pos (Pos.of_succ_nat s)). cbn [shr].
  by rewrite iter_pos_nat, SuccNat2Pos.id_succ.
Qed.

Lemma round_location q e l (s : nat) c :
  (-998 <= e)%Z -> (s <= 90)%nat -> (2 ^ (52 + Z.of_nat s) <= q < 2 ^ (53 + Z.of_nat s))%Z ->
  shr_record_of_loc q l = Nat.iter 2 shr_1 (Build_shr_record (4 * q + c) false false) -> (0 <= c < 4)%Z ->
  binary_round_aux 53 1024 false q e l = binary_round_aux 53 1024 false (4 * q + c) (e - 2) loc_Exact.
Proof. intros. unfold binary_round_aux. by erewrite shr_fexp_location. Qed.

Lemma location_of_remainder B r :
  (0 < B)%Z -> (0 <= r < B)%Z ->
  new_location B r = if (r =? 0)%Z then loc_Exact else loc_Inexact (2 * r ?= B)%Z.
Proof.
  intros HB Hr. unfold new_location, new_location_even, new_location_odd.
  destruct (Z.even B) eqn:E; (destruct (Z.eqb_spec r 0); [done|]); [done|]. f_equal.
  assert (2 * r <> B)%Z as Hne by (intros <-; by rewrite Z.even_mul in E).
  destruct (Z.compare_spec (2 * r + 1) B), (Z.compare_spec (2 * r) B); (done || lia).
Qed.

(** A quotient with two more bits is off by at most one unit of the last. *)
Lemma quarter_bits A B q c e :
  (0 < B)%Z -> (Z.abs ((4 * q + c) * B - 4 * A) <= B)%Z -> (2 ^ 52 * B <= A)%Z ->
  let w := IZR (4 * q + c) * bp (e - 2) in
  let u := IZR A / IZR B * bp e in
  Rabs (w - u) <= bp (e - 2) /\ bp 54 * bp (e - 2) <= u.
Proof.
  intros HB Habs HA w u.
  assert (0 < IZR B) as HBR by (apply IZR_lt; lia). pose proof (bp_pos (e - 2)) as Hbp.
  assert (bp e = 4 * bp (e - 2)) as Hbe.
  { replace e with (2 + (e - 2))%Z at 1 by lia. rewrite bp_add. change (bp 2) with (2 * (2 * 1)). lra. }
  assert (u = IZR (4 * A) / IZR B * bp (e - 2)) as Hu by (unfold u; rewrite Hbe, mult_IZR; field; lra).
  rewrite Hu. split.
  - unfold w. replace (IZR (4 * q + c) * bp (e - 2) - IZR (4 * A) / IZR B * bp (e - 2))
      with (IZR ((4 * q + c) * B - 4 * A) / IZR B * bp (e - 2)) by (rewrite minus_IZR, mult_IZR; field; lra).
    unfold Rdiv. rewrite !Rabs_mult, Rabs_inv, (Rabs_pos_eq (bp _)), (Rabs_pos_eq (IZR B)), <- abs_IZR by lra.
    apply IZR_le in Habs. apply (Rmult_le_reg_l (IZR B)); [done|].
    replace (IZR B * (IZR (Z.abs ((4 * q + c) * B - 4 * A)) * / IZR B * bp (e - 2)))
      with (IZR (Z.abs ((4 * q + c) * B - 4 * A)) * bp (e - 2)) by (field; lra). nra.
  - apply Rmult_le_compat_r; [lra|]. apply (Rmult_le_reg_r (IZR B)); [done|].
    replace (IZR (4 * A) / IZR B * IZR B) with (IZR (4 * A)) by (field; lra).
    rewrite bp_nonneg, <- mult_IZR by lia. apply IZR_le. lia.
Qed.

(** A quotient of 53 or 54 bits. *)
Lemma quotient_close A B e :
  (0 < B)%Z -> (2 ^ 52 <= A / B < 2 ^ 54)%Z -> (-900 <= e <= 700)%Z ->
  exists v, holds (binary_round_aux 53 1024 false (A / B) e (new_location B (A mod B))) v
    /\ near (bp (-51)) v (IZR A / IZR B * bp e).
Proof.
  intros HB Hq He. set (q := (A / B)%Z) in *. set (r := (A mod B)%Z).
  pose proof (Z.mod_pos_bound A B HB) as Hr. pose proof (Z.div_mod A B ltac:(lia)) as HA. fold q r in Hr, HA.
  destruct (record_of_location q (new_location B r) ltac:(lia)) as (c & Hc & Hrec & Hloc).
  assert (exists s : nat, (s <= 1)%nat /\ (2 ^ (52 + Z.of_nat s) <= q < 2 ^ (53 + Z.of_nat s))%Z) as (s & Hs & Hqs).
  { destruct (Z.lt_ge_cases q (2 ^ 53)); [exists 0%nat|exists 1%nat]; cbn; lia. }
  rewrite (round_location q e _ s c) by (done || lia).
  destruct (round_close (4 * q + c) (e - 2) (s + 2)) as (v & Hv & Hclose); [lia|lia| |].
  { replace (52 + Z.of_nat (s + 2))%Z with (2 + (52 + Z.of_nat s))%Z by lia.
    replace (53 + Z.of_nat (s + 2))%Z with (2 + (53 + Z.of_nat s))%Z by lia.
    rewrite (Z.pow_add_r 2 2 (52 + Z.of_nat s)), (Z.pow_add_r 2 2 (53 + Z.of_nat s)) by lia. lia. }
  exists v. split; [done|].
  assert (Z.abs ((4 * q + c) * B - 4 * A) <= B)%Z as Habs.
  { rewrite HA. replace ((4 * q + c) * B - 4 * (B * q + r))%Z with (c * B - 4 * r)%Z by lia.
    rewrite location_of_remainder in Hloc by lia.
    destruct (Z.eqb_spec r 0); [lia|]. destruct (Z.compare_spec (2 * r) B); subst c; lia. }
  assert (2 ^ 52 * B <= A)%Z as HAB by (assert (2 ^ 52 * B <= q * B)%Z by (apply Z.mul_le_mono_nonneg_r; lia); lia).
  destruct (quarter_bits A B q c e HB Habs HAB) as [Hwu Hlow].
  set (w := IZR (4 * q + c) * bp (e - 2)) in *. set (u := IZR A / IZR B * bp e) in *. pose proof (bp_pos (e - 2)) as Hbp.
  unfold near in *. assert (bp (e - 2) <= bp (-54) * u) as Hsmall.
  { apply (Rmult_le_reg_l (bp 54)); [apply bp_pos|]. rewrite <- Rmult_assoc, <- (bp_add 54 (-54)). change (bp (54 + -54)) with 1. lra. }
  pose proof (bp_pos (-53)). pose proof (bp_pos (-54)).
  assert (bp (-53) = 2 * bp (-54)) by (change (-53)%Z with (1 + -54)%Z; rewrite bp_add; change (bp 1) with (2 * 1); lra).
  assert (bp (-51) = 8 * bp (-54)) by (change (-51)%Z with (3 + -54)%Z; rewrite bp_add; change (bp 3) with (2 * (2 * (2 * 1))); lra).
  assert (bp (-54) <= 1) by (change 1 with (bp 0); apply bp_le; lia).
  pose proof (Rabs_triang (v - w) (w - u)) as Ht. replace (v - w + (w - u)) with (v - u) in Ht by lra.
  assert (w <= u + bp (-54) * u) by (pose proof (Rle_abs (w - u)); lra).
  assert (0 <= u) by (pose proof (bp_pos 54); nra). nra.
Qed.

(** The core of division, when the quotient has at most 53 bits before its point. *)
Lemma core_close m1 e1 m2 e2 :
  (0 < m1)%Z -> (0 < m2)%Z -> (Z.log2 m1 - Z.log2 m2 <= 52)%Z -> (-800 <= Z.log2 m1 + e1 - (Z.log2 m2 + e2) <= 700)%Z ->
  let '(q, e, l) := SFdiv_core_binary 53 1024 m1 e1 m2 e2 in
  exists v, holds (binary_round_aux 53 1024 false q e l) v
    /\ near (bp (-51)) v (IZR m1 * bp e1 / (IZR m2 * bp e2)).
Proof.
  intros H1 H2 Hd He. unfold SFdiv_core_binary.
  assert (forall m, (0 < m)%Z -> Zdigits2 m = (Z.log2 m + 1)%Z) as Hdig.
  { intros [|p|p] Hp; [lia|apply digits2_log2|lia]. }
  rewrite !Hdig, fexp_normal, Z.min_l by lia. set (s := (53 - (Z.log2 m1 - Z.log2 m2))%Z).
  set (e := (Z.log2 m1 + 1 + e1 - (Z.log2 m2 + 1 + e2) - 53)%Z).
  replace (e1 - e2 - e)%Z with s by lia.
  assert (match s with Z.pos _ => Z.shiftl m1 s | Z0 => m1 | Z.neg _ => Z0 end = m1 * 2 ^ s)%Z as ->.
  { destruct s eqn:E; [lia|by rewrite Z.shiftl_mul_pow2 by lia|lia]. }
  pose proof (Z.log2_spec m1 H1) as L1. pose proof (Z.log2_spec m2 H2) as L2. rewrite <- Z.add_1_r in L1, L2.
  assert (2 ^ 52 * 2 ^ (Z.log2 m2 + 1) = 2 ^ Z.log2 m1 * 2 ^ s)%Z as E1.
  { rewrite <- !Z.pow_add_r by (try apply Z.log2_nonneg; pose proof (Z.log2_nonneg m2); lia). f_equal. lia. }
  assert (2 ^ 54 * 2 ^ Z.log2 m2 = 2 ^ (Z.log2 m1 + 1) * 2 ^ s)%Z as E2.
  { rewrite <- !Z.pow_add_r by (try apply Z.log2_nonneg; pose proof (Z.log2_nonneg m1); pose proof (Z.log2_nonneg m2); lia).
    f_equal. lia. }
  assert (0 < 2 ^ s)%Z by (apply Z.pow_pos_nonneg; lia).
  destruct (quotient_close (m1 * 2 ^ s) m2 e) as (v & Hv & Hc); [done| |lia|].
  { split.
    - apply Z.div_le_lower_bound; [done|]. assert (m2 * 2 ^ 52 <= 2 ^ 52 * 2 ^ (Z.log2 m2 + 1))%Z by lia. nia.
    - apply Z.div_lt_upper_bound; [done|]. assert (2 ^ 54 * 2 ^ Z.log2 m2 <= m2 * 2 ^ 54)%Z by lia. nia. }
  unfold Z.div, Z.modulo in Hv. destruct (Z.div_eucl _ _) as [q r].
  exists v. split; [done|].
  replace (IZR m1 * bp e1 / (IZR m2 * bp e2)) with (IZR (m1 * 2 ^ s) / IZR m2 * bp e); [done|].
  assert (0 < IZR m2) by (apply IZR_lt; lia). pose proof (bp_pos e2). pose proof (bp_pos e1).
  rewrite mult_IZR, <- bp_nonneg by lia. replace e1 with (s + e + e2)%Z by lia. rewrite !bp_add. field. lra.
Qed.

Lemma div_close x y v w :
  holds x v -> holds y w -> bp (-300) <= v <= bp 300 -> bp (-300) <= w <= bp 300 ->
  exists z, holds (double_div x y) z /\ near (bp (-51)) z (v / w).
Proof.
  intros (m & e & -> & Hm & ->) (n & f & -> & Hn & ->) Hv Hw.
  pose proof (holds_exponent _ _ _ _ Hm Hv). pose proof (holds_exponent _ _ _ _ Hn Hw).
  assert (Z.log2 (Z.pos m) = 52%Z) as Hlm by (apply log2_between; [lia|done]).
  assert (Z.log2 (Z.pos n) = 52%Z) as Hln by (apply log2_between; [lia|done]).
  pose proof (core_close (Z.pos m) e (Z.pos n) f) as Hc. unfold double_div. cbn [SFdiv xorb].
  destruct (SFdiv_core_binary _ _ _ _ _ _) as [[q g] l]. apply Hc; lia.
Qed.

(** * Integers and comparisons *)

Lemma truncate_floor x v : holds x v -> v < bp 50 -> exists z, truncate x = Some z /\ IZR z <= v < IZR z + 1 /\ (0 <= z)%Z.
Proof.
  intros (m & e & -> & Hm & ->) Hv. pose proof (bp_pos e).
  assert (e < 0)%Z as He.
  { destruct (Z.lt_ge_cases e 0) as [|Hge]; [done|exfalso]. pose proof (bp_le 0 e ltac:(lia)) as Hb. change (bp 0) with 1 in Hb.
    assert (bp 52 <= IZR (Z.pos m)) by (rewrite bp_nonneg by lia; apply IZR_le; lia).
    pose proof (bp_lt 50 52 ltac:(lia)). pose proof (bp_pos 50).
    assert (IZR (Z.pos m) * 1 <= IZR (Z.pos m) * bp e) by (apply Rmult_le_compat_l; lra). lra. }
  cbn [truncate]. rewrite (proj2 (Z.leb_gt 0 e)) by lia. eexists. split; [done|].
  assert (0 < 2 ^ (- e))%Z as Hp by (apply Z.pow_pos_nonneg; lia).
  pose proof (Z.div_mod (Z.pos m) (2 ^ - e) ltac:(lia)) as Hdm. pose proof (Z.mod_pos_bound (Z.pos m) (2 ^ - e) Hp) as Hr.
  set (q := (Z.pos m / 2 ^ - e)%Z) in *. set (r := (Z.pos m mod 2 ^ - e)%Z) in *.
  assert (bp (- e) * bp e = 1) as Hone by (rewrite <- bp_add; by replace (- e + e)%Z with 0%Z by lia).
  assert (IZR (Z.pos m) = bp (- e) * IZR q + IZR r) as HmR.
  { rewrite Hdm, plus_IZR, mult_IZR, bp_nonneg by lia. done. }
  assert (IZR (Z.pos m) * bp e = IZR q + IZR r * bp e) as ->.
  { rewrite HmR. transitivity (bp (- e) * bp e * IZR q + IZR r * bp e); [ring|]. rewrite Hone. ring. }
  assert (0 <= IZR r < bp (- e)) as Hrr by (rewrite bp_nonneg by lia; split; [apply IZR_le|apply IZR_lt]; lia).
  split; [|apply Z.div_pos; lia]. assert (IZR r * bp e < bp (- e) * bp e) by (apply Rmult_lt_compat_r; lra). nra.
Qed.

Definition one : double := double_of 1 0.
Lemma below_one x v : holds x v -> SFltb x one = true -> v <= 1.
Proof.
  intros (m & e & -> & Hm & ->). change one with (S754_finite false 4503599627370496 (-52)). unfold SFltb. cbn [SFcompare].
  destruct (Z.compare_spec e (-52)) as [->|He|He]; [| |done].
  - intros Hcmp. exfalso. assert (Z.pos m < Z.pos 4503599627370496)%Z as Hlt; [|lia].
    unfold Z.lt. cbn [Z.compare]. unfold Pos.compare. by destruct (Pos.compare_cont _ _ _).
  - intros _. assert (bp e <= bp (-53)) as Hb by (apply bp_le; lia). pose proof (bp_pos e).
    assert (IZR (Z.pos m) <= bp 53) by (rewrite bp_nonneg by lia; apply IZR_le; lia).
    assert (bp 53 * bp (-53) = 1) as <- by (by rewrite <- bp_add).
    apply Rmult_le_compat; [apply IZR_le; lia|lra|done|done].
Qed.

(** * As linear inequalities *)

Lemma bp_inverse n : (0 <= n)%Z -> bp (- n) = / IZR (2 ^ n).
Proof.
  intros Hn. pose proof (bp_pos n). rewrite <- bp_nonneg by done. apply (Rmult_eq_reg_l (bp n)); [|lra].
  rewrite <- bp_add, Rinv_r by lra. by replace (n + - n)%Z with 0%Z by lia.
Qed.

Lemma close_bounds n v w : (0 <= n)%Z -> near (bp (- n)) v w ->
  w - w / IZR (2 ^ n) <= v <= w + w / IZR (2 ^ n).
Proof.
  intros Hn. unfold near. rewrite bp_inverse by done. intros Hc.
  pose proof (Rle_abs (v - w)). pose proof (Rle_abs (- (v - w))) as Hm. rewrite Rabs_Ropp in Hm. lra.
Qed.

(** A box in which all operations are tame. *)
Lemma in_box v : / 1048576 <= v <= 1099511627776 -> bp (-20) <= v <= bp 40 /\ bp (-300) <= v <= bp 300.
Proof.
  intros Hv. pose proof (bp_le (-300) (-20) ltac:(lia)). pose proof (bp_le 40 300 ltac:(lia)).
  assert (bp (-20) = / 1048576) by (by apply (bp_inverse 20)).
  assert (bp 40 = 1099511627776) by (by apply bp_nonneg). lra.
Qed.
