(* ===== verification/OrderTypes.v ===== *)
(** Value types shared by every component: [order.hpp], [trade.hpp] and
    [execution_report.hpp].

    The three order enums ([Side], [OrderType], [TimeInForce]) have a fixed
    underlying [uint8_t] and are filled by [static_cast] from journal bytes and
    by clients, so each carries a [_raw] constructor for the values that are not
    enumerators; [OrderFlags] is used as a bit mask and stays a number. *)

From stdpp Require Import strings.
From S2P Require Import Prelude.

#[local] Open Scope Z_scope.

(** * [order.hpp] *)

Inductive Side : Type :=
| BUY
| SELL
| Side_raw (b : Z).

Inductive OrderType : Type :=
| LIMIT
| MARKET
| OrderType_raw (b : Z).

Inductive TimeInForce : Type :=
| GTC
| IOC
| FOK
| TimeInForce_raw (b : Z).

#[export] Instance Side_eq_dec : EqDecision Side.
Proof. solve_decision. Defined.
#[export] Instance OrderType_eq_dec : EqDecision OrderType.
Proof. solve_decision. Defined.
#[export] Instance TimeInForce_eq_dec : EqDecision TimeInForce.
Proof. solve_decision. Defined.

(** [static_cast<uint8_t>(e)] and [static_cast<E>(byte)]. *)
Definition byte_of_side (s : Side) : Z :=
  match s with BUY => 0 | SELL => 1 | Side_raw b => b end.
Definition side_of_byte (b : Z) : Side :=
  if b =? 0 then BUY else if b =? 1 then SELL else Side_raw b.
Definition byte_of_type (t : OrderType) : Z :=
  match t with LIMIT => 0 | MARKET => 1 | OrderType_raw b => b end.
Definition type_of_byte (b : Z) : OrderType :=
  if b =? 0 then LIMIT else if b =? 1 then MARKET else OrderType_raw b.
Definition byte_of_tif (t : TimeInForce) : Z :=
  match t with GTC => 0 | IOC => 1 | FOK => 2 | TimeInForce_raw b => b end.
Definition tif_of_byte (b : Z) : TimeInForce :=
  if b =? 0 then GTC else if b =? 1 then IOC else if b =? 2 then FOK
  else TimeInForce_raw b.

(** [enum class OrderFlags : uint8_t], a bit mask. *)
Module OrderFlags.
Definition NONE : Z := 0.
Definition POST_ONLY : Z := Z.shiftl 1 0.
Definition bit_or (lhs rhs : Z) : Z := Z.lor lhs rhs.
End OrderFlags.

Definition hasFlag (value flag : Z) : bool := negb (Z.land value flag =? 0).

Definition isValidSide (s : Side) : bool :=
  bool_decide (s = BUY) || bool_decide (s = SELL).
Definition isValidOrderType (t : OrderType) : bool :=
  bool_decide (t = LIMIT) || bool_decide (t = MARKET).
Definition isValidTimeInForce (t : TimeInForce) : bool :=
  bool_decide (t = GTC) || bool_decide (t = IOC) || bool_decide (t = FOK).

Module Order.
Record t : Type := mk {
  id : Z;
  side : Side;
  type : OrderType;
  time_in_force : TimeInForce;
  flags : Z;
  price : Z;
  quantity : Z;
  sequence : Z
}.

(** The default member initialisers. *)
Definition default : t := mk 0 BUY LIMIT GTC OrderFlags.NONE 0 0 0.

Definition with_id (i : Z) (o : t) : t :=
  mk i (side o) (type o) (time_in_force o) (flags o) (price o) (quantity o) (sequence o).
Definition with_quantity (q : Z) (o : t) : t :=
  mk (id o) (side o) (type o) (time_in_force o) (flags o) (price o) q (sequence o).
Definition with_sequence (s : Z) (o : t) : t :=
  mk (id o) (side o) (type o) (time_in_force o) (flags o) (price o) (quantity o) s.

#[global] Instance t_eq_dec : EqDecision t.
Proof. solve_decision. Defined.

(** The values the C++ field types can hold; a [_raw] enum value is one that
    is not an enumerator. *)
Record in_range (o : t) : Prop := {
  id_range : is_u64 (id o);
  side_range : side_of_byte (byte_of_side (side o)) = side o /\ is_u8 (byte_of_side (side o));
  type_range : type_of_byte (byte_of_type (type o)) = type o /\ is_u8 (byte_of_type (type o));
  tif_range : tif_of_byte (byte_of_tif (time_in_force o)) = time_in_force o
              /\ is_u8 (byte_of_tif (time_in_force o));
  flags_range : is_u8 (flags o);
  price_range : is_i64 (price o);
  quantity_range : is_u32 (quantity o);
  sequence_range : is_u64 (sequence o)
}.

#[global] Instance in_range_dec o : Decision (in_range o).
Proof.
  refine (cast_if (decide (
    is_u64 (id o) /\
    (side_of_byte (byte_of_side (side o)) = side o /\ is_u8 (byte_of_side (side o))) /\
    (type_of_byte (byte_of_type (type o)) = type o /\ is_u8 (byte_of_type (type o))) /\
    (tif_of_byte (byte_of_tif (time_in_force o)) = time_in_force o
      /\ is_u8 (byte_of_tif (time_in_force o))) /\
    is_u8 (flags o) /\ is_i64 (price o) /\ is_u32 (quantity o) /\ is_u64 (sequence o))));
    [constructor; tauto | intros []; tauto].
Defined.
End Order.

(** A raw enum value is read back as itself. *)
Ltac decode_byte :=
  repeat match goal with
  | |- context [Z.eqb ?a ?b] => destruct (Z.eqb_spec a b); cbn [byte_of_side byte_of_type byte_of_tif]
  end; split; done || range || lia.

(** The opposite side, as [processOrder] and [wouldCross] compute it. *)
Definition opposite (s : Side) : Side := if bool_decide (s = BUY) then SELL else BUY.

(** * [trade.hpp] *)

Module Trade.
Record t : Type := mk {
  trade_id : Z;
  buy_order_id : Z;
  sell_order_id : Z;
  price : Z;
  quantity : Z;
  sequence : Z
}.

#[global] Instance t_eq_dec : EqDecision t.
Proof. solve_decision. Defined.
End Trade.

(** * [execution_report.hpp] *)

Inductive CommandType : Type := NEW_ORDER | CANCEL_ORDER.

Inductive ExecutionStatus : Type :=
| REJECTED | RESTING | PARTIALLY_FILLED | FILLED | EXPIRED | CANCELED.

Inductive RejectReason : Type :=
| NONE
| INVALID_ORDER_ID
| DUPLICATE_ORDER_ID
| INVALID_SIDE
| INVALID_ORDER_TYPE
| INVALID_TIME_IN_FORCE
| INVALID_ORDER_FLAGS
| INVALID_QUANTITY
| INVALID_LIMIT_PRICE
| MARKET_ORDER_CANNOT_BE_GTC
| POST_ONLY_REQUIRES_GTC_LIMIT
| POST_ONLY_WOULD_TRADE
| FOK_NOT_FILLABLE
| RISK_KILL_SWITCH
| RISK_MAX_ORDER_QUANTITY
| RISK_PRICE_OUT_OF_RANGE
| RISK_MAX_NOTIONAL
| RISK_MAX_ACTIVE_ORDERS
| ORDER_NOT_FOUND
| INGRESS_QUEUE_FULL
| ENGINE_SHUTTING_DOWN
| JOURNAL_ERROR.

#[export] Instance CommandType_eq_dec : EqDecision CommandType.
Proof. solve_decision. Defined.
#[export] Instance ExecutionStatus_eq_dec : EqDecision ExecutionStatus.
Proof. solve_decision. Defined.
#[export] Instance RejectReason_eq_dec : EqDecision RejectReason.
Proof. solve_decision. Defined.

Module ExecutionReport.
Record t : Type := mk {
  order_id : Z;
  sequence : Z;
  command : CommandType;
  status : ExecutionStatus;
  reject_reason : RejectReason;
  reserved : Z;
  requested_quantity : Z;
  executed_quantity : Z;
  remaining_quantity : Z;
  trade_count : Z
}.

Definition default : t := mk 0 0 NEW_ORDER REJECTED NONE 0 0 0 0 0.

Definition accepted (r : t) : bool := negb (bool_decide (status r = REJECTED)).

#[global] Instance t_eq_dec : EqDecision t.
Proof. solve_decision. Defined.
End ExecutionReport.
