(* ===== verification/LevelMap.v ===== *)
(** [std::map<int64_t, V, Compare>] as the order book uses it: an association
    list kept in comparator order.  [order_book.hpp] instantiates the comparator
    with [std::greater] for bids and [std::less] for asks; everything here is
    proved for any comparator of class [Comparator].

    A map iterator is represented by its key: [std::map] iterators stay valid
    and keep denoting the same key while that key is in the map. *)

From S2P Require Import Prelude.

#[local] Open Scope Z_scope.

(** What [std::map] requires of its comparison object on [int64_t] keys. *)
Class Comparator (before : Z -> Z -> bool) : Prop := {
  before_irrefl k : before k k = false;
  before_trans a b c : before a b = true -> before b c = true -> before a c = true;
  before_total a b : a <> b -> before a b = true \/ before b a = true
}.

Definition greater (a b : Z) : bool := b <? a.
Definition less (a b : Z) : bool := a <? b.

#[export] Instance greater_comparator : Comparator greater.
Proof. unfold greater. split; lia. Qed.
#[export] Instance less_comparator : Comparator less.
Proof. unfold less. split; lia. Qed.

Section level_map.
Context {V : Type} (before : Z -> Z -> bool).
Implicit Types m : list (Z * V).

(** [find(k)]: [None] is [end()]. *)
Fixpoint find (k : Z) m : option V :=
  match m with
  | [] => None
  | (k', v) :: m' =>
    if before k k' then None else if before k' k then find k m' else Some v
  end.

(** [try_emplace(k)] with a default-constructed value [d]. *)
Fixpoint try_emplace (k : Z) (d : V) m : list (Z * V) :=
  match m with
  | [] => [(k, d)]
  | (k', v) :: m' =>
    if before k k' then (k, d) :: m
    else if before k' k then (k', v) :: try_emplace k d m' else m
  end.

(** A write through the iterator to key [k]. *)
Fixpoint update (k : Z) (f : V -> V) m : list (Z * V) :=
  match m with
  | [] => []
  | (k', v) :: m' =>
    if before k k' then m
    else if before k' k then (k', v) :: update k f m' else (k, f v) :: m'
  end.

(** [erase(it)] for the iterator to key [k]. *)
Fixpoint erase (k : Z) m : list (Z * V) :=
  match m with
  | [] => []
  | (k', v) :: m' =>
    if before k k' then m
    else if before k' k then (k', v) :: erase k m' else m'
  end.

Definition ordered m : Prop :=
  StronglySorted (fun a b => before a.1 b.1 = true) m.

#[export] Instance ordered_dec m : Decision (ordered m).
Proof. unfold ordered. apply _. Defined.

Context `{!Comparator before}.

Lemma before_asym a b : before a b = true -> before b a = false.
Proof.
  intros H. destruct (before b a) eqn:E; [|done].
  pose proof (before_trans _ _ _ H E). by rewrite before_irrefl in *.
Qed.

Lemma before_neither a b : before a b = false -> before b a = false -> a = b.
Proof.
  intros H1 H2. destruct (decide (a = b)) as [|Hne]; [done|].
  destruct (before_total _ _ Hne); congruence.
Qed.

Lemma ordered_cut k v l1 l2 :
  ordered (l1 ++ (k, v) :: l2) <->
  ordered (l1 ++ l2) /\
  (forall p, p ∈ l1 -> before p.1 k = true) /\ (forall p, p ∈ l2 -> before k p.1 = true).
Proof.
  unfold ordered. rewrite !StronglySorted_app_iff. split.
  - intros (H1 & [H2 H4]%StronglySorted_inv & H3). rewrite Forall_forall in H4.
    repeat split; [done|done| | |]; intros; [apply H3|apply (H3 _ (k, v))|apply H4]; set_solver.
  - intros ((H1 & H2 & H3) & H4 & H5). split; [done|]. split.
    + constructor; [done|]. by apply Forall_forall.
    + intros x y Hx [->|Hy]%elem_of_cons; [by apply H4|by apply H3].
Qed.

(** Operations at a key that the map holds, as list surgery. *)
Lemma cut_at k v l1 l2 :
  ordered (l1 ++ (k, v) :: l2) ->
  find k (l1 ++ (k, v) :: l2) = Some v
  /\ (forall f, update k f (l1 ++ (k, v) :: l2) = l1 ++ (k, f v) :: l2)
  /\ erase k (l1 ++ (k, v) :: l2) = l1 ++ l2.
Proof.
  rewrite ordered_cut. intros (_ & H1 & _).
  induction l1 as [|[k1 v1] l1 IH]; cbn.
  - by rewrite before_irrefl.
  - assert (before k1 k = true) as E by (apply (H1 (k1, v1)); set_solver).
    rewrite (before_asym _ _ E), E.
    destruct IH as (-> & Hu & ->); [set_solver|].
    split_and!; [done| |done]. intros f. by rewrite Hu.
Qed.

Lemma find_Some_cut k v m :
  find k m = Some v ->
  exists l1 l2, m = l1 ++ (k, v) :: l2 /\ (forall d, try_emplace k d m = m).
Proof.
  induction m as [|[k' v'] m IH]; cbn; [done|].
  destruct (before k k') eqn:E1; [done|]. destruct (before k' k) eqn:E2.
  - intros (l1 & l2 & -> & Hd)%IH. exists ((k', v') :: l1), l2.
    split; [done|]. intros d. by rewrite Hd.
  - intros [= ->]. rewrite (before_neither k k') by done. by exists [], m.
Qed.

Lemma find_None_cut k m :
  ordered m -> find k m = None ->
  exists l1 l2, m = l1 ++ l2 /\
    forall d, try_emplace k d m = l1 ++ (k, d) :: l2 /\ ordered (l1 ++ (k, d) :: l2).
Proof.
  induction m as [|[k' v'] m IH]; cbn; intros Hs Hf.
  - exists [], []. split; [done|]. intros d. split; [done|]. repeat constructor.
  - apply StronglySorted_inv in Hs as [Hs Hk]. rewrite Forall_forall in Hk.
    destruct (before k k') eqn:E1; [|destruct (before k' k) eqn:E2; [|done]].
    + exists [], ((k', v') :: m). split; [done|]. intros d. split; [done|].
      apply (ordered_cut _ _ []). split_and!; [|set_solver|].
      * constructor; [done|]. by apply Forall_forall.
      * intros p [->|Hp]%elem_of_cons; [done|]. eapply before_trans; [done|]. by apply Hk.
    + destruct (IH Hs Hf) as (l1 & l2 & -> & Hd). exists ((k', v') :: l1), l2.
      split; [done|]. intros d. destruct (Hd d) as [-> Ho]. split; [done|].
      constructor; [done|]. apply Forall_forall. intros p.
      rewrite elem_of_app, elem_of_cons. intros [|[->|]]; [|done|]; apply Hk; set_solver.
Qed.

Lemma find_Some_iff k v m : ordered m -> find k m = Some v <-> (k, v) ∈ m.
Proof.
  intros Ho. split.
  - intros (l1 & l2 & -> & _)%find_Some_cut. set_solver.
  - intros (l1 & l2 & ->)%list_elem_of_split. by apply cut_at.
Qed.

(** Erasing a key keeps the map ordered; so does a write through an iterator. *)
Lemma ordered_erase_cut k v l1 l2 :
  ordered (l1 ++ (k, v) :: l2) -> ordered (l1 ++ l2).
Proof. by intros [? _]%ordered_cut. Qed.

Lemma ordered_update_cut k v v' l1 l2 :
  ordered (l1 ++ (k, v) :: l2) -> ordered (l1 ++ (k, v') :: l2).
Proof. by rewrite !ordered_cut. Qed.
End level_map.
