(* ===== verification/PriceTime.v ===== *)
(** Price-time priority over flat lists of resting orders: the reference
    definitions the order book and the matching loop are proved to implement.

    A side of the market is the list of its resting orders, best first.  Nothing
    here mentions price levels, cached totals, node addresses or the id index. *)

From S2P Require Import Prelude.
From S2P Require Import OrderTypes.
From S2P Require Import LevelMap.

#[local] Open Scope Z_scope.

(** Which of two prices is served first on a side. *)
Definition price_before (sd : Side) : Z -> Z -> bool :=
  if bool_decide (sd = BUY) then greater else less.

#[export] Instance price_before_comparator sd : Comparator (price_before sd).
Proof. unfold price_before. case_bool_decide; apply _. Qed.

(** [a] is served no later than [b]: better price, or same price and not newer. *)
Definition ahead (sd : Side) (a b : Order.t) : Prop :=
  price_before sd (Order.price a) (Order.price b) = true
  \/ (Order.price a = Order.price b /\ Order.sequence a <= Order.sequence b).

Definition prioritised (sd : Side) (l : list Order.t) : Prop := StronglySorted (ahead sd) l.

(** A new order queues behind every order whose price is at least as good. *)
Fixpoint pt_insert (sd : Side) (o : Order.t) (l : list Order.t) : list Order.t :=
  match l with
  | [] => [o]
  | x :: l' =>
    if price_before sd (Order.price o) (Order.price x) then o :: l else x :: pt_insert sd o l'
  end.

Definition pt_remove (i : Z) (l : list Order.t) : list Order.t :=
  filter (fun o => Order.id o <> i) l.

(** The incoming order accepts this resting price. *)
Definition crosses (taker : Order.t) (price : Z) : bool :=
  bool_decide (Order.type taker = MARKET)
  || (if bool_decide (Order.side taker = BUY)
      then price <=? Order.price taker else Order.price taker <=? price).

Definition trade_of (taker maker : Order.t) (tid qty : Z) : Trade.t :=
  if bool_decide (Order.side taker = BUY)
  then Trade.mk tid (Order.id taker) (Order.id maker) (Order.price maker) qty (Order.sequence taker)
  else Trade.mk tid (Order.id maker) (Order.id taker) (Order.price maker) qty (Order.sequence taker).

(** Fill [q] units against the resting orders in list order: trades, the
    unfilled quantity, and what is left resting. *)
Fixpoint pt_match (taker : Order.t) (q tid : Z) (makers : list Order.t) :
    list Trade.t * Z * list Order.t :=
  match makers with
  | [] => ([], q, [])
  | m :: rest =>
    if (q =? 0) || negb (crosses taker (Order.price m)) then ([], q, makers)
    else if q <? Order.quantity m then
      ([trade_of taker m tid q], 0, Order.with_quantity (Order.quantity m - q) m :: rest)
    else
      let '(trades, q', rest') := pt_match taker (q - Order.quantity m) (u64 (tid + 1)) rest in
      (trade_of taker m tid (Order.quantity m) :: trades, q', rest')
  end.

(** The quantity on offer at prices the taker accepts. *)
Definition fillable (taker : Order.t) (makers : list Order.t) : Z :=
  sum Order.quantity (filter (fun m => crosses taker (Order.price m) = true) makers).

(** * Facts *)

Section facts.
Implicit Types (taker o m : Order.t) (l makers : list Order.t).

Definition live o : Prop := 0 < Order.quantity o.

Lemma pt_insert_app sd o l1 l2 :
  Forall (fun x => price_before sd (Order.price o) (Order.price x) = false) l1 ->
  Forall (fun x => price_before sd (Order.price o) (Order.price x) = true) l2 ->
  pt_insert sd o (l1 ++ l2) = l1 ++ o :: l2.
Proof.
  induction 1 as [|x l1 Hx _ IH]; intros H2; cbn.
  - destruct H2 as [|y l2 Hy]; cbn; [done|]. by rewrite Hy.
  - rewrite Hx. by rewrite IH.
Qed.

Lemma pt_insert_perm sd o l : pt_insert sd o l ≡ₚ o :: l.
Proof.
  induction l as [|x l IH]; cbn; [done|]. case_match; [done|].
  rewrite IH. apply perm_swap.
Qed.

Lemma pt_insert_prioritised sd o l :
  prioritised sd l -> Forall (fun x => Order.sequence x <= Order.sequence o) l ->
  prioritised sd (pt_insert sd o l).
Proof.
  unfold prioritised. induction 1 as [|x l Hs IH Hx]; cbn; intros Hq.
  { repeat constructor. }
  inversion Hq as [|?? Hxq Hlq]; subst. case_match eqn:E.
  - constructor; [by constructor|]. constructor; [by left|].
    eapply Forall_impl; [exact Hx|]. intros y [Hy|[Hy _]]; left.
    + by eapply before_trans.
    + congruence.
  - constructor; [by apply IH|].
    rewrite pt_insert_perm. constructor; [|done].
    destruct (decide (Order.price x = Order.price o)); [by right|].
    left. by destruct (before_total (before := price_before sd)
                         (Order.price x) (Order.price o)) as [?|?]; [|congruence|congruence].
Qed.

Lemma pt_remove_app i l1 o l2 :
  NoDup (Order.id <$> (l1 ++ o :: l2)) -> i = Order.id o ->
  pt_remove i (l1 ++ o :: l2) = l1 ++ l2.
Proof.
  intros Hnd ->. unfold pt_remove. rewrite filter_app, filter_cons_False by tauto.
  rewrite fmap_app, fmap_cons in Hnd.
  apply NoDup_app in Hnd as (_ & Hd & [Ho _]%NoDup_cons).
  f_equal; apply filter_all; apply Forall_forall; intros x Hx Heq.
  - apply (Hd (Order.id x)); [by apply list_elem_of_fmap_2|]. rewrite Heq. set_solver.
  - apply Ho. rewrite <- Heq. by apply list_elem_of_fmap_2.
Qed.

(** Matching conserves quantity, both for the taker and for the makers. *)
Lemma pt_match_conserves taker makers : forall q tid trades q' makers',
  pt_match taker q tid makers = (trades, q', makers') ->
  sum Trade.quantity trades + q' = q
  /\ sum Order.quantity makers = sum Trade.quantity trades + sum Order.quantity makers'.
Proof.
  induction makers as [|m makers IH]; cbn; intros q tid trades q' makers' H.
  { simplify_eq. by autorewrite with sums. }
  repeat case_match; simplify_eq; autorewrite with sums; [lia| |].
  - unfold trade_of. case_match; cbn; lia.
  - match goal with H : pt_match _ _ _ _ = _ |- _ => apply IH in H as [] end.
    unfold trade_of. case_match; cbn; lia.
Qed.

Lemma crosses_ahead sd taker m1 m2 :
  Order.side taker = opposite sd -> isValidSide sd = true -> ahead sd m1 m2 ->
  crosses taker (Order.price m2) = true -> crosses taker (Order.price m1) = true.
Proof.
  unfold crosses, ahead, price_before, opposite, isValidSide, greater, less.
  intros -> Hv Ha. destruct sd; repeat case_bool_decide; simplify_eq; cbn; try done; lia.
Qed.

(** On a prioritised side an unacceptable head means an empty offer. *)
Lemma fillable_stop sd taker m makers :
  Order.side taker = opposite sd -> isValidSide sd = true -> prioritised sd (m :: makers) ->
  crosses taker (Order.price m) = false -> fillable taker (m :: makers) = 0.
Proof.
  intros Hs Hv [_ Hp]%StronglySorted_inv Hc. unfold fillable.
  rewrite filter_cons_False by congruence.
  replace (filter _ makers) with (@nil Order.t); [done|].
  symmetry. apply filter_none. eapply Forall_impl; [exact Hp|].
  intros x Hx Hcx. rewrite (crosses_ahead sd taker m x) in Hc; done.
Qed.

Lemma fillable_cons_true taker m makers :
  crosses taker (Order.price m) = true ->
  fillable taker (m :: makers) = Order.quantity m + fillable taker makers.
Proof. intros H. unfold fillable. by rewrite filter_cons_True, sum_cons. Qed.

Lemma fillable_nonneg taker makers : Forall live makers -> 0 <= fillable taker makers.
Proof.
  intros H. apply sum_nonneg. apply Forall_forall. intros x [_ Hx]%list_elem_of_filter.
  rewrite Forall_forall in H. specialize (H _ Hx). unfold live in H. lia.
Qed.

(** Matching fills exactly as much as the offer at acceptable prices allows. *)
Lemma pt_match_fills sd taker makers : forall q tid trades q' makers',
  Order.side taker = opposite sd -> isValidSide sd = true ->
  prioritised sd makers -> Forall live makers -> 0 <= q ->
  pt_match taker q tid makers = (trades, q', makers') ->
  q' = q - Z.min q (fillable taker makers).
Proof.
  induction makers as [|m makers IH]; cbn; intros q tid trades q' makers' Hs Hv Hp Hl Hq H.
  { simplify_eq. change (fillable taker []) with 0. lia. }
  pose proof (fillable_nonneg taker _ Hl).
  apply Forall_cons in Hl as [Hm Hl]. unfold live in Hm.
  pose proof (fillable_nonneg taker makers Hl).
  destruct (q =? 0) eqn:Eq; cbn in H.
  { simplify_eq. lia. }
  destruct (crosses taker (Order.price m)) eqn:Ec; cbn in H.
  2:{ simplify_eq. rewrite (fillable_stop sd) by done. lia. }
  rewrite fillable_cons_true by done. destruct (q <? Order.quantity m) eqn:Elt.
  - simplify_eq. lia.
  - destruct (pt_match taker _ _ makers) as [[trades1 q1] rest1] eqn:E. simplify_eq.
    apply IH in E; [lia|done|done| |done|lia]. by apply StronglySorted_inv in Hp as [].
Qed.
End facts.
