(* ===== verification/OrderBook.v ===== *)
(** [order_book.hpp] / [order_book.cpp]: the price-time-priority book.

    State.  [buy_levels_] and [sell_levels_] are ordered maps ([LevelMap]) from
    a price to a [PriceLevel]; [locations_] is the id index.  A [std::list]
    owns its nodes: a [Node] is the node's address with the order stored in it,
    and a [std::list<Order>::iterator] is that address.  Dereferencing or
    erasing an address that no list owns is undefined behaviour, so the
    operations that follow an iterator return a [result].

    The BUY and SELL branches of the source repeat the same statements on the
    two maps; the helpers [cancel_in_levels] and [reduce_in_levels] are those
    statements, with the map's comparator as an argument. *)

From S2P Require Import Prelude.
From S2P Require Import OrderTypes.
From S2P Require Import LevelMap.

#[local] Open Scope Z_scope.

(** * Data *)

Record Node : Type := mkNode { node_addr : Z; node_value : Order.t }.

Record PriceLevel : Type := mkLevel { orders : list Node; total_quantity : Z }.
Definition PriceLevel_default : PriceLevel := mkLevel [] 0.

Record LevelSnapshot : Type := mkSnapshot {
  snap_price : Z; snap_total_quantity : Z; snap_order_count : Z
}.

Record OrderLocation : Type := mkLocation {
  loc_side : Side; loc_price : Z; order_it : Z
}.

Record OrderBook : Type := mkBook {
  buy_levels_ : list (Z * PriceLevel);
  sell_levels_ : list (Z * PriceLevel);
  locations_ : gmap Z OrderLocation;
  (** the address the allocator returns for the next list node *)
  next_node : Z
}.

Definition empty_book : OrderBook := mkBook [] [] ∅ 1.

#[export] Instance Node_eq_dec : EqDecision Node.
Proof. solve_decision. Defined.
#[export] Instance OrderLocation_eq_dec : EqDecision OrderLocation.
Proof. solve_decision. Defined.

(** * [std::list<Order>] *)

(** [*it] for the nodes of one list. *)
Fixpoint list_deref (it : Z) (l : list Node) : option Order.t :=
  match l with
  | [] => None
  | n :: l' => if node_addr n =? it then Some (node_value n) else list_deref it l'
  end.

(** [erase(it)]; [None] when the list does not own the node. *)
Fixpoint list_erase (it : Z) (l : list Node) : option (list Node) :=
  match l with
  | [] => None
  | n :: l' => if node_addr n =? it then Some l' else cons n <$> list_erase it l'
  end.

Definition level_nodes (levels : list (Z * PriceLevel)) : list Node :=
  levels ≫= (fun kv => orders kv.2).

(** [*it]: the order in the node at that address, whichever list owns it. *)
Definition deref (b : OrderBook) (it : Z) : result Order.t :=
  defined (list_deref it (level_nodes (buy_levels_ b) ++ level_nodes (sell_levels_ b))).

(** * Queries *)

Definition contains (b : OrderBook) (order_id : Z) : bool :=
  bool_decide (is_Some (locations_ b !! order_id)).

Definition bestBid (b : OrderBook) : option Z :=
  match buy_levels_ b with [] => None | (price, _) :: _ => Some price end.
Definition bestAsk (b : OrderBook) : option Z :=
  match sell_levels_ b with [] => None | (price, _) :: _ => Some price end.

(** [*ask - *bid] on [int64_t]. *)
Definition spread (b : OrderBook) : result (option Z) :=
  match bestBid b, bestAsk b with
  | Some bid, Some ask => s ← i64 (ask - bid); Ok (Some s)
  | _, _ => Ok None
  end.

Definition levels_of (b : OrderBook) (side : Side) : list (Z * PriceLevel) :=
  if bool_decide (side = BUY) then buy_levels_ b else sell_levels_ b.

Definition depth (b : OrderBook) (side : Side) : Z :=
  Z.of_nat (length (levels_of b side)).
Definition levels_empty (levels : list (Z * PriceLevel)) : bool :=
  match levels with [] => true | _ => false end.
Definition emptySide (b : OrderBook) (side : Side) : bool :=
  if bool_decide (side = BUY) then levels_empty (buy_levels_ b)
  else levels_empty (sell_levels_ b).
Definition book_empty (b : OrderBook) : bool :=
  levels_empty (buy_levels_ b) && levels_empty (sell_levels_ b).
Definition orderCount (b : OrderBook) : Z := Z.of_nat (size (locations_ b)).

(** [&begin()->second.orders.front()]; [front()] of an empty list is undefined. *)
Definition front_of_levels (levels : list (Z * PriceLevel)) : result (option Order.t) :=
  match levels with
  | [] => Ok None
  | (_, level) :: _ =>
    match orders level with
    | [] => Fault UndefinedBehaviour
    | n :: _ => Ok (Some (node_value n))
    end
  end.

Definition frontOfBest (b : OrderBook) (side : Side) : result (option Order.t) :=
  if bool_decide (side = BUY) then front_of_levels (buy_levels_ b)
  else front_of_levels (sell_levels_ b).

Definition wouldCross (b : OrderBook) (incoming : Order.t) : result bool :=
  if negb (isValidSide (Order.side incoming)) || negb (isValidOrderType (Order.type incoming))
  then Ok false
  else
    let opposite := if bool_decide (Order.side incoming = BUY) then SELL else BUY in
    best ← frontOfBest b opposite;
    match best with
    | None => Ok false
    | Some best =>
      if bool_decide (Order.type incoming = MARKET) then Ok true
      else if bool_decide (Order.side incoming = BUY)
      then Ok (Order.price best <=? Order.price incoming)
      else Ok (Order.price incoming <=? Order.price best)
    end.

(** The loops of [executableQuantity]: [stop price] is the [break] on price. *)
Fixpoint executable_levels (stop : Z -> bool) (cap total : Z)
    (levels : list (Z * PriceLevel)) : Z :=
  match levels with
  | [] => total
  | (price, level) :: rest =>
    if stop price then total
    else
      let remaining_cap := u64 (cap - total) in
      let total := u64 (total + Z.min (total_quantity level) remaining_cap) in
      if total =? cap then total else executable_levels stop cap total rest
  end.

Definition executableQuantity (b : OrderBook) (incoming : Order.t) (cap : Z) : Z :=
  if (cap =? 0) || negb (isValidSide (Order.side incoming))
     || negb (isValidOrderType (Order.type incoming))
  then 0
  else if bool_decide (Order.side incoming = BUY) then
    executable_levels
      (fun price => bool_decide (Order.type incoming = LIMIT) && (Order.price incoming <? price))
      cap 0 (sell_levels_ b)
  else
    executable_levels
      (fun price => bool_decide (Order.type incoming = LIMIT) && (price <? Order.price incoming))
      cap 0 (buy_levels_ b).

Fixpoint top_of_levels (max_levels : Z) (out : list LevelSnapshot)
    (levels : list (Z * PriceLevel)) : list LevelSnapshot :=
  match levels with
  | [] => out
  | (price, level) :: rest =>
    if Z.of_nat (length out) =? max_levels then out
    else
      top_of_levels max_levels
        (out ++ [mkSnapshot price (total_quantity level) (Z.of_nat (length (orders level)))])
        rest
  end.

Definition topLevels (b : OrderBook) (side : Side) (max_levels : Z) : list LevelSnapshot :=
  if bool_decide (side = BUY) then top_of_levels max_levels [] (buy_levels_ b)
  else top_of_levels max_levels [] (sell_levels_ b).

(** * Updates *)

Definition level_push_back (addr : Z) (order : Order.t) (level : PriceLevel) : PriceLevel :=
  mkLevel (orders level ++ [mkNode addr order])
    (u64 (total_quantity level + Order.quantity order)).

(** [locations_.emplace(...)] followed by [assert(inserted)]. *)
Definition emplace_location (locs : gmap Z OrderLocation) (id : Z) (loc : OrderLocation) :
    result (gmap Z OrderLocation) :=
  match locs !! id with
  | Some _ => Fault AssertFailed
  | None => Ok (<[id := loc]> locs)
  end.

Definition addOrder (b : OrderBook) (order : Order.t) : result (bool * OrderBook) :=
  if (Order.id order =? 0) || (Order.quantity order =? 0) || (Order.price order <=? 0)
     || negb (bool_decide (Order.type order = LIMIT)) || contains b (Order.id order)
  then Ok (false, b)
  else if bool_decide (Order.side order = BUY) then
    let levels := try_emplace greater (Order.price order) PriceLevel_default (buy_levels_ b) in
    let levels := update greater (Order.price order)
                    (level_push_back (next_node b) order) levels in
    locs ← emplace_location (locations_ b) (Order.id order)
             (mkLocation BUY (Order.price order) (next_node b));
    Ok (true, mkBook levels (sell_levels_ b) locs (next_node b + 1))
  else if bool_decide (Order.side order = SELL) then
    let levels := try_emplace less (Order.price order) PriceLevel_default (sell_levels_ b) in
    let levels := update less (Order.price order)
                    (level_push_back (next_node b) order) levels in
    locs ← emplace_location (locations_ b) (Order.id order)
             (mkLocation SELL (Order.price order) (next_node b));
    Ok (true, mkBook (buy_levels_ b) levels locs (next_node b + 1))
  else Ok (false, b).

Definition eraseLevelIfEmpty (before : Z -> Z -> bool) (levels : list (Z * PriceLevel))
    (it : Z) : list (Z * PriceLevel) :=
  match find before it levels with
  | Some level =>
    match orders level with [] => erase before it levels | _ :: _ => levels end
  | None => levels
  end.

Definition cancel_in_levels (before : Z -> Z -> bool) (loc : OrderLocation)
    (order_quantity : Z) (levels : list (Z * PriceLevel)) : result (list (Z * PriceLevel)) :=
  match find before (loc_price loc) levels with
  | None => Fault AssertFailed
  | Some level =>
    orders' ← defined (list_erase (order_it loc) (orders level));
    let level' := mkLevel orders' (u64 (total_quantity level - order_quantity)) in
    Ok (eraseLevelIfEmpty before
          (update before (loc_price loc) (fun _ => level') levels) (loc_price loc))
  end.

(** Returns what is written to [*canceled_order]; [None] is the result [false]. *)
Definition cancelOrder (b : OrderBook) (order_id : Z) : result (option Order.t * OrderBook) :=
  match locations_ b !! order_id with
  | None => Ok (None, b)
  | Some loc =>
    canceled_order ← deref b (order_it loc);
    let locs := delete order_id (locations_ b) in
    if bool_decide (loc_side loc = BUY) then
      levels ← cancel_in_levels greater loc (Order.quantity canceled_order) (buy_levels_ b);
      Ok (Some canceled_order, mkBook levels (sell_levels_ b) locs (next_node b))
    else
      levels ← cancel_in_levels less loc (Order.quantity canceled_order) (sell_levels_ b);
      Ok (Some canceled_order, mkBook (buy_levels_ b) levels locs (next_node b))
  end.

Definition reduce_in_levels (before : Z -> Z -> bool) (qty : Z)
    (levels : list (Z * PriceLevel)) (locs : gmap Z OrderLocation) :
    result (list (Z * PriceLevel) * gmap Z OrderLocation) :=
  match levels with
  | [] => Fault AssertFailed
  | (price, level) :: rest =>
    match orders level with
    | [] => Fault UndefinedBehaviour
    | n :: tail =>
      _ ← assert (qty <=? Order.quantity (node_value n));
      let quantity := u32 (Order.quantity (node_value n) - qty) in
      let total := u64 (total_quantity level - qty) in
      if quantity =? 0 then
        Ok (eraseLevelIfEmpty before ((price, mkLevel tail total) :: rest) price,
            delete (Order.id (node_value n)) locs)
      else
        let n' := mkNode (node_addr n) (Order.with_quantity quantity (node_value n)) in
        Ok ((price, mkLevel (n' :: tail) total) :: rest, locs)
    end
  end.

Definition reduceFront (b : OrderBook) (side : Side) (qty : Z) : result OrderBook :=
  if bool_decide (side = BUY) then
    '(levels, locs) ← reduce_in_levels greater qty (buy_levels_ b) (locations_ b);
    Ok (mkBook levels (sell_levels_ b) locs (next_node b))
  else
    '(levels, locs) ← reduce_in_levels less qty (sell_levels_ b) (locations_ b);
    Ok (mkBook (buy_levels_ b) levels locs (next_node b)).

(** * [checkInvariants] *)

(** [seen_orders] and [seen_ids], captured by reference by [check_level]. *)
Record Seen : Type := mkSeen { seen_orders : Z; seen_ids : gset Z }.

(** The loop over [level.orders]; [None] is [return false], otherwise the final
    [sum] and the captured counters. *)
Fixpoint check_orders (locs : gmap Z OrderLocation) (expected_side : Side) (price : Z)
    (nodes : list Node) (sum previous_sequence : Z) (first : bool) (seen : Seen) :
    option (Z * Seen) :=
  match nodes with
  | [] => Some (sum, seen)
  | n :: rest =>
    let order := node_value n in
    if (Order.id order =? 0) || (Order.quantity order =? 0)
       || negb (Order.price order =? price)
       || negb (bool_decide (Order.side order = expected_side))
       || negb (bool_decide (Order.type order = LIMIT))
    then None
    else if negb first && (Order.sequence order <? previous_sequence) then None
    else if bool_decide (Order.id order ∈ seen_ids seen) then None
    else
      match locs !! Order.id order with
      | None => None
      | Some loc =>
        if negb (bool_decide (loc_side loc = expected_side))
           || negb (loc_price loc =? price)
           || negb (order_it loc =? node_addr n)
        then None
        else
          check_orders locs expected_side price rest (u64 (sum + Order.quantity order))
            (Order.sequence order) false
            (mkSeen (u64 (seen_orders seen + 1)) ({[ Order.id order ]} ∪ seen_ids seen))
      end
  end.

Definition check_level (locs : gmap Z OrderLocation) (expected_side : Side) (price : Z)
    (level : PriceLevel) (seen : Seen) : option Seen :=
  match orders level with
  | [] => None
  | _ =>
    '(sum, seen) ← check_orders locs expected_side price (orders level) 0 0 true seen;
    if sum =? total_quantity level then Some seen else None
  end.

(** The loop over one map; [misplaced price previous_price] is its order test.
    Returns the final [previous_price] as well, which the second loop inherits. *)
Fixpoint check_levels (locs : gmap Z OrderLocation) (side : Side)
    (misplaced : Z -> Z -> bool) (first_level : bool) (previous_price : Z)
    (levels : list (Z * PriceLevel)) (seen : Seen) : option (Z * Seen) :=
  match levels with
  | [] => Some (previous_price, seen)
  | (price, level) :: rest =>
    if negb first_level && misplaced price previous_price then None
    else
      seen ← check_level locs side price level seen;
      check_levels locs side misplaced false price rest seen
  end.

Definition checkInvariants (b : OrderBook) : result bool :=
  s ← spread b;
  if match s with Some s => s <=? 0 | None => false end then Ok false
  else
    let scanned :=
      '(previous_price, seen) ←
        check_levels (locations_ b) BUY (fun price previous => previous <=? price)
          true 0 (buy_levels_ b) (mkSeen 0 ∅);
      check_levels (locations_ b) SELL (fun price previous => price <=? previous)
        true previous_price (sell_levels_ b) seen in
    match scanned with
    | None => Ok false
    | Some (_, seen) => Ok (seen_orders seen =? Z.of_nat (size (locations_ b)))
    end.
