(* ===== verification/BookInvariant.v ===== *)
(** The representation invariant of [OrderBook] and what each update of the
    book does under it.

    [book_ok] says that both maps are ordered, that every level is a non-empty
    FIFO queue of live orders with the right cached total, and that [locations_]
    is exactly the index of the nodes the lists own.  The abstraction of a side
    is [side_orders]: its orders, best level first, oldest first in a level. *)

From S2P Require Import Prelude.
From S2P Require Import OrderTypes.
From S2P Require Import LevelMap.
From S2P Require Import PriceTime.
From S2P Require Import OrderBook.

#[local] Open Scope Z_scope.

(** * The id index *)

(** A resting order with where it rests: side, level price, list node. *)
Abbreviation Entry := (Side * Z * Node)%type.

Definition entry_id (e : Entry) : Z := Order.id (node_value e.2).
Definition entry_addr (e : Entry) : Z := node_addr e.2.
Definition entry_loc (e : Entry) : OrderLocation := mkLocation e.1.1 e.1.2 (node_addr e.2).

Definition index (es : list Entry) : gmap Z OrderLocation :=
  list_to_map ((fun e => (entry_id e, entry_loc e)) <$> es).

Definition entries (sd : Side) (levels : list (Z * PriceLevel)) : list Entry :=
  levels ≫= (fun kv => (fun n => (sd, kv.1, n)) <$> orders kv.2).

Record index_ok (locs : gmap Z OrderLocation) (next : Z) (es : list Entry) : Prop := {
  idx_ids : NoDup (entry_id <$> es);
  idx_addrs : NoDup (entry_addr <$> es);
  idx_fresh : Forall (fun e => entry_addr e < next) es;
  idx_locs : locs = index es
}.

Section index.
Implicit Types (e : Entry) (es : list Entry).

Lemma index_fst es : ((fun e => (entry_id e, entry_loc e)) <$> es).*1 = entry_id <$> es.
Proof. rewrite <- list_fmap_compose. by apply list_fmap_ext. Qed.

Lemma index_perm es es' : NoDup (entry_id <$> es) -> es ≡ₚ es' -> index es = index es'.
Proof.
  intros Hnd Hp. apply list_to_map_proper; [by rewrite index_fst|]. by rewrite Hp.
Qed.

#[export] Instance index_ok_proper locs next : Proper ((≡ₚ) ==> iff) (index_ok locs next).
Proof.
  intros es es' Hp. split; intros [H1 H2 H3 H4]; split.
  1,5: by rewrite ?Hp, <- ?Hp in *.
  1,4: by rewrite ?Hp, <- ?Hp in *.
  1,3: by rewrite ?Hp, <- ?Hp in *.
  - by rewrite H4, (index_perm es es').
  - by rewrite H4, (index_perm es' es).
Qed.

Lemma index_ok_lookup locs next es i loc :
  index_ok locs next es ->
  locs !! i = Some loc <-> exists e, e ∈ es /\ entry_id e = i /\ entry_loc e = loc.
Proof.
  intros [Hnd _ _ ->]. unfold index.
  rewrite <- elem_of_list_to_map by by rewrite index_fst.
  rewrite list_elem_of_fmap. split.
  - intros (e & [= -> ->] & He). eauto.
  - intros (e & He & <- & <-). eauto.
Qed.

Lemma index_ok_size locs next es : index_ok locs next es -> size locs = length es.
Proof.
  intros [Hnd _ _ ->]. unfold index. rewrite map_size_list_to_map by by rewrite index_fst.
  by rewrite length_fmap.
Qed.

Lemma index_ok_insert locs next es e :
  index_ok locs next es -> locs !! entry_id e = None -> entry_addr e = next ->
  index_ok (<[entry_id e := entry_loc e]> locs) (next + 1) (e :: es).
Proof.
  intros Hok Hn Ha. pose proof Hok as [H1 H2 H3 H4]. split.
  - rewrite fmap_cons. constructor; [|done].
    intros (e' & He' & Hin)%list_elem_of_fmap.
    assert (locs !! entry_id e = Some (entry_loc e')) by
      (rewrite (index_ok_lookup _ next es) by done; eauto).
    congruence.
  - rewrite fmap_cons. constructor; [|done].
    intros (e' & He' & Hin)%list_elem_of_fmap. rewrite Forall_forall in H3.
    specialize (H3 _ Hin). lia.
  - constructor; [lia|]. eapply Forall_impl; [done|]. cbn. lia.
  - by rewrite H4.
Qed.

Lemma index_ok_delete locs next e es :
  index_ok locs next (e :: es) -> index_ok (delete (entry_id e) locs) next es.
Proof.
  intros Hok. pose proof Hok as [H1 H2 H3 H4]. rewrite fmap_cons in H1, H2.
  apply NoDup_cons in H1 as [H1 H1']. apply NoDup_cons in H2 as [_ H2'].
  apply Forall_cons in H3 as [_ H3']. split; [done|done|done|].
  rewrite H4. unfold index. rewrite fmap_cons. cbn.
  rewrite delete_insert_id; [done|]. apply not_elem_of_list_to_map. by rewrite index_fst.
Qed.

Lemma index_ok_replace locs next e e' es :
  entry_id e' = entry_id e -> entry_loc e' = entry_loc e ->
  index_ok locs next (e :: es) -> index_ok locs next (e' :: es).
Proof.
  intros Hi Hl [H1 H2 H3 H4].
  assert (entry_addr e' = entry_addr e) as Ha by (unfold entry_addr; by injection Hl).
  rewrite fmap_cons in H1, H2. apply Forall_cons in H3 as [].
  split; rewrite ?fmap_cons, ?Hi, ?Ha; [done|done| |].
  - constructor; [lia|done].
  - rewrite H4. unfold index. by rewrite !fmap_cons, Hi, Hl.
Qed.
End index.

(** * Levels and sides *)

(** An order that may rest at this price on this side. *)
Record resting (sd : Side) (price : Z) (o : Order.t) : Prop := {
  resting_id : Order.id o <> 0;
  resting_quantity : 0 < Order.quantity o < 2 ^ 32;
  resting_price : Order.price o = price;
  resting_side : Order.side o = sd;
  resting_type : Order.type o = LIMIT;
  resting_range : 0 < price < 2 ^ 63
}.

Definition not_newer (a b : Node) : Prop :=
  Order.sequence (node_value a) <= Order.sequence (node_value b).

Definition node_quantity (n : Node) : Z := Order.quantity (node_value n).

Record queue_ok (sd : Side) (price : Z) (level : PriceLevel) : Prop := {
  lvl_resting : Forall (fun n => resting sd price (node_value n)) (orders level);
  lvl_fifo : StronglySorted not_newer (orders level);
  lvl_total : total_quantity level = u64 (sum node_quantity (orders level))
}.

Definition level_ok (sd : Side) (kv : Z * PriceLevel) : Prop :=
  queue_ok sd kv.1 kv.2 /\ orders kv.2 <> [].

Record side_ok (sd : Side) (levels : list (Z * PriceLevel)) : Prop := {
  side_ordered : ordered (price_before sd) levels;
  side_levels : Forall (level_ok sd) levels
}.

Record book_ok (b : OrderBook) : Prop := {
  buy_ok : side_ok BUY (buy_levels_ b);
  sell_ok : side_ok SELL (sell_levels_ b);
  book_index : index_ok (locations_ b) (next_node b)
                 (entries BUY (buy_levels_ b) ++ entries SELL (sell_levels_ b))
}.

(** The abstraction of a side. *)
Definition side_orders (levels : list (Z * PriceLevel)) : list Order.t :=
  node_value <$> level_nodes levels.

(** Best bid strictly below best ask. *)
Definition uncrossed (b : OrderBook) : Prop :=
  forall bid ask, bestBid b = Some bid -> bestAsk b = Some ask -> bid < ask.

Section levels.
Implicit Types (levels : list (Z * PriceLevel)) (sd : Side) (lv : PriceLevel).

Lemma entries_app sd l1 l2 : entries sd (l1 ++ l2) = entries sd l1 ++ entries sd l2.
Proof. apply bind_app. Qed.
Lemma entries_cons sd p lv l :
  entries sd ((p, lv) :: l) = ((fun n => (sd, p, n)) <$> orders lv) ++ entries sd l.
Proof. done. Qed.
Lemma level_nodes_app l1 l2 : level_nodes (l1 ++ l2) = level_nodes l1 ++ level_nodes l2.
Proof. apply bind_app. Qed.
Lemma level_nodes_cons p lv l : level_nodes ((p, lv) :: l) = orders lv ++ level_nodes l.
Proof. done. Qed.
Lemma side_orders_app l1 l2 : side_orders (l1 ++ l2) = side_orders l1 ++ side_orders l2.
Proof. unfold side_orders. by rewrite level_nodes_app, fmap_app. Qed.
Lemma side_orders_cons p lv l :
  side_orders ((p, lv) :: l) = (node_value <$> orders lv) ++ side_orders l.
Proof. unfold side_orders. by rewrite level_nodes_cons, fmap_app. Qed.

Lemma orders_push_back addr o lv :
  orders (level_push_back addr o lv) = orders lv ++ [mkNode addr o].
Proof. done. Qed.

Lemma orders_mkLevel q t : orders (mkLevel q t) = q.
Proof. done. Qed.

Lemma entries_nodes sd levels : (entries sd levels).*2 = level_nodes levels.
Proof.
  induction levels as [|[p lv] levels IH]; [done|].
  rewrite entries_cons, level_nodes_cons, fmap_app, IH. f_equal.
  rewrite <- list_fmap_compose. by apply list_fmap_id.
Qed.

Lemma entries_ids sd levels : entry_id <$> entries sd levels = Order.id <$> side_orders levels.
Proof.
  unfold side_orders. rewrite <- entries_nodes with (sd := sd), <- !list_fmap_compose. done.
Qed.

Lemma entries_addrs sd levels :
  entry_addr <$> entries sd levels = node_addr <$> level_nodes levels.
Proof. rewrite <- entries_nodes with (sd := sd), <- list_fmap_compose. done. Qed.

Lemma entries_elem sd levels s p n :
  (s, p, n) ∈ entries sd levels <-> s = sd /\ exists lv, (p, lv) ∈ levels /\ n ∈ orders lv.
Proof.
  unfold entries. rewrite list_elem_of_bind. split.
  - intros ([p' lv] & (n' & [= -> -> ->] & Hn)%list_elem_of_fmap & Hin). eauto.
  - intros (-> & lv & Hin & Hn). exists (p, lv). split; [|done]. by apply list_elem_of_fmap_2.
Qed.
End levels.

Create Rewrite HintDb sides.
#[export] Hint Rewrite entries_app entries_cons level_nodes_app level_nodes_cons
  orders_push_back orders_mkLevel side_orders_app side_orders_cons @fmap_app @fmap_cons @fmap_nil : sides.

(** * Level operations *)

Section level_ops.
Implicit Types (levels : list (Z * PriceLevel)) (sd : Side) (lv : PriceLevel) (n : Node).

Lemma queue_ok_default sd p : queue_ok sd p PriceLevel_default.
Proof. split; [constructor|constructor|done]. Qed.

Lemma queue_ok_push sd p lv addr o :
  queue_ok sd p lv -> resting sd p o ->
  Forall (fun n => Order.sequence (node_value n) <= Order.sequence o) (orders lv) ->
  level_ok sd (p, level_push_back addr o lv).
Proof.
  intros [H1 H2 H3] Ho Hs. split; [split|]; cbn.
  - apply Forall_app. split; [done|]. by apply Forall_singleton.
  - apply StronglySorted_app_iff. split_and!; [done|repeat constructor|].
    intros x y Hx ->%list_elem_of_singleton. rewrite Forall_forall in Hs. by apply Hs.
  - rewrite H3, u64_add_l. autorewrite with sums. f_equal. unfold node_quantity at 3. cbn. lia.
  - by destruct (orders lv).
Qed.

Lemma queue_ok_remove sd p l1 n l2 t :
  queue_ok sd p (mkLevel (l1 ++ n :: l2) t) ->
  queue_ok sd p (mkLevel (l1 ++ l2) (u64 (t - node_quantity n))).
Proof.
  intros [H1 H2 H3]. cbn in *. split; cbn.
  - rewrite Forall_app, Forall_cons in *. tauto.
  - rewrite StronglySorted_app_iff in *. destruct H2 as (H2 & [H4 _]%StronglySorted_inv & H5).
    split_and!; [done|done|]. intros; apply H5; set_solver.
  - rewrite H3, u64_sub_l. autorewrite with sums. f_equal. lia.
Qed.

Lemma queue_ok_reduce sd p n l t q :
  queue_ok sd p (mkLevel (n :: l) t) -> 0 < q < node_quantity n ->
  queue_ok sd p
    (mkLevel (mkNode (node_addr n) (Order.with_quantity (node_quantity n - q) (node_value n)) :: l)
       (u64 (t - q))).
Proof.
  unfold node_quantity. intros [H1 H2 H3] Hq. cbn in *.
  apply Forall_cons in H1 as [Hn Hl]. apply StronglySorted_inv in H2 as [H2 H2'].
  split; cbn.
  - constructor; [|done]. destruct Hn. split; cbn; [done|lia|done|done|done|done].
  - constructor; [done|]. exact H2'.
  - rewrite H3, u64_sub_l. autorewrite with sums. unfold node_quantity at 1 3. cbn. f_equal. lia.
Qed.

Lemma list_erase_app l1 n l2 :
  NoDup (node_addr <$> (l1 ++ n :: l2)) ->
  list_erase (node_addr n) (l1 ++ n :: l2) = Some (l1 ++ l2).
Proof.
  induction l1 as [|x l1 IH]; cbn; intros Hnd.
  - by rewrite Z.eqb_refl.
  - apply NoDup_cons in Hnd as [Hx Hnd].
    rewrite (proj2 (Z.eqb_neq _ _)) by (intros Heq; apply Hx; rewrite Heq, fmap_app; set_solver).
    by rewrite IH.
Qed.

Lemma list_deref_app l1 n l2 :
  NoDup (node_addr <$> (l1 ++ n :: l2)) ->
  list_deref (node_addr n) (l1 ++ n :: l2) = Some (node_value n).
Proof.
  induction l1 as [|x l1 IH]; cbn; intros Hnd.
  - by rewrite Z.eqb_refl.
  - apply NoDup_cons in Hnd as [Hx Hnd].
    rewrite (proj2 (Z.eqb_neq _ _)) by (intros Heq; apply Hx; rewrite Heq, fmap_app; set_solver).
    by rewrite IH.
Qed.

(** [eraseLevelIfEmpty] right after a write through the same iterator. *)
Lemma erase_if_empty_cut `{!Comparator before} p lv l1 l2 :
  ordered before (l1 ++ (p, lv) :: l2) ->
  eraseLevelIfEmpty before (l1 ++ (p, lv) :: l2) p =
  match orders lv with [] => l1 ++ l2 | _ => l1 ++ (p, lv) :: l2 end.
Proof.
  intros (Hf & _ & He)%cut_at; [|done]. unfold eraseLevelIfEmpty. rewrite Hf, He.
  by destruct (orders lv).
Qed.

Lemma side_ok_cut sd p lv l1 l2 :
  side_ok sd (l1 ++ (p, lv) :: l2) ->
  queue_ok sd p lv /\ side_ok sd (l1 ++ l2) /\
  (forall lv', queue_ok sd p lv' ->
     side_ok sd (match orders lv' with [] => l1 ++ l2 | _ => l1 ++ (p, lv') :: l2 end)).
Proof.
  intros [Ho Hl]. apply Forall_app in Hl as [Hl1 [[Hq _] Hl2]%Forall_cons].
  assert (side_ok sd (l1 ++ l2)) as H by (split; [by apply (ordered_erase_cut _ p lv)|by apply Forall_app]).
  split_and!; [done|done|]. intros lv' Hq'. destruct (orders lv') eqn:E; [done|].
  split; [by apply (ordered_update_cut _ p lv)|]. apply Forall_app. split; [done|].
  constructor; [|done]. split; [done|]. cbn. by rewrite E.
Qed.

Lemma side_orders_erase_cut p lv l1 l2 :
  side_orders (match orders lv with [] => l1 ++ l2 | _ => l1 ++ (p, lv) :: l2 end)
  = side_orders l1 ++ (node_value <$> orders lv) ++ side_orders l2.
Proof. destruct (orders lv) eqn:E; autorewrite with sides; [done|]. by rewrite E. Qed.

Lemma entries_erase_cut sd p lv l1 l2 :
  entries sd (match orders lv with [] => l1 ++ l2 | _ => l1 ++ (p, lv) :: l2 end)
  = entries sd l1 ++ ((fun n => (sd, p, n)) <$> orders lv) ++ entries sd l2.
Proof. destruct (orders lv) eqn:E; autorewrite with sides; [done|]. by rewrite E. Qed.
End level_ops.

(** Every order of a side rests at the price of one of its levels. *)
Lemma side_orders_price sd l x :
  Forall (level_ok sd) l -> x ∈ side_orders l -> exists kv, kv ∈ l /\ Order.price x = kv.1.
Proof.
  intros Hl (n & -> & ([p' lv'] & Hn & Hin)%list_elem_of_bind)%list_elem_of_fmap.
  exists (p', lv'). split; [done|]. rewrite Forall_forall in Hl.
  destruct (Hl _ Hin) as [[Hr _ _] _]. rewrite Forall_forall in Hr. by destruct (Hr _ Hn).
Qed.

(** * Side operations

    Each lemma gives the effect on the abstraction and on the entries, and that
    the side invariant is kept. *)

Section side_ops.
Implicit Types (levels : list (Z * PriceLevel)) (sd : Side) (n : Node) (o : Order.t).

Lemma side_ok_prices sd l1 p lv l2 :
  ordered (price_before sd) (l1 ++ (p, lv) :: l2) -> Forall (level_ok sd) (l1 ++ l2) ->
  Forall (fun x => price_before sd p (Order.price x) = false) (side_orders l1)
  /\ Forall (fun x => price_before sd p (Order.price x) = true) (side_orders l2).
Proof.
  intros (_ & H1 & H2)%ordered_cut [Hl1 Hl2]%Forall_app; [|apply _].
  pose proof (side_orders_price sd) as Hprice.
  split; apply Forall_forall; intros x Hx.
  - destruct (Hprice _ _ Hl1 Hx) as (kv & Hin & ->). by apply before_asym; [apply _|apply H1].
  - destruct (Hprice _ _ Hl2 Hx) as (kv & Hin & ->). by apply H2.
Qed.

(** [try_emplace] exposes the level the order goes to. *)
Lemma emplace_cut sd p levels :
  side_ok sd levels ->
  exists l1 lv l2,
    try_emplace (price_before sd) p PriceLevel_default levels = l1 ++ (p, lv) :: l2
    /\ ordered (price_before sd) (l1 ++ (p, lv) :: l2)
    /\ queue_ok sd p lv /\ Forall (level_ok sd) (l1 ++ l2)
    /\ entries sd levels = entries sd (l1 ++ (p, lv) :: l2)
    /\ side_orders levels = side_orders (l1 ++ (p, lv) :: l2).
Proof.
  intros [Ho Hl]. destruct (find (price_before sd) p levels) as [lv|] eqn:E.
  - apply find_Some_cut in E as (l1 & l2 & -> & Ht); [|apply _].
    exists l1, lv, l2. rewrite Ht. apply Forall_app in Hl as [Hl1 [[Hq _] Hl2]%Forall_cons].
    split_and!; [done|done|done| |done|done]. by apply Forall_app.
  - apply find_None_cut in E as (l1 & l2 & -> & Ht); [|apply _|done].
    destruct (Ht PriceLevel_default) as [-> Ho']. exists l1, PriceLevel_default, l2.
    split_and!; [done|done|apply queue_ok_default|done| |]; by autorewrite with sides.
Qed.

Lemma side_add sd levels addr o :
  side_ok sd levels -> resting sd (Order.price o) o ->
  Forall (fun x => Order.sequence x <= Order.sequence o) (side_orders levels) ->
  let levels' := update (price_before sd) (Order.price o) (level_push_back addr o)
        (try_emplace (price_before sd) (Order.price o) PriceLevel_default levels) in
  side_ok sd levels'
  /\ entries sd levels' ≡ₚ (sd, Order.price o, mkNode addr o) :: entries sd levels
  /\ side_orders levels' = pt_insert sd o (side_orders levels).
Proof.
  intros Hok Hr Hs. destruct (emplace_cut sd (Order.price o) levels Hok)
    as (l1 & lv & l2 & -> & Ho & Hq & Hl & -> & Hso).
  destruct (cut_at _ _ _ _ _ Ho) as (_ & -> & _).
  destruct (side_ok_prices _ _ _ _ _ Ho Hl) as [Hp1 Hp2].
  rewrite Hso in *. autorewrite with sides in Hs |- *.
  rewrite !Forall_app, Forall_fmap in Hs. destruct Hs as (_ & Hs & _).
  apply Forall_app in Hl as [Hl1 Hl2]. split_and!.
  - split; [by apply (ordered_update_cut _ _ lv)|]. apply Forall_app. split; [done|].
    constructor; [|done]. by apply queue_ok_push.
  - autorewrite with sides. rewrite <- app_assoc. cbn.
    by rewrite <- Permutation_middle, <- Permutation_middle.
  - autorewrite with sides. rewrite (app_assoc _ (node_value <$> orders lv) (side_orders l2)), pt_insert_app.
    + by rewrite <- !app_assoc.
    + apply Forall_app. split; [done|]. rewrite Forall_fmap.
      eapply Forall_impl; [by destruct Hq|]. intros n [? ? Hp]. cbn in *.
      rewrite Hp. apply before_irrefl.
    + done.
Qed.

Lemma side_cancel sd levels p n :
  side_ok sd levels -> (sd, p, n) ∈ entries sd levels ->
  NoDup (entry_addr <$> entries sd levels) ->
  exists levels',
    cancel_in_levels (price_before sd) (mkLocation sd p (node_addr n)) (node_quantity n) levels
      = Ok levels'
    /\ side_ok sd levels'
    /\ entries sd levels ≡ₚ (sd, p, n) :: entries sd levels'
    /\ exists l1 l2, side_orders levels = l1 ++ node_value n :: l2
                     /\ side_orders levels' = l1 ++ l2.
Proof.
  intros Hok (_ & [q t] & (l1 & l2 & ->)%list_elem_of_split & (a & b & Hq)%list_elem_of_split)%entries_elem Hnd.
  cbn in Hq. subst q. destruct (side_ok_cut _ _ _ _ _ Hok) as (Hq & _ & Hcut).
  rewrite entries_addrs, level_nodes_app, level_nodes_cons, orders_mkLevel in Hnd.
  rewrite (fmap_app _ (level_nodes l1)), (fmap_app _ (a ++ n :: b)) in Hnd.
  apply NoDup_app in Hnd as (_ & _ & [Hnd _]%NoDup_app).
  specialize (Hcut _ (queue_ok_remove _ _ _ _ _ _ Hq)).
  unfold cancel_in_levels. cbn.
  destruct (cut_at (price_before sd) _ _ _ _ (side_ordered _ _ Hok)) as (-> & Hu & _). cbn.
  rewrite list_erase_app by exact Hnd. cbn [defined mbind result_bind].
  rewrite Hu, erase_if_empty_cut by (apply (ordered_update_cut _ _ _ _ _ _ (side_ordered _ _ Hok))).
  eexists. split; [done|]. split; [exact Hcut|].
  rewrite entries_erase_cut, side_orders_erase_cut. autorewrite with sides.
  split.
  - rewrite <- !app_assoc. cbn. by rewrite <- !Permutation_middle.
  - exists (side_orders l1 ++ (node_value <$> a)), ((node_value <$> b) ++ side_orders l2).
    by rewrite <- !app_assoc.
Qed.

(** A non-empty side starts with a level whose queue is not empty. *)
Lemma side_ok_front sd levels :
  side_ok sd levels -> levels <> [] ->
  exists p n tail t rest, levels = (p, mkLevel (n :: tail) t) :: rest.
Proof.
  intros [_ Hl]. destruct levels as [|[p [q t]] rest]; [done|]. intros _.
  apply Forall_cons in Hl as [[_ Hne] _]. cbn in Hne.
  destruct q as [|n tail]; [done|]. by exists p, n, tail, t, rest.
Qed.

Lemma side_reduce sd p n tail t rest locs q :
  side_ok sd ((p, mkLevel (n :: tail) t) :: rest) -> 0 < q <= node_quantity n ->
  exists levels' locs',
    reduce_in_levels (price_before sd) q ((p, mkLevel (n :: tail) t) :: rest) locs
      = Ok (levels', locs')
    /\ side_ok sd levels'
    /\ ((q = node_quantity n /\ locs' = delete (Order.id (node_value n)) locs
         /\ entries sd levels' = ((fun n => (sd, p, n)) <$> tail) ++ entries sd rest
         /\ side_orders levels' = (node_value <$> tail) ++ side_orders rest)
        \/ (q < node_quantity n /\ locs' = locs
            /\ let o' := Order.with_quantity (node_quantity n - q) (node_value n) in
               entries sd levels' =
                 (sd, p, mkNode (node_addr n) o') :: ((fun n => (sd, p, n)) <$> tail) ++ entries sd rest
               /\ side_orders levels' = o' :: (node_value <$> tail) ++ side_orders rest)).
Proof.
  intros Hok Hq. destruct (side_ok_cut sd p _ [] rest Hok) as (Hqu & _ & Hcut).
  assert (is_u32 (node_quantity n)) as Hn.
  { destruct Hqu as [Hr _ _]. apply Forall_cons in Hr as [[] _]. unfold node_quantity. range. }
  unfold reduce_in_levels. cbn. fold (node_quantity n).
  rewrite (proj2 (Z.leb_le _ _)) by lia. cbn. rewrite (u32_small (_ - _)) by range.
  case_match eqn:E.
  - assert (q = node_quantity n) as -> by lia.
    pose proof (queue_ok_remove _ _ [] n tail t Hqu) as Hq'. specialize (Hcut _ Hq').
    pose proof (erase_if_empty_cut p (mkLevel tail (u64 (t - node_quantity n))) [] rest
      (ordered_update_cut (price_before sd) _ _ _ [] rest (side_ordered _ _ Hok))) as He.
    cbn [app] in He. rewrite He.
    do 2 eexists. split; [done|]. split; [exact Hcut|]. left.
    split_and!; [done|done|apply (entries_erase_cut sd p (mkLevel tail _) [] rest)|].
    apply (side_orders_erase_cut p (mkLevel tail _) [] rest).
  - assert (0 < q < node_quantity n) as Hlt by lia.
    do 2 eexists. split; [done|]. split.
    + apply (Hcut _ (queue_ok_reduce _ _ _ _ _ _ Hqu Hlt)).
    + right. autorewrite with sides. cbn. autorewrite with sides. split_and!; [lia|done|done|done].
Qed.
End side_ops.
