(* ===== verification/BookOps.v ===== *)
(** What the public operations of [OrderBook] do to the abstract book, the two
    lists [orders_on b BUY] and [orders_on b SELL], under [book_ok]. *)

From S2P Require Import Prelude.
From S2P Require Import OrderTypes.
From S2P Require Import LevelMap.
From S2P Require Import PriceTime.
From S2P Require Import OrderBook.
From S2P Require Import BookInvariant.

#[local] Open Scope Z_scope.

(** The orders resting on a side, in priority order. *)
Definition orders_on (b : OrderBook) (sd : Side) : list Order.t := side_orders (levels_of b sd).

(** A validated order that [addOrder] must accept: what the matching engine
    guarantees when it lets an order rest. *)
Record addable (b : OrderBook) (o : Order.t) : Prop := {
  add_resting : resting (Order.side o) (Order.price o) o;
  add_side : isValidSide (Order.side o) = true;
  add_fresh : locations_ b !! Order.id o = None;
  add_latest : Forall (fun x => Order.sequence x <= Order.sequence o) (orders_on b (Order.side o))
}.

Lemma valid_side_cases sd : isValidSide sd = true -> sd = BUY \/ sd = SELL.
Proof. destruct sd; cbn; [by left|by right|done]. Qed.

(** Case analysis on a valid side, with the branch conditions evaluated. *)
Ltac by_side H := destruct (valid_side_cases _ H) as [->| ->]; clear H.

(** Evaluate the side selectors at [BUY] and [SELL]. *)
Ltac side_cbn :=
  repeat match goal with
  | H : context [levels_of ?b BUY] |- _ => change (levels_of b BUY) with (buy_levels_ b) in H
  | H : context [levels_of ?b SELL] |- _ => change (levels_of b SELL) with (sell_levels_ b) in H
  | H : context [price_before BUY] |- _ => change (price_before BUY) with greater in H
  | H : context [price_before SELL] |- _ => change (price_before SELL) with less in H
  | |- context [bool_decide (BUY = BUY)] => change (bool_decide (BUY = BUY)) with true
  | |- context [bool_decide (SELL = BUY)] => change (bool_decide (SELL = BUY)) with false
  end; cbn [fst snd mbind result_bind].

Section facts.
Implicit Types (b : OrderBook) (sd : Side) (o : Order.t).

Lemma side_ok_of b sd : book_ok b -> isValidSide sd = true -> side_ok sd (levels_of b sd).
Proof. intros [] Hv. by by_side Hv. Qed.

Lemma book_ids b :
  entry_id <$> (entries BUY (buy_levels_ b) ++ entries SELL (sell_levels_ b))
  = Order.id <$> (orders_on b BUY ++ orders_on b SELL).
Proof. rewrite !fmap_app, !entries_ids. done. Qed.

Lemma book_ids_NoDup b : book_ok b -> NoDup (Order.id <$> (orders_on b BUY ++ orders_on b SELL)).
Proof. intros [_ _ []]. by rewrite <- book_ids. Qed.

(** The index knows exactly the resting ids. *)
Lemma book_lookup b i :
  book_ok b ->
  is_Some (locations_ b !! i) <-> i ∈ Order.id <$> (orders_on b BUY ++ orders_on b SELL).
Proof.
  intros [_ _ Hi]. rewrite <- book_ids, list_elem_of_fmap. split.
  - intros [loc (e & He & <- & _)%(index_ok_lookup _ _ _ _ _ Hi)]. eauto.
  - intros (e & -> & He). exists (entry_loc e). apply (index_ok_lookup _ _ _ _ _ Hi). eauto.
Qed.

Lemma book_count b :
  book_ok b ->
  orderCount b = Z.of_nat (length (orders_on b BUY) + length (orders_on b SELL)).
Proof.
  intros [_ _ Hi]. unfold orderCount. rewrite (index_ok_size _ _ _ Hi).
  rewrite <- (length_fmap entry_id), book_ids, length_fmap, length_app. done.
Qed.

Lemma side_orders_resting sd levels o :
  side_ok sd levels -> o ∈ side_orders levels -> resting sd (Order.price o) o.
Proof.
  intros [_ Hl] (n & -> & ([p lv] & Hn & Hin)%list_elem_of_bind)%list_elem_of_fmap.
  rewrite Forall_forall in Hl. destruct (Hl _ Hin) as [[Hr _ _] _].
  rewrite Forall_forall in Hr. pose proof (Hr _ Hn) as Hrn. by rewrite (resting_price _ _ _ Hrn).
Qed.

Lemma orders_on_resting b sd o :
  book_ok b -> isValidSide sd = true -> o ∈ orders_on b sd -> resting sd (Order.price o) o.
Proof. intros Hok Hv. by apply side_orders_resting, side_ok_of. Qed.

Lemma orders_on_live b sd : book_ok b -> isValidSide sd = true -> Forall live (orders_on b sd).
Proof.
  intros Hok Hv. apply Forall_forall. intros o Ho.
  destruct (orders_on_resting b sd o Hok Hv Ho). unfold live. lia.
Qed.

(** The levels in map order, each FIFO, are the orders in price-time order. *)
Lemma side_orders_prioritised sd levels : side_ok sd levels -> prioritised sd (side_orders levels).
Proof.
  intros [Ho Hl]. unfold prioritised. induction levels as [|[p lv] levels IH]; [constructor|].
  apply Forall_cons in Hl as [[[Hr Hf _] _] Hl]. cbn in Hr, Hf.
  pose proof (side_ok_prices sd [] p lv levels Ho Hl) as [_ Hp].
  apply StronglySorted_inv in Ho as [Ho _]. rewrite side_orders_cons, StronglySorted_app_iff.
  split_and!; [|by apply IH|].
  - clear -Hr Hf. induction Hf as [|n q Hf IH Hn]; [constructor|].
    apply Forall_cons in Hr as [Hr0 Hr]. cbn. constructor; [by apply IH|].
    rewrite Forall_fmap. apply Forall_forall. intros m Hm. right. cbn.
    rewrite Forall_forall in Hr, Hn. destruct (Hr _ Hm), Hr0. split; [congruence|by apply Hn].
  - intros x y (n & -> & Hn)%list_elem_of_fmap Hy. left.
    rewrite Forall_forall in Hr. rewrite Forall_forall in Hp. destruct (Hr _ Hn) as [_ _ Hpn]. rewrite Hpn. by apply Hp.
Qed.

Lemma orders_on_prioritised b sd :
  book_ok b -> isValidSide sd = true -> prioritised sd (orders_on b sd).
Proof. intros Hok Hv. by apply side_orders_prioritised, side_ok_of. Qed.

(** * Queries *)

Lemma front_of_levels_spec sd levels :
  side_ok sd levels -> front_of_levels levels = Ok (head (side_orders levels)).
Proof.
  intros Hok. destruct (decide (levels = [])) as [->|Hne]; [done|].
  destruct (side_ok_front _ _ Hok Hne) as (p & n & tail & t & rest & ->). done.
Qed.

Lemma frontOfBest_spec b sd :
  book_ok b -> isValidSide sd = true -> frontOfBest b sd = Ok (head (orders_on b sd)).
Proof.
  intros Hok Hv. pose proof (side_ok_of b sd Hok Hv) as Hs.
  by_side Hv; by apply (front_of_levels_spec _ _ Hs).
Qed.

Lemma levels_empty_spec sd levels :
  side_ok sd levels ->
  levels_empty levels = match side_orders levels with [] => true | _ => false end.
Proof.
  intros Hok. destruct (decide (levels = [])) as [->|Hne]; [done|].
  destruct (side_ok_front _ _ Hok Hne) as (p & n & tail & t & rest & ->). done.
Qed.

Lemma emptySide_spec b sd :
  book_ok b -> isValidSide sd = true ->
  emptySide b sd = match orders_on b sd with [] => true | _ => false end.
Proof.
  intros Hok Hv. pose proof (side_ok_of b sd Hok Hv) as Hs.
  by_side Hv; by apply (levels_empty_spec _ _ Hs).
Qed.

Lemma best_of_levels sd p lv rest :
  side_ok sd ((p, lv) :: rest) ->
  exists o, head (side_orders ((p, lv) :: rest)) = Some o /\ Order.price o = p.
Proof.
  intros Hok. pose proof Hok as [_ Hl]. apply Forall_cons in Hl as [[[Hr _ _] Hne] _]. cbn in Hr, Hne.
  rewrite side_orders_cons. destruct (orders lv) as [|n q]; [done|].
  apply Forall_cons in Hr as [[] _]. by exists (node_value n).
Qed.

Lemma bestBid_spec b : book_ok b -> bestBid b = Order.price <$> head (orders_on b BUY).
Proof.
  intros [Hok _ _]. unfold bestBid, orders_on. change (levels_of b BUY) with (buy_levels_ b).
  destruct (buy_levels_ b) as [|[p lv] rest]; [done|].
  destruct (best_of_levels _ _ _ _ Hok) as (o & -> & <-). done.
Qed.

Lemma bestAsk_spec b : book_ok b -> bestAsk b = Order.price <$> head (orders_on b SELL).
Proof.
  intros [_ Hok _]. unfold bestAsk, orders_on. change (levels_of b SELL) with (sell_levels_ b).
  destruct (sell_levels_ b) as [|[p lv] rest]; [done|].
  destruct (best_of_levels _ _ _ _ Hok) as (o & -> & <-). done.
Qed.

(** * Updates

    Both branches of an update write one side; [set_side] is the book after it. *)

Definition set_side b sd (levels : list (Z * PriceLevel)) (locs : gmap Z OrderLocation) (next : Z) :
    OrderBook :=
  if bool_decide (sd = BUY) then mkBook levels (sell_levels_ b) locs next
  else mkBook (buy_levels_ b) levels locs next.

Lemma book_ok_side b sd :
  isValidSide sd = true ->
  book_ok b <->
  side_ok sd (levels_of b sd) /\ side_ok (opposite sd) (levels_of b (opposite sd))
  /\ index_ok (locations_ b) (next_node b)
       (entries sd (levels_of b sd) ++ entries (opposite sd) (levels_of b (opposite sd))).
Proof.
  intros Hv. by_side Hv.
  - split; [intros []; split_and!; done|intros (? & ? & ?); by split].
  - rewrite (Permutation_app_comm (entries SELL _)).
    split; [intros []; split_and!; done|intros (? & ? & ?); by split].
Qed.

Lemma levels_of_set b sd levels locs next :
  isValidSide sd = true ->
  levels_of (set_side b sd levels locs next) sd = levels
  /\ levels_of (set_side b sd levels locs next) (opposite sd) = levels_of b (opposite sd)
  /\ locations_ (set_side b sd levels locs next) = locs
  /\ next_node (set_side b sd levels locs next) = next.
Proof. intros Hv. by by_side Hv. Qed.

Lemma set_side_ok b sd levels locs next :
  book_ok b -> isValidSide sd = true -> side_ok sd levels ->
  index_ok locs next (entries sd levels ++ entries (opposite sd) (levels_of b (opposite sd))) ->
  book_ok (set_side b sd levels locs next).
Proof.
  intros Hok Hv Hs Hi. apply (book_ok_side b sd Hv) in Hok as (_ & Ho & _).
  apply (book_ok_side _ sd); [done|].
  by destruct (levels_of_set b sd levels locs next Hv) as (-> & -> & -> & ->).
Qed.

Lemma addOrder_spec b o :
  book_ok b -> addable b o ->
  exists b', addOrder b o = Ok (true, b') /\ book_ok b'
    /\ orders_on b' (Order.side o) = pt_insert (Order.side o) o (orders_on b (Order.side o))
    /\ orders_on b' (opposite (Order.side o)) = orders_on b (opposite (Order.side o))
    /\ locations_ b' =
         <[Order.id o := mkLocation (Order.side o) (Order.price o) (next_node b)]> (locations_ b).
Proof.
  intros Hok [Hr Hv Hf Hl]. pose proof Hok as (Hs & _ & Hi)%(book_ok_side b _ Hv).
  destruct (side_add _ (levels_of b (Order.side o)) (next_node b) o Hs Hr Hl) as (H1 & H2 & H3).
  set (levels' := update _ _ _ _) in H1, H2, H3.
  set (locs' := <[Order.id o := mkLocation (Order.side o) (Order.price o) (next_node b)]> (locations_ b)).
  exists (set_side b (Order.side o) levels' locs' (next_node b + 1)). unfold orders_on.
  destruct (levels_of_set b (Order.side o) levels' locs' (next_node b + 1) Hv) as (-> & -> & -> & _).
  split; [|split; [apply set_side_ok; [done|done|exact H1|]|split_and!; [exact H3|done|done]]].
  - unfold addOrder, contains, emplace_location. destruct Hr as [Hid Hq _ _ Ht Hp].
    rewrite Hf, (proj2 (Z.eqb_neq _ 0) Hid), (proj2 (Z.eqb_neq (Order.quantity o) 0)),
      (proj2 (Z.leb_gt (Order.price o) 0)), Ht, bool_decide_true,
      (bool_decide_false (is_Some None)) by (done || lia || by intros [? [=]]).
    subst levels' locs'. by destruct (valid_side_cases _ Hv) as [-> | ->].
  - rewrite H2. apply (index_ok_insert _ _ _ (_, _, mkNode (next_node b) o) Hi); done.
Qed.

Lemma deref_node b e :
  book_ok b -> e ∈ entries BUY (buy_levels_ b) ++ entries SELL (sell_levels_ b) ->
  deref b (entry_addr e) = Ok (node_value e.2).
Proof.
  intros [_ _ [_ Ha _ _]] He. unfold deref.
  assert (e.2 ∈ level_nodes (buy_levels_ b) ++ level_nodes (sell_levels_ b)) as Hn.
  { rewrite <- (entries_nodes BUY), <- (entries_nodes SELL), <- fmap_app.
    by apply list_elem_of_fmap_2. }
  rewrite fmap_app, !entries_addrs, <- fmap_app in Ha.
  apply list_elem_of_split in Hn as (l1 & l2 & Hn). rewrite Hn in *.
  unfold entry_addr. by rewrite list_deref_app.
Qed.

Lemma pt_remove_absent i l : i ∉ Order.id <$> l -> pt_remove i l = l.
Proof.
  intros H. apply filter_all. apply Forall_forall. intros o Ho Heq. apply H.
  rewrite <- Heq. by apply list_elem_of_fmap_2.
Qed.

(** The ids of the two sides are disjoint and each id rests once. *)
Lemma side_ids b sd :
  book_ok b -> isValidSide sd = true ->
  NoDup (Order.id <$> orders_on b sd)
  /\ (forall i, i ∈ Order.id <$> orders_on b sd -> i ∉ Order.id <$> orders_on b (opposite sd)).
Proof.
  intros Hok%book_ids_NoDup Hv. rewrite fmap_app in Hok.
  apply NoDup_app in Hok as (H1 & H2 & H3). by_side Hv; (split; [done|]); [done|].
  intros i Hi Hi'. by apply (H2 i).
Qed.

Lemma pt_remove_other b sd i :
  book_ok b -> isValidSide sd = true -> i ∈ Order.id <$> orders_on b sd ->
  pt_remove i (orders_on b (opposite sd)) = orders_on b (opposite sd).
Proof. intros Hok Hv Hi. apply pt_remove_absent. by apply (side_ids b sd Hok Hv). Qed.

Lemma opposite_valid sd : isValidSide (opposite sd) = true.
Proof. unfold opposite. by case_bool_decide. Qed.

Lemma both_sides (P : Side -> Prop) sd :
  isValidSide sd = true -> P sd -> P (opposite sd) ->
  forall sd', isValidSide sd' = true -> P sd'.
Proof. intros Hv H1 H2 sd' Hv'. by by_side Hv; by_side Hv'. Qed.

Lemma cancelOrder_spec b i :
  book_ok b -> is_Some (locations_ b !! i) ->
  exists o b', cancelOrder b i = Ok (Some o, b') /\ book_ok b'
    /\ Order.id o = i /\ isValidSide (Order.side o) = true /\ o ∈ orders_on b (Order.side o)
    /\ (forall sd, isValidSide sd = true -> orders_on b' sd = pt_remove i (orders_on b sd))
    /\ locations_ b' = delete i (locations_ b).
Proof.
  intros Hok [loc Hloc]. pose proof Hok as [_ _ Hi].
  pose proof Hloc as (e & He & <- & <-)%(index_ok_lookup _ _ _ _ _ Hi).
  unfold cancelOrder. rewrite Hloc. change (order_it (entry_loc e)) with (entry_addr e).
  rewrite (deref_node b e Hok He). destruct e as [[sd p] n].
  assert (isValidSide sd = true /\ (sd, p, n) ∈ entries sd (levels_of b sd)) as [Hv He'].
  { apply elem_of_app in He as [He|He]; pose proof He as [-> _]%entries_elem; done. }
  clear Hi He. pose proof Hok as (Hs & _ & Hi)%(book_ok_side b _ Hv).
  pose proof (idx_addrs _ _ _ Hi) as Ha. rewrite fmap_app in Ha. apply NoDup_app in Ha as (Ha & _ & _).
  destruct (side_cancel sd _ p n Hs He' Ha) as (levels' & Hc & H1 & H2 & l1 & l2 & H3 & H4).
  assert (node_value n ∈ orders_on b sd) as Hn by (unfold orders_on; rewrite H3; set_solver).
  destruct (orders_on_resting _ _ _ Hok Hv Hn) as [_ _ _ Hsd _ _].
  destruct (levels_of_set b sd levels' (delete (entry_id (sd, p, n)) (locations_ b)) (next_node b) Hv)
    as (E1 & E2 & E3 & _).
  exists (node_value n), (set_side b sd levels' (delete (entry_id (sd, p, n)) (locations_ b)) (next_node b)).
  rewrite Hsd. split_and!; [|apply set_side_ok; [done|done|done|]|done|done|done| |done].
  - unfold node_quantity in Hc. unfold entry_loc. cbn [fst snd loc_side mbind result_bind].
    by_side Hv; unfold set_side; side_cbn; by rewrite Hc.
  - rewrite H2 in Hi. exact (index_ok_delete _ _ (sd, p, n) _ Hi).
  - apply (both_sides _ sd Hv); unfold orders_on; rewrite ?E1, ?E2.
    + rewrite H4, H3. symmetry. apply pt_remove_app; [|done].
      rewrite <- H3. apply (side_ids b sd Hok Hv).
    + symmetry. apply (pt_remove_other b sd); [done|done|].
      exact (list_elem_of_fmap_2 Order.id _ _ Hn).
Qed.

Lemma index_reduce sd p n tail rest levels' locs next q R :
  index_ok locs next (entries sd ((p, mkLevel (n :: tail) R.1) :: rest) ++ R.2) ->
  let o' := Order.with_quantity (node_quantity n - q) (node_value n) in
  (entries sd levels' = ((fun n => (sd, p, n)) <$> tail) ++ entries sd rest ->
   index_ok (delete (Order.id (node_value n)) locs) next (entries sd levels' ++ R.2))
  /\ (entries sd levels' =
        (sd, p, mkNode (node_addr n) o') :: ((fun n => (sd, p, n)) <$> tail) ++ entries sd rest ->
      index_ok locs next (entries sd levels' ++ R.2)).
Proof.
  rewrite entries_cons, orders_mkLevel, fmap_cons, <- app_assoc.
  intros Hi o'. split; intros ->.
  - rewrite <- app_assoc. exact (index_ok_delete _ _ (sd, p, n) _ Hi).
  - rewrite <- app_comm_cons, <- app_assoc.
    by apply (index_ok_replace _ _ (sd, p, n) (sd, p, mkNode (node_addr n) o')).
Qed.

Lemma reduceFront_spec b sd o rest q :
  book_ok b -> isValidSide sd = true -> orders_on b sd = o :: rest -> 0 < q <= Order.quantity o ->
  exists b', reduceFront b sd q = Ok b' /\ book_ok b'
    /\ orders_on b' sd = (if q <? Order.quantity o
         then Order.with_quantity (Order.quantity o - q) o :: rest else rest)
    /\ orders_on b' (opposite sd) = orders_on b (opposite sd)
    /\ locations_ b' = (if q <? Order.quantity o then locations_ b
                        else delete (Order.id o) (locations_ b)).
Proof.
  intros Hok Hv Ho Hq. pose proof Hok as (Hside & _ & Hi)%(book_ok_side b _ Hv).
  assert (levels_of b sd <> []) as Hne by (intros E; unfold orders_on in Ho; by rewrite E in Ho).
  destruct (side_ok_front _ _ Hside Hne) as (p & n & tail & t & levels & El).
  unfold orders_on in Ho. rewrite El in Ho, Hside, Hi. rewrite side_orders_cons in Ho. cbn in Ho.
  simplify_eq.
  destruct (side_reduce sd p n tail t levels (locations_ b) q Hside Hq)
    as (levels' & locs' & Hr & H1 & H2).
  destruct (index_reduce _ _ _ _ _ levels' _ _ q (t, _) Hi) as [Hd Hk].
  destruct (levels_of_set b sd levels' locs' (next_node b) Hv) as (E1 & E2 & E3 & _).
  exists (set_side b sd levels' locs' (next_node b)). unfold orders_on. rewrite E1, E2, E3.
  unfold node_quantity in *.
  split; [|split; [apply set_side_ok; [done|done|done|]|]].
  - by_side Hv; unfold reduceFront, set_side; side_cbn; by rewrite El, Hr.
  - destruct H2 as [(_ & -> & He & _)|(_ & -> & He & _)]; [by apply Hd|by apply Hk].
  - destruct H2 as [(-> & -> & _ & ->)|(Hlt & -> & _ & ->)].
    + by rewrite Z.ltb_irrefl.
    + by rewrite (proj2 (Z.ltb_lt _ _)).
Qed.
End facts.
