(* ===== verification/BookQueries.v ===== *)
(** The preflight and market-data queries of [OrderBook]:
    [executableQuantity], [wouldCross], [topLevels] against the abstract sides. *)

From S2P Require Import Prelude.
From S2P Require Import OrderTypes.
From S2P Require Import LevelMap.
From S2P Require Import PriceTime.
From S2P Require Import OrderBook.
From S2P Require Import BookInvariant.
From S2P Require Import BookOps.

#[local] Open Scope Z_scope.

(** At most this many orders rest at once.  It bounds a level's total below
    [2^64], so the cached [uint64_t] totals are exact. *)
Definition max_resting : Z := 2 ^ 32.

Section queries.
Implicit Types (b : OrderBook) (sd : Side) (o taker : Order.t) (levels : list (Z * PriceLevel)).

Lemma fillable_app taker l1 l2 : fillable taker (l1 ++ l2) = fillable taker l1 + fillable taker l2.
Proof. unfold fillable. by rewrite filter_app, sum_app. Qed.

Lemma fillable_all taker l :
  Forall (fun m => crosses taker (Order.price m) = true) l ->
  fillable taker l = sum Order.quantity l.
Proof. intros H. unfold fillable. by rewrite filter_all. Qed.

Lemma queue_total_exact sd p lv :
  queue_ok sd p lv -> Z.of_nat (length (orders lv)) <= max_resting ->
  total_quantity lv = sum Order.quantity (node_value <$> orders lv).
Proof.
  intros [Hr _ ->] Hlen. rewrite sum_fmap. change (Order.quantity ∘ node_value) with node_quantity.
  apply u64_small.
  assert (0 <= sum node_quantity (orders lv)).
  { apply sum_nonneg. eapply Forall_impl; [exact Hr|]. intros n []. unfold node_quantity. lia. }
  assert (sum node_quantity (orders lv) <= UINT32_MAX * Z.of_nat (length (orders lv))).
  { apply sum_bound. eapply Forall_impl; [exact Hr|]. intros n []. unfold node_quantity, UINT32_MAX. lia. }
  unfold UINT32_MAX, max_resting in *. range.
Qed.

Lemma executable_levels_spec sd taker cap levels : forall total,
  side_ok sd levels -> Order.side taker = opposite sd -> isValidSide sd = true ->
  Z.of_nat (length (side_orders levels)) <= max_resting ->
  0 <= total < cap -> cap < 2 ^ 64 ->
  executable_levels (fun p => negb (crosses taker p)) cap total levels
  = Z.min cap (total + fillable taker (side_orders levels)).
Proof.
  induction levels as [|[p lv] levels IH]; intros total Hok Hsd Hv Hlen Ht Hcap; cbn [executable_levels].
  { change (fillable taker (side_orders [])) with 0. lia. }
  pose proof (side_ok_cut sd p lv [] levels Hok) as (Hq & Hok' & _). cbn [app] in Hok'.
  pose proof (side_orders_prioritised _ _ Hok) as Hp.
  pose proof Hok as [_ Hl]. apply Forall_cons in Hl as [[_ Hne] _]. cbn in Hne.
  rewrite side_orders_cons in *. rewrite length_app, length_fmap in Hlen.
  destruct (crosses taker p) eqn:Ec; cbn [negb].
  - rewrite fillable_app, fillable_all.
    2:{ rewrite Forall_fmap. eapply Forall_impl; [apply Hq|].
        intros n [_ _ Hpn _ _ _]. cbn. by rewrite Hpn. }
    rewrite (queue_total_exact sd p lv Hq) by lia.
    set (s := sum Order.quantity _).
    assert (0 <= fillable taker (side_orders levels)).
    { apply fillable_nonneg. apply Forall_forall. intros o Ho.
      destruct (side_orders_resting _ _ _ Hok' Ho). unfold live. lia. }
    assert (0 <= s).
    { apply sum_nonneg. rewrite Forall_fmap. eapply Forall_impl; [apply Hq|].
      intros n []. cbn. lia. }
    rewrite (u64_small (cap - total)), u64_small by range.
    case_match eqn:E; [lia|]. rewrite IH; [lia|done|done|done|lia|lia|lia].
  - destruct (orders lv) as [|n q] eqn:Eo; [done|]. cbn in Hp |- *.
    rewrite (fillable_stop sd); [lia|done|done|done|].
    pose proof (lvl_resting _ _ _ Hq) as Hr. rewrite Eo in Hr.
    apply Forall_cons in Hr as [[_ _ Hpn _ _ _] _]. by rewrite Hpn.
Qed.

Lemma executable_levels_ext f g cap levels : (forall p, f p = g p) -> forall total,
  executable_levels f cap total levels = executable_levels g cap total levels.
Proof.
  intros H. induction levels as [|[p lv] levels IH]; intros total; cbn; [done|].
  rewrite H. by repeat case_match.
Qed.

Lemma executableQuantity_spec b o cap :
  book_ok b -> orderCount b <= max_resting ->
  isValidSide (Order.side o) = true -> isValidOrderType (Order.type o) = true ->
  0 <= cap < 2 ^ 64 ->
  executableQuantity b o cap = Z.min cap (fillable o (orders_on b (opposite (Order.side o)))).
Proof.
  intros Hok Hc Hv Ht Hcap. unfold executableQuantity. rewrite Hv, Ht. cbn [negb]. rewrite !orb_false_r.
  pose proof (fillable_nonneg o _ (orders_on_live b _ Hok (opposite_valid (Order.side o)))).
  destruct (cap =? 0) eqn:E0; [lia|].
  pose proof (side_ok_of b _ Hok (opposite_valid (Order.side o))) as Hs.
  rewrite (book_count b Hok) in Hc.
  transitivity (executable_levels (fun p => negb (crosses o p)) cap 0
                  (levels_of b (opposite (Order.side o)))).
  - unfold isValidOrderType in Ht.
    destruct (valid_side_cases _ Hv) as [E|E]; rewrite E; side_cbn;
      apply executable_levels_ext; intros p; unfold crosses; rewrite E;
      repeat case_bool_decide; try (discriminate Ht || congruence);
      first [done|apply Z.ltb_antisym].
  - apply (executable_levels_spec (opposite (Order.side o))); [done| |apply opposite_valid| |lia|lia].
    + by destruct (valid_side_cases _ Hv) as [-> | ->].
    + destruct (valid_side_cases _ Hv) as [-> | ->]; unfold orders_on in Hc;
        change (opposite BUY) with SELL; change (opposite SELL) with BUY; lia.
Qed.

Lemma wouldCross_spec b o :
  book_ok b -> isValidSide (Order.side o) = true -> isValidOrderType (Order.type o) = true ->
  wouldCross b o = Ok (match orders_on b (opposite (Order.side o)) with
                       | [] => false | m :: _ => crosses o (Order.price m) end).
Proof.
  intros Hok Hv Ht. unfold wouldCross. rewrite Hv, Ht. cbn [negb orb].
  change (if bool_decide (Order.side o = BUY) then SELL else BUY) with (opposite (Order.side o)).
  rewrite (frontOfBest_spec b) by auto using opposite_valid. cbn [mbind result_bind].
  destruct (orders_on b _) as [|m rest]; cbn [head]; [done|]. unfold crosses.
  by repeat case_bool_decide.
Qed.

Definition snapshot_of (kv : Z * PriceLevel) : LevelSnapshot :=
  mkSnapshot kv.1 (total_quantity kv.2) (Z.of_nat (length (orders kv.2))).

Lemma top_of_levels_spec k levels : forall out,
  (length out <= k)%nat ->
  top_of_levels (Z.of_nat k) out levels = out ++ take (k - length out) (snapshot_of <$> levels).
Proof.
  induction levels as [|[p lv] levels IH]; intros out Hk; cbn.
  { by rewrite take_nil, app_nil_r. }
  case_match eqn:E.
  - replace (k - length out)%nat with 0%nat by lia. by rewrite app_nil_r.
  - rewrite IH by (rewrite length_app; cbn; lia). rewrite length_app. cbn.
    replace (k - length out)%nat with (S (k - (length out + 1)))%nat by lia.
    by rewrite <- app_assoc.
Qed.
End queries.
