(* ===== verification/BookCheck.v ===== *)
(** [OrderBook::checkInvariants] decides exactly the declarative invariant
    [checked], and [book_ok] with an uncrossed top implies it. *)

From S2P Require Import Prelude.
From S2P Require Import OrderTypes.
From S2P Require Import LevelMap.
From S2P Require Import PriceTime.
From S2P Require Import OrderBook.
From S2P Require Import BookInvariant.
From S2P Require Import BookOps.
From S2P Require Import BookQueries.

#[local] Open Scope Z_scope.

(** * What the function checks *)

Definition node_id (n : Node) : Z := Order.id (node_value n).

(** One order against its level and its index entry. *)
Record node_checked (locs : gmap Z OrderLocation) (sd : Side) (price : Z) (n : Node) : Prop := {
  chk_id : node_id n <> 0;
  chk_quantity : node_quantity n <> 0;
  chk_price : Order.price (node_value n) = price;
  chk_side : Order.side (node_value n) = sd;
  chk_type : Order.type (node_value n) = LIMIT;
  chk_located : locs !! node_id n = Some (mkLocation sd price (node_addr n))
}.

Record level_checked (locs : gmap Z OrderLocation) (sd : Side) (kv : Z * PriceLevel) : Prop := {
  chk_nonempty : orders kv.2 <> [];
  chk_nodes : Forall (node_checked locs sd kv.1) (orders kv.2);
  chk_fifo : StronglySorted not_newer (orders kv.2);
  chk_total : total_quantity kv.2 = u64 (sum node_quantity (orders kv.2))
}.

Record checked (b : OrderBook) : Prop := {
  chk_uncrossed : uncrossed b;
  chk_buy_ordered : ordered greater (buy_levels_ b);
  chk_buy : Forall (level_checked (locations_ b) BUY) (buy_levels_ b);
  chk_sell_ordered : ordered less (sell_levels_ b);
  chk_sell : Forall (level_checked (locations_ b) SELL) (sell_levels_ b);
  chk_unique : NoDup (node_id <$> (level_nodes (buy_levels_ b) ++ level_nodes (sell_levels_ b)));
  chk_count : u64 (Z.of_nat (length (level_nodes (buy_levels_ b) ++ level_nodes (sell_levels_ b))))
              = orderCount b
}.

(** * The loops *)

(** The captured counters after scanning [nodes]. *)
Definition saw (seen : Seen) (nodes : list Node) : Seen :=
  mkSeen (u64 (seen_orders seen + Z.of_nat (length nodes)))
    (list_to_set (node_id <$> nodes) ∪ seen_ids seen).

Lemma saw_app seen l1 l2 : saw (saw seen l1) l2 = saw seen (l1 ++ l2).
Proof.
  unfold saw. cbn. f_equal.
  - rewrite u64_add_l, length_app, Nat2Z.inj_add. f_equal. lia.
  - rewrite fmap_app, list_to_set_app_L. set_solver.
Qed.

Lemma saw_nil seen : is_u64 (seen_orders seen) -> saw seen [] = seen.
Proof.
  intros H. destruct seen. unfold saw. cbn in *. f_equal; [|set_solver].
  rewrite u64_small; range.
Qed.

(** Ids new to the scan so far, and pairwise distinct. *)
Definition unseen (seen : Seen) (nodes : list Node) : Prop :=
  NoDup (node_id <$> nodes) /\ Forall (fun n => node_id n ∉ seen_ids seen) nodes.

Lemma unseen_app seen l1 l2 :
  unseen seen (l1 ++ l2) <-> unseen seen l1 /\ unseen (saw seen l1) l2.
Proof.
  unfold unseen, saw. cbn. rewrite fmap_app, NoDup_app, Forall_app, !Forall_forall.
  setoid_rewrite elem_of_union. setoid_rewrite elem_of_list_to_set.
  setoid_rewrite list_elem_of_fmap. split.
  - intros ((H1 & H2 & H3) & H4 & H5). split_and!; [done|done|done|].
    intros n Hn [Hin|Hs]; [|by apply (H5 n)]. apply (H2 _ Hin). eauto.
  - intros ((H1 & H2) & H3 & H4). split_and!; [done| |done|done|].
    + intros i Hi (n & -> & Hn). apply (H4 n Hn). by left.
    + intros n Hn Hs. apply (H4 n Hn). by right.
Qed.

Lemma unseen_cons seen n l :
  unseen seen (n :: l) <-> node_id n ∉ seen_ids seen /\ unseen (saw seen [n]) l.
Proof.
  rewrite (unseen_app seen [n] l). unfold unseen at 1. cbn.
  rewrite Forall_singleton. pose proof (NoDup_singleton (node_id n)). tauto.
Qed.

Section loops.
Context (locs : gmap Z OrderLocation) (sd : Side).

(** The comparison of an order with its predecessor in the level. *)
Definition follows (first : bool) (previous : Z) (nodes : list Node) : Prop :=
  first = true \/ Forall (fun n => previous <= Order.sequence (node_value n)) nodes.

Lemma follows_cons first prev n nodes :
  StronglySorted not_newer (n :: nodes) /\ follows first prev (n :: nodes) <->
  (negb first && (Order.sequence (node_value n) <? prev) = false)
  /\ StronglySorted not_newer nodes /\ follows false (Order.sequence (node_value n)) nodes.
Proof.
  unfold follows, not_newer. split.
  - intros [[Hs Hf]%StronglySorted_inv H]. split_and!; [|done|by right].
    destruct H as [->|[Hn _]%Forall_cons]; [done|]. destruct first; cbn; [done|]. lia.
  - intros (H1 & H2 & [?|H3]); [done|]. split; [by constructor|].
    destruct first; [by left|right]. cbn in H1. constructor; [lia|].
    eapply Forall_impl; [exact H3|]. cbn. lia.
Qed.

(** The per-order tests of the loop body. *)
Lemma node_tests price n :
  node_checked locs sd price n <->
  (node_id n =? 0) || (node_quantity n =? 0) || negb (Order.price (node_value n) =? price)
    || negb (bool_decide (Order.side (node_value n) = sd))
    || negb (bool_decide (Order.type (node_value n) = LIMIT)) = false
  /\ exists loc, locs !! node_id n = Some loc
     /\ negb (bool_decide (loc_side loc = sd)) || negb (loc_price loc =? price)
        || negb (order_it loc =? node_addr n) = false.
Proof.
  rewrite !orb_false_iff, !negb_false_iff, !bool_decide_eq_true, !Z.eqb_neq, Z.eqb_eq.
  setoid_rewrite orb_false_iff. setoid_rewrite orb_false_iff.
  setoid_rewrite negb_false_iff. setoid_rewrite bool_decide_eq_true. setoid_rewrite Z.eqb_eq.
  split.
  - intros []. split; [tauto|]. eexists. split; [done|]. done.
  - intros (H & [s p a] & Hl & (Hs & Hp) & Ha). cbn in *. subst. split; tauto.
Qed.

Lemma check_orders_spec price nodes : forall s prev first seen r,
  is_u64 s -> is_u64 (seen_orders seen) ->
  check_orders locs sd price nodes s prev first seen = Some r <->
  Forall (node_checked locs sd price) nodes
  /\ StronglySorted not_newer nodes /\ follows first prev nodes /\ unseen seen nodes
  /\ r = (u64 (s + sum node_quantity nodes), saw seen nodes).
Proof.
  induction nodes as [|n nodes IH]; intros s prev first seen r Hs Hn; cbn [check_orders].
  { rewrite saw_nil, sum_nil, Z.add_0_r, u64_small by done. split.
    - intros [= <-]. split_and!; [constructor|constructor|by right|split; constructor|done].
    - by intros (_ & _ & _ & _ & ->). }
  fold (node_id n) (node_quantity n).
  rewrite Forall_cons, node_tests, unseen_cons.
  rewrite (assoc and (StronglySorted _ _) (follows _ _ _)).
  rewrite follows_cons.
  match goal with |- (if ?c then _ else _) = _ <-> _ => destruct c eqn:E1 end; [split; [done|by intros ([[[=] _] _] & _)]|].
  destruct (negb first && _) eqn:E2; [split; [done|by intros (_ & ([=] & _) & _)]|].
  destruct (bool_decide (node_id n ∈ seen_ids seen)) eqn:E3;
    [apply bool_decide_eq_true in E3; split; [done|by intros (_ & _ & (? & _) & _)]
    |apply bool_decide_eq_false in E3].
  destruct (locs !! node_id n) as [loc|] eqn:E4;
    [|split; [done|intros ([[_ (? & [=] & _)] _] & _)]].
  match goal with |- (if ?c then _ else _) = _ <-> _ => destruct c eqn:E5 end.
  { split; [done|]. intros ([[_ (? & [= <-] & E6)] _] & _). by rewrite E5 in E6. }
  rewrite IH by (cbn; auto with word).
  assert (mkSeen (u64 (seen_orders seen + 1)) ({[node_id n]} ∪ seen_ids seen) = saw seen [n]) as ->.
  { unfold saw. cbn. f_equal. set_solver. }
  rewrite saw_app, sum_cons, u64_add_l, Z.add_assoc. cbn [app]. naive_solver.
Qed.

Lemma check_level_spec price lv seen r :
  is_u64 (seen_orders seen) ->
  check_level locs sd price lv seen = Some r <->
  level_checked locs sd (price, lv) /\ unseen seen (orders lv) /\ r = saw seen (orders lv).
Proof.
  intros Hn. unfold check_level. destruct (orders lv) as [|n q] eqn:Eo.
  { split; [done|]. intros ([Hne _ _ _] & _). cbn in Hne. by rewrite Eo in Hne. }
  rewrite <- Eo. destruct (check_orders _ _ _ _ _ _ _ _) as [[s seen']|] eqn:E; cbn [mbind option_bind].
  - apply check_orders_spec in E as (H1 & H2 & H3 & H4 & [= -> ->]); [|range|done].
    rewrite Z.add_0_l. case_match eqn:Et.
    + split; [intros [= <-]; split_and!; [|done|done]|by intros (_ & _ & ->)].
      split; cbn; [by rewrite Eo|done|done|lia].
    + split; [done|]. intros ([_ _ _ Ht] & _). cbn in Ht. lia.
  - split; [done|]. intros ([_ H1 H2 H3] & H4 & H5). exfalso.
    assert (check_orders locs sd price (orders lv) 0 0 true seen
            = Some (u64 (0 + sum node_quantity (orders lv)), saw seen (orders lv))) as E'.
    { apply check_orders_spec; [range|done|]. split_and!; try done. by left. }
    congruence.
Qed.
End loops.

Section level_loop.
Context (locs : gmap Z OrderLocation) (sd : Side) (before : Z -> Z -> bool) `{!Comparator before}.

Lemma check_levels_spec misplaced (Hm : forall p q, misplaced p q = negb (before q p)) levels :
  forall first prev seen seen',
  is_u64 (seen_orders seen) ->
  (exists prev', check_levels locs sd misplaced first prev levels seen = Some (prev', seen')) <->
  ordered before levels /\ (first = true \/ Forall (fun kv => before prev kv.1 = true) levels)
  /\ Forall (level_checked locs sd) levels /\ unseen seen (level_nodes levels)
  /\ seen' = saw seen (level_nodes levels).
Proof.
  induction levels as [|[p lv] levels IH]; intros first prev seen seen' Hn; cbn [check_levels].
  { change (level_nodes []) with (@nil Node). rewrite saw_nil by done. split.
    - intros [? [= _ <-]]. split_and!; [constructor|by right|constructor|split; constructor|done].
    - intros (_ & _ & _ & _ & ->). eauto. }
  rewrite level_nodes_cons, unseen_app, (Forall_cons (level_checked locs sd)), Hm, <- saw_app.
  assert (is_u64 (seen_orders (saw seen (orders lv)))) as Hn' by apply u64_range.
  assert (forall P, ordered before ((p, lv) :: levels)
    /\ (first = true \/ Forall (fun kv => before prev kv.1 = true) ((p, lv) :: levels)) /\ P <->
    negb first && negb (before prev p) = false
    /\ ordered before levels
    /\ (false = true \/ Forall (fun kv => before p kv.1 = true) levels) /\ P) as Horder.
  { intros P. unfold ordered. split.
    - intros ([Ho Hf]%StronglySorted_inv & Hp & HP). split_and!; [|done|by right|done].
      destruct Hp as [->|[Hp _]%Forall_cons]; [done|]. cbn in Hp. rewrite Hp. by destruct first.
    - intros (Hp & Ho & [?|Hf] & HP); [done|]. split_and!; [by constructor| |done].
      destruct first; [by left|right]. cbn in Hp. apply negb_false_iff in Hp.
      constructor; [done|]. eapply Forall_impl; [exact Hf|]. intros kv. by apply before_trans. }
  rewrite Horder. clear Horder.
  destruct (negb first && negb (before prev p)) eqn:E1; [split; [by intros [? ?]|by intros [[=] _]]|].
  destruct (check_level locs sd p lv seen) as [seen1|] eqn:E2; cbn [mbind option_bind].
  - apply check_level_spec in E2 as (H1 & H2 & ->); [|done].
    rewrite IH by done. naive_solver.
  - split; [by intros [? ?]|]. intros (_ & _ & _ & (H1 & _) & (H2 & _) & _). exfalso.
    assert (check_level locs sd p lv seen = Some (saw seen (orders lv))) as E3
      by by apply check_level_spec.
    congruence.
Qed.
End level_loop.

(** The spread test passes exactly on an uncrossed book. *)
Lemma spread_spec b :
  (forall bid ask, bestBid b = Some bid -> bestAsk b = Some ask -> is_i64 (ask - bid)) ->
  exists s, spread b = Ok s
    /\ (match s with Some s => s <=? 0 | None => false end = false <-> uncrossed b).
Proof.
  intros Hrange. unfold spread, uncrossed.
  destruct (bestBid b) as [bid|], (bestAsk b) as [ask|];
    try (exists None; split; [done|]; split; [intros _; congruence|done]).
  exists (Some (ask - bid)). rewrite i64_ok by by apply Hrange. split; [done|].
  rewrite Z.leb_gt. split; [intros ? ? ? [= <-] [= <-]; lia|].
  intros H. specialize (H _ _ eq_refl eq_refl). lia.
Qed.

Lemma unseen_start nodes : unseen (mkSeen 0 ∅) nodes <-> NoDup (node_id <$> nodes).
Proof.
  unfold unseen. split; [by intros []|]. intros. split; [done|]. apply Forall_true. cbn. set_solver.
Qed.

(** The two level loops, composed as the function composes them. *)
Lemma scan_spec b seen' :
  (exists pp, ('(previous_price, seen) ←
       check_levels (locations_ b) BUY (fun price previous => previous <=? price)
         true 0 (buy_levels_ b) (mkSeen 0 ∅);
     check_levels (locations_ b) SELL (fun price previous => price <=? previous)
       true previous_price (sell_levels_ b) seen) = Some (pp, seen')) <->
  (ordered greater (buy_levels_ b) /\ Forall (level_checked (locations_ b) BUY) (buy_levels_ b))
  /\ (ordered less (sell_levels_ b) /\ Forall (level_checked (locations_ b) SELL) (sell_levels_ b))
  /\ NoDup (node_id <$> (level_nodes (buy_levels_ b) ++ level_nodes (sell_levels_ b)))
  /\ seen' = saw (mkSeen 0 ∅) (level_nodes (buy_levels_ b) ++ level_nodes (sell_levels_ b)).
Proof.
  rewrite <- unseen_start, unseen_app, <- saw_app.
  pose proof (check_levels_spec (locations_ b) BUY greater (fun price previous => previous <=? price)
    (fun p q => Z.leb_antisym _ _) (buy_levels_ b) true 0 (mkSeen 0 ∅)) as Hbuy.
  set (seen1 := saw (mkSeen 0 ∅) (level_nodes (buy_levels_ b))) in *.
  assert (is_u64 0) as H0 by range. assert (is_u64 (seen_orders seen1)) as H1 by apply u64_range.
  pose proof (fun pp : Z => check_levels_spec (locations_ b) SELL less
    (fun price previous => price <=? previous)
    (fun p q => Z.leb_antisym _ _) (sell_levels_ b) true pp seen1) as Hsell.
  destruct (check_levels _ BUY _ _ _ _ _) as [[pp seen2]|] eqn:Eb; cbn [mbind option_bind].
  - destruct (proj1 (Hbuy seen2 H0)) as (Ho1 & _ & Hl1 & Hu1 & ->); [eauto|].
    rewrite (Hsell pp seen' H1). naive_solver.
  - split; [by intros [? ?]|]. intros ([? ?] & _ & [? _] & _). exfalso.
    destruct (proj2 (Hbuy seen1 H0)) as [? [=]]. split_and!; [done|by left|done|done|done].
Qed.

(** [checkInvariants] returns [true] exactly on the books that satisfy [checked]. *)
Lemma checkInvariants_spec b :
  (forall bid ask, bestBid b = Some bid -> bestAsk b = Some ask -> is_i64 (ask - bid)) ->
  checkInvariants b = Ok true <-> checked b.
Proof.
  intros (s & Hs & Hu)%spread_spec. unfold checkInvariants. rewrite Hs. cbn [mbind result_bind].
  destruct (match s with Some s => s <=? 0 | None => false end).
  { split; [done|]. intros [H _ _ _ _ _ _]. apply Hu in H. done. }
  pose proof (scan_spec b) as Hscan.
  match goal with |- match ?e with _ => _ end = _ <-> _ =>
    match type of Hscan with context [e] => destruct e as [[pp seen]|] eqn:E end end.
  - destruct (proj1 (Hscan seen)) as ([] & [] & Hnd & ->); [eauto|].
    cbn [saw seen_orders]. rewrite Z.add_0_l. fold (orderCount b). split.
    + intros [= Hcount%Z.eqb_eq]. split; try done. by apply Hu.
    + intros []. f_equal. by apply Z.eqb_eq.
  - split; [done|]. intros [].
    destruct (proj2 (Hscan (saw (mkSeen 0 ∅) (level_nodes (buy_levels_ b) ++ level_nodes (sell_levels_ b)))))
      as [? [=]]. split_and!; done.
Qed.

(** The representation invariant gives everything the function checks. *)
Lemma book_ok_checked b :
  book_ok b -> uncrossed b -> orderCount b <= max_resting -> checked b.
Proof.
  intros Hok Hu Hc. pose proof Hok as [[Ho1 Hl1] [Ho2 Hl2] Hi].
  assert (forall sd levels, Forall (level_ok sd) levels ->
            (forall e, e ∈ entries sd levels -> locations_ b !! entry_id e = Some (entry_loc e)) ->
            Forall (level_checked (locations_ b) sd) levels) as Hlev.
  { intros sd levels Hl He. apply Forall_forall. intros [p lv] Hin. rewrite Forall_forall in Hl.
    destruct (Hl _ Hin) as [[Hr Hf Ht] Hne]. split; cbn in *; [done| |done|done].
    rewrite Forall_forall in Hr |- *. intros n Hn. destruct (Hr _ Hn) as [? ? ? ? ? ?].
    split; [done|unfold node_quantity; lia|done|done|done|].
    apply (He (sd, p, n)). apply entries_elem. eauto. }
  assert (forall e, e ∈ entries BUY (buy_levels_ b) ++ entries SELL (sell_levels_ b) ->
            locations_ b !! entry_id e = Some (entry_loc e)) as Hloc.
  { intros e He. apply (index_ok_lookup _ _ _ _ _ Hi). eauto. }
  assert (level_nodes (buy_levels_ b) ++ level_nodes (sell_levels_ b)
          = (entries BUY (buy_levels_ b) ++ entries SELL (sell_levels_ b)).*2) as Hnodes.
  { by rewrite fmap_app, !entries_nodes. }
  split; [done|exact Ho1| |exact Ho2| | |].
  - apply Hlev; [done|]. intros e He. apply Hloc. set_solver.
  - apply Hlev; [done|]. intros e He. apply Hloc. set_solver.
  - rewrite Hnodes, <- list_fmap_compose. apply (idx_ids _ _ _ Hi).
  - rewrite Hnodes, length_fmap, <- (index_ok_size _ _ _ Hi). apply u64_small.
    unfold orderCount, max_resting in *. range.
Qed.

Lemma book_spread_range b bid ask :
  book_ok b -> bestBid b = Some bid -> bestAsk b = Some ask -> is_i64 (ask - bid).
Proof.
  intros Hok. rewrite bestBid_spec, bestAsk_spec by done.
  destruct (orders_on b BUY) as [|x xs] eqn:Ex, (orders_on b SELL) as [|y ys] eqn:Ey; cbn; try done.
  intros [= <-] [= <-].
  destruct (orders_on_resting b BUY x Hok eq_refl) as [_ _ _ _ _ ?]; [rewrite Ex; set_solver|].
  destruct (orders_on_resting b SELL y Hok eq_refl) as [_ _ _ _ _ ?]; [rewrite Ey; set_solver|].
  range.
Qed.
