(* ===== verification/Risk.v ===== *)
(** [risk_manager.hpp] / [risk_manager.cpp]: pre-trade limits and kill switch. *)

From S2P Require Import Prelude.
From S2P Require Import OrderTypes.

#[local] Open Scope Z_scope.

Module RiskLimits.
Record t : Type := mk {
  max_order_quantity : Z;
  min_limit_price : Z;
  max_limit_price : Z;
  max_order_notional : Z;
  max_active_orders : Z
}.

(** The default member initialisers ([size_t] is 64 bits wide). *)
Definition default : t := mk UINT32_MAX 1 INT64_MAX UINT64_MAX UINT64_MAX.

Record in_range (l : t) : Prop := {
  quantity_range : is_u32 (max_order_quantity l);
  min_range : is_i64 (min_limit_price l);
  max_range : is_i64 (max_limit_price l);
  notional_range : is_u64 (max_order_notional l);
  active_range : is_u64 (max_active_orders l)
}.

#[global] Instance in_range_dec l : Decision (in_range l).
Proof.
  refine (cast_if (decide (
    is_u32 (max_order_quantity l) /\ is_i64 (min_limit_price l) /\ is_i64 (max_limit_price l)
    /\ is_u64 (max_order_notional l) /\ is_u64 (max_active_orders l))));
    [constructor; tauto | intros []; tauto].
Defined.
End RiskLimits.

Record RiskManager : Type := mkRisk { limits_ : RiskLimits.t; kill_switch_ : bool }.

Definition RiskManager_new (limits : RiskLimits.t) : RiskManager := mkRisk limits false.

Definition setKillSwitch (enabled : bool) (r : RiskManager) : RiskManager :=
  mkRisk (limits_ r) enabled.
Definition killSwitch (r : RiskManager) : bool := kill_switch_ r.
Definition setLimits (limits : RiskLimits.t) (r : RiskManager) : RiskManager :=
  mkRisk limits (kill_switch_ r).

(** [static_cast<uint64_t>(order.price)] is [bits_of_i64]; the quotient is the
    unsigned 64-bit division. *)
Definition validate (r : RiskManager) (order : Order.t) (active_orders : Z)
    (may_add_active_order : bool) : RejectReason :=
  if killSwitch r then RISK_KILL_SWITCH
  else if RiskLimits.max_order_quantity (limits_ r) <? Order.quantity order
  then RISK_MAX_ORDER_QUANTITY
  else
    let limit_checks :=
      if bool_decide (Order.type order = LIMIT) then
        if (Order.price order <? RiskLimits.min_limit_price (limits_ r))
           || (RiskLimits.max_limit_price (limits_ r) <? Order.price order)
        then RISK_PRICE_OUT_OF_RANGE
        else
          let price := bits_of_i64 (Order.price order) in
          if negb (Order.quantity order =? 0)
             && (RiskLimits.max_order_notional (limits_ r) / Order.quantity order <? price)
          then RISK_MAX_NOTIONAL
          else NONE
      else NONE in
    if negb (bool_decide (limit_checks = NONE)) then limit_checks
    else if may_add_active_order
            && (RiskLimits.max_active_orders (limits_ r) <=? active_orders)
    then RISK_MAX_ACTIVE_ORDERS
    else NONE.

(** * What acceptance means *)

(** The limits as arithmetic on unbounded integers. *)
Record within_limits (r : RiskManager) (order : Order.t) (active_orders : Z) (may_add : bool) : Prop := {
  lim_enabled : kill_switch_ r = false;
  lim_quantity : Order.quantity order <= RiskLimits.max_order_quantity (limits_ r);
  lim_price : Order.type order = LIMIT ->
    RiskLimits.min_limit_price (limits_ r) <= Order.price order <= RiskLimits.max_limit_price (limits_ r);
  lim_notional : Order.type order = LIMIT ->
    Order.price order * Order.quantity order <= RiskLimits.max_order_notional (limits_ r);
  lim_active : may_add = true -> active_orders < RiskLimits.max_active_orders (limits_ r)
}.

(** The division test is the notional product test, without the product. *)
Lemma notional_test notional price quantity :
  0 <= notional -> 0 <= price -> 0 < quantity ->
  (notional / quantity <? price) = false <-> price * quantity <= notional.
Proof.
  intros Hn Hp Hq. rewrite Z.ltb_ge. split; intros H.
  - pose proof (Z.mul_div_le notional quantity Hq). nia.
  - apply Z.div_le_lower_bound; lia.
Qed.

(** Room for one more order, whatever else the limits say. *)
Lemma validate_active r order active_orders :
  validate r order active_orders true = NONE -> active_orders < RiskLimits.max_active_orders (limits_ r).
Proof. unfold validate. intros H. cbn [andb] in H. repeat case_match; (done || lia). Qed.

Lemma validate_spec r order active_orders may_add :
  RiskLimits.in_range (limits_ r) -> Order.in_range order -> 0 < Order.quantity order ->
  (Order.type order = LIMIT -> 0 < Order.price order) ->
  validate r order active_orders may_add = NONE <-> within_limits r order active_orders may_add.
Proof.
  intros Hl Ho Hq Hp. unfold validate, killSwitch.
  destruct (kill_switch_ r) eqn:Ek; [split; [done|intros []; congruence]|].
  destruct (_ <? Order.quantity order) eqn:Eq; [split; [done|intros []; lia]|].
  assert (forall lc, (if negb (bool_decide (lc = NONE)) then lc
             else if may_add && (RiskLimits.max_active_orders (limits_ r) <=? active_orders)
                  then RISK_MAX_ACTIVE_ORDERS else NONE) = NONE <->
            lc = NONE /\ (may_add = true -> active_orders < RiskLimits.max_active_orders (limits_ r)))
    as ->.
  { intros lc. case_bool_decide as E; cbn; [|naive_solver].
    destruct may_add; cbn; [|naive_solver]. case_match eqn:Ea.
    - split; [done|]. intros [_ Hc]. specialize (Hc eq_refl). lia.
    - split; [|done]. intros _. split; [done|]. intros _. lia. }
  case_bool_decide as Et.
  2:{ split; [intros [_ Ha]|by intros []]. split; try done. lia. }
  specialize (Hp Et). assert (bits_of_i64 (Order.price order) = Order.price order) as ->.
  { apply Z.mod_small. destruct Ho. range. }
  rewrite (proj2 (Z.eqb_neq _ 0)) by lia. cbn [negb andb].
  destruct (_ || _) eqn:Er.
  { split; [by intros []|]. intros [_ _ H3 _ _]. specialize (H3 Et). lia. }
  pose proof (notional_test (RiskLimits.max_order_notional (limits_ r)) (Order.price order)
    (Order.quantity order)) as Hn.
  destruct Hl as [_ _ _ Hnr _]. case_match eqn:En.
  - split; [by intros []|]. intros [_ _ _ H4 _]. specialize (H4 Et). apply Hn in H4; [done|range|lia|lia].
  - split; [intros [_ Ha]|by intros []]. split; try done; [lia|lia|].
    intros _. apply Hn; [range|lia|lia|done].
Qed.
