(* ===== verification/MatchingEngine.v ===== *)
(** [matching_engine.hpp] / [matching_engine.cpp]: the single-writer engine.

    [processOrder] is the whole handler: static validation, duplicate ids, the
    preflight, risk, post-only and FOK gates, the matching loop, resting the
    remainder and the report.  The loop carries an iteration bound; [match_fuel]
    is what [processOrder] gives it. *)

From S2P Require Import Prelude.
From S2P Require Import OrderTypes.
From S2P Require Import LevelMap.
From S2P Require Import OrderBook.
From S2P Require Import Risk.

#[local] Open Scope Z_scope.

Record MatchingEngine : Type := mkEngine {
  book_ : OrderBook;
  risk_ : RiskManager;
  seen_order_ids_ : gset Z;
  sequence_ : Z;
  next_trade_id_ : Z;
  accepted_orders_ : Z;
  rejected_orders_ : Z;
  canceled_orders_ : Z
}.

Definition MatchingEngine_new (risk_limits : RiskLimits.t) : MatchingEngine :=
  mkEngine empty_book (RiskManager_new risk_limits) ∅ 0 1 0 0 0.

Definition tradeCount (e : MatchingEngine) : Z := u64 (next_trade_id_ e - 1).

Definition kKnownFlags : Z := OrderFlags.POST_ONLY.

Definition validateStatic (order : Order.t) : RejectReason :=
  if Order.id order =? 0 then INVALID_ORDER_ID
  else if negb (isValidSide (Order.side order)) then INVALID_SIDE
  else if negb (isValidOrderType (Order.type order)) then INVALID_ORDER_TYPE
  else if negb (isValidTimeInForce (Order.time_in_force order)) then INVALID_TIME_IN_FORCE
  else if negb (Z.land (Order.flags order) (Z.lnot kKnownFlags) =? 0) then INVALID_ORDER_FLAGS
  else if Order.quantity order =? 0 then INVALID_QUANTITY
  else if bool_decide (Order.type order = LIMIT) && (Order.price order <=? 0)
  then INVALID_LIMIT_PRICE
  else if bool_decide (Order.type order = MARKET) && bool_decide (Order.time_in_force order = GTC)
  then MARKET_ORDER_CANNOT_BE_GTC
  else if hasFlag (Order.flags order) OrderFlags.POST_ONLY
          && (negb (bool_decide (Order.type order = LIMIT))
              || negb (bool_decide (Order.time_in_force order = GTC)))
  then POST_ONLY_REQUIRES_GTC_LIMIT
  else NONE.

(** [++sequence_]. *)
Definition bump_sequence (e : MatchingEngine) : MatchingEngine :=
  mkEngine (book_ e) (risk_ e) (seen_order_ids_ e) (u64 (sequence_ e + 1)) (next_trade_id_ e)
    (accepted_orders_ e) (rejected_orders_ e) (canceled_orders_ e).

Definition rejectedReport (e : MatchingEngine) (order : Order.t) (sequence : Z)
    (reason : RejectReason) : MatchingEngine * ExecutionReport.t :=
  (mkEngine (book_ e) (risk_ e) (seen_order_ids_ e) (sequence_ e) (next_trade_id_ e)
     (accepted_orders_ e) (u64 (rejected_orders_ e + 1)) (canceled_orders_ e),
   ExecutionReport.mk (Order.id order) sequence NEW_ORDER REJECTED reason 0
     (Order.quantity order) 0 (Order.quantity order) 0).

(** The [Trade] the loop body fills in. *)
Definition make_trade (order best : Order.t) (trade_id traded_quantity : Z) : Trade.t :=
  if bool_decide (Order.side order = BUY)
  then Trade.mk trade_id (Order.id order) (Order.id best) (Order.price best) traded_quantity
         (Order.sequence order)
  else Trade.mk trade_id (Order.id best) (Order.id order) (Order.price best) traded_quantity
         (Order.sequence order).

(** [while (order.quantity > 0 && !book_.emptySide(opposite))]. *)
Fixpoint match_loop (fuel : nat) (opposite : Side) (b : OrderBook) (order : Order.t)
    (next_trade_id : Z) (out_trades : list Trade.t) :
    result (OrderBook * Order.t * Z * list Trade.t) :=
  match fuel with
  | O => Fault OutOfFuel
  | S fuel =>
    if (0 <? Order.quantity order) && negb (emptySide b opposite) then
      best ← frontOfBest b opposite;
      match best with
      | None => Fault AssertFailed
      | Some best =>
        let crosses :=
          bool_decide (Order.type order = MARKET)
          || (if bool_decide (Order.side order = BUY)
              then Order.price best <=? Order.price order
              else Order.price order <=? Order.price best) in
        if negb crosses then Ok (b, order, next_trade_id, out_trades)
        else
          let traded_quantity := Z.min (Order.quantity order) (Order.quantity best) in
          let trade := make_trade order best next_trade_id traded_quantity in
          b ← reduceFront b opposite traded_quantity;
          match_loop fuel opposite b
            (Order.with_quantity (u32 (Order.quantity order - traded_quantity)) order)
            (u64 (next_trade_id + 1)) (out_trades ++ [trade])
      end
    else Ok (b, order, next_trade_id, out_trades)
  end.

(** Every iteration but the last removes a resting order or exhausts the incoming one. *)
Definition match_fuel (b : OrderBook) : nat := S (size (locations_ b)).

(** The part of [processOrder] after the command is accepted. *)
Definition execute (e : MatchingEngine) (order : Order.t) (event_sequence : Z)
    (out_trades : list Trade.t) :
    result (MatchingEngine * list Trade.t * ExecutionReport.t) :=
  let trades_before := Z.of_nat (length out_trades) in
  let seen := {[ Order.id order ]} ∪ seen_order_ids_ e in
  let accepted := u64 (accepted_orders_ e + 1) in
  let order := Order.with_sequence event_sequence order in
  let requested_quantity := Order.quantity order in
  let opposite := if bool_decide (Order.side order = BUY) then SELL else BUY in
  '(b, order, next_trade_id, out_trades) ←
    match_loop (match_fuel (book_ e)) opposite (book_ e) order (next_trade_id_ e) out_trades;
  let executed_quantity := u32 (requested_quantity - Order.quantity order) in
  let should_rest := (0 <? Order.quantity order) && bool_decide (Order.type order = LIMIT)
                     && bool_decide (Order.time_in_force order = GTC) in
  b ← ((if should_rest then
          '(inserted, b) ← addOrder b order; _ ← assert inserted; Ok b
        else Ok b) : result OrderBook);
  let status :=
    if Order.quantity order =? 0 then FILLED
    else if should_rest then
      (if executed_quantity =? 0 then RESTING else PARTIALLY_FILLED)
    else
      (if executed_quantity =? 0 then EXPIRED else PARTIALLY_FILLED) in
  Ok (mkEngine b (risk_ e) seen (sequence_ e) next_trade_id accepted (rejected_orders_ e)
        (canceled_orders_ e),
      out_trades,
      ExecutionReport.mk (Order.id order) event_sequence NEW_ORDER status NONE 0
        requested_quantity executed_quantity (Order.quantity order)
        (u32 (Z.of_nat (length out_trades) - trades_before))).

Definition processOrder (e : MatchingEngine) (order : Order.t) (out_trades : list Trade.t) :
    result (MatchingEngine * list Trade.t * ExecutionReport.t) :=
  let e := bump_sequence e in
  let event_sequence := sequence_ e in
  let reject reason :=
    let '(e, report) := rejectedReport e order event_sequence reason in
    Ok (e, out_trades, report) in
  let reason := validateStatic order in
  if negb (bool_decide (reason = NONE)) then reject reason
  else if bool_decide (Order.id order ∈ seen_order_ids_ e) then reject DUPLICATE_ORDER_ID
  else
    let executable := executableQuantity (book_ e) order (Order.quantity order) in
    let may_add_active_order :=
      bool_decide (Order.type order = LIMIT) && bool_decide (Order.time_in_force order = GTC)
      && (executable <? Order.quantity order) in
    let reason := validate (risk_ e) order (orderCount (book_ e)) may_add_active_order in
    if negb (bool_decide (reason = NONE)) then reject reason
    else
      would_cross ← (if hasFlag (Order.flags order) OrderFlags.POST_ONLY
                     then wouldCross (book_ e) order else Ok false : result bool);
      match would_cross with
      | true => reject POST_ONLY_WOULD_TRADE
      | false =>
        if bool_decide (Order.time_in_force order = FOK) && (executable <? Order.quantity order)
        then reject FOK_NOT_FILLABLE
        else execute e order event_sequence out_trades
      end.

Definition cancel (e : MatchingEngine) (order_id : Z) :
    result (MatchingEngine * ExecutionReport.t) :=
  let e := bump_sequence e in
  let report status reason requested :=
    ExecutionReport.mk order_id (sequence_ e) CANCEL_ORDER status reason 0 requested 0 0 0 in
  let rejected := if order_id =? 0 then INVALID_ORDER_ID else ORDER_NOT_FOUND in
  '(canceled_order, b) ←
    ((if order_id =? 0 then Ok (None, book_ e) else OrderBook.cancelOrder (book_ e) order_id)
     : result (option Order.t * OrderBook));
  match canceled_order with
  | None => Ok (e, report REJECTED rejected 0)
  | Some canceled_order =>
    Ok (mkEngine b (risk_ e) (seen_order_ids_ e) (sequence_ e) (next_trade_id_ e)
          (accepted_orders_ e) (rejected_orders_ e) (u64 (canceled_orders_ e + 1)),
        report CANCELED NONE (Order.quantity canceled_order))
  end.

(** The wrappers kept for the original demos. *)
Definition submitOrder (e : MatchingEngine) (order : Order.t) (out_trades : list Trade.t) :
    result (MatchingEngine * list Trade.t * Z) :=
  '(e, out_trades, report) ← processOrder e order out_trades;
  Ok (e, out_trades, ExecutionReport.trade_count report).

Definition engine_cancelOrder (e : MatchingEngine) (order_id : Z) : result (MatchingEngine * bool) :=
  '(e, report) ← cancel e order_id;
  Ok (e, bool_decide (ExecutionReport.status report = CANCELED)).
