(* ===== verification/Market.v ===== *)
(** The abstract specification of the matching engine: a market is two
    prioritised lists of orders with the engine's counters, and a command is a
    total function on it.  [Refinement] proves that [MatchingEngine] implements
    it; this file only depends on [PriceTime]. *)

From S2P Require Import Prelude.
From S2P Require Import OrderTypes.
From S2P Require Import LevelMap.
From S2P Require Import PriceTime.
From S2P Require Import Risk.
From S2P Require Import MatchingEngine.

#[local] Open Scope Z_scope.

Record Market : Type := mkMarket {
  bids : list Order.t;
  asks : list Order.t;
  m_risk : RiskManager;
  m_seen : gset Z;
  m_sequence : Z;
  m_next_trade_id : Z;
  m_accepted : Z;
  m_rejected : Z;
  m_canceled : Z
}.

Definition resting_on (m : Market) (sd : Side) : list Order.t :=
  if bool_decide (sd = BUY) then bids m else asks m.

Definition resting_count (m : Market) : Z := Z.of_nat (length (bids m) + length (asks m)).

(** The quantity the order can execute at once. *)
Definition market_executable (m : Market) (order : Order.t) : Z :=
  Z.min (Order.quantity order) (fillable order (resting_on m (opposite (Order.side order)))).

Definition market_would_cross (m : Market) (order : Order.t) : bool :=
  match resting_on m (opposite (Order.side order)) with
  | [] => false
  | best :: _ => crosses order (Order.price best)
  end.

Definition may_rest (order : Order.t) : bool :=
  bool_decide (Order.type order = LIMIT) && bool_decide (Order.time_in_force order = GTC).

(** The reason for rejecting a new order, [NONE] when it is accepted. *)
Definition market_reason (m : Market) (order : Order.t) : RejectReason :=
  if negb (bool_decide (validateStatic order = NONE)) then validateStatic order
  else if bool_decide (Order.id order ∈ m_seen m) then DUPLICATE_ORDER_ID
  else
    let executable := market_executable m order in
    let risk := validate (m_risk m) order (resting_count m)
                  (may_rest order && (executable <? Order.quantity order)) in
    if negb (bool_decide (risk = NONE)) then risk
    else if hasFlag (Order.flags order) OrderFlags.POST_ONLY && market_would_cross m order
    then POST_ONLY_WOULD_TRADE
    else if bool_decide (Order.time_in_force order = FOK) && (executable <? Order.quantity order)
    then FOK_NOT_FILLABLE
    else NONE.

Definition outcome (order : Order.t) (executed remaining : Z) : ExecutionStatus :=
  if remaining =? 0 then FILLED
  else if executed =? 0 then (if may_rest order then RESTING else EXPIRED)
  else PARTIALLY_FILLED.

(** Accepting an order: match it, rest what may rest. *)
Definition market_execute (m : Market) (order : Order.t) :
    Market * list Trade.t * ExecutionReport.t :=
  let taker := Order.with_sequence (m_sequence m) order in
  let '(trades, q, makers) :=
    pt_match taker (Order.quantity order) (m_next_trade_id m)
      (resting_on m (opposite (Order.side order))) in
  let own := resting_on m (Order.side order) in
  let own := if (0 <? q) && may_rest order
             then pt_insert (Order.side order) (Order.with_quantity q taker) own else own in
  (mkMarket (if bool_decide (Order.side order = BUY) then own else makers)
     (if bool_decide (Order.side order = BUY) then makers else own)
     (m_risk m) ({[ Order.id order ]} ∪ m_seen m) (m_sequence m)
     (u64 (m_next_trade_id m + Z.of_nat (length trades)))
     (u64 (m_accepted m + 1)) (m_rejected m) (m_canceled m),
   trades,
   ExecutionReport.mk (Order.id order) (m_sequence m) NEW_ORDER
     (outcome order (Order.quantity order - q) q) NONE 0 (Order.quantity order)
     (Order.quantity order - q) q (u32 (Z.of_nat (length trades)))).

Definition market_tick (m : Market) : Market :=
  mkMarket (bids m) (asks m) (m_risk m) (m_seen m) (u64 (m_sequence m + 1)) (m_next_trade_id m)
    (m_accepted m) (m_rejected m) (m_canceled m).

Definition market_process (m : Market) (order : Order.t) :
    Market * list Trade.t * ExecutionReport.t :=
  let m := market_tick m in
  let reason := market_reason m order in
  if bool_decide (reason = NONE) then market_execute m order
  else
    (mkMarket (bids m) (asks m) (m_risk m) (m_seen m) (m_sequence m) (m_next_trade_id m)
       (m_accepted m) (u64 (m_rejected m + 1)) (m_canceled m),
     [],
     ExecutionReport.mk (Order.id order) (m_sequence m) NEW_ORDER REJECTED reason 0
       (Order.quantity order) 0 (Order.quantity order) 0).

(** Cancelling: drop the order with that id from whichever side holds it. *)
Definition market_cancel (m : Market) (i : Z) : Market * ExecutionReport.t :=
  let m := market_tick m in
  let report status reason requested :=
    ExecutionReport.mk i (m_sequence m) CANCEL_ORDER status reason 0 requested 0 0 0 in
  match list_find (fun o => Order.id o = i) (bids m ++ asks m) with
  | Some (_, o) =>
    if i =? 0 then (m, report REJECTED INVALID_ORDER_ID 0)
    else
      (mkMarket (pt_remove i (bids m)) (pt_remove i (asks m)) (m_risk m) (m_seen m) (m_sequence m)
         (m_next_trade_id m) (m_accepted m) (m_rejected m) (u64 (m_canceled m + 1)),
       report CANCELED NONE (Order.quantity o))
  | None => (m, report REJECTED (if i =? 0 then INVALID_ORDER_ID else ORDER_NOT_FOUND) 0)
  end.

(** * The market invariant *)

Record market_ok (m : Market) : Prop := {
  mk_uncrossed : forall x y, x ∈ bids m -> y ∈ asks m -> Order.price x < Order.price y;
  mk_seen : Forall (fun o => Order.id o ∈ m_seen m) (bids m ++ asks m);
  mk_sequenced : Forall (fun o => 0 <= Order.sequence o <= m_sequence m) (bids m ++ asks m);
  mk_count : resting_count m <= m_sequence m;
  mk_sequence_range : is_u64 (m_sequence m);
  mk_trade_range : is_u64 (m_next_trade_id m)
}.

Definition market_new (limits : RiskLimits.t) : Market :=
  mkMarket [] [] (RiskManager_new limits) ∅ 0 1 0 0 0.

Lemma market_new_ok limits : market_ok (market_new limits).
Proof. split; cbn; [set_solver|constructor|constructor|done|range|range]. Qed.

(** * Matching, as far as the invariant needs it *)

Section matching.
Implicit Types (taker o m : Order.t) (makers : list Order.t).

(** What is left resting differs from what rested only in quantity. *)
Definition same_order (a b : Order.t) : Prop := a = Order.with_quantity (Order.quantity a) b.

Lemma pt_match_makers taker makers : forall q tid trades q' makers',
  pt_match taker q tid makers = (trades, q', makers') ->
  (length makers' <= length makers)%nat
  /\ Forall (fun x => exists y, y ∈ makers /\ same_order x y) makers'.
Proof.
  assert (forall l, Forall (fun x => exists y, y ∈ l /\ same_order x y) l) as Hrefl.
  { intros l. apply Forall_forall. intros x Hx. exists x. split; [done|]. by destruct x. }
  induction makers as [|m makers IH]; cbn; intros q tid trades q' makers' H.
  { simplify_eq. done. }
  destruct (_ || _); [simplify_eq; split; [done|apply Hrefl]|].
  destruct (q <? Order.quantity m).
  - simplify_eq. split; [done|]. constructor.
    + exists m. split; [set_solver|done].
    + eapply Forall_impl; [apply Hrefl|]. intros x (y & Hy & ?). exists y. set_solver.
  - destruct (pt_match _ _ _ makers) as [[trades1 q1] rest] eqn:E. simplify_eq.
    apply IH in E as [Hlen Hf]. split; [cbn; lia|].
    eapply Forall_impl; [exact Hf|]. intros x (y & Hy & ?). exists y. set_solver.
Qed.

(** Unfilled quantity means nothing acceptable is left in front. *)
Lemma pt_match_stops taker makers : forall q tid trades q' makers',
  pt_match taker q tid makers = (trades, q', makers') -> 0 < q' ->
  match makers' with [] => True | m :: _ => crosses taker (Order.price m) = false end.
Proof.
  induction makers as [|m makers IH]; cbn; intros q tid trades q' makers' H Hq.
  { by simplify_eq. }
  destruct (q =? 0) eqn:E0, (crosses taker (Order.price m)) eqn:Ec; cbn in H.
  1-2: simplify_eq; lia.
  2: by simplify_eq.
  destruct (q <? Order.quantity m); [simplify_eq; lia|].
  destruct (pt_match _ _ _ makers) as [[trades1 q1] rest] eqn:E. simplify_eq. by eapply IH.
Qed.

Lemma pt_match_prioritised sd taker makers : forall q tid trades q' makers',
  prioritised sd makers -> pt_match taker q tid makers = (trades, q', makers') ->
  prioritised sd makers'.
Proof.
  induction makers as [|m makers IH]; cbn; intros q tid trades q' makers' Hp H.
  { by simplify_eq. }
  destruct (_ || _); [by simplify_eq|].
  apply StronglySorted_inv in Hp as [Hp Hm].
  destruct (q <? Order.quantity m); [simplify_eq; by constructor|].
  destruct (pt_match _ _ _ makers) as [[trades1 q1] rest] eqn:E. simplify_eq. by eapply IH.
Qed.

Lemma pt_match_range taker makers q tid trades q' makers' :
  Forall live makers -> 0 <= q ->
  pt_match taker q tid makers = (trades, q', makers') -> 0 <= q' <= q.
Proof.
  revert q tid trades q' makers'.
  induction makers as [|m makers IH]; cbn; intros q tid trades q' makers' Hl Hq H.
  { simplify_eq. lia. }
  apply Forall_cons in Hl as [Hm Hl]. unfold live in Hm.
  destruct (_ || _); [simplify_eq; lia|].
  destruct (q <? Order.quantity m) eqn:E; [simplify_eq; lia|].
  destruct (pt_match _ _ _ makers) as [[trades1 q1] rest] eqn:E'. simplify_eq.
  apply IH in E'; [lia|done|lia].
Qed.
End matching.
