(* ===== verification/MarketInvariant.v ===== *)
(** The abstract market keeps its invariant: no command crosses the book, loses
    an id or runs the order count past the sequence counter. *)

From S2P Require Import Prelude.
From S2P Require Import OrderTypes.
From S2P Require Import LevelMap.
From S2P Require Import PriceTime.
From S2P Require Import OrderBook.
From S2P Require Import BookInvariant.
From S2P Require Import BookOps.
From S2P Require Import Risk.
From S2P Require Import MatchingEngine.
From S2P Require Import Market.

#[local] Open Scope Z_scope.

(** What the order book guarantees about the two lists. *)
Record sides_ok (m : Market) : Prop := {
  sides_prioritised sd : isValidSide sd = true -> prioritised sd (resting_on m sd);
  sides_resting sd o : isValidSide sd = true -> o ∈ resting_on m sd -> resting sd (Order.price o) o;
  sides_ids : NoDup (Order.id <$> bids m ++ asks m)
}.

(** Evaluate the side selectors of a market at [BUY] and [SELL]. *)
Ltac market_cbn :=
  change (opposite BUY) with SELL in *; change (opposite SELL) with BUY in *;
  change (bool_decide (BUY = BUY)) with true in *;
  change (bool_decide (SELL = BUY)) with false in *;
  repeat match goal with
  | |- context [resting_on ?m BUY] => change (resting_on m BUY) with (bids m)
  | |- context [resting_on ?m SELL] => change (resting_on m SELL) with (asks m)
  end; cbv iota.

(** The orders of a market are those of the two sides of any taker. *)
Lemma market_orders m sd o :
  isValidSide sd = true ->
  o ∈ bids m ++ asks m <-> o ∈ resting_on m sd \/ o ∈ resting_on m (opposite sd).
Proof. intros Hv. rewrite elem_of_app. by_side Hv; market_cbn; tauto. Qed.

Lemma market_size m sd :
  isValidSide sd = true ->
  resting_count m = Z.of_nat (length (resting_on m sd) + length (resting_on m (opposite sd))).
Proof. intros Hv. unfold resting_count. by_side Hv; market_cbn; lia. Qed.

(** [market_ok] as seen from one side: the two prices compare as that side's
    comparator says, whichever side is looked from. *)
Definition sides_uncrossed (sd : Side) (own other : list Order.t) : Prop :=
  forall x y, x ∈ own -> y ∈ other ->
  price_before (opposite sd) (Order.price x) (Order.price y) = true.

Lemma uncrossed_from m sd :
  isValidSide sd = true ->
  (forall x y, x ∈ bids m -> y ∈ asks m -> Order.price x < Order.price y) <->
  sides_uncrossed sd (resting_on m sd) (resting_on m (opposite sd)).
Proof.
  intros Hv. unfold sides_uncrossed, price_before, greater, less.
  by_side Hv; market_cbn; setoid_rewrite Z.ltb_lt; naive_solver.
Qed.

(** An order that passed [validateStatic]. *)
Record accepted_terms (o : Order.t) : Prop := {
  terms_id : Order.id o <> 0;
  terms_side : isValidSide (Order.side o) = true;
  terms_type : isValidOrderType (Order.type o) = true;
  terms_quantity : 0 < Order.quantity o < 2 ^ 32;
  terms_price : Order.type o = LIMIT -> 0 < Order.price o < 2 ^ 63
}.

Lemma validateStatic_terms o : Order.in_range o -> validateStatic o = NONE -> accepted_terms o.
Proof.
  intros [? _ _ _ _ Hp Hq _] Hv. unfold validateStatic in Hv. repeat case_match; try done.
  split; [lia|by apply negb_false_iff|by apply negb_false_iff|range|].
  intros Ht. rewrite bool_decide_true in * by done. cbn in *. range.
Qed.

Lemma validateStatic_post_only o :
  validateStatic o = NONE -> hasFlag (Order.flags o) OrderFlags.POST_ONLY = true -> may_rest o = true.
Proof.
  unfold validateStatic, may_rest. intros Hv Hf. rewrite Hf in Hv. cbn [andb] in Hv.
  destruct (bool_decide (Order.type o = LIMIT)), (bool_decide (Order.time_in_force o = GTC));
    [done|..]; repeat case_match; done.
Qed.

Section execute.
Context (m : Market) (order : Order.t).
Context (Hm : market_ok m) (Hs : sides_ok m) (Ht : accepted_terms order).

Let sd := Order.side order.
Let taker := Order.with_sequence (m_sequence m) order.

(** The unfilled part of a limit order does not cross what is left. *)
Lemma remainder_uncrossed tid trades q makers :
  pt_match taker (Order.quantity order) tid (resting_on m (opposite sd)) = (trades, q, makers) ->
  0 < q -> Order.type order = LIMIT ->
  Forall (fun y => price_before (opposite sd) (Order.price order) (Order.price y) = true) makers.
Proof.
  intros E Hq Hty. pose proof (terms_side _ Ht) as Hv. fold sd in Hv.
  pose proof (sides_prioritised _ Hs (opposite sd) (opposite_valid _)) as Hp.
  pose proof (pt_match_prioritised _ _ _ _ _ _ _ _ Hp E) as Hp'.
  pose proof (pt_match_stops _ _ _ _ _ _ _ E Hq) as Hstop.
  assert (Forall (fun y => crosses taker (Order.price y) = false) makers) as Hall.
  { destruct Hp' as [|y l Hsort Hy]; constructor; [done|].
    eapply Forall_impl; [exact Hy|]. intros z Hz. apply not_true_iff_false. intros Hc.
    rewrite (crosses_ahead (opposite sd) taker y z) in Hstop; [done| |apply opposite_valid|done|done].
    subst taker sd. cbn. by destruct (valid_side_cases _ Hv) as [-> | ->]. }
  eapply Forall_impl; [exact Hall|]. unfold crosses, price_before, greater, less. subst taker sd.
  cbn. rewrite Hty. intros y. cbn. destruct (valid_side_cases _ Hv) as [-> | ->]; market_cbn; cbn; lia.
Qed.

Lemma market_execute_sides m' trades report :
  market_execute m order = (m', trades, report) ->
  exists q makers,
    pt_match taker (Order.quantity order) (m_next_trade_id m) (resting_on m (opposite sd))
    = (trades, q, makers)
    /\ resting_on m' (opposite sd) = makers
    /\ resting_on m' sd =
         (if (0 <? q) && may_rest order
          then pt_insert sd (Order.with_quantity q taker) (resting_on m sd)
          else resting_on m sd).
Proof.
  unfold market_execute. fold sd taker.
  destruct (pt_match _ _ _ _) as [[tr q] makers]. intros [= <- <- _]. exists q, makers.
  pose proof (terms_side _ Ht) as Hv. fold sd in Hv.
  split; [done|]. unfold sd in *. by destruct (valid_side_cases _ Hv) as [-> | ->].
Qed.

Lemma market_execute_uncrossed m' trades report :
  market_execute m order = (m', trades, report) ->
  sides_uncrossed sd (resting_on m' sd) (resting_on m' (opposite sd)).
Proof.
  intros E. destruct (market_execute_sides _ _ _ E) as (q & makers & Hmatch & -> & ->).
  pose proof (terms_side _ Ht) as Hv. fold sd in Hv.
  pose proof (pt_match_makers _ _ _ _ _ _ _ Hmatch) as [_ Hmk]. rewrite Forall_forall in Hmk.
  assert (sides_uncrossed sd (resting_on m sd) makers) as Hown.
  { intros x y Hx (y0 & Hy0 & ->)%Hmk. cbn.
    by apply (proj1 (uncrossed_from m sd Hv) (mk_uncrossed _ Hm)). }
  destruct ((0 <? q) && may_rest order) eqn:Er; [|done].
  apply andb_true_iff in Er as [Hq [Hty _]%andb_true_iff]. apply bool_decide_eq_true in Hty.
  intros x y. rewrite pt_insert_perm, elem_of_cons. intros [->|Hx] Hy; [|by apply Hown].
  pose proof (remainder_uncrossed _ _ _ _ Hmatch ltac:(lia) Hty) as Hr.
  rewrite Forall_forall in Hr. by apply Hr.
Qed.

(** A predicate of every resting order that ignores the quantity survives. *)
Lemma market_execute_orders (P : Order.t -> Prop) m' trades report :
  market_execute m order = (m', trades, report) ->
  (forall o q, P o -> P (Order.with_quantity q o)) -> P taker ->
  Forall P (bids m ++ asks m) -> Forall P (bids m' ++ asks m').
Proof.
  intros E HP Hk. destruct (market_execute_sides _ _ _ E) as (q & makers & Hmatch & Eo & Es).
  pose proof (terms_side _ Ht) as Hv. fold sd in Hv. rewrite !Forall_forall. intros Hall o.
  rewrite (market_orders _ sd _ Hv), Eo, Es.
  pose proof (pt_match_makers _ _ _ _ _ _ _ Hmatch) as [_ Hmk]. rewrite Forall_forall in Hmk.
  intros [Ho|(y & Hy & ->)%Hmk].
  - assert (o = Order.with_quantity q taker \/ o ∈ resting_on m sd) as [->|Ho'].
    { destruct (_ && _); [|by right]. by rewrite pt_insert_perm, elem_of_cons in Ho. }
    + by apply HP.
    + apply Hall, (market_orders _ sd _ Hv). by left.
  - apply HP, Hall, (market_orders _ sd _ Hv). by right.
Qed.

Lemma market_execute_count m' trades report :
  market_execute m order = (m', trades, report) -> resting_count m' <= resting_count m + 1.
Proof.
  intros E. destruct (market_execute_sides _ _ _ E) as (q & makers & Hmatch & Eo & Es).
  pose proof (terms_side _ Ht) as Hv. fold sd in Hv.
  pose proof (pt_match_makers _ _ _ _ _ _ _ Hmatch) as [Hlen _].
  rewrite !(market_size _ sd Hv), Eo, Es. destruct (_ && _); [rewrite pt_insert_perm; cbn [length]|]; lia.
Qed.

Lemma market_execute_ok m' trades report :
  market_execute m order = (m', trades, report) -> resting_count m < m_sequence m -> market_ok m'.
Proof.
  intros E Hc. pose proof (terms_side _ Ht) as Hv. fold sd in Hv.
  pose proof (market_execute_count _ _ _ E).
  assert (m_seen m' = {[ Order.id order ]} ∪ m_seen m /\ m_sequence m' = m_sequence m
          /\ is_u64 (m_next_trade_id m')) as (Hseen & Hseq & Htid).
  { unfold market_execute in E. destruct (pt_match _ _ _ _) as [[]]. simplify_eq. cbn.
    split_and!; [done|done|apply u64_range]. }
  destruct Hm as [H1 H2 H3 H4 H5 H6]. split; rewrite ?Hseen, ?Hseq; [| | |lia|done|done].
  - rewrite (uncrossed_from m' sd Hv). by eapply market_execute_uncrossed.
  - eapply market_execute_orders; [done|done|cbn; set_solver|].
    eapply Forall_impl; [exact H2|]. set_solver.
  - eapply market_execute_orders; [done|done|cbn; range|done].
Qed.
End execute.

(** An order is accepted exactly when every gate lets it through. *)
Lemma market_reason_none m o :
  market_reason m o = NONE <->
  validateStatic o = NONE /\ Order.id o ∉ m_seen m
  /\ validate (m_risk m) o (resting_count m)
       (may_rest o && (market_executable m o <? Order.quantity o)) = NONE
  /\ (hasFlag (Order.flags o) OrderFlags.POST_ONLY = true -> market_would_cross m o = false)
  /\ (Order.time_in_force o = FOK -> Order.quantity o <= market_executable m o).
Proof.
  unfold market_reason.
  destruct (decide (validateStatic o = NONE)) as [Hv|Hv];
    [rewrite (bool_decide_true _ Hv)|rewrite (bool_decide_false _ Hv)]; cbn [negb]; [|tauto].
  case_bool_decide as Hs; [naive_solver|].
  destruct (decide (validate (m_risk m) o (resting_count m)
    (may_rest o && (market_executable m o <? Order.quantity o)) = NONE)) as [Hr|Hr];
    [rewrite (bool_decide_true _ Hr)|rewrite (bool_decide_false _ Hr)]; cbn [negb]; [|tauto].
  destruct (hasFlag _ _), (market_would_cross m o); cbn [andb]; try (split; naive_solver).
  all: case_bool_decide as Hf; cbn [andb]; [|naive_solver].
  all: destruct (_ <? _) eqn:E; [split; [done|]|naive_solver lia].
  all: intros (_ & _ & _ & _ & H); specialize (H Hf); lia.
Qed.

(** [++sequence_] makes room for one more order. *)
Lemma market_tick_ok m :
  market_ok m -> m_sequence m + 1 < 2 ^ 64 ->
  market_ok (market_tick m) /\ resting_count (market_tick m) < m_sequence (market_tick m).
Proof.
  intros [H1 H2 H3 H4 H5 H6] Hs. unfold market_tick.
  rewrite u64_small by range.
  split; [split; cbn; [done|done| |unfold resting_count in *; cbn; lia|range|done]|unfold resting_count in *; cbn; lia].
  eapply Forall_impl; [exact H3|]. cbn. lia.
Qed.

Lemma tick_sides_ok m : sides_ok m -> sides_ok (market_tick m).
Proof. by intros [H1 H2 H3]; split. Qed.

Lemma market_process_ok m order m' trades report :
  market_ok m -> sides_ok m -> Order.in_range order -> m_sequence m + 1 < 2 ^ 64 ->
  market_process m order = (m', trades, report) -> market_ok m'.
Proof.
  intros Hm Hs Ho Hq. unfold market_process.
  destruct (market_tick_ok m Hm Hq) as [Hm' Hc].
  case_bool_decide as Hr; intros E.
  - eapply market_execute_ok; [done|by apply tick_sides_ok| |done|done].
    apply market_reason_none in Hr as [Hv _]. by apply validateStatic_terms.
  - simplify_eq. destruct Hm'. by split.
Qed.

Lemma pt_remove_elem i l o : o ∈ pt_remove i l -> o ∈ l.
Proof. unfold pt_remove. by intros [_ ?]%list_elem_of_filter. Qed.

Lemma market_cancel_ok m i m' report :
  market_ok m -> m_sequence m + 1 < 2 ^ 64 ->
  market_cancel m i = (m', report) -> market_ok m'.
Proof.
  intros Hm Hq. unfold market_cancel. destruct (market_tick_ok m Hm Hq) as [Hm' Hc].
  destruct (list_find _ _) as [[k o]|]; [destruct (i =? 0)|]; intros E; simplify_eq; [done| |done].
  destruct Hm' as [H1 H2 H3 H4 H5 H6]. split; cbn in *; [| | | |done|done].
  - intros x y Hx%pt_remove_elem Hy%pt_remove_elem. by apply H1.
  - rewrite Forall_forall in *. intros x. rewrite elem_of_app.
    intros [?%pt_remove_elem|?%pt_remove_elem]; apply H2; set_solver.
  - rewrite Forall_forall in *. intros x. rewrite elem_of_app.
    intros [?%pt_remove_elem|?%pt_remove_elem]; apply H3; set_solver.
  - unfold resting_count in *. cbn in *. unfold pt_remove.
    pose proof (length_filter (fun o => Order.id o <> i) (bids m)).
    pose proof (length_filter (fun o => Order.id o <> i) (asks m)). lia.
Qed.
