(* ===== verification/Refinement.v ===== *)
(** [MatchingEngine] refines [Market]: the abstraction of an engine is the two
    price-time lists its book holds, and every command is a total function that
    commutes with it. *)

From S2P Require Import Prelude.
From S2P Require Import OrderTypes.
From S2P Require Import LevelMap.
From S2P Require Import PriceTime.
From S2P Require Import OrderBook.
From S2P Require Import BookInvariant.
From S2P Require Import BookOps.
From S2P Require Import BookQueries.
From S2P Require Import Risk.
From S2P Require Import MatchingEngine.
From S2P Require Import Market.
From S2P Require Import MarketInvariant.

#[local] Open Scope Z_scope.

Definition abs (e : MatchingEngine) : Market :=
  mkMarket (orders_on (book_ e) BUY) (orders_on (book_ e) SELL) (risk_ e) (seen_order_ids_ e)
    (sequence_ e) (next_trade_id_ e) (accepted_orders_ e) (rejected_orders_ e) (canceled_orders_ e).

Record engine_ok (e : MatchingEngine) : Prop := {
  engine_book : book_ok (book_ e);
  engine_market : market_ok (abs e)
}.

Section matching.
Implicit Types (taker order : Order.t) (makers : list Order.t) (b : OrderBook).

(** Matching looks at the taker's terms only, never at its [quantity] field. *)
Lemma pt_match_with_quantity taker k makers : forall q tid,
  pt_match (Order.with_quantity k taker) q tid makers = pt_match taker q tid makers.
Proof.
  induction makers as [|m makers IH]; intros q tid; cbn; [done|]. by rewrite IH.
Qed.

Lemma pt_match_zero taker tid makers : pt_match taker 0 tid makers = ([], 0, makers).
Proof. by destruct makers. Qed.

Lemma with_quantity_same order : Order.with_quantity (Order.quantity order) order = order.
Proof. by destruct order. Qed.

(** What one run of the loop has to deliver. *)
Definition loop_result (fuel : nat) b order tid out : Prop :=
  let opp := opposite (Order.side order) in
  let '(trades, q, makers) := pt_match order (Order.quantity order) tid (orders_on b opp) in
  exists b',
    match_loop fuel opp b order tid out
    = Ok (b', Order.with_quantity q order, u64 (tid + Z.of_nat (length trades)), out ++ trades)
    /\ book_ok b' /\ orders_on b' opp = makers
    /\ orders_on b' (opposite opp) = orders_on b (opposite opp)
    /\ locations_ b' ⊆ locations_ b.

(** The loop stops at once when nothing more can trade. *)
Lemma loop_stops fuel b order tid out :
  book_ok b -> is_u64 tid ->
  pt_match order (Order.quantity order) tid (orders_on b (opposite (Order.side order)))
  = ([], Order.quantity order, orders_on b (opposite (Order.side order))) ->
  match_loop (S fuel) (opposite (Order.side order)) b order tid out = Ok (b, order, tid, out) ->
  loop_result (S fuel) b order tid out.
Proof.
  intros Hok Ht Hm Hl. unfold loop_result. rewrite Hm. exists b.
  rewrite Hl, with_quantity_same, app_nil_r. cbn [length]. rewrite Z.add_0_r, u64_small by done.
  done.
Qed.

(** One iteration, with the best resting order known. *)
Lemma match_loop_step fuel opp b order tid out m makers :
  book_ok b -> isValidSide opp = true -> 0 < Order.quantity order ->
  orders_on b opp = m :: makers ->
  let t := Z.min (Order.quantity order) (Order.quantity m) in
  match_loop (S fuel) opp b order tid out =
  if negb (crosses order (Order.price m)) then Ok (b, order, tid, out)
  else b' ← reduceFront b opp t;
       match_loop fuel opp b' (Order.with_quantity (u32 (Order.quantity order - t)) order)
         (u64 (tid + 1)) (out ++ [trade_of order m tid t]).
Proof.
  intros Hok Hv Hq Em. cbn [match_loop].
  rewrite (emptySide_spec b opp Hok Hv), (frontOfBest_spec b opp Hok Hv), Em.
  by rewrite (proj2 (Z.ltb_lt 0 _)).
Qed.

Lemma match_loop_spec fuel : forall b order tid out,
  book_ok b -> is_u32 (Order.quantity order) -> is_u64 tid ->
  (length (orders_on b (opposite (Order.side order))) < fuel
   \/ Order.quantity order = 0%Z /\ 0 < fuel)%nat ->
  loop_result fuel b order tid out.
Proof.
  induction fuel as [|fuel IH]; intros b order tid out Hok Hq Ht Hf; [lia|].
  set (opp := opposite (Order.side order)) in *.
  assert (isValidSide opp = true) as Hv by apply opposite_valid.
  destruct (orders_on b opp) as [|m makers] eqn:Em; cbn [length] in Hf.
  { apply loop_stops; [done|done|by fold opp; rewrite Em|].
    cbn. fold opp. rewrite (emptySide_spec b opp Hok Hv), Em. by rewrite andb_false_r. }
  destruct (Order.quantity order =? 0) eqn:E0.
  { apply loop_stops; [done|done|fold opp; rewrite Em; cbn; by rewrite E0|].
    cbn. by rewrite (proj2 (Z.ltb_ge 0 _)) by lia. }
  pose proof (match_loop_step fuel opp b order tid out m makers Hok Hv ltac:(range) Em) as Hl.
  destruct (crosses order (Order.price m)) eqn:Ec; cbn [negb] in Hl.
  2:{ apply loop_stops; [done|done| |done]. fold opp. rewrite Em. cbn. by rewrite E0, Ec. }
  assert (m ∈ orders_on b opp) as Hm by (rewrite Em; set_solver).
  destruct (orders_on_resting b opp m Hok Hv Hm) as [_ Hmq _ _ _ _]. clear Hm.
  set (t := Z.min (Order.quantity order) (Order.quantity m)) in *. cbv zeta in Hl.
  destruct (reduceFront_spec b opp m makers t Hok Hv Em ltac:(range)) as (b1 & Hr & Hok1 & Ho1 & Ho2 & Hlo).
  rewrite Hr in Hl. cbn [mbind result_bind] in Hl. rewrite u32_small in Hl by range.
  specialize (IH b1 (Order.with_quantity (Order.quantity order - t) order) (u64 (tid + 1))
                (out ++ [trade_of order m tid t]) Hok1 ltac:(cbn; range) (u64_range _)).
  cbn [Order.side Order.with_quantity Order.quantity] in IH. fold opp in IH.
  unfold loop_result in IH |- *. cbn [Order.side Order.with_quantity Order.quantity] in IH.
  fold opp in IH |- *. rewrite Ho1, pt_match_with_quantity in IH.
  rewrite Em. cbn [pt_match]. rewrite E0, Ec. cbn [orb negb].
  assert (locations_ b1 ⊆ locations_ b) as Hsub.
  { rewrite Hlo. destruct (t <? _); [done|apply delete_subseteq]. }
  destruct (Order.quantity order <? Order.quantity m) eqn:Elt.
  - replace t with (Order.quantity order) in * by lia. rewrite Elt in *. rewrite Z.sub_diag in *.
    rewrite pt_match_zero in IH. destruct IH as (b' & H1 & H2 & H3 & H4 & H5); [cbn [length]; lia|].
    exists b'. rewrite Hl, H1. split_and!; [|done|done|congruence|by etrans].
    cbn [length]. rewrite app_nil_r, Z.add_0_r, (u64_small (u64 _)) by apply u64_range. done.
  - replace t with (Order.quantity m) in * by lia. rewrite Z.ltb_irrefl in *.
    destruct (pt_match order (Order.quantity order - Order.quantity m) (u64 (tid + 1)) makers)
      as [[trades q] makers'].
    destruct IH as (b' & H1 & H2 & H3 & H4 & H5); [cbn [length]; lia|].
    exists b'. rewrite Hl, H1. split_and!; [|done|done|congruence|by etrans].
    cbn [length]. rewrite <- app_assoc, u64_add_l. cbn [app].
    replace (tid + 1 + Z.of_nat (length trades)) with (tid + Z.of_nat (S (length trades))) by lia.
    done.
Qed.
End matching.

Section commands.
Implicit Types (e : MatchingEngine) (order : Order.t) (b : OrderBook).

Lemma resting_on_abs e sd : isValidSide sd = true -> resting_on (abs e) sd = orders_on (book_ e) sd.
Proof. intros Hv. by by_side Hv. Qed.

Lemma abs_sides_ok e : book_ok (book_ e) -> sides_ok (abs e).
Proof.
  intros Hok. split.
  - intros sd Hv. rewrite resting_on_abs by done. by apply orders_on_prioritised.
  - intros sd o Hv. rewrite resting_on_abs by done. by apply orders_on_resting.
  - by apply book_ids_NoDup.
Qed.

Lemma abs_count e : book_ok (book_ e) -> resting_count (abs e) = orderCount (book_ e).
Proof. intros Hok. by rewrite (book_count _ Hok). Qed.

Lemma match_fuel_enough b sd :
  book_ok b -> isValidSide sd = true -> (length (orders_on b sd) < match_fuel b)%nat.
Proof.
  intros Hok%book_count Hv. unfold orderCount in Hok. unfold match_fuel. by_side Hv; lia.
Qed.

(** An id the engine has not seen is not in the book's index. *)
Lemma unseen_not_located e i :
  engine_ok e -> i ∉ seen_order_ids_ e -> locations_ (book_ e) !! i = None.
Proof.
  intros [Hok Hm] Hi. apply eq_None_not_Some. rewrite (book_lookup _ _ Hok).
  intros (o & -> & Ho)%list_elem_of_fmap. pose proof (mk_seen _ Hm) as Hf.
  rewrite Forall_forall in Hf. by apply Hi, Hf.
Qed.

(** The remainder may be added to the book the loop leaves behind. *)
Lemma remainder_addable e order b q :
  engine_ok e -> accepted_terms order -> Order.id order ∉ seen_order_ids_ e ->
  0 < q <= Order.quantity order -> Order.type order = LIMIT ->
  orders_on b (Order.side order) = orders_on (book_ e) (Order.side order) ->
  locations_ b ⊆ locations_ (book_ e) ->
  addable b (Order.with_quantity q (Order.with_sequence (sequence_ e) order)).
Proof.
  intros He [Hid Hv _ Hq Hp] Hseen Hq' Hty Ho Hsub. split; cbn.
  - split; cbn; [done|lia|done|done|done|by apply Hp].
  - done.
  - eapply lookup_weaken_None; [|exact Hsub]. by apply unseen_not_located.
  - rewrite Ho. pose proof (mk_sequenced _ (engine_market _ He)) as Hf.
    rewrite Forall_forall in Hf |- *. intros x Hx. apply Hf.
    apply (market_orders _ _ _ Hv). left. by rewrite resting_on_abs.
Qed.

Lemma opposite_involutive sd : isValidSide sd = true -> opposite (opposite sd) = sd.
Proof. intros Hv. by by_side Hv. Qed.

(** Resting the remainder, or not. *)
Lemma rest_remainder e order b q :
  engine_ok e -> accepted_terms order -> Order.id order ∉ seen_order_ids_ e ->
  0 <= q <= Order.quantity order -> book_ok b ->
  orders_on b (Order.side order) = orders_on (book_ e) (Order.side order) ->
  locations_ b ⊆ locations_ (book_ e) ->
  let left := Order.with_quantity q (Order.with_sequence (sequence_ e) order) in
  let should_rest := (0 <? q) && may_rest order in
  exists b', ((if should_rest then '(inserted, b) ← addOrder b left; _ ← assert inserted; Ok b
               else Ok b) : result OrderBook) = Ok b'
    /\ book_ok b'
    /\ orders_on b' (Order.side order) =
         (if should_rest then pt_insert (Order.side order) left (orders_on (book_ e) (Order.side order))
          else orders_on (book_ e) (Order.side order))
    /\ orders_on b' (opposite (Order.side order)) = orders_on b (opposite (Order.side order)).
Proof.
  intros He Ht Hseen Hq Hb Ho Hsub left should_rest. destruct should_rest eqn:Er; [|eauto].
  apply andb_true_iff in Er as [Hq' [Hty _]%andb_true_iff]. apply bool_decide_eq_true in Hty.
  destruct (addOrder_spec b left Hb) as (b' & Ha & Hb' & H1 & H2 & _).
  { apply remainder_addable; try done. lia. }
  exists b'. rewrite Ha. cbn in *. rewrite <- Ho. done.
Qed.

Lemma outcome_spec order executed remaining :
  0 <= remaining ->
  (if remaining =? 0 then FILLED
   else if (0 <? remaining) && may_rest order
        then (if executed =? 0 then RESTING else PARTIALLY_FILLED)
        else (if executed =? 0 then EXPIRED else PARTIALLY_FILLED))
  = outcome order executed remaining.
Proof.
  intros Hr. unfold outcome. destruct (remaining =? 0) eqn:E; [done|].
  rewrite (proj2 (Z.ltb_lt 0 _)) by lia. by destruct (may_rest order), (executed =? 0).
Qed.

Lemma execute_refines e order out :
  engine_ok e -> accepted_terms order -> Order.id order ∉ seen_order_ids_ e ->
  let '(m', trades, report) := market_execute (abs e) order in
  exists e', execute e order (sequence_ e) out = Ok (e', out ++ trades, report)
    /\ book_ok (book_ e') /\ abs e' = m'.
Proof.
  intros He Ht Hseen. pose proof He as [Hok Hm]. pose proof Ht as [Hid Hv _ Hq Hp].
  unfold market_execute, execute. cbn [m_sequence m_next_trade_id abs].
  set (sd := Order.side order) in *. set (taker := Order.with_sequence (sequence_ e) order).
  rewrite !resting_on_abs by (done || apply opposite_valid).
  pose proof (match_loop_spec (match_fuel (book_ e)) (book_ e) taker (next_trade_id_ e) out Hok
    ltac:(cbn; range) (mk_trade_range _ Hm)
    (or_introl (match_fuel_enough _ _ Hok (opposite_valid _)))) as Hl.
  unfold loop_result in Hl. change (Order.side taker) with sd in *.
  change (Order.quantity taker) with (Order.quantity order) in *.
  destruct (pt_match taker _ _ _) as [[trades q] makers] eqn:Em.
  destruct Hl as (b & Hl & Hb & Hmk & Hown & Hsub).
  rewrite (opposite_involutive _ Hv) in Hown.
  assert (0 <= q <= Order.quantity order) as Hq'.
  { eapply pt_match_range; [|lia|exact Em]. apply orders_on_live; [done|apply opposite_valid]. }
  change (if bool_decide (sd = BUY) then SELL else BUY) with (opposite sd). rewrite Hl.
  cbn [mbind result_bind Order.quantity Order.with_quantity Order.type Order.time_in_force Order.id].
  rewrite (u32_small (Order.quantity order - q)) by range.
  rewrite length_app, Nat2Z.inj_add, Z.add_simpl_l.
  change (Order.type taker) with (Order.type order).
  change (Order.time_in_force taker) with (Order.time_in_force order).
  rewrite <- andb_assoc. fold (may_rest order). rewrite outcome_spec by lia.
  destruct (rest_remainder e order b q He Ht Hseen Hq' Hb Hown Hsub) as (b' & Hr & Hb' & H1 & H2).
  fold sd taker in Hr, H1, H2. rewrite Hr. cbn [mbind result_bind]. eexists. split_and!; [done|done|].
  unfold abs. cbn [book_ risk_ seen_order_ids_ sequence_ next_trade_id_ accepted_orders_
    rejected_orders_ canceled_orders_ m_risk m_seen m_accepted m_rejected m_canceled].
  rewrite Hmk in H2. rewrite <- H1, <- H2.
  f_equal; by destruct (valid_side_cases _ Hv) as [-> | ->].
Qed.

(** The preflight of [processOrder] computes the market's reject reason. *)
Lemma preflight_executable e order :
  book_ok (book_ e) -> orderCount (book_ e) <= max_resting -> accepted_terms order ->
  executableQuantity (book_ e) order (Order.quantity order) = market_executable (abs e) order.
Proof.
  intros Hok Hc [_ Hv Ht Hq _]. unfold market_executable.
  rewrite executableQuantity_spec, resting_on_abs by (done || lia || apply opposite_valid). done.
Qed.

Lemma preflight_would_cross e order :
  book_ok (book_ e) -> accepted_terms order ->
  wouldCross (book_ e) order = Ok (market_would_cross (abs e) order).
Proof.
  intros Hok [_ Hv Ht _ _]. unfold market_would_cross.
  by rewrite wouldCross_spec, resting_on_abs by (done || apply opposite_valid).
Qed.

(** [processOrder] is: reject with the market's reason, or execute. *)
Lemma processOrder_cases e order out :
  book_ok (book_ e) -> orderCount (book_ e) <= max_resting -> Order.in_range order ->
  let e1 := bump_sequence e in
  let reason := market_reason (abs e1) order in
  processOrder e order out =
  (if bool_decide (reason = NONE) then execute e1 order (sequence_ e1) out
   else let '(e', report) := rejectedReport e1 order (sequence_ e1) reason in Ok (e', out, report)).
Proof.
  intros Hok Hc Ho e1 reason. unfold processOrder. fold e1. unfold reason, market_reason.
  change (m_seen (abs e1)) with (seen_order_ids_ e1). change (m_risk (abs e1)) with (risk_ e1).
  rewrite (abs_count e1) by done.
  destruct (bool_decide (validateStatic order = NONE)) eqn:Ev; cbn [negb]; [|by rewrite Ev].
  apply bool_decide_eq_true in Ev. pose proof (validateStatic_terms _ Ho Ev) as Ht.
  destruct (bool_decide (Order.id order ∈ _)); [done|].
  rewrite (preflight_executable e1), (preflight_would_cross e1) by done. fold (may_rest order).
  destruct (bool_decide (validate _ _ _ _ = NONE)) eqn:Er; cbn [negb]; [|by rewrite Er].
  destruct (hasFlag _ _); cbn [mbind result_bind andb];
    [destruct (market_would_cross _ _); [done|]|]; by destruct (bool_decide _ && _).
Qed.

Lemma processOrder_refines_ok e order out :
  engine_ok e -> Order.in_range order -> orderCount (book_ e) <= max_resting ->
  sequence_ e + 1 < 2 ^ 64 ->
  let '(m', trades, report) := market_process (abs e) order in
  exists e', processOrder e order out = Ok (e', out ++ trades, report)
    /\ engine_ok e' /\ abs e' = m'.
Proof.
  intros He Ho Hc Hs. pose proof He as [Hok Hm]. set (e1 := bump_sequence e).
  pose proof (market_process_ok (abs e) order) as Hk.
  assert (engine_ok e1) as He1 by (split; [done|by apply (market_tick_ok (abs e))]).
  rewrite (processOrder_cases e order out Hok Hc Ho). fold e1.
  unfold market_process in *. change (market_tick (abs e)) with (abs e1) in *.
  case_bool_decide as Hr.
  - assert (accepted_terms order /\ Order.id order ∉ seen_order_ids_ e1) as [Ht Hseen].
    { apply market_reason_none in Hr as (Hv & Hseen & _). split; [by apply validateStatic_terms|done]. }
    pose proof (execute_refines e1 order out He1 Ht Hseen) as Hx.
    destruct (market_execute _ _) as [[m' trades] report].
    destruct Hx as (e' & Hx & Hb & <-). exists e'. split_and!; [done|split; [done|]|done].
    by eapply Hk; [done|by apply abs_sides_ok|..].
  - cbn. eexists. rewrite app_nil_r. split_and!; [done|split; [done|]|done].
    by eapply Hk; [done|by apply abs_sides_ok|..].
Qed.

(** The order a cancel request names, if it rests. *)
Lemma resting_find b i :
  book_ok b ->
  match list_find (fun o => Order.id o = i) (orders_on b BUY ++ orders_on b SELL) with
  | Some (_, o) => Order.id o = i /\ o ∈ orders_on b BUY ++ orders_on b SELL
                   /\ is_Some (locations_ b !! i)
  | None => locations_ b !! i = None
  end.
Proof.
  intros Hok. destruct (list_find _ _) as [[k o]|] eqn:E.
  - apply list_find_Some in E as (Hk & Hi & _). apply list_elem_of_lookup_2 in Hk.
    split_and!; [done|done|]. apply (book_lookup _ _ Hok). rewrite <- Hi. by apply list_elem_of_fmap_2.
  - apply list_find_None in E. apply eq_None_not_Some. rewrite (book_lookup _ _ Hok).
    intros (o & -> & Ho)%list_elem_of_fmap. rewrite Forall_forall in E. by apply (E o).
Qed.

Lemma same_id_same_order b o o' :
  book_ok b -> o ∈ orders_on b BUY ++ orders_on b SELL -> o' ∈ orders_on b BUY ++ orders_on b SELL ->
  Order.id o = Order.id o' -> o = o'.
Proof.
  intros Hok%book_ids_NoDup [i Hi]%list_elem_of_lookup_1 [j Hj]%list_elem_of_lookup_1 Hid.
  assert (i = j) as ->; [|congruence].
  eapply NoDup_lookup; [exact Hok|..]; rewrite list_lookup_fmap; [by rewrite Hi|by rewrite Hj, Hid].
Qed.

Lemma cancel_refines_ok e i :
  engine_ok e -> sequence_ e + 1 < 2 ^ 64 ->
  let '(m', report) := market_cancel (abs e) i in
  exists e', cancel e i = Ok (e', report) /\ engine_ok e' /\ abs e' = m'.
Proof.
  intros He Hs. pose proof He as [Hok Hm]. pose proof (market_cancel_ok (abs e) i) as Hk.
  unfold market_cancel, cancel in *. cbn [m_sequence market_tick abs bids asks] in *.
  pose proof (resting_find (book_ e) i Hok) as Hf.
  change (book_ (bump_sequence e)) with (book_ e).
  destruct (list_find _ _) as [[k o]|].
  - destruct Hf as (Hi & Ho & Hloc). destruct (i =? 0) eqn:Ei.
    { eexists. split_and!; [done|split; [done|by eapply Hk]|done]. }
    destruct (cancelOrder_spec _ _ Hok Hloc) as (o' & b' & Hc & Hb' & Hid & Hv & Ho' & Hb & _).
    assert (o' = o) as ->.
    { apply (same_id_same_order (book_ e)); [done| |done|congruence].
      apply elem_of_app. destruct (valid_side_cases _ Hv) as [E|E]; rewrite E in Ho'; tauto. }
    rewrite Hc. cbn [mbind result_bind]. eexists. split; [done|].
    match goal with |- _ /\ ?A = ?m => assert (A = m) as Ha end.
    { unfold abs. cbn. by rewrite !Hb. }
    split; [split; [done|]|done]. rewrite Ha. by eapply Hk.
  - assert ((if i =? 0 then Ok (None, book_ e) else cancelOrder (book_ e) i)
            = Ok (None, book_ e)) as ->.
    { destruct (i =? 0); [done|]. unfold cancelOrder. by rewrite Hf. }
    cbn [mbind result_bind]. eexists. split_and!; [done|split; [done|by eapply Hk]|done].
Qed.
End commands.
