(* ===== verification/Session.v ===== *)
(** Whole sessions: what a client of [MatchingEngine] can do to it, as sequences
    of commands, and the invariant every reachable engine satisfies.

    A session may be up to [max_resting] = 2^32 commands long.  The bound keeps
    the [uint64_t] sequence from wrapping and every cached level total (at most
    2^32 orders of less than 2^32 units) inside [uint64_t]. *)

From S2P Require Import Prelude.
From S2P Require Import OrderTypes.
From S2P Require Import LevelMap.
From S2P Require Import PriceTime.
From S2P Require Import OrderBook.
From S2P Require Import BookInvariant.
From S2P Require Import BookOps.
From S2P Require Import BookQueries.
From S2P Require Import Risk.
From S2P Require Import MatchingEngine.
From S2P Require Import Market.
From S2P Require Import MarketInvariant.
From S2P Require Import Refinement.

#[local] Open Scope Z_scope.

(** The public calls that change an engine. *)
Inductive EngineCommand : Type :=
| Submit (order : Order.t)
| Cancel (order_id : Z)
| SetLimits (limits : RiskLimits.t)
| SetKillSwitch (enabled : bool).

Definition command_in_range (c : EngineCommand) : Prop :=
  match c with
  | Submit order => Order.in_range order
  | Cancel i => is_u64 i
  | SetLimits limits => RiskLimits.in_range limits
  | SetKillSwitch _ => True
  end.

#[export] Instance command_in_range_dec c : Decision (command_in_range c).
Proof. destruct c; cbn; unfold is_u64; apply _. Defined.

(** [engine.riskManager() = r]. *)
Definition with_risk (e : MatchingEngine) (r : RiskManager) : MatchingEngine :=
  mkEngine (book_ e) r (seen_order_ids_ e) (sequence_ e) (next_trade_id_ e)
    (accepted_orders_ e) (rejected_orders_ e) (canceled_orders_ e).

(** One command; trades are appended to the caller's vector. *)
Definition apply_command (e : MatchingEngine) (out : list Trade.t) (c : EngineCommand) :
    result (MatchingEngine * list Trade.t * list ExecutionReport.t) :=
  match c with
  | Submit order =>
    '(e, out, report) ← processOrder e order out; Ok (e, out, [report])
  | Cancel i => '(e, report) ← cancel e i; Ok (e, out, [report])
  | SetLimits limits => Ok (with_risk e (setLimits limits (risk_ e)), out, [])
  | SetKillSwitch on => Ok (with_risk e (setKillSwitch on (risk_ e)), out, [])
  end.

Fixpoint run (e : MatchingEngine) (out : list Trade.t) (cs : list EngineCommand) :
    result (MatchingEngine * list Trade.t * list ExecutionReport.t) :=
  match cs with
  | [] => Ok (e, out, [])
  | c :: cs =>
    '(e, out, reports) ← apply_command e out c;
    '(e, out, reports') ← run e out cs;
    Ok (e, out, reports ++ reports')
  end.

(** The same session on the abstract market. *)
Definition market_with_risk (m : Market) (r : RiskManager) : Market :=
  mkMarket (bids m) (asks m) r (m_seen m) (m_sequence m) (m_next_trade_id m) (m_accepted m)
    (m_rejected m) (m_canceled m).

Definition market_apply (m : Market) (c : EngineCommand) :
    Market * list Trade.t * list ExecutionReport.t :=
  match c with
  | Submit order => let '(m, trades, report) := market_process m order in (m, trades, [report])
  | Cancel i => let '(m, report) := market_cancel m i in (m, [], [report])
  | SetLimits limits => (market_with_risk m (setLimits limits (m_risk m)), [], [])
  | SetKillSwitch on => (market_with_risk m (setKillSwitch on (m_risk m)), [], [])
  end.

Fixpoint market_run (m : Market) (cs : list EngineCommand) :
    Market * list Trade.t * list ExecutionReport.t :=
  match cs with
  | [] => (m, [], [])
  | c :: cs =>
    let '(m, trades, reports) := market_apply m c in
    let '(m, trades', reports') := market_run m cs in
    (m, trades ++ trades', reports ++ reports')
  end.

(** * The session invariant *)

(** After [n] commands. *)
Record session_ok (n : nat) (e : MatchingEngine) : Prop := {
  session_engine : engine_ok e;
  session_limits : RiskLimits.in_range (limits_ (risk_ e));
  session_sequence : 0 <= sequence_ e <= Z.of_nat n
}.

(** An engine some client can be holding. *)
Definition operational (e : MatchingEngine) : Prop :=
  exists limits cs out reports,
    RiskLimits.in_range limits /\ Forall command_in_range cs /\ Z.of_nat (length cs) < max_resting
    /\ run (MatchingEngine_new limits) [] cs = Ok (e, out, reports).

Section session.
Implicit Types (e : MatchingEngine) (c : EngineCommand).

Lemma session_new limits : RiskLimits.in_range limits -> session_ok 0 (MatchingEngine_new limits).
Proof.
  intros Hl. split; [split|done|done].
  - split; [by repeat constructor|by repeat constructor|]. by split; [constructor..|].
  - apply market_new_ok.
Qed.

Lemma session_capacity n e :
  session_ok n e -> Z.of_nat n < max_resting ->
  orderCount (book_ e) <= max_resting /\ sequence_ e + 1 < 2 ^ 64.
Proof.
  intros [[Hb Hm] _ Hs] Hn. pose proof (mk_count _ Hm) as Hc. rewrite abs_count in Hc by done.
  cbn in Hc. unfold max_resting in *. lia.
Qed.

Lemma market_process_counters m order m' trades report :
  market_process m order = (m', trades, report) ->
  m_risk m' = m_risk m /\ m_sequence m' = u64 (m_sequence m + 1)
  /\ m_next_trade_id m' =
       (if bool_decide (ExecutionReport.reject_reason report = NONE)
        then u64 (m_next_trade_id m + Z.of_nat (length trades)) else m_next_trade_id m).
Proof.
  unfold market_process. case_bool_decide as Hr.
  - unfold market_execute. destruct (pt_match _ _ _ _) as [[tr q] mk]. by intros [= <- <- <-].
  - intros [= <- <- <-]. cbn. by rewrite (bool_decide_false _ Hr).
Qed.

Lemma market_cancel_counters m i m' report :
  market_cancel m i = (m', report) ->
  m_risk m' = m_risk m /\ m_sequence m' = u64 (m_sequence m + 1)
  /\ m_next_trade_id m' = m_next_trade_id m.
Proof.
  unfold market_cancel. destruct (list_find _ _) as [[]|]; [destruct (i =? 0)|]; by intros [= <- <-].
Qed.

(** One command from a session of [n]: never a fault, and the market follows. *)
Lemma apply_command_ok n e out c :
  session_ok n e -> Z.of_nat n < max_resting -> command_in_range c ->
  let '(m', trades, reports) := market_apply (abs e) c in
  exists e', apply_command e out c = Ok (e', out ++ trades, reports)
    /\ session_ok (S n) e' /\ abs e' = m'.
Proof.
  intros Hs Hn Hc. pose proof (session_capacity n e Hs Hn) as [Hcap Hseq].
  pose proof Hs as [He Hl Hr]. destruct c as [order|i|limits|on]; cbn [market_apply apply_command].
  - pose proof (processOrder_refines_ok e order out He Hc Hcap Hseq) as Hx.
    destruct (market_process _ _) as [[m' trades] report] eqn:Em.
    apply market_process_counters in Em as (Hk & Hq & _). cbn in Hk, Hq.
    destruct Hx as (e' & -> & He' & <-). exists e'. split_and!; [done| |done].
    cbn in Hk, Hq. split; [done|by rewrite Hk|]. rewrite Hq, u64_small by range. lia.
  - pose proof (cancel_refines_ok e i He Hseq) as Hx.
    destruct (market_cancel _ _) as [m' report] eqn:Em.
    apply market_cancel_counters in Em as (Hk & Hq & _). cbn in Hk, Hq.
    destruct Hx as (e' & -> & He' & <-). exists e'. rewrite app_nil_r. split_and!; [done| |done].
    cbn in Hk, Hq. split; [done|by rewrite Hk|]. rewrite Hq, u64_small by range. lia.
  - rewrite app_nil_r. eexists. split_and!; [done| |done].
    split; [|done|cbn; lia]. destruct He as [Hb []]. by split; [|split].
  - rewrite app_nil_r. eexists. split_and!; [done| |done].
    split; [|done|cbn; lia]. destruct He as [Hb []]. by split; [|split].
Qed.

Lemma run_ok cs : forall n e out,
  session_ok n e -> Z.of_nat (n + length cs) <= max_resting -> Forall command_in_range cs ->
  let '(m', trades, reports) := market_run (abs e) cs in
  exists e', run e out cs = Ok (e', out ++ trades, reports)
    /\ session_ok (n + length cs) e' /\ abs e' = m'.
Proof.
  induction cs as [|c cs IH]; intros n e out Hs Hn Hf; cbn [market_run run length] in *.
  { exists e. by rewrite app_nil_r, Nat.add_0_r. }
  apply Forall_cons in Hf as [Hc Hf].
  pose proof (apply_command_ok n e out c Hs ltac:(lia) Hc) as Hx.
  destruct (market_apply _ _) as [[m1 trades] reports]. destruct Hx as (e1 & -> & Hs1 & <-).
  specialize (IH (S n) e1 (out ++ trades) Hs1 ltac:(lia) Hf).
  destruct (market_run _ _) as [[m' trades'] reports']. destruct IH as (e' & Hr & Hs' & <-).
  exists e'. cbn [mbind result_bind]. rewrite Hr. cbn [mbind result_bind].
  rewrite app_assoc. replace (n + S (length cs))%nat with (S n + length cs)%nat by lia. done.
Qed.

Lemma operational_session e :
  operational e -> exists n, session_ok n e /\ Z.of_nat n < max_resting.
Proof.
  intros (limits & cs & out & reports & Hl & Hf & Hn & Hr).
  pose proof (run_ok cs 0 _ [] (session_new limits Hl) ltac:(lia) Hf) as Hx.
  destruct (market_run _ _) as [[m' trades'] reports']. destruct Hx as (e' & Hr' & Hs' & _).
  rewrite Hr' in Hr. simplify_eq. by exists (length cs).
Qed.

Lemma operational_process e order out :
  operational e -> Order.in_range order ->
  let '(m', trades, report) := market_process (abs e) order in
  exists e', processOrder e order out = Ok (e', out ++ trades, report)
    /\ engine_ok e' /\ abs e' = m'.
Proof.
  intros (n & Hs & Hn)%operational_session Ho.
  pose proof (session_capacity n e Hs Hn) as [Hcap Hseq].
  by apply processOrder_refines_ok; [apply Hs|..].
Qed.

Lemma operational_ok e : operational e -> engine_ok e.
Proof. intros (n & [? _ _] & _)%operational_session. done. Qed.
End session.
