(* ===== verification/SessionRuns.v ===== *)
(** Sessions compose: the caller's trade vector does not influence the engine, and
    a session can be extended by a command. *)

From S2P Require Import Prelude.
From S2P Require Import OrderTypes.
From S2P Require Import OrderBook.
From S2P Require Import Risk.
From S2P Require Import MatchingEngine.
From S2P Require Import Session.

#[local] Open Scope Z_scope.

(** * The caller's trade vector does not influence the engine *)

Section out_trades.
Implicit Types (out : list Trade.t).

Lemma match_loop_out fuel : forall opp b o tid out,
  match_loop fuel opp b o tid out
  = (fun '(b, o, t, ts) => (b, o, t, out ++ ts)) <$> match_loop fuel opp b o tid [].
Proof.
  induction fuel as [|fuel IH]; intros opp b o tid out; cbn [match_loop]; [done|].
  destruct (_ && _); cbn; [|by rewrite app_nil_r].
  destruct (frontOfBest b opp) as [[best|]|]; cbn; [|done|done].
  destruct (negb _); cbn; [by rewrite app_nil_r|].
  destruct (reduceFront _ _ _) as [b'|]; cbn; [|done].
  rewrite (IH _ _ _ _ (out ++ [_])), (IH _ _ _ _ [_]).
  destruct (match_loop _ _ _ _ _ []) as [[[[b1 o1] t1] ts1]|]; cbn; [|done].
  by rewrite <- app_assoc.
Qed.

Lemma execute_out e o s out :
  execute e o s out = (fun '(e, ts, r) => (e, out ++ ts, r)) <$> execute e o s [].
Proof.
  unfold execute. rewrite (match_loop_out _ _ _ _ _ out).
  destruct (match_loop _ _ _ _ _ []) as [[[[b1 o1] t1] ts1]|]; cbn [fmap result_fmap mbind result_bind]; [|done].
  match goal with |- mbind _ ?m = _ => destruct m as [b2|] end; cbn [fmap result_fmap mbind result_bind]; [|done].
  by rewrite length_app, Nat2Z.inj_add, Z.add_simpl_l, Z.sub_0_r.
Qed.

Lemma processOrder_out e o out :
  processOrder e o out = (fun '(e, ts, r) => (e, out ++ ts, r)) <$> processOrder e o [].
Proof.
  unfold processOrder. destruct (negb _); [cbn; by rewrite app_nil_r|].
  destruct (bool_decide _); [cbn; by rewrite app_nil_r|].
  destruct (negb _); [cbn; by rewrite app_nil_r|].
  match goal with |- mbind _ ?m = _ => destruct m as [[]|] end; cbn [mbind result_bind].
  - cbn. by rewrite app_nil_r.
  - destruct (_ && _); [cbn; by rewrite app_nil_r|apply execute_out].
  - done.
Qed.

Lemma apply_command_out e out c :
  apply_command e out c = (fun '(e, ts, rs) => (e, out ++ ts, rs)) <$> apply_command e [] c.
Proof.
  destruct c as [o|i|l|on]; cbn [apply_command].
  - rewrite (processOrder_out e o out). by destruct (processOrder e o []) as [[[]]|].
  - destruct (cancel e i) as [[]|]; cbn; [by rewrite app_nil_r|done].
  - cbn. by rewrite app_nil_r.
  - cbn. by rewrite app_nil_r.
Qed.

Lemma run_out cs : forall e out,
  run e out cs = (fun '(e, ts, rs) => (e, out ++ ts, rs)) <$> run e [] cs.
Proof.
  induction cs as [|c cs IH]; intros e out; cbn [run]; [cbn; by rewrite app_nil_r|].
  rewrite (apply_command_out e out c).
  destruct (apply_command e [] c) as [[[e1 ts1] rs1]|]; cbn [fmap result_fmap mbind result_bind]; [|done].
  rewrite (IH e1 (out ++ ts1)), (IH e1 ts1).
  destruct (run e1 [] cs) as [[[e2 ts2] rs2]|]; cbn; [|done]. by rewrite app_assoc.
Qed.
End out_trades.

(** * Extending a session *)

Lemma run_app cs1 cs2 : forall e out,
  run e out (cs1 ++ cs2)
  = '(e, out, rs) ← run e out cs1; '(e, out, rs') ← run e out cs2; Ok (e, out, rs ++ rs').
Proof.
  induction cs1 as [|c cs1 IH]; intros e out; cbn [app run].
  - cbn. by destruct (run e out cs2) as [[[]]|].
  - destruct (apply_command e out c) as [[[e1 out1] rs1]|]; cbn [mbind result_bind]; [|done].
    rewrite IH. destruct (run e1 out1 cs1) as [[[e2 out2] rs2]|]; cbn [mbind result_bind]; [|done].
    destruct (run e2 out2 cs2) as [[[]]|]; cbn; [by rewrite app_assoc|done].
Qed.

Lemma run_snoc cs : forall e out c,
  run e out (cs ++ [c])
  = '(e, out, rs) ← run e out cs; '(e, out, rs') ← apply_command e out c; Ok (e, out, rs ++ rs').
Proof.
  induction cs as [|c' cs IH]; intros e out c; cbn [app run].
  - cbn. destruct (apply_command e out c) as [[[]]|]; cbn; [by rewrite app_nil_r|done].
  - destruct (apply_command e out c') as [[[e1 out1] rs1]|]; cbn [mbind result_bind]; [|done].
    rewrite IH. destruct (run e1 out1 cs) as [[[e2 out2] rs2]|]; cbn [mbind result_bind]; [|done].
    destruct (apply_command e2 out2 c) as [[[]]|]; cbn; [by rewrite app_assoc|done].
Qed.
