(* ===== verification/MatchFacts.v ===== *)
(** What a run of the matching function delivers: who is served, at which price
    and quantity, under which trade ids, and how many trades there can be. *)

From S2P Require Import Prelude.
From S2P Require Import OrderTypes.
From S2P Require Import LevelMap.
From S2P Require Import PriceTime.
From S2P Require Import OrderBook.
From S2P Require Import BookInvariant.
From S2P Require Import BookOps.
From S2P Require Import Risk.
From S2P Require Import MatchingEngine.
From S2P Require Import Market.
From S2P Require Import MarketInvariant.

#[local] Open Scope Z_scope.

(** The two parties of a trade, seen from the incoming order's side. *)
Definition maker_id (sd : Side) (t : Trade.t) : Z :=
  if bool_decide (sd = BUY) then Trade.sell_order_id t else Trade.buy_order_id t.
Definition taker_id (sd : Side) (t : Trade.t) : Z :=
  if bool_decide (sd = BUY) then Trade.buy_order_id t else Trade.sell_order_id t.

(** The [k]-th trade serves the [k]-th resting order at that order's price, and
    only the last trade may leave its resting order partly filled. *)
Record served (taker : Order.t) (trades : list Trade.t) (k : nat) (t : Trade.t) (m : Order.t) : Prop := {
  served_maker : maker_id (Order.side taker) t = Order.id m;
  served_taker : taker_id (Order.side taker) t = Order.id taker;
  served_price : Trade.price t = Order.price m;
  served_crosses : crosses taker (Order.price m) = true;
  served_quantity : 0 < Trade.quantity t <= Order.quantity m;
  served_whole : (S k < length trades)%nat -> Trade.quantity t = Order.quantity m;
  served_sequence : Trade.sequence t = Order.sequence taker
}.

Section facts.
Implicit Types (taker m : Order.t) (makers : list Order.t) (trades : list Trade.t).

Lemma trade_of_served taker m tid q trades k :
  crosses taker (Order.price m) = true -> 0 < q <= Order.quantity m ->
  ((S k < length trades)%nat -> q = Order.quantity m) ->
  served taker trades k (trade_of taker m tid q) m.
Proof.
  intros Hc Hq Hw.
  unfold trade_of. split; unfold maker_id, taker_id; repeat case_bool_decide; cbn; done.
Qed.

Lemma served_shift taker trades k t m t0 :
  served taker trades k t m -> served taker (t0 :: trades) (S k) t m.
Proof. intros []; split; try done. cbn. intros ?. by apply served_whole0, Nat.succ_lt_mono. Qed.

Lemma pt_match_served taker makers : forall q tid trades q' makers',
  Forall live makers -> 0 <= q ->
  pt_match taker q tid makers = (trades, q', makers') ->
  forall k t, trades !! k = Some t ->
  exists m, makers !! k = Some m /\ served taker trades k t m.
Proof.
  induction makers as [|m makers IH]; cbn; intros q tid trades q' makers' Hl Hq H k t Ht.
  { by simplify_eq. }
  apply Forall_cons in Hl as [Hm Hl]. unfold live in Hm.
  destruct (q =? 0) eqn:E0, (crosses taker (Order.price m)) eqn:Ec; cbn in H; try by simplify_eq.
  destruct (q <? Order.quantity m) eqn:E.
  - simplify_eq. apply list_lookup_singleton_Some in Ht as [-> <-]. exists m. split; [done|].
    apply trade_of_served; [done|lia|cbn; lia].
  - destruct (pt_match taker _ _ makers) as [[trades1 q1] rest] eqn:E'. simplify_eq.
    destruct k as [|k]; cbn in Ht.
    + simplify_eq. exists m. split; [done|]. by apply trade_of_served; [|lia|].
    + destruct (IH (q - Order.quantity m) _ _ _ _ Hl ltac:(lia) E' k t Ht) as (m' & Hm' & Hs).
      exists m'. split; [done|]. by apply served_shift.
Qed.

Lemma pt_match_trade_ids taker makers : forall q tid trades q' makers',
  is_u64 tid -> pt_match taker q tid makers = (trades, q', makers') ->
  forall k t, trades !! k = Some t -> Trade.trade_id t = u64 (tid + Z.of_nat k).
Proof.
  assert (forall m tid q, is_u64 tid ->
    Trade.trade_id (trade_of taker m tid q) = u64 (tid + Z.of_nat 0)) as H0.
  { intros m tid q Ht. unfold trade_of. rewrite Z.add_0_r, u64_small by done. by case_bool_decide. }
  induction makers as [|m makers IH]; cbn; intros q tid trades q' makers' Ht H k t Hk.
  { by simplify_eq. }
  destruct (_ || _); [by simplify_eq|]. destruct (q <? Order.quantity m).
  - simplify_eq. apply list_lookup_singleton_Some in Hk as [-> <-]. by apply H0.
  - destruct (pt_match taker _ _ makers) as [[trades1 q1] rest] eqn:E'. simplify_eq.
    destruct k as [|k]; cbn in Hk; [simplify_eq; by apply H0|].
    rewrite (IH _ _ _ _ _ (u64_range _) E' k t Hk), u64_add_l. f_equal. lia.
Qed.

(** Trades are paid for by resting orders: all but a last partial fill
    remove one, and a partial fill leaves nothing of the taker to rest. *)
Lemma pt_match_count taker makers : forall q tid trades q' makers',
  pt_match taker q tid makers = (trades, q', makers') ->
  (length makers' + length trades <= length makers + (if (0 <? q')%Z then 0 else 1))%nat.
Proof.
  induction makers as [|m makers IH]; cbn; intros q tid trades q' makers' H.
  { simplify_eq. cbn. lia. }
  destruct (_ || _); [simplify_eq; cbn; lia|].
  destruct (q <? Order.quantity m); [simplify_eq; cbn; lia|].
  destruct (pt_match taker _ _ makers) as [[trades1 q1] rest] eqn:E'. simplify_eq.
  apply IH in E'. cbn. lia.
Qed.

Lemma pt_match_blocked taker q tid makers :
  match makers with [] => True | m :: _ => crosses taker (Order.price m) = false end ->
  pt_match taker q tid makers = ([], q, makers).
Proof. destruct makers as [|m makers]; cbn; [done|]. intros ->. by rewrite orb_true_r. Qed.

End facts.

Section market.
Implicit Types (m : Market) (order : Order.t).

Lemma market_execute_trades m order m' trades report :
  accepted_terms order -> market_execute m order = (m', trades, report) ->
  resting_count m' + Z.of_nat (length trades) <= resting_count m + 1.
Proof.
  intros Ht E. destruct (market_execute_sides m order Ht _ _ _ E) as (q & makers & Hmatch & Eo & Es).
  pose proof (terms_side _ Ht) as Hv. apply pt_match_count in Hmatch.
  rewrite !(market_size _ _ Hv), Eo, Es.
  destruct (0 <? q); cbn [andb]; [destruct (may_rest order); [rewrite pt_insert_perm; cbn [length]|]|]; lia.
Qed.

Lemma market_process_trades m order m' trades report :
  Order.in_range order -> market_process m order = (m', trades, report) ->
  resting_count m' + Z.of_nat (length trades) <= resting_count m + 1.
Proof.
  intros Ho. unfold market_process. case_bool_decide as Hr.
  - intros E. apply market_reason_none in Hr as [Hv _].
    by apply (market_execute_trades (market_tick m) order) in E; [|by apply validateStatic_terms].
  - intros [= <- <- <-]. unfold resting_count. cbn. lia.
Qed.
End market.
