(* ===== verification/EngineProps.v ===== *)
(** What a client of the matching engine can rely on: the refinement of whole
    sessions, and the consequences for a single command in any session. *)

From S2P Require Import Prelude.
From S2P Require Import OrderTypes.
From S2P Require Import LevelMap.
From S2P Require Import PriceTime.
From S2P Require Import OrderBook.
From S2P Require Import BookInvariant.
From S2P Require Import BookOps.
From S2P Require Import BookQueries.
From S2P Require Import BookCheck.
From S2P Require Import Risk.
From S2P Require Import MatchingEngine.
From S2P Require Import Market.
From S2P Require Import MarketInvariant.
From S2P Require Import Refinement.
From S2P Require Import Session.
From S2P Require Import MatchFacts.

#[local] Open Scope Z_scope.

(** * A concrete session

    Two asks, a crossing bid that sweeps one level and part of the next, a
    post-only bid and a cancel; the theorems below are instantiated on it. *)

Module Scenario.
Definition limit (i : Z) (sd : Side) (px qty : Z) : Order.t :=
  Order.mk i sd LIMIT GTC OrderFlags.NONE px qty 0.
Definition with_tif (t : TimeInForce) (o : Order.t) : Order.t :=
  Order.mk (Order.id o) (Order.side o) (Order.type o) t (Order.flags o) (Order.price o)
    (Order.quantity o) (Order.sequence o).
Definition post_only (o : Order.t) : Order.t :=
  Order.mk (Order.id o) (Order.side o) (Order.type o) (Order.time_in_force o)
    OrderFlags.POST_ONLY (Order.price o) (Order.quantity o) (Order.sequence o).

Definition opening : list EngineCommand :=
  [Submit (limit 1 SELL 101 100); Submit (limit 2 SELL 102 100); Submit (limit 3 BUY 99 40)].
Definition sweep : Order.t := limit 4 BUY 102 150.
Definition session : list EngineCommand :=
  opening ++ [Submit sweep; Submit (post_only (limit 5 BUY 100 10)); Cancel 3].

(** The engine after the opening commands. *)
Definition opened : MatchingEngine :=
  match run (MatchingEngine_new RiskLimits.default) [] opening with
  | Ok (e, _, _) => e
  | Fault _ => MatchingEngine_new RiskLimits.default
  end.

Lemma opened_operational : operational opened.
Proof.
  exists RiskLimits.default, opening.
  destruct (run (MatchingEngine_new RiskLimits.default) [] opening) as [[[e out] reports]|f] eqn:E.
  - exists out, reports. unfold opened. rewrite E. split_and!; [|apply (bool_decide_unpack _); by vm_compute|done|done].
    apply (bool_decide_unpack _). by vm_compute.
  - vm_compute in E. discriminate E.
Qed.
End Scenario.

(** Decide a closed, decidable hypothesis by evaluation. *)
Ltac evaluate := apply (bool_decide_unpack _); vm_compute; exact I.

(** * Whole sessions *)

(** C1. Refinement of whole sessions.  Whatever the risk limits and whatever
    well-typed commands a client sends (up to 2^32 of them), the engine runs to
    completion - no failed [assert], no undefined behaviour, every matching loop
    ends within its bound - and its trades, reports and final state are those of
    the abstract price-time market. *)
Theorem session_refines_market limits cs :
  RiskLimits.in_range limits -> Forall command_in_range cs ->
  Z.of_nat (length cs) <= max_resting ->
  let '(m, trades, reports) := market_run (market_new limits) cs in
  exists e, run (MatchingEngine_new limits) [] cs = Ok (e, trades, reports) /\ abs e = m.
Proof.
  intros Hl Hf Hn. pose proof (run_ok cs 0 _ [] (session_new limits Hl) ltac:(cbn; lia) Hf) as H.
  change (abs (MatchingEngine_new limits)) with (market_new limits) in H.
  destruct (market_run _ _) as [[m trades] reports]. destruct H as (e & Hr & _ & Ha).
  by exists e.
Qed.

Lemma uncrossed_of e : engine_ok e -> uncrossed (book_ e).
Proof.
  intros [Hb Hm] bid ask. rewrite bestBid_spec, bestAsk_spec by done.
  destruct (orders_on (book_ e) BUY) as [|x xs] eqn:Ex,
    (orders_on (book_ e) SELL) as [|y ys] eqn:Ey; cbn; try done.
  intros [= <-] [= <-]. apply (mk_uncrossed _ Hm); cbn; rewrite ?Ex, ?Ey; set_solver.
Qed.

Lemma session_audit n e :
  session_ok n e -> Z.of_nat n <= max_resting -> checkInvariants (book_ e) = Ok true.
Proof.
  intros [He _ Hs] Hn. pose proof He as [Hb Hm].
  apply checkInvariants_spec; [by intros ? ?; apply book_spread_range|].
  apply book_ok_checked; [done|by apply uncrossed_of|].
  rewrite <- abs_count by done. pose proof (mk_count _ Hm). cbn in *. lia.
Qed.

(** C4. The engine's own audit never fails: at every point of every session
    [checkInvariants] returns true - both books sorted, no empty level, every
    level FIFO by sequence, cached totals equal to the sum of the remaining
    quantities, the id index exact, the best bid below the best ask. *)
Theorem session_audits_clean limits cs :
  RiskLimits.in_range limits -> Forall command_in_range cs ->
  Z.of_nat (length cs) <= max_resting ->
  exists e trades reports,
    run (MatchingEngine_new limits) [] cs = Ok (e, trades, reports)
    /\ checkInvariants (book_ e) = Ok true.
Proof.
  intros Hl Hf Hn. pose proof (run_ok cs 0 _ [] (session_new limits Hl) ltac:(cbn; lia) Hf) as H.
  destruct (market_run _ _) as [[m trades] reports]. destruct H as (e & Hr & Hs & Ha).
  exists e, trades, reports. split; [done|]. by apply (session_audit (length cs)).
Qed.

Lemma session_refines_market_witness :
  exists e trades reports,
    run (MatchingEngine_new RiskLimits.default) [] Scenario.session = Ok (e, trades, reports)
    /\ abs e = (market_run (market_new RiskLimits.default) Scenario.session).1.1
    /\ Trade.price <$> trades = [101; 102].
Proof.
  pose proof (session_refines_market RiskLimits.default Scenario.session
                ltac:(evaluate) ltac:(evaluate) ltac:(cbn; unfold max_resting; lia)) as H.
  destruct (market_run _ _) as [[m trades] reports] eqn:E. destruct H as (e & Hr & Ha).
  exists e, trades, reports. split_and!; [done|done|]. vm_compute in E. by injection E as _ <- _.
Defined.

Lemma session_audits_clean_witness :
  exists e trades reports,
    run (MatchingEngine_new RiskLimits.default) [] Scenario.session = Ok (e, trades, reports)
    /\ checkInvariants (book_ e) = Ok true.
Proof.
  exact (session_audits_clean RiskLimits.default Scenario.session
           ltac:(evaluate) ltac:(evaluate) ltac:(cbn; unfold max_resting; lia)).
Defined.

(** * One new order in any session *)

Section process.
Context (e : MatchingEngine) (order : Order.t) (e' : MatchingEngine) (trades : list Trade.t)
  (report : ExecutionReport.t).
Hypothesis Hop : operational e.
Hypothesis Hrange : Order.in_range order.
Hypothesis Hrun : processOrder e order [] = Ok (e', trades, report).

Lemma process_market : market_process (abs e) order = (abs e', trades, report) /\ engine_ok e'.
Proof.
  pose proof (operational_process e order [] Hop Hrange) as H.
  destruct (market_process _ _) as [[m tr] r]. destruct H as (e1 & H & He & <-).
  rewrite Hrun in H. by simplify_eq.
Qed.

(** Either the gates reject and nothing moves, or the order is executed. *)
Lemma process_cases :
  (report = ExecutionReport.mk (Order.id order) (u64 (sequence_ e + 1)) NEW_ORDER REJECTED
              (market_reason (market_tick (abs e)) order) 0 (Order.quantity order) 0
              (Order.quantity order) 0
   /\ ExecutionReport.accepted report = false
   /\ market_reason (market_tick (abs e)) order <> NONE /\ trades = []
   /\ forall sd, orders_on (book_ e') sd = orders_on (book_ e) sd)
  \/
  (market_reason (market_tick (abs e)) order = NONE /\ accepted_terms order
   /\ ExecutionReport.accepted report = true
   /\ exists q,
     pt_match (Order.with_sequence (u64 (sequence_ e + 1)) order) (Order.quantity order)
       (next_trade_id_ e) (orders_on (book_ e) (opposite (Order.side order)))
     = (trades, q, orders_on (book_ e') (opposite (Order.side order)))
     /\ 0 <= q <= Order.quantity order
     /\ orders_on (book_ e') (Order.side order) =
          (if (0 <? q) && may_rest order
           then pt_insert (Order.side order)
                  (Order.with_quantity q (Order.with_sequence (u64 (sequence_ e + 1)) order))
                  (orders_on (book_ e) (Order.side order))
           else orders_on (book_ e) (Order.side order))
     /\ report = ExecutionReport.mk (Order.id order) (u64 (sequence_ e + 1)) NEW_ORDER
          (outcome order (Order.quantity order - q) q) NONE 0 (Order.quantity order)
          (Order.quantity order - q) q (u32 (Z.of_nat (length trades)))).
Proof.
  destruct process_market as [Hm He']. unfold market_process in Hm.
  pose proof (operational_ok e Hop) as [Hb _].
  case_bool_decide as Hr.
  - right. pose proof Hr as [Hv _]%market_reason_none.
    pose proof (validateStatic_terms order Hrange Hv) as Ht. pose proof (terms_side _ Ht) as Hsd.
    destruct (market_execute_sides _ _ Ht _ _ _ Hm) as (q & makers & Hp & Ho & Hs).
    rewrite resting_on_abs in Ho, Hs by (done || apply opposite_valid).
    change (resting_on (market_tick (abs e))) with (resting_on (abs e)) in Hp, Hs.
    rewrite resting_on_abs in Hp, Hs by (done || apply opposite_valid). subst makers.
    assert (report = ExecutionReport.mk (Order.id order) (u64 (sequence_ e + 1)) NEW_ORDER
          (outcome order (Order.quantity order - q) q) NONE 0 (Order.quantity order)
          (Order.quantity order - q) q (u32 (Z.of_nat (length trades)))) as Hrep.
    { unfold market_execute in Hm.
      change (resting_on (market_tick (abs e))) with (resting_on (abs e)) in Hm.
      rewrite (resting_on_abs _ (opposite _)) in Hm by apply opposite_valid.
      rewrite Hp in Hm. by simplify_eq. }
    assert (0 <= q <= Order.quantity order) as Hq.
    { eapply pt_match_range; [|pose proof (terms_quantity _ Ht); lia|exact Hp].
      by apply orders_on_live; [|apply opposite_valid]. }
    split_and!; [done|done| |exists q; split_and!; [exact Hp|lia|lia|exact Hs|done]].
    rewrite Hrep. unfold ExecutionReport.accepted, outcome. cbn. by repeat case_match.
  - left. injection Hm as Hbid Hask _ _ _ _ _ _ _ <- <-. split_and!; [done|done|done|done|].
    intros sd. unfold orders_on, levels_of. by case_bool_decide.
Qed.

(** An accepted order is left with what the acceptable offer cannot fill. *)
Lemma process_unfilled q :
  accepted_terms order ->
  pt_match (Order.with_sequence (u64 (sequence_ e + 1)) order) (Order.quantity order)
    (next_trade_id_ e) (orders_on (book_ e) (opposite (Order.side order)))
  = (trades, q, orders_on (book_ e') (opposite (Order.side order))) ->
  q = Order.quantity order - Z.min (Order.quantity order)
        (fillable order (orders_on (book_ e) (opposite (Order.side order)))).
Proof.
  intros [_ Hsd _ Hqty _] Hp. pose proof (operational_ok e Hop) as [Hb _].
  set (makers := orders_on (book_ e) (opposite (Order.side order))) in *.
  change (fillable order makers)
    with (fillable (Order.with_sequence (u64 (sequence_ e + 1)) order) makers).
  eapply pt_match_fills; [| | | | |exact Hp]; [|apply opposite_valid| | |lia].
  - cbn. by rewrite (opposite_involutive _ Hsd).
  - by apply orders_on_prioritised; [|apply opposite_valid].
  - by apply orders_on_live; [|apply opposite_valid].
Qed.

(** Only the order itself can be new in the book. *)
Lemma process_contains i :
  contains (book_ e') i = true ->
  contains (book_ e) i = true \/ i = Order.id order /\ may_rest order = true.
Proof.
  unfold contains. rewrite !bool_decide_eq_true. destruct process_market as [_ [Hb' _]].
  pose proof (operational_ok e Hop) as [Hb _]. rewrite !book_lookup by done.
  intros (o & -> & Ho)%list_elem_of_fmap.
  destruct process_cases as [(_ & _ & _ & _ & Hs)|(_ & Ht & _ & q & Hp & _ & Hs & _)].
  { left. rewrite !Hs in Ho. by apply list_elem_of_fmap_2. }
  pose proof (terms_side _ Ht) as Hv. change (o ∈ bids (abs e') ++ asks (abs e')) in Ho.
  rewrite (market_orders _ _ _ Hv), !resting_on_abs, Hs in Ho by (done || apply opposite_valid).
  pose proof (pt_match_makers _ _ _ _ _ _ _ Hp) as [_ Hmk]. rewrite Forall_forall in Hmk.
  assert (forall y, y ∈ orders_on (book_ e) (Order.side order)
            \/ y ∈ orders_on (book_ e) (opposite (Order.side order)) ->
          Order.id y ∈ Order.id <$> orders_on (book_ e) BUY ++ orders_on (book_ e) SELL) as Hin.
  { intros y Hy. apply list_elem_of_fmap_2. apply (market_orders (abs e) _ _ Hv).
    by rewrite !resting_on_abs by (done || apply opposite_valid). }
  destruct Ho as [Ho|(y & Hy & ->)%Hmk]; [|left; apply (Hin y); by right].
  destruct (_ && _) eqn:E; [|left; apply Hin; by left].
  apply andb_true_iff in E as [_ Hm]. rewrite pt_insert_perm, elem_of_cons in Ho.
  destruct Ho as [->|Ho]; [by right|left; apply Hin; by left].
Qed.

(** C2. Price-time priority.  The resting side an order meets is sorted by price,
    then by arrival; the trades serve its orders strictly from the front, the
    [k]-th trade against the [k]-th order, at that order's price, which the
    incoming limit accepts; every order served but the last is filled whole. *)
Theorem price_time_priority :
  let opp := opposite (Order.side order) in
  prioritised opp (orders_on (book_ e) opp)
  /\ forall k t, trades !! k = Some t ->
     exists m, orders_on (book_ e) opp !! k = Some m
       /\ served (Order.with_sequence (ExecutionReport.sequence report) order) trades k t m.
Proof.
  pose proof (operational_ok e Hop) as [Hb _]. intros opp.
  split; [by apply orders_on_prioritised; [|apply opposite_valid]|].
  destruct process_cases as [(_ & _ & _ & -> & _)|(_ & [] & _ & q & Hp & Hq & _ & ->)]; [done|].
  eapply pt_match_served; [..|exact Hp]; [|lia]. by apply orders_on_live; [|apply opposite_valid].
Qed.

(** C18. Quantity is conserved.  A report's executed and remaining quantities add
    up to the requested one, the trades add up to the executed one, the opposite
    side of the book loses exactly that much, and the order's own side gains the
    remainder if it rests and nothing otherwise. *)
Theorem quantity_conserved :
  ExecutionReport.requested_quantity report = Order.quantity order
  /\ ExecutionReport.executed_quantity report + ExecutionReport.remaining_quantity report
     = Order.quantity order
  /\ sum Trade.quantity trades = ExecutionReport.executed_quantity report
  /\ sum Order.quantity (orders_on (book_ e') (opposite (Order.side order)))
     = sum Order.quantity (orders_on (book_ e) (opposite (Order.side order)))
       - ExecutionReport.executed_quantity report
  /\ sum Order.quantity (orders_on (book_ e') (Order.side order))
     = sum Order.quantity (orders_on (book_ e) (Order.side order))
       + (if ExecutionReport.accepted report && may_rest order
          then ExecutionReport.remaining_quantity report else 0).
Proof.
  destruct process_cases as [(Hr & Ha & _ & -> & Ho)|(_ & _ & Ha & q & Hp & Hq & Hs & Hr)];
    rewrite Ha, Hr; cbn.
  - rewrite !Ho. autorewrite with sums. lia.
  - pose proof (pt_match_conserves _ _ _ _ _ _ _ Hp) as [H1 H2]. rewrite Hs.
    destruct (may_rest order); rewrite ?andb_true_r, ?andb_false_r; [|lia].
    destruct (0 <? q) eqn:E; [|lia].
    rewrite (sum_perm _ _ _ (pt_insert_perm _ _ _)), sum_cons. cbn. lia.
Qed.

(** C19. The preflight is exact.  What [executableQuantity] promises before an
    accepted order runs is what the matching loop then executes. *)
Theorem preflight_exact :
  ExecutionReport.reject_reason report = NONE ->
  ExecutionReport.executed_quantity report
  = executableQuantity (book_ e) order (Order.quantity order).
Proof.
  intros Hn. destruct (operational_session e Hop) as (n & Hs & Hlt).
  pose proof (session_capacity n e Hs Hlt) as [Hcap _]. destruct Hs as [[Hb _] _ _].
  destruct process_cases as [(-> & _ & Hr & _)|(_ & Ht & _ & q & Hp & Hq & _ & ->)]; [done|]. cbn.
  pose proof (process_unfilled q Ht Hp). destruct Ht as [_ Hsd Hty Hqty _]. rewrite executableQuantity_spec by (done || lia).
  lia.
Qed.

(** C20. Rejection is inert.  A rejected order changes nothing but the sequence
    number and the rejection counter: the whole book (levels, totals, index), the
    ids seen, the risk state and the trade counter are what they were, no trade
    is emitted, and the full quantity is reported as remaining. *)
Theorem rejection_inert :
  ExecutionReport.accepted report = false ->
  e' = mkEngine (book_ e) (risk_ e) (seen_order_ids_ e) (u64 (sequence_ e + 1)) (next_trade_id_ e)
         (accepted_orders_ e) (u64 (rejected_orders_ e + 1)) (canceled_orders_ e)
  /\ trades = [] /\ ExecutionReport.reject_reason report <> NONE
  /\ ExecutionReport.executed_quantity report = 0
  /\ ExecutionReport.remaining_quantity report = Order.quantity order.
Proof.
  intros Hacc. destruct (operational_session e Hop) as (n & Hs & Hlt).
  pose proof (session_capacity n e Hs Hlt) as [Hcap _]. destruct Hs as [[Hb _] _ _].
  destruct process_cases as [(-> & _ & Hr & -> & _)|(_ & _ & Ha & _)]; [|congruence].
  pose proof Hrun as H. rewrite processOrder_cases in H by done.
  change (abs (bump_sequence e)) with (market_tick (abs e)) in H.
  rewrite (bool_decide_false _ Hr) in H. cbn in H. by injection H as <-.
Qed.

(** Fill-or-kill is all or nothing.  A FOK order is either filled completely,
    or rejected with nothing executed and the book untouched. *)
Theorem fok_all_or_nothing :
  Order.time_in_force order = FOK ->
  (ExecutionReport.status report = FILLED
   /\ ExecutionReport.executed_quantity report = Order.quantity order
   /\ sum Trade.quantity trades = Order.quantity order)
  \/ (ExecutionReport.status report = REJECTED /\ trades = []
      /\ forall sd, orders_on (book_ e') sd = orders_on (book_ e) sd).
Proof.
  intros Hf. destruct process_cases as [(-> & _ & _ & -> & Ho)|(Hn & Ht & _ & q & Hp & Hq & _ & ->)].
  { by right. }
  left. cbn. pose proof (operational_ok e Hop) as [Hb _].
  pose proof Hn as (_ & _ & _ & _ & Hk)%market_reason_none. specialize (Hk Hf).
  unfold market_executable in Hk.
  change (resting_on (market_tick (abs e))) with (resting_on (abs e)) in Hk.
  rewrite resting_on_abs in Hk by apply opposite_valid. pose proof (terms_side _ Ht) as Hsd.
  pose proof (process_unfilled q Ht Hp). assert (q = 0) as -> by lia.
  pose proof (pt_match_conserves _ _ _ _ _ _ _ Hp) as [H1 _]. rewrite Z.sub_0_r. split_and!; [done|done|lia].
Qed.

(** Only good-till-cancel limit orders rest.  Any other order leaves its own
    side of the book exactly as it was, and its id is not in the book. *)
Theorem taker_never_rests :
  may_rest order = false -> isValidSide (Order.side order) = true ->
  orders_on (book_ e') (Order.side order) = orders_on (book_ e) (Order.side order)
  /\ (contains (book_ e) (Order.id order) = false -> contains (book_ e') (Order.id order) = false)
  /\ ExecutionReport.status report <> RESTING.
Proof.
  intros Hm Hsd.
  assert (orders_on (book_ e') (Order.side order) = orders_on (book_ e) (Order.side order)
    /\ ExecutionReport.status report <> RESTING) as [Hown Hst].
  { destruct process_cases as [(-> & _ & _ & _ & Ho)|(_ & _ & _ & q & _ & _ & -> & ->)]; [done|].
    rewrite Hm, andb_false_r. split; [done|]. cbn. unfold outcome. rewrite Hm. by repeat case_match. }
  split_and!; [done| |done]. intros Hc. apply not_true_iff_false.
  intros [H|[_ H]]%process_contains; congruence.
Qed.

(** Post-only never takes.  A post-only order trades with nobody; if it is
    accepted it rests whole, and the other side of the book is untouched. *)
Theorem post_only_never_takes :
  hasFlag (Order.flags order) OrderFlags.POST_ONLY = true ->
  trades = []
  /\ (ExecutionReport.accepted report = true ->
      ExecutionReport.status report = RESTING
      /\ ExecutionReport.remaining_quantity report = Order.quantity order
      /\ contains (book_ e') (Order.id order) = true
      /\ orders_on (book_ e') (opposite (Order.side order))
         = orders_on (book_ e) (opposite (Order.side order))).
Proof.
  intros Hf. destruct process_market as [_ [Hb' _]].
  destruct process_cases as [(_ & Ha & _ & -> & _)|(Hn & Ht & _ & q & Hp & _ & Hs & ->)].
  { split; [done|congruence]. }
  pose proof Hn as (Hv & _ & _ & Hc & _)%market_reason_none. specialize (Hc Hf).
  pose proof (validateStatic_post_only _ Hv Hf) as Hm. destruct Ht as [_ Hsd _ Hq _].
  unfold market_would_cross in Hc.
  change (resting_on (market_tick (abs e))) with (resting_on (abs e)) in Hc.
  rewrite resting_on_abs in Hc by apply opposite_valid.
  rewrite pt_match_blocked in Hp by (by destruct (orders_on _ _)).
  injection Hp as <- <- Ho. split; [done|]. intros _. rewrite (proj2 (Z.ltb_lt 0 _)), Hm in Hs by lia.
  cbn. rewrite Z.sub_diag. unfold outcome. rewrite Hm, (proj2 (Z.eqb_neq _ 0)) by lia.
  split_and!; [done|done| |done].
  unfold contains. apply bool_decide_eq_true, (book_lookup _ _ Hb'). apply list_elem_of_fmap.
  exists (Order.with_sequence (u64 (sequence_ e + 1)) order). split; [done|].
  apply (market_orders (abs e') _ _ Hsd). left. rewrite resting_on_abs, Hs by done. cbn [andb].
  rewrite pt_insert_perm. left.
Qed.

(** The active-order limit holds.  A book within [max_active_orders] stays
    within it, whatever the order does. *)
Theorem active_orders_capped :
  orderCount (book_ e) <= RiskLimits.max_active_orders (limits_ (risk_ e)) ->
  orderCount (book_ e') <= RiskLimits.max_active_orders (limits_ (risk_ e')).
Proof.
  destruct process_market as [Hm [Hb' _]]. pose proof (operational_ok e Hop) as [Hb _].
  pose proof (market_process_counters _ _ _ _ _ Hm) as (Hk & _ & _). cbn in Hk. rewrite Hk.
  rewrite <- !abs_count by done. intros Hc.
  destruct process_cases as [(_ & _ & _ & _ & Ho)|(Hn & Ht & _ & q & Hp & Hq & Hs & _)].
  { unfold resting_count in *. cbn in *. by rewrite !Ho. }
  pose proof (pt_match_makers _ _ _ _ _ _ _ Hp) as [Hlen _]. pose proof (process_unfilled q Ht Hp) as Hu.
  pose proof Hn as (_ & _ & Hr & _)%market_reason_none. cbn in Hr.
  destruct Ht as [_ Hsd _ Hqty _].
  rewrite (market_size _ _ Hsd), !resting_on_abs in Hc by (done || apply opposite_valid).
  rewrite (market_size _ _ Hsd), !resting_on_abs, Hs by (done || apply opposite_valid).
  destruct ((0 <? q) && may_rest order) eqn:Er; [|lia]. rewrite pt_insert_perm. cbn [length].
  apply andb_true_iff in Er as [Eq Er]. rewrite Er in Hr. cbn [andb] in Hr.
  unfold market_executable in Hr. change (resting_on (market_tick (abs e))) with (resting_on (abs e)) in Hr.
  rewrite !resting_on_abs in Hr by (done || apply opposite_valid).
  rewrite (proj2 (Z.ltb_lt _ _)) in Hr by lia. apply validate_active in Hr.
  change (resting_count (market_tick (abs e))) with (resting_count (abs e)) in Hr.
  rewrite (market_size _ _ Hsd), !resting_on_abs in Hr by (done || apply opposite_valid). lia.
Qed.
End process.

(** * The single-order theorems on the opened book *)

(** Run [order] on the opened book; the run is [E], the order's range [Hr]. *)
Ltac on_opened order :=
  assert (Order.in_range order) as Hr by evaluate;
  destruct (processOrder Scenario.opened order []) as [[[e' trades] report]|f] eqn:E;
  [exists e', trades, report; split; [reflexivity|]|vm_compute in E; discriminate E].

(** A fact about the outcome of a concrete run, by evaluation. *)
Ltac by_run E := vm_compute in E; injection E as <- <- <-; vm_compute; (reflexivity || discriminate).

Lemma price_time_priority_witness :
  exists e' trades report,
    processOrder Scenario.opened Scenario.sweep [] = Ok (e', trades, report)
    /\ (forall k t, trades !! k = Some t ->
        exists m, orders_on (book_ Scenario.opened) (opposite (Order.side Scenario.sweep)) !! k = Some m
          /\ served (Order.with_sequence (ExecutionReport.sequence report) Scenario.sweep) trades k t m)
    /\ length trades = 2%nat.
Proof.
  on_opened Scenario.sweep. split.
  - destruct (price_time_priority Scenario.opened _ e' trades report Scenario.opened_operational Hr E) as [_ H].
    exact H.
  - by_run E.
Defined.

Lemma quantity_conserved_witness :
  exists e' trades report,
    processOrder Scenario.opened Scenario.sweep [] = Ok (e', trades, report)
    /\ sum Trade.quantity trades = ExecutionReport.executed_quantity report
    /\ sum Trade.quantity trades = 150.
Proof.
  on_opened Scenario.sweep. split.
  - apply (quantity_conserved Scenario.opened _ e' trades report Scenario.opened_operational Hr E).
  - by_run E.
Defined.

Lemma preflight_exact_witness :
  exists e' trades report,
    processOrder Scenario.opened Scenario.sweep [] = Ok (e', trades, report)
    /\ ExecutionReport.executed_quantity report
       = executableQuantity (book_ Scenario.opened) Scenario.sweep 150.
Proof.
  on_opened Scenario.sweep.
  apply (preflight_exact Scenario.opened _ e' trades report Scenario.opened_operational Hr E). by_run E.
Defined.

Lemma rejection_inert_witness :
  exists e' trades report,
    processOrder Scenario.opened (Scenario.limit 2 BUY 102 5) [] = Ok (e', trades, report)
    /\ book_ e' = book_ Scenario.opened /\ trades = [].
Proof.
  on_opened (Scenario.limit 2 BUY 102 5).
  destruct (rejection_inert Scenario.opened _ e' trades report Scenario.opened_operational Hr E) as (-> & -> & _).
  - by_run E.
  - split; reflexivity.
Defined.

(** A FOK order that fills, and one that is killed. *)
Lemma fok_all_or_nothing_witness :
  exists e' trades report,
    processOrder Scenario.opened (Scenario.with_tif FOK (Scenario.limit 9 BUY 101 120)) []
      = Ok (e', trades, report)
    /\ ((ExecutionReport.status report = FILLED
         /\ ExecutionReport.executed_quantity report = 120 /\ sum Trade.quantity trades = 120)
        \/ (ExecutionReport.status report = REJECTED /\ trades = []
            /\ forall sd, orders_on (book_ e') sd = orders_on (book_ Scenario.opened) sd)).
Proof.
  on_opened (Scenario.with_tif FOK (Scenario.limit 9 BUY 101 120)).
  apply (fok_all_or_nothing Scenario.opened _ e' trades report Scenario.opened_operational Hr E). reflexivity.
Defined.

Lemma taker_never_rests_witness :
  exists e' trades report,
    processOrder Scenario.opened (Scenario.with_tif IOC (Scenario.limit 9 BUY 101 120)) []
      = Ok (e', trades, report)
    /\ orders_on (book_ e') BUY = orders_on (book_ Scenario.opened) BUY
    /\ contains (book_ e') 9 = false.
Proof.
  on_opened (Scenario.with_tif IOC (Scenario.limit 9 BUY 101 120)).
  destruct (taker_never_rests Scenario.opened _ e' trades report Scenario.opened_operational Hr E) as (H1 & H2 & _);
    [reflexivity|reflexivity|]. split; [exact H1|]. apply H2. reflexivity.
Defined.

Lemma post_only_never_takes_witness :
  exists e' trades report,
    processOrder Scenario.opened (Scenario.post_only (Scenario.limit 9 BUY 100 10)) []
      = Ok (e', trades, report)
    /\ trades = [] /\ ExecutionReport.status report = RESTING /\ contains (book_ e') 9 = true.
Proof.
  on_opened (Scenario.post_only (Scenario.limit 9 BUY 100 10)).
  destruct (post_only_never_takes Scenario.opened _ e' trades report Scenario.opened_operational Hr E) as [Ht H];
    [reflexivity|]. destruct H as (H1 & _ & H2 & _); [by_run E|].
  exact (conj Ht (conj H1 H2)).
Defined.

Lemma active_orders_capped_witness :
  exists e' trades report,
    processOrder Scenario.opened Scenario.sweep [] = Ok (e', trades, report)
    /\ orderCount (book_ e') <= UINT64_MAX.
Proof.
  on_opened Scenario.sweep.
  pose proof (active_orders_capped Scenario.opened _ e' trades report Scenario.opened_operational Hr E) as H.
  assert (RiskLimits.max_active_orders (limits_ (risk_ e')) = UINT64_MAX) as Hk by by_run E.
  rewrite Hk in H. apply H. by vm_compute.
Defined.
