(* ===== verification/SessionProps.v ===== *)
(** What holds across the commands of a session: numbering of trades and
    reports, order ids, cancellation and the kill switch. *)

From S2P Require Import Prelude.
From S2P Require Import OrderTypes.
From S2P Require Import LevelMap.
From S2P Require Import PriceTime.
From S2P Require Import OrderBook.
From S2P Require Import BookInvariant.
From S2P Require Import BookOps.
From S2P Require Import BookQueries.
From S2P Require Import Risk.
From S2P Require Import MatchingEngine.
From S2P Require Import Market.
From S2P Require Import MarketInvariant.
From S2P Require Import Refinement.
From S2P Require Import Session.
From S2P Require Import MatchFacts.
From S2P Require Import EngineProps.

#[local] Open Scope Z_scope.

(** * Numbering *)

(** Ids that count up from [start]. *)
Definition counts_from (start : Z) (ids : list Z) : Prop :=
  forall k i, ids !! k = Some i -> i = start + Z.of_nat k.

Lemma counts_from_app start l1 l2 :
  counts_from start l1 -> counts_from (start + Z.of_nat (length l1)) l2 ->
  counts_from start (l1 ++ l2).
Proof.
  intros H1 H2 k i [Hk|[Hk Hi]]%lookup_app_Some; [by apply H1|].
  apply H2 in Hi. lia.
Qed.

Section numbering.
Implicit Types (m : Market) (c : EngineCommand).

(** What [n] commands can have done to the counters: every trade was paid for
    by one command, so no counter has wrapped. *)
Record numbered (n : nat) m : Prop := {
  num_sequence : m_sequence m + 1 <= Z.of_nat n + 1;
  num_nonneg : 0 <= m_sequence m;
  num_trades : 1 <= m_next_trade_id m;
  num_paid : m_next_trade_id m - 1 + resting_count m <= Z.of_nat n
}.

Lemma process_numbered n m order m' trades report :
  numbered n m -> Z.of_nat n < max_resting -> Order.in_range order ->
  market_process m order = (m', trades, report) ->
  numbered (S n) m' /\ counts_from (m_next_trade_id m) (Trade.trade_id <$> trades)
  /\ m_next_trade_id m' = m_next_trade_id m + Z.of_nat (length trades)
  /\ m_sequence m' = m_sequence m + 1 /\ ExecutionReport.sequence report = m_sequence m + 1.
Proof.
  intros [H1 H2 H3 H4] Hn Ho E. unfold max_resting in Hn.
  pose proof (market_process_trades _ _ _ _ _ Ho E) as Hpaid.
  pose proof (market_process_counters _ _ _ _ _ E) as (_ & Hseq & _).
  rewrite u64_small in Hseq by range. unfold resting_count in *.
  assert (counts_from (m_next_trade_id m) (Trade.trade_id <$> trades)
    /\ m_next_trade_id m' = m_next_trade_id m + Z.of_nat (length trades)
    /\ ExecutionReport.sequence report = u64 (m_sequence m + 1)) as (Hc & Ht & Hr).
  { unfold market_process in E. case_bool_decide.
    - unfold market_execute in E.
      destruct (pt_match _ _ _ _) as [[tr q] mk] eqn:Ep. injection E as <- <- <-. cbn [m_next_trade_id] in *.
      cbn [market_tick m_next_trade_id ExecutionReport.sequence m_sequence] in *.
      split_and!; [|rewrite u64_small by range; done|done].
      intros k i (t & -> & Hk)%list_lookup_fmap_Some_1. pose proof (lookup_lt_Some _ _ _ Hk).
      assert (is_u64 (m_next_trade_id m)) as Hid by range.
      rewrite (pt_match_trade_ids _ _ _ _ _ _ _ Hid Ep k t Hk). apply u64_small. range.
    - injection E as <- <- <-. cbn. split_and!; [done|lia|done]. }
  rewrite u64_small in Hr by range. split_and!; [|done|done|done|done].
  split; unfold resting_count; lia.
Qed.

Lemma apply_numbered n m c m' trades reports :
  numbered n m -> Z.of_nat n < max_resting -> command_in_range c ->
  market_apply m c = (m', trades, reports) ->
  numbered (S n) m' /\ counts_from (m_next_trade_id m) (Trade.trade_id <$> trades)
  /\ m_next_trade_id m' = m_next_trade_id m + Z.of_nat (length trades)
  /\ counts_from (m_sequence m + 1) (ExecutionReport.sequence <$> reports)
  /\ m_sequence m' = m_sequence m + Z.of_nat (length reports).
Proof.
  assert (forall s x, x = s -> counts_from s [x]) as Hone.
  { intros s x -> [|k] i; cbn; [intros [= <-]; lia|done]. }
  intros Hm Hn Hc E. destruct c as [order|i|limits|on]; cbn in E.
  - destruct (market_process m order) as [[m1 tr] rep] eqn:Ep. injection E as <- <- <-.
    destruct (process_numbered _ _ _ _ _ _ Hm Hn Hc Ep) as (H1 & H2 & H3 & H4 & H5).
    split_and!; [done|done|done|by apply Hone|done].
  - destruct (market_cancel m i) as [m1 rep] eqn:Ep. injection E as <- <- <-.
    destruct Hm as [H1 H2 H3 H4].
    pose proof (market_cancel_counters _ _ _ _ Ep) as (_ & Hs & Ht).
    rewrite u64_small in Hs by (unfold max_resting in Hn; range).
    assert (resting_count m1 <= resting_count m
            /\ ExecutionReport.sequence rep = u64 (m_sequence m + 1)) as [Hk Hr].
    { unfold market_cancel in Ep. destruct (list_find _ _) as [[]|]; [destruct (i =? 0)|];
        injection Ep as <- <-; unfold resting_count, pt_remove; cbn; (split; [|done]); try lia.
      pose proof (length_filter (fun o => Order.id o <> i) (bids m)).
      pose proof (length_filter (fun o => Order.id o <> i) (asks m)). lia. }
    rewrite u64_small in Hr by (unfold max_resting in Hn; range).
    split_and!; [split; lia|done|cbn; lia|by apply Hone|done].
  - injection E as <- <- <-. destruct Hm as [H1 H2 H3 H4]. unfold resting_count in H4.
    split_and!; [split; unfold resting_count; cbn; lia|done|cbn; lia|done|cbn; lia].
  - injection E as <- <- <-. destruct Hm as [H1 H2 H3 H4]. unfold resting_count in H4.
    split_and!; [split; unfold resting_count; cbn; lia|done|cbn; lia|done|cbn; lia].
Qed.

Lemma run_numbered cs : forall n m m' trades reports,
  numbered n m -> Z.of_nat (n + length cs) <= max_resting -> Forall command_in_range cs ->
  market_run m cs = (m', trades, reports) ->
  counts_from (m_next_trade_id m) (Trade.trade_id <$> trades)
  /\ counts_from (m_sequence m + 1) (ExecutionReport.sequence <$> reports).
Proof.
  induction cs as [|c cs IH]; intros n m m' trades reports Hm Hn Hf E; cbn in E, Hn.
  { injection E as <- <- <-. done. }
  apply Forall_cons in Hf as [Hc Hf].
  destruct (market_apply m c) as [[m1 tr] rs] eqn:Ea.
  destruct (market_run m1 cs) as [[m2 tr'] rs'] eqn:Er. injection E as <- <- <-.
  destruct (apply_numbered n m c m1 tr rs Hm ltac:(lia) Hc Ea) as (H1 & H2 & H3 & H4 & H5).
  destruct (IH (S n) m1 m2 tr' rs' H1 ltac:(lia) Hf Er) as [H6 H7].
  rewrite !fmap_app. split; apply counts_from_app; rewrite ?length_fmap; try done.
  - by rewrite <- H3.
  - replace (m_sequence m + 1 + Z.of_nat (length rs)) with (m_sequence m1 + 1) by lia. done.
Qed.
End numbering.

(** C27. Numbering has no gaps.  Over a whole session the trades carry the ids 1,
    2, 3, ... in the order they were made, and the reports the sequence numbers
    1, 2, 3, ... in the order the commands came; neither counter wraps. *)
Theorem numbering_gapless limits cs e trades reports :
  RiskLimits.in_range limits -> Forall command_in_range cs -> Z.of_nat (length cs) <= max_resting ->
  run (MatchingEngine_new limits) [] cs = Ok (e, trades, reports) ->
  counts_from 1 (Trade.trade_id <$> trades)
  /\ counts_from 1 (ExecutionReport.sequence <$> reports).
Proof.
  intros Hl Hf Hn Hr. pose proof (run_ok cs 0 _ [] (session_new limits Hl) ltac:(cbn; lia) Hf) as H.
  change (abs (MatchingEngine_new limits)) with (market_new limits) in H.
  destruct (market_run _ _) as [[m tr] rs] eqn:Em. destruct H as (e1 & Hr' & _).
  rewrite Hr in Hr'. simplify_eq. cbn [app].
  apply (run_numbered cs 0 (market_new limits) m tr rs); [|cbn; lia|done|done].
  split; unfold resting_count; cbn; lia.
Qed.

Lemma numbering_gapless_witness :
  exists e trades reports,
    run (MatchingEngine_new RiskLimits.default) [] Scenario.session = Ok (e, trades, reports)
    /\ counts_from 1 (Trade.trade_id <$> trades)
    /\ counts_from 1 (ExecutionReport.sequence <$> reports)
    /\ Trade.trade_id <$> trades = [1; 2].
Proof.
  destruct (run (MatchingEngine_new RiskLimits.default) [] Scenario.session)
    as [[[e trades] reports]|f] eqn:E; [|vm_compute in E; discriminate E].
  exists e, trades, reports. split; [reflexivity|].
  destruct (numbering_gapless RiskLimits.default Scenario.session e trades reports
    ltac:(evaluate) ltac:(evaluate) ltac:(cbn; unfold max_resting; lia) E) as [H1 H2].
  split; [exact H1|]. split; [exact H2|]. vm_compute in E. injection E as <- <- <-. reflexivity.
Defined.

(** * Order ids *)

Lemma processOrder_seen e order out e' out' report :
  processOrder e order out = Ok (e', out', report) ->
  seen_order_ids_ e ⊆ seen_order_ids_ e'
  /\ (ExecutionReport.accepted report = true -> Order.id order ∈ seen_order_ids_ e').
Proof.
  assert (forall reason, let '(e1, r) := rejectedReport (bump_sequence e) order
            (sequence_ (bump_sequence e)) reason in
          Ok (e1, out, r) = Ok (e', out', report) ->
          seen_order_ids_ e ⊆ seen_order_ids_ e'
          /\ (ExecutionReport.accepted report = true -> Order.id order ∈ seen_order_ids_ e')) as Hrej.
  { intros reason. cbn. intros [= <- <- <-]. done. }
  unfold processOrder. destruct (negb _); [apply Hrej|]. destruct (bool_decide _); [apply Hrej|].
  destruct (negb _); [apply Hrej|].
  intros ([] & _ & H)%bind_Ok; revert H; [apply Hrej|]. destruct (_ && _); [apply Hrej|].
  unfold execute. intros ([[[b o] tid] ts] & _ & (b' & _ & [= <- <- <-])%bind_Ok)%bind_Ok.
  cbn. set_solver.
Qed.

Lemma cancel_seen e i e' report : cancel e i = Ok (e', report) -> seen_order_ids_ e' = seen_order_ids_ e.
Proof.
  unfold cancel. intros ([[o|] b] & _ & [= <- _])%bind_Ok; done.
Qed.

Lemma run_seen cs : forall e out e' out' reports,
  run e out cs = Ok (e', out', reports) -> seen_order_ids_ e ⊆ seen_order_ids_ e'.
Proof.
  induction cs as [|c cs IH]; intros e out e' out' reports; cbn.
  { by intros [= <- _ _]. }
  destruct (apply_command e out c) as [[[e1 out1] rs]|] eqn:E; cbn [mbind result_bind]; [|done].
  destruct (run e1 out1 cs) as [[[e2 out2] rs2]|] eqn:E2; cbn [mbind result_bind]; [|done].
  intros [= <- <- <-]. apply IH in E2. transitivity (seen_order_ids_ e1); [|done].
  destruct c as [order|i|l|on]; cbn in E.
  - destruct (processOrder e order out) as [[[]]|] eqn:Ep; cbn in E; [|done].
    injection E as <- <- <-. by apply processOrder_seen in Ep as [].
  - destruct (cancel e i) as [[]|] eqn:Ep; cbn in E; [|done].
    injection E as <- <- <-. apply cancel_seen in Ep. set_solver.
  - by injection E as <- _ _.
  - by injection E as <- _ _.
Qed.

(** An order id is used once.  After an order is accepted, whatever commands
    follow - fills, cancels, limit changes - a later well-formed order with the
    same id is rejected as a duplicate and leaves the book alone. *)
Theorem ids_never_reused e order out e1 out1 report cs e2 out2 reports order' out3 :
  processOrder e order out = Ok (e1, out1, report) -> ExecutionReport.accepted report = true ->
  run e1 out1 cs = Ok (e2, out2, reports) ->
  Order.id order' = Order.id order -> validateStatic order' = NONE ->
  exists e3 report', processOrder e2 order' out3 = Ok (e3, out3, report')
    /\ ExecutionReport.reject_reason report' = DUPLICATE_ORDER_ID
    /\ ExecutionReport.accepted report' = false /\ book_ e3 = book_ e2.
Proof.
  intros Hp Ha Hr Hid Hv. apply processOrder_seen in Hp as [_ Hs]. specialize (Hs Ha).
  apply run_seen in Hr. assert (Order.id order' ∈ seen_order_ids_ e2) as Hin by (rewrite Hid; set_solver).
  unfold processOrder. rewrite Hv, (bool_decide_true (NONE = NONE)) by done.
  cbn [negb seen_order_ids_ bump_sequence]. rewrite bool_decide_true by done. cbn. eexists _, _. split_and!; done.
Qed.

Lemma ids_never_reused_witness :
  exists e1 out1 report e2 out2 reports e3 report',
    processOrder (MatchingEngine_new RiskLimits.default) (Scenario.limit 1 SELL 101 100) []
      = Ok (e1, out1, report)
    /\ run e1 out1 (tail Scenario.session) = Ok (e2, out2, reports)
    /\ processOrder e2 (Scenario.limit 1 SELL 200 1) [] = Ok (e3, [], report')
    /\ ExecutionReport.reject_reason report' = DUPLICATE_ORDER_ID.
Proof.
  destruct (processOrder (MatchingEngine_new RiskLimits.default) (Scenario.limit 1 SELL 101 100) [])
    as [[[e1 out1] r]|f] eqn:E1; [|vm_compute in E1; discriminate E1].
  destruct (run e1 out1 (tail Scenario.session)) as [[[e2 out2] rs]|f] eqn:E2.
  2:{ vm_compute in E1. injection E1 as <- <- <-. vm_compute in E2. discriminate E2. }
  assert (ExecutionReport.accepted r = true) as Ha
    by (vm_compute in E1; injection E1 as _ _ <-; reflexivity).
  destruct (ids_never_reused _ _ _ _ _ _ _ _ _ _ (Scenario.limit 1 SELL 200 1) [] E1 Ha E2
    eq_refl eq_refl) as (e3 & r' & H1 & H2 & _ & _).
  exists e1, out1, r, e2, out2, rs, e3, r'. exact (conj eq_refl (conj E2 (conj H1 H2))).
Defined.

(** * Cancellation *)

(** Cancelling.  In any session [cancel] returns; an id in the book is taken
    out, its remaining quantity is reported, every other order keeps its place;
    an id that is not in the book is rejected and nothing but the sequence
    number changes. *)
Theorem cancel_exact e i :
  operational e ->
  exists e' report, cancel e i = Ok (e', report)
    /\ ExecutionReport.command report = CANCEL_ORDER /\ ExecutionReport.order_id report = i
    /\ if contains (book_ e) i then
         ExecutionReport.status report = CANCELED
         /\ contains (book_ e') i = false
         /\ (exists o sd, o ∈ orders_on (book_ e) sd /\ Order.id o = i
             /\ ExecutionReport.requested_quantity report = Order.quantity o)
         /\ forall sd, isValidSide sd = true -> orders_on (book_ e') sd = pt_remove i (orders_on (book_ e) sd)
       else
         e' = bump_sequence e /\ ExecutionReport.status report = REJECTED
         /\ ExecutionReport.reject_reason report = (if i =? 0 then INVALID_ORDER_ID else ORDER_NOT_FOUND).
Proof.
  intros [Hb _]%operational_ok. unfold cancel, contains.
  change (book_ (bump_sequence e)) with (book_ e). case_bool_decide as Hc.
  - assert (i <> 0) as Hi.
    { pose proof Hc as (o & -> & Ho)%(book_lookup _ _ Hb)%list_elem_of_fmap.
      apply elem_of_app in Ho as [Ho|Ho]; eapply orders_on_resting in Ho; try done; apply Ho. }
    rewrite (proj2 (Z.eqb_neq i 0)) by done.
    destruct (cancelOrder_spec _ _ Hb Hc) as (o & b' & -> & Hb' & Hid & Hv & Ho & Hs & Hl).
    cbn [mbind result_bind]. eexists _, _. split_and!; [done|done|done|done| |by exists o, (Order.side o)|done].
    cbn. rewrite Hl, lookup_delete_eq. apply bool_decide_eq_false. by intros [? ?].
  - apply eq_None_not_Some in Hc.
    assert ((if i =? 0 then Ok (None, book_ e) else cancelOrder (book_ e) i)
              = Ok (None, book_ e)) as ->.
    { destruct (i =? 0); [done|]. unfold cancelOrder. by rewrite Hc. }
    cbn [mbind result_bind]. eexists _, _. split_and!; done.
Qed.

Lemma cancel_exact_witness :
  contains (book_ Scenario.opened) 3 = true
  /\ exists e' report, cancel Scenario.opened 3 = Ok (e', report)
       /\ ExecutionReport.status report = CANCELED.
Proof.
  split; [by vm_compute|].
  destruct (cancel_exact Scenario.opened 3 Scenario.opened_operational) as (e' & r & H1 & _ & _ & H2).
  exists e', r. split; [exact H1|].
  assert (contains (book_ Scenario.opened) 3 = true) as Hc by by vm_compute.
  rewrite Hc in H2. exact (proj1 H2).
Defined.

(** The kill switch stops new orders.  While it is on, no order of any kind
    is accepted: the book and the trades are untouched. *)
Theorem kill_switch_blocks e order out e' out' report :
  killSwitch (risk_ e) = true -> processOrder e order out = Ok (e', out', report) ->
  ExecutionReport.accepted report = false /\ book_ e' = book_ e /\ out' = out.
Proof.
  intros Hk. unfold processOrder.
  destruct (negb _); [by intros [= <- <- <-]|]. destruct (bool_decide _); [by intros [= <- <- <-]|].
  unfold validate. cbn [risk_ bump_sequence]. rewrite Hk. cbn. by intros [= <- <- <-].
Qed.

Lemma kill_switch_blocks_witness :
  exists e' report,
    processOrder (with_risk Scenario.opened (setKillSwitch true (risk_ Scenario.opened)))
      Scenario.sweep [] = Ok (e', [], report)
    /\ ExecutionReport.accepted report = false
    /\ ExecutionReport.reject_reason report = RISK_KILL_SWITCH.
Proof.
  destruct (processOrder (with_risk Scenario.opened (setKillSwitch true (risk_ Scenario.opened)))
      Scenario.sweep []) as [[[e' out'] report]|f] eqn:E; [|vm_compute in E; discriminate E].
  destruct (kill_switch_blocks (with_risk Scenario.opened (setKillSwitch true (risk_ Scenario.opened)))
    Scenario.sweep [] e' out' report eq_refl E) as (H1 & _ & ->).
  exists e', report. split; [reflexivity|]. split; [exact H1|].
  vm_compute in E. injection E as _ <-. reflexivity.
Defined.
