(* ===== verification/BookProps.v ===== *)
(** What a user of [OrderBook] and of the order checks can rely on, apart from
    the matching engine: acceptance rules, risk limits, add/cancel, depth
    snapshots and the audit. *)

From S2P Require Import Prelude.
From S2P Require Import OrderTypes.
From S2P Require Import LevelMap.
From S2P Require Import PriceTime.
From S2P Require Import OrderBook.
From S2P Require Import BookInvariant.
From S2P Require Import BookOps.
From S2P Require Import BookQueries.
From S2P Require Import BookCheck.
From S2P Require Import Risk.
From S2P Require Import MatchingEngine.
From S2P Require Import Market.
From S2P Require Import MarketInvariant.
From S2P Require Import Refinement.
From S2P Require Import Session.
From S2P Require Import EngineProps.

#[local] Open Scope Z_scope.

(** * Static validation *)

(** The terms an order may have. *)
Record well_formed (o : Order.t) : Prop := {
  wf_id : Order.id o <> 0;
  wf_side : Order.side o = BUY \/ Order.side o = SELL;
  wf_type : Order.type o = LIMIT \/ Order.type o = MARKET;
  wf_tif : Order.time_in_force o = GTC \/ Order.time_in_force o = IOC \/ Order.time_in_force o = FOK;
  wf_flags : Order.flags o = OrderFlags.NONE \/ Order.flags o = OrderFlags.POST_ONLY;
  wf_quantity : 0 < Order.quantity o;
  wf_limit : Order.type o = LIMIT -> 0 < Order.price o;
  wf_market : Order.type o = MARKET -> Order.time_in_force o <> GTC;
  wf_post_only : Order.flags o = OrderFlags.POST_ONLY ->
    Order.type o = LIMIT /\ Order.time_in_force o = GTC
}.

Lemma known_flags f :
  0 <= f -> Z.land f (Z.lnot kKnownFlags) = 0 <-> f = OrderFlags.NONE \/ f = OrderFlags.POST_ONLY.
Proof.
  intros Hf. change (Z.land f (Z.lnot kKnownFlags)) with (Z.land f (Z.lnot 1)).
  rewrite <- Z.ldiff_land. split.
  - intros H. pose proof (Z.lor_ldiff_and f 1) as E. rewrite H, Z.lor_0_l in E.
    change 1 with (Z.ones 1) in E. rewrite Z.land_ones in E by lia.
    pose proof (Z.mod_pos_bound f (2 ^ 1) ltac:(lia)). assert (f = 0 \/ f = 1) as [->| ->] by lia; [by left|by right].
  - by intros [->| ->].
Qed.

(** A gate is passed when its condition is false and the rest passes. *)
Lemma gate_passed (c : bool) (reason rest : RejectReason) :
  reason <> NONE -> (if c then reason else rest) = NONE <-> c = false /\ rest = NONE.
Proof. destruct c; naive_solver. Qed.

(** The static gate accepts exactly the well-formed orders. *)
Theorem validateStatic_exact o :
  Order.in_range o -> validateStatic o = NONE <-> well_formed o.
Proof.
  intros [_ _ _ _ Hf _ Hq _]. pose proof (known_flags (Order.flags o) ltac:(range)) as Hk.
  unfold validateStatic, isValidSide, isValidOrderType, isValidTimeInForce. rewrite !gate_passed by done.
  rewrite !negb_false_iff, !orb_true_iff, !andb_false_iff, !orb_false_iff, !negb_false_iff,
    !bool_decide_eq_true, !bool_decide_eq_false, !Z.eqb_neq, Z.eqb_eq, Z.leb_gt, Hk.
  split.
  - intros (H1 & H2 & H3 & H4 & H5 & H6 & H7 & H8 & H9 & _).
    split; [done|done|done|tauto|done|range|tauto|tauto|].
    intros Hp. rewrite Hp in H9. destruct H9 as [[=]|?]; tauto.
  - intros [H1 H2 H3 H4 H5 H6 H7 H8 H9]. split_and!; try (done || tauto || lia).
    + destruct H3 as [H3|H3]; [right; by apply H7|left]. by rewrite H3.
    + destruct H3 as [H3|H3]; [left; by rewrite H3|right; by apply H8].
    + destruct H5 as [H5|H5]; [left; by rewrite H5|right; by apply H9].
Qed.

Lemma validateStatic_exact_witness :
  well_formed Scenario.sweep /\ ~ well_formed (Scenario.post_only (Scenario.with_tif IOC Scenario.sweep)).
Proof.
  split.
  - apply (validateStatic_exact Scenario.sweep); [evaluate|reflexivity].
  - intros H. apply (validateStatic_exact (Scenario.post_only (Scenario.with_tif IOC Scenario.sweep))) in H;
      [discriminate H|evaluate].
Defined.

(** * Risk limits *)

(** The risk gate is the limits' arithmetic.  [validate] passes an order
    exactly when, over unbounded integers, its quantity, price and price times
    quantity are within the configured limits, there is room for it among the
    active orders and the kill switch is off: the division test and the unsigned
    conversion of the price never misjudge a notional, however large. *)
Theorem risk_gate_exact r order active_orders may_add :
  RiskLimits.in_range (limits_ r) -> Order.in_range order -> well_formed order ->
  validate r order active_orders may_add = NONE <-> within_limits r order active_orders may_add.
Proof. intros Hl Ho []. by apply validate_spec. Qed.

(** Price times quantity far beyond [uint64_t]: still rejected. *)
Lemma risk_gate_exact_witness :
  ~ within_limits (RiskManager_new RiskLimits.default)
      (Scenario.limit 1 BUY (2 ^ 63 - 1) (2 ^ 32 - 1)) 0 true.
Proof.
  rewrite <- (risk_gate_exact (RiskManager_new RiskLimits.default)
      (Scenario.limit 1 BUY (2 ^ 63 - 1) (2 ^ 32 - 1)) 0 true).
  - by vm_compute.
  - evaluate.
  - evaluate.
  - split; cbn; (by auto) || lia || done.
Defined.

(** * Adding, cancelling, looking *)

Lemma pt_remove_insert sd o l :
  Order.id o ∉ Order.id <$> l -> pt_remove (Order.id o) (pt_insert sd o l) = l.
Proof.
  intros Hn. induction l as [|x l IH]; cbn.
  { by rewrite decide_False by tauto. }
  rewrite fmap_cons, not_elem_of_cons in Hn. destruct Hn as [Hx Hn].
  destruct (price_before _ _ _).
  - unfold pt_remove. rewrite filter_cons_False by tauto.
    apply filter_all. constructor; [congruence|]. apply Forall_forall. intros y Hy E.
    apply Hn. rewrite <- E. by apply list_elem_of_fmap_2.
  - unfold pt_remove in *. rewrite filter_cons_True by congruence. by rewrite IH.
Qed.

(** Adding and cancelling are inverse.  Cancelling an order just added gives
    that order back and restores the book: both sides hold the same orders in the
    same priority, and the id index is the same map. *)
Theorem add_cancel_roundtrip b o :
  book_ok b -> addable b o ->
  exists b1 b2, addOrder b o = Ok (true, b1)
    /\ cancelOrder b1 (Order.id o) = Ok (Some o, b2)
    /\ locations_ b2 = locations_ b
    /\ forall sd, isValidSide sd = true -> orders_on b2 sd = orders_on b sd.
Proof.
  intros Hok Ha. destruct (addOrder_spec b o Hok Ha) as (b1 & H1 & Hok1 & Hs & Ho & Hl).
  destruct Ha as [Hr Hv Hf _].
  assert (forall sd, isValidSide sd = true -> Order.id o ∉ Order.id <$> orders_on b sd) as Hfresh.
  { intros sd Hsd Hin. apply eq_None_not_Some in Hf. apply Hf, (book_lookup _ _ Hok).
    rewrite fmap_app, elem_of_app. by_side Hsd; tauto. }
  destruct (cancelOrder_spec b1 (Order.id o) Hok1) as (o' & b2 & H2 & Hok2 & Hid & Hv' & Ho' & Hs2 & Hl2).
  { rewrite Hl, lookup_insert_eq. by eexists. }
  exists b1, b2. split; [done|]. split; [|split].
  - rewrite H2. do 3 f_equal. apply (same_id_same_order b1); [done| | |done].
    + apply elem_of_app. destruct (valid_side_cases _ Hv') as [E|E]; rewrite E in Ho'; tauto.
    + assert (o ∈ orders_on b1 (Order.side o)) as Hin by (rewrite Hs, pt_insert_perm; left).
      apply elem_of_app. destruct (valid_side_cases _ Hv) as [E|E]; rewrite E in Hin; tauto.
  - rewrite Hl2, Hl, delete_insert_id; [done|exact Hf].
  - intros sd Hsd. rewrite Hs2 by done. revert sd Hsd. apply (both_sides _ (Order.side o) Hv).
    + rewrite Hs. apply pt_remove_insert. by apply Hfresh.
    + rewrite Ho. apply pt_remove_absent. apply Hfresh, opposite_valid.
Qed.

Lemma add_cancel_roundtrip_witness :
  exists b1 b2, addOrder (book_ Scenario.opened) (Order.with_sequence 4 (Scenario.limit 7 BUY 98 5)) = Ok (true, b1)
    /\ cancelOrder b1 7 = Ok (Some (Order.with_sequence 4 (Scenario.limit 7 BUY 98 5)), b2)
    /\ locations_ b2 = locations_ (book_ Scenario.opened).
Proof.
  pose proof (engine_book _ (operational_ok _ Scenario.opened_operational)) as Hok.
  assert (addable (book_ Scenario.opened) (Order.with_sequence 4 (Scenario.limit 7 BUY 98 5))) as Ha.
  { split; [split; cbn; (done || lia)|done|by vm_compute|].
    apply (bool_decide_unpack _). vm_compute. exact I. }
  destruct (add_cancel_roundtrip (book_ Scenario.opened) (Order.with_sequence 4 (Scenario.limit 7 BUY 98 5)) Hok Ha)
    as (b1 & b2 & H1 & H2 & H3 & _).
  exists b1, b2. exact (conj H1 (conj H2 H3)).
Defined.



(** * Depth snapshots *)

(** The orders of a side resting at a price. *)
Definition orders_at (b : OrderBook) (sd : Side) (price : Z) : list Order.t :=
  filter (fun o => Order.price o = price) (orders_on b sd).

(** A level of the map holds all the orders at its price. *)
Lemma orders_at_level sd l1 p lv l2 :
  side_ok sd (l1 ++ (p, lv) :: l2) ->
  filter (fun o => Order.price o = p) (side_orders (l1 ++ (p, lv) :: l2)) = node_value <$> orders lv.
Proof.
  intros [Ho Hl]. apply Forall_app in Hl as [Hl1 [[[Hr _ _] _] Hl2]%Forall_cons].
  apply ordered_cut in Ho as (_ & H1 & H2); [|apply _].
  rewrite side_orders_app, side_orders_cons, !filter_app.
  rewrite (filter_none _ (side_orders l1)), (filter_none _ (side_orders l2)), app_nil_r.
  - cbn. apply filter_all. rewrite Forall_fmap. eapply Forall_impl; [exact Hr|]. by intros n [].
  - apply Forall_forall. intros x (kv & Hin & ->)%(side_orders_price sd _ _ Hl2) E.
    apply H2 in Hin. by rewrite E, before_irrefl in Hin.
  - apply Forall_forall. intros x (kv & Hin & ->)%(side_orders_price sd _ _ Hl1) E.
    apply H1 in Hin. by rewrite E, before_irrefl in Hin.
Qed.

Lemma topLevels_take b sd n :
  isValidSide sd = true -> topLevels b sd (Z.of_nat n) = snapshot_of <$> take n (levels_of b sd).
Proof.
  intros Hv. rewrite fmap_take. unfold topLevels.
  by_side Hv; side_cbn; by rewrite (top_of_levels_spec n) by (cbn; lia); rewrite Nat.sub_0_r.
Qed.

(** A level's snapshot counts exactly the orders at its price. *)
Lemma snapshot_exact b sd kv :
  book_ok b -> isValidSide sd = true -> orderCount b <= max_resting -> kv ∈ levels_of b sd ->
  orders_at b sd kv.1 <> []
  /\ snap_total_quantity (snapshot_of kv) = sum Order.quantity (orders_at b sd kv.1)
  /\ snap_order_count (snapshot_of kv) = Z.of_nat (length (orders_at b sd kv.1)).
Proof.
  intros Hok Hv Hc (l1 & l2 & El)%list_elem_of_split. destruct kv as [p lv].
  pose proof (side_ok_of b sd Hok Hv) as Hs. rewrite (book_count b Hok) in Hc.
  assert (length (orders lv) <= length (orders_on b BUY) + length (orders_on b SELL))%nat as Hlen.
  { assert (length (orders lv) <= length (orders_on b sd))%nat; [|by_side Hv; lia].
    unfold orders_on. rewrite El, side_orders_app, side_orders_cons, !length_app, length_fmap. lia. }
  unfold orders_at, orders_on. rewrite El in Hs |- *. cbn [fst snd]. rewrite (orders_at_level sd) by done.
  pose proof Hs as (Hq & _ & _)%side_ok_cut. destruct Hs as [_ [_ [[_ Hne] _]%Forall_cons]%Forall_app].
  cbn in *. rewrite length_fmap. split_and!; [|apply (queue_total_exact sd p); [done|lia]|done].
  by intros ?%fmap_nil_inv.
Qed.

Lemma snapshots_sorted sd levels :
  ordered (price_before sd) levels ->
  StronglySorted (fun a b => price_before sd (snap_price a) (snap_price b) = true)
    (snapshot_of <$> levels).
Proof.
  induction 1 as [|kv levels _ IH Hkv]; cbn; constructor; [done|].
  rewrite Forall_fmap. eapply Forall_impl; [exact Hkv|]. done.
Qed.

(** Depth snapshots are faithful.  [topLevels] lists the best [n] prices of a
    side (all of them when there are fewer), best first and each once; with each
    it gives the exact total quantity and number of the orders resting there. *)
Theorem topLevels_faithful b sd n :
  book_ok b -> isValidSide sd = true -> orderCount b <= max_resting ->
  let snaps := topLevels b sd (Z.of_nat n) in
  length snaps = Nat.min n (Z.to_nat (depth b sd))
  /\ StronglySorted (fun a b => price_before sd (snap_price a) (snap_price b) = true) snaps
  /\ (forall s, s ∈ snaps ->
        orders_at b sd (snap_price s) <> []
        /\ snap_total_quantity s = sum Order.quantity (orders_at b sd (snap_price s))
        /\ snap_order_count s = Z.of_nat (length (orders_at b sd (snap_price s))))
  /\ (forall s o, s ∈ snaps -> o ∈ orders_on b sd ->
        price_before sd (Order.price o) (snap_price s) = true ->
        exists s', s' ∈ snaps /\ snap_price s' = Order.price o).
Proof.
  intros Hok Hv Hc snaps. subst snaps. rewrite topLevels_take by done.
  pose proof (side_ok_of b sd Hok Hv) as [Ho Hl].
  pose proof Ho as Hcut. unfold ordered in Hcut. rewrite <- (take_drop n (levels_of b sd)) in Hcut.
  apply StronglySorted_app_iff in Hcut as (Ht & _ & Hlate). split_and!.
  - rewrite length_fmap, length_take. unfold depth. lia.
  - by apply snapshots_sorted.
  - intros s (kv & -> & Hin)%list_elem_of_fmap. apply (snapshot_exact b sd kv Hok Hv Hc).
    rewrite <- (take_drop n (levels_of b sd)). apply elem_of_app. by left.
  - intros s o (kv & -> & Hin)%list_elem_of_fmap Hoo Hbefore. cbn in Hbefore.
    destruct (side_orders_price sd _ o Hl Hoo) as (kv' & Hin' & Hp). rewrite Hp in *.
    rewrite <- (take_drop n (levels_of b sd)) in Hin'. apply elem_of_app in Hin' as [Hin'|Hin'].
    + exists (snapshot_of kv'). split; [by apply list_elem_of_fmap_2|done].
    + pose proof (Hlate _ _ Hin Hin') as Hx. cbn in Hx.
      rewrite before_asym in Hbefore; [done|apply _|done].
Qed.

Lemma topLevels_faithful_witness :
  topLevels (book_ Scenario.opened) SELL 5 = [mkSnapshot 101 100 1; mkSnapshot 102 100 1]
  /\ length (topLevels (book_ Scenario.opened) SELL 5)
     = Nat.min 5 (Z.to_nat (depth (book_ Scenario.opened) SELL)).
Proof.
  split; [by vm_compute|].
  pose proof (engine_book _ (operational_ok _ Scenario.opened_operational)) as Hok.
  apply (topLevels_faithful (book_ Scenario.opened) SELL 5 Hok eq_refl). by vm_compute.
Defined.
