(* ===== verification/Journal.v ===== *)
(** [journal.hpp] / [journal.cpp]: the append-only binary command journal.

    The file system is a map from paths to contents, and a descriptor denotes
    the file it was opened on.  What the kernel decides - how many bytes a
    [read] or [write] moves, an interrupted call, a failure with its
    [strerror] text - comes from a script, one entry per system call, that the
    caller of the model chooses; every loop that makes a system call per turn
    recurses on it.  A script that ends too early gives [OutOfFuel]. *)

From stdpp Require Import strings pretty.
From S2P Require Import Prelude.
From S2P Require Import OrderTypes.
From S2P Require Import OrderBook.
From S2P Require Import Risk.
From S2P Require Import MatchingEngine.

#[local] Open Scope Z_scope.

(** * The kernel *)

Inductive Sys : Type :=
| Transfer (n : nat)        (** the call succeeds; [read]/[write] move what [n] allows *)
| Eintr                     (** -1 with [errno == EINTR] *)
| Fail (strerror : string). (** -1 with any other [errno] *)

Abbreviation FileSystem := (gmap string (list Z)).

(** * Record layout *)

Definition kRecordSize : nat := 48.
Definition kChecksumOffset : nat := 44.
Definition kRecordMagic : Z := 0x324A424C.
Definition kRecordVersion : Z := 1.
Definition kNewOrderRecord : Z := 1.
Definition kCancelRecord : Z := 2.

(** [std::array<uint8_t, kRecordSize> bytes{}]. *)
Definition zero_record : list Z := replicate kRecordSize 0.

Definition putU16 (bytes : list Z) (offset : nat) (value : Z) : list Z :=
  <[(offset + 1)%nat := u8 (Z.shiftr value 8)]> (<[offset := u8 value]> bytes).

Definition put_bytes (n : nat) (bytes : list Z) (offset : nat) (value : Z) : list Z :=
  foldl (fun bytes i => <[(offset + i)%nat := u8 (Z.shiftr value (8 * Z.of_nat i))]> bytes)
    bytes (seq 0 n).
Definition putU32 : list Z -> nat -> Z -> list Z := put_bytes 4.
Definition putU64 : list Z -> nat -> Z -> list Z := put_bytes 8.

Definition getU16 (bytes : list Z) (offset : nat) : Z :=
  u16 (Z.lor (bytes !!! offset) (u32 (Z.shiftl (bytes !!! (offset + 1)%nat) 8))).

Definition getU32 (bytes : list Z) (offset : nat) : Z :=
  foldl (fun value i => Z.lor value (u32 (Z.shiftl (bytes !!! (offset + i)%nat) (8 * Z.of_nat i))))
    0 (seq 0 4).
Definition getU64 (bytes : list Z) (offset : nat) : Z :=
  foldl (fun value i => Z.lor value (u64 (Z.shiftl (bytes !!! (offset + i)%nat) (8 * Z.of_nat i))))
    0 (seq 0 8).

(** * CRC-32 *)

Definition kPolynomial : Z := 0xEDB88320.

Definition crc_bit (crc : Z) : Z :=
  let mask := u32 (0 - Z.land crc 1) in
  Z.lxor (Z.shiftr crc 1) (Z.land kPolynomial mask).

Definition crc_byte (crc byte : Z) : Z := Nat.iter 8 crc_bit (Z.lxor crc byte).

Definition crc32 (data : list Z) : Z := u32 (Z.lnot (foldl crc_byte 0xFFFFFFFF data)).

(** * Whole-record I/O *)

Definition errnoMessage (operation strerror : string) : string := operation +:+ ": " +:+ strerror.

(** [writeAll]: the file's new contents, the error if there is one, and the rest
    of the script.  The descriptor is open with [O_APPEND]. *)
Fixpoint writeAll (script : list Sys) (contents data : list Z) (written : nat) :
    result (list Z * option string * list Sys) :=
  if (length data <=? written)%nat then Ok (contents, None, script)
  else
    match script with
    | [] => Fault OutOfFuel
    | Eintr :: script => writeAll script contents data written
    | Fail e :: script => Ok (contents, Some (errnoMessage "write journal" e), script)
    | Transfer n :: script =>
      let n := Nat.min n (length data - written) in
      if (n =? 0)%nat then Ok (contents, Some "write journal: zero-byte write"%string, script)
      else writeAll script (contents ++ take n (drop written data)) data (written + n)
    end.

(** The kernel's copy into [bytes.data() + offset]. *)
Definition store_at (offset : nat) (data bytes : list Z) : list Z :=
  take offset bytes ++ data ++ drop (offset + length data) bytes.

Inductive ReadResult : Type := FULL | EOF_REACHED | PARTIAL | READ_ERROR.

(** [readRecord]: fills [bytes] from position [pos] of the file.  A successful
    [read] returns 0 at the end of the file only. *)
Fixpoint readRecord (script : list Sys) (file : list Z) (pos : nat) (bytes : list Z)
    (read_bytes : nat) : result (ReadResult * string * list Z * nat * list Sys) :=
  if (length bytes <=? read_bytes)%nat then Ok (FULL, ""%string, bytes, pos, script)
  else
    match script with
    | [] => Fault OutOfFuel
    | Eintr :: script => readRecord script file pos bytes read_bytes
    | Fail e :: script => Ok (READ_ERROR, errnoMessage "read journal" e, bytes, pos, script)
    | Transfer n :: script =>
      let n := Nat.min (S n) (Nat.min (length bytes - read_bytes) (length file - pos)) in
      if (n =? 0)%nat then
        Ok (if (read_bytes =? 0)%nat then EOF_REACHED else PARTIAL, ""%string, bytes, pos, script)
      else
        readRecord script file (pos + n)
          (store_at read_bytes (take n (drop pos file)) bytes) (read_bytes + n)
    end.

(** * Records *)

(** [None] when the record is valid, the error text otherwise. *)
Definition validateRecord (bytes : list Z) (expected_ordinal : Z) : option string :=
  if negb (getU32 bytes 0 =? kRecordMagic) then Some "journal record magic mismatch"%string
  else if negb (getU16 bytes 4 =? kRecordVersion)
  then Some "unsupported journal record version"%string
  else
    let type := bytes !!! 6%nat in
    if negb (type =? kNewOrderRecord) && negb (type =? kCancelRecord)
    then Some "unknown journal record type"%string
    else if negb (getU64 bytes 8 =? expected_ordinal)
    then Some "journal ordinal gap or reordering"%string
    else if negb (getU32 bytes kChecksumOffset =? crc32 (take kChecksumOffset bytes))
    then Some "journal CRC32 mismatch"%string
    else None.

Definition decodeOrder (bytes : list Z) : Order.t :=
  Order.mk (getU64 bytes 16) (side_of_byte (bytes !!! 24%nat)) (type_of_byte (bytes !!! 25%nat))
    (tif_of_byte (bytes !!! 26%nat)) (bytes !!! 27%nat) (i64_of_bits (getU64 bytes 28))
    (getU32 bytes 36) 0.

(** The record [appendRecord] builds. *)
Definition encodeRecord (record_type next_ordinal : Z) (order : Order.t) : list Z :=
  let bytes := putU32 zero_record 0 kRecordMagic in
  let bytes := putU16 bytes 4 kRecordVersion in
  let bytes := <[6%nat := record_type]> bytes in
  let bytes := putU64 bytes 8 next_ordinal in
  let bytes := putU64 bytes 16 (Order.id order) in
  let bytes :=
    if record_type =? kNewOrderRecord then
      let bytes := <[24%nat := byte_of_side (Order.side order)]> bytes in
      let bytes := <[25%nat := byte_of_type (Order.type order)]> bytes in
      let bytes := <[26%nat := byte_of_tif (Order.time_in_force order)]> bytes in
      let bytes := <[27%nat := Order.flags order]> bytes in
      let bytes := putU64 bytes 28 (bits_of_i64 (Order.price order)) in
      putU32 bytes 36 (Order.quantity order)
    else bytes in
  putU32 bytes kChecksumOffset (crc32 (take kChecksumOffset bytes)).

(** * Scanning and replaying *)

Record ScanResult : Type := mkScan {
  scan_ok : bool; scan_records : Z; scan_error_offset : Z; scan_error : string
}.

(** The loop of [scanFile]; every turn that continues moves one record forward,
    so [scan_fuel] turns are enough. *)
Fixpoint scan_loop (fuel : nat) (script : list Sys) (file : list Z) (pos : nat) (bytes : list Z)
    (expected records : Z) : result (ScanResult * list Sys) :=
  match fuel with
  | O => Fault OutOfFuel
  | S fuel =>
    '(read_result, read_error, bytes, pos, script) ← readRecord script file pos bytes 0;
    let stop error :=
      Ok (mkScan false records (u64 (records * Z.of_nat kRecordSize)) error, script) in
    match read_result with
    | EOF_REACHED => Ok (mkScan true records 0 "", script)
    | PARTIAL => stop "truncated journal record"%string
    | READ_ERROR => stop read_error
    | FULL =>
      match validateRecord bytes expected with
      | Some error => stop error
      | None => scan_loop fuel script file pos bytes (u64 (expected + 1)) (u64 (records + 1))
      end
    end
  end.

Definition scan_fuel (file : list Z) : nat := S (length file).

Definition scanFile (script : list Sys) (fs : FileSystem) (path : string) :
    result (ScanResult * list Sys) :=
  let failed strerror := mkScan false 0 0 (errnoMessage "open journal for scan" strerror) in
  match script with
  | [] => Fault OutOfFuel
  | call :: script =>
    match call, fs !! path with
    | Fail e, _ => Ok (failed e, script)
    | Eintr, _ => Ok (failed "Interrupted system call"%string, script)
    | Transfer _, None => Ok (mkScan true 0 0 "", script)
    | Transfer _, Some file => scan_loop (scan_fuel file) script file 0 zero_record 1 0
    end
  end.

Record JournalReplayResult : Type := mkReplay {
  replay_ok : bool;
  replay_records : Z;
  replay_new_orders : Z;
  replay_cancels : Z;
  replay_accepted : Z;
  replay_rejected : Z;
  replay_trades : Z;
  replay_last_ordinal : Z;
  replay_error_offset : Z;
  replay_error : string
}.

Definition JournalReplayResult_default : JournalReplayResult := mkReplay false 0 0 0 0 0 0 0 0 "".

Definition replay_stop (r : JournalReplayResult) (error : string) : JournalReplayResult :=
  mkReplay (replay_ok r) (replay_records r) (replay_new_orders r) (replay_cancels r)
    (replay_accepted r) (replay_rejected r) (replay_trades r) (replay_last_ordinal r)
    (u64 (replay_records r * Z.of_nat kRecordSize)) error.
Definition replay_done (r : JournalReplayResult) : JournalReplayResult :=
  mkReplay true (replay_records r) (replay_new_orders r) (replay_cancels r)
    (replay_accepted r) (replay_rejected r) (replay_trades r) (replay_last_ordinal r)
    (replay_error_offset r) (replay_error r).

(** The counters after one more command. *)
Definition replay_count (r : JournalReplayResult) (is_new : bool) (expected trades : Z)
    (report : ExecutionReport.t) : JournalReplayResult :=
  let acc := ExecutionReport.accepted report in
  mkReplay (replay_ok r) (u64 (replay_records r + 1))
    (if is_new then u64 (replay_new_orders r + 1) else replay_new_orders r)
    (if is_new then replay_cancels r else u64 (replay_cancels r + 1))
    (if acc then u64 (replay_accepted r + 1) else replay_accepted r)
    (if acc then replay_rejected r else u64 (replay_rejected r + 1))
    (u64 (replay_trades r + trades)) expected (replay_error_offset r) (replay_error r).

(** One valid record applied to the engine. *)
Definition replay_record (bytes : list Z) (engine : MatchingEngine) (expected : Z)
    (r : JournalReplayResult) : result (MatchingEngine * JournalReplayResult) :=
  if bytes !!! 6%nat =? kNewOrderRecord then
    '(engine, trades, report) ← processOrder engine (decodeOrder bytes) [];
    Ok (engine, replay_count r true expected (Z.of_nat (length trades)) report)
  else
    '(engine, report) ← cancel engine (getU64 bytes 16);
    Ok (engine, replay_count r false expected 0 report).

Fixpoint replay_loop (fuel : nat) (script : list Sys) (file : list Z) (pos : nat) (bytes : list Z)
    (expected : Z) (engine : MatchingEngine) (r : JournalReplayResult) :
    result (MatchingEngine * JournalReplayResult * list Sys) :=
  match fuel with
  | O => Fault OutOfFuel
  | S fuel =>
    '(read_result, read_error, bytes, pos, script) ← readRecord script file pos bytes 0;
    match read_result with
    | EOF_REACHED => Ok (engine, replay_done r, script)
    | PARTIAL => Ok (engine, replay_stop r "truncated journal record", script)
    | READ_ERROR => Ok (engine, replay_stop r read_error, script)
    | FULL =>
      match validateRecord bytes expected with
      | Some error => Ok (engine, replay_stop r error, script)
      | None =>
        '(engine, r) ← replay_record bytes engine expected r;
        replay_loop fuel script file pos bytes (u64 (expected + 1)) engine r
      end
    end
  end.

Definition replay (script : list Sys) (fs : FileSystem) (path : string) (engine : MatchingEngine) :
    result (MatchingEngine * JournalReplayResult * list Sys) :=
  match script with
  | [] => Fault OutOfFuel
  | call :: script =>
    match call, fs !! path with
    | Fail e, _ =>
      Ok (engine, mkReplay false 0 0 0 0 0 0 0 0 (errnoMessage "open journal for replay" e), script)
    | Eintr, _ =>
      Ok (engine, mkReplay false 0 0 0 0 0 0 0 0
                    (errnoMessage "open journal for replay" "Interrupted system call"), script)
    | Transfer _, None =>
      Ok (engine, mkReplay false 0 0 0 0 0 0 0 0
                    (errnoMessage "open journal for replay" "No such file or directory"), script)
    | Transfer _, Some file =>
      replay_loop (scan_fuel file) script file 0 zero_record 1 engine JournalReplayResult_default
    end
  end.

(** * [EventJournal] *)

Inductive JournalOpenMode : Type := TRUNCATE | APPEND.
Inductive JournalDurability : Type := BUFFERED | FDATASYNC_EACH_RECORD.

(** [fd_ == -1] is [None]; an open descriptor is the path it was opened on. *)
Record EventJournal : Type := mkJournal {
  fd_ : option string;
  next_ordinal_ : Z;
  durability_ : JournalDurability;
  last_error_ : string
}.

Definition EventJournal_new : EventJournal := mkJournal None 1 BUFFERED "".

Definition isOpen (j : EventJournal) : bool := bool_decide (is_Some (fd_ j)).
Definition nextOrdinal (j : EventJournal) : Z := next_ordinal_ j.

Definition setError (message : string) (j : EventJournal) : EventJournal :=
  mkJournal (fd_ j) (next_ordinal_ j) (durability_ j) message.

Definition journal_close (j : EventJournal) : EventJournal :=
  mkJournal None (next_ordinal_ j) (durability_ j) (last_error_ j).

(** The move constructor and assignment: the target and what is left of [other]
    (a moved-from [std::string] is left empty). *)
Definition journal_move (other : EventJournal) : EventJournal * EventJournal :=
  (other, mkJournal None 1 (durability_ other) "").

(** [std::to_string] of a [uint64_t]. *)
Definition to_string (z : Z) : string := pretty (Z.to_N z).

(** The final [::open] of [EventJournal::open]: [O_CREAT], and [O_TRUNC] in
    [TRUNCATE] mode. *)
Definition open_file (mode : JournalOpenMode) (fs : FileSystem) (path : string) : FileSystem :=
  match mode, fs !! path with
  | TRUNCATE, _ | APPEND, None => <[path := []]> fs
  | APPEND, Some _ => fs
  end.

Definition journal_open (script : list Sys) (fs : FileSystem) (j : EventJournal) (path : string)
    (mode : JournalOpenMode) (durability : JournalDurability) :
    result (bool * EventJournal * FileSystem * list Sys) :=
  let j := mkJournal None 1 durability "" in
  '(scan, script) ←
    (match mode with
     | APPEND => scanFile script fs path
     | TRUNCATE => Ok (mkScan true 0 0 "", script)
     end : result (ScanResult * list Sys));
  if negb (scan_ok scan) then
    Ok (false, setError (scan_error scan +:+ " at byte offset "
                         +:+ to_string (scan_error_offset scan)) j, fs, script)
  else
    let j := match mode with
             | APPEND => mkJournal None (u64 (scan_records scan + 1)) durability ""
             | TRUNCATE => j
             end in
    match script with
    | [] => Fault OutOfFuel
    | Fail e :: script => Ok (false, setError (errnoMessage "open journal" e) j, fs, script)
    | Eintr :: script =>
      Ok (false, setError (errnoMessage "open journal" "Interrupted system call") j, fs, script)
    | Transfer _ :: script =>
      Ok (true, mkJournal (Some path) (next_ordinal_ j) durability "", open_file mode fs path, script)
    end.

(** [sync] on Linux: one [fdatasync]. *)
Definition sync (script : list Sys) (j : EventJournal) :
    result (bool * EventJournal * list Sys) :=
  match fd_ j with
  | None => Ok (false, setError "journal is not open" j, script)
  | Some _ =>
    match script with
    | [] => Fault OutOfFuel
    | Fail e :: script => Ok (false, setError (errnoMessage "fdatasync journal" e) j, script)
    | Eintr :: script =>
      Ok (false, setError (errnoMessage "fdatasync journal" "Interrupted system call") j, script)
    | Transfer _ :: script => Ok (true, j, script)
    end
  end.

Definition appendRecord (script : list Sys) (fs : FileSystem) (j : EventJournal) (record_type : Z)
    (order : Order.t) : result (bool * EventJournal * FileSystem * list Sys) :=
  match fd_ j with
  | None => Ok (false, setError "journal is not open" j, fs, script)
  | Some path =>
    let bytes := encodeRecord record_type (next_ordinal_ j) order in
    '(contents, error, script) ← writeAll script (default [] (fs !! path)) bytes 0;
    let fs := <[path := contents]> fs in
    match error with
    | Some message => Ok (false, setError message j, fs, script)
    | None =>
      let j := mkJournal (fd_ j) (u64 (next_ordinal_ j + 1)) (durability_ j) (last_error_ j) in
      match durability_ j with
      | FDATASYNC_EACH_RECORD => '(ok, j, script) ← sync script j; Ok (ok, j, fs, script)
      | BUFFERED => Ok (true, j, fs, script)
      end
    end
  end.

Definition appendNewOrder (script : list Sys) (fs : FileSystem) (j : EventJournal)
    (order : Order.t) : result (bool * EventJournal * FileSystem * list Sys) :=
  appendRecord script fs j kNewOrderRecord order.

Definition appendCancel (script : list Sys) (fs : FileSystem) (j : EventJournal) (order_id : Z) :
    result (bool * EventJournal * FileSystem * list Sys) :=
  appendRecord script fs j kCancelRecord (Order.with_id order_id Order.default).
