(* ===== verification/JournalCodec.v ===== *)
(** The journal's record format: little-endian fields read back as written, a
    record written is valid and decodes to its command, and a record with one
    byte altered is never valid. *)

From stdpp Require Import strings.
From S2P Require Import Prelude.
From S2P Require Import OrderTypes.
From S2P Require Import OrderBook.
From S2P Require Import Risk.
From S2P Require Import MatchingEngine.
From S2P Require Import Journal.

#[local] Open Scope Z_scope.

(** * Little-endian fields *)

(** The low [a] bits and the next [b] bits make the low [a + b] bits. *)
Lemma join_bits v a b :
  0 <= a -> 0 <= b ->
  Z.lor (v mod 2 ^ a) (Z.shiftl (Z.shiftr v a mod 2 ^ b) a) = v mod 2 ^ (a + b).
Proof.
  intros Ha Hb. apply Z.bits_inj'. intros k Hk.
  rewrite Z.lor_spec, Z.shiftl_spec by done. rewrite !Z.testbit_mod_pow2 by lia.
  destruct (Z.ltb_spec k a) as [H|H]; cbn [andb].
  - rewrite (Z.testbit_neg_r _ (k - a)) by lia. rewrite (proj2 (Z.ltb_lt k (a + b))) by lia.
    by rewrite andb_false_r, orb_false_r.
  - rewrite Z.shiftr_spec by lia. replace (k - a + a) with k by lia.
    cbn [orb]. f_equal. destruct (Z.ltb_spec (k - a) b), (Z.ltb_spec k (a + b)); (done || lia).
Qed.

(** A field of [n] bytes written little-endian reads back, in any word of at
    least that width. *)
Lemma get_field (bytes : list Z) (offset : nat) v w n :
  8 * Z.of_nat n <= w ->
  (forall i, (i < n)%nat -> bytes !!! (offset + i)%nat = u8 (Z.shiftr v (8 * Z.of_nat i))) ->
  foldl (fun value i => Z.lor value (Z.shiftl (bytes !!! (offset + i)%nat) (8 * Z.of_nat i) mod 2 ^ w))
    0 (seq 0 n) = v mod 2 ^ (8 * Z.of_nat n).
Proof.
  intros Hw. induction n as [|n IH]; intros Hb.
  { cbn. by rewrite Z.mod_1_r. }
  rewrite seq_S, foldl_app. cbn [foldl Nat.add]. rewrite IH by (lia || (intros i Hi; apply Hb; lia)).
  rewrite Hb by lia. unfold u8.
  rewrite (Z.mod_small (Z.shiftl _ _)).
  - rewrite join_bits by lia. do 2 f_equal. lia.
  - rewrite Z.shiftl_mul_pow2 by lia.
    pose proof (Z.mod_pos_bound (Z.shiftr v (8 * Z.of_nat n)) (2 ^ 8) ltac:(lia)) as Hm.
    assert (0 < 2 ^ (8 * Z.of_nat n)) as Hp by (apply Z.pow_pos_nonneg; lia).
    split; [nia|]. apply Z.lt_le_trans with (2 ^ 8 * 2 ^ (8 * Z.of_nat n)); [nia|].
    rewrite <- Z.pow_add_r by lia. apply Z.pow_le_mono_r; lia.
Qed.

Lemma getU64_field bytes offset v :
  is_u64 v ->
  (forall i, (i < 8)%nat -> bytes !!! (offset + i)%nat = u8 (Z.shiftr v (8 * Z.of_nat i))) ->
  getU64 bytes offset = v.
Proof. intros Hv H. unfold getU64, u64. rewrite (get_field _ _ v 64 8) by done. by apply Z.mod_small. Qed.

Lemma getU32_field bytes offset v :
  is_u32 v ->
  (forall i, (i < 4)%nat -> bytes !!! (offset + i)%nat = u8 (Z.shiftr v (8 * Z.of_nat i))) ->
  getU32 bytes offset = v.
Proof. intros Hv H. unfold getU32, u32. rewrite (get_field _ _ v 32 4) by done. by apply Z.mod_small. Qed.

Lemma field_of_four P : P 0%nat -> P 1%nat -> P 2%nat -> P 3%nat -> forall i, (i < 4)%nat -> P i.
Proof. intros ???? [|[|[|[|i]]]] ?; (done || lia). Qed.
Lemma field_of_eight P :
  P 0%nat -> P 1%nat -> P 2%nat -> P 3%nat -> P 4%nat -> P 5%nat -> P 6%nat -> P 7%nat ->
  forall i, (i < 8)%nat -> P i.
Proof. intros ???????? [|[|[|[|[|[|[|[|i]]]]]]]] ?; (done || lia). Qed.

(** A field of a record under construction: each byte by evaluation. *)
Ltac field32 := apply getU32_field; [|apply field_of_four; reflexivity].
Ltac field64 := apply getU64_field; [|apply field_of_eight; reflexivity].

(** * Written records are valid and decode *)

Section record.
Context (ordinal : Z) (order : Order.t).
Hypothesis Hord : is_u64 ordinal.
Hypothesis Hid : is_u64 (Order.id order).

Lemma crc32_range data : is_u32 (crc32 data).
Proof. apply u32_range. Qed.

Lemma new_record_valid : validateRecord (encodeRecord kNewOrderRecord ordinal order) ordinal = None.
Proof.
  unfold validateRecord.
  replace (getU64 _ 8) with ordinal by (symmetry; field64; done).
  replace (getU32 _ kChecksumOffset)
    with (crc32 (take kChecksumOffset (encodeRecord kNewOrderRecord ordinal order)))
    by (symmetry; field32; apply crc32_range).
  by rewrite !Z.eqb_refl.
Qed.

Lemma cancel_record_valid : validateRecord (encodeRecord kCancelRecord ordinal order) ordinal = None.
Proof.
  unfold validateRecord.
  replace (getU64 _ 8) with ordinal by (symmetry; field64; done).
  replace (getU32 _ kChecksumOffset)
    with (crc32 (take kChecksumOffset (encodeRecord kCancelRecord ordinal order)))
    by (symmetry; field32; apply crc32_range).
  by rewrite !Z.eqb_refl.
Qed.

Lemma record_id record_type :
  record_type = kNewOrderRecord \/ record_type = kCancelRecord ->
  getU64 (encodeRecord record_type ordinal order) 16 = Order.id order.
Proof. intros [->| ->]; field64; done. Qed.

Lemma i64_bits z : is_i64 z -> i64_of_bits (bits_of_i64 z) = z.
Proof.
  intros Hz. unfold i64_of_bits, bits_of_i64. destruct (Z.le_gt_cases 0 z).
  - rewrite Z.mod_small by range. by rewrite (proj2 (Z.ltb_lt _ _)) by range.
  - rewrite <- (Z.mod_unique z (2 ^ 64) (-1) (z + 2 ^ 64)) by range.
    rewrite (proj2 (Z.ltb_ge _ _)) by range. lia.
Qed.

(** The decoded order is the one written, with its sequence cleared. *)
Lemma decode_encode :
  Order.in_range order ->
  decodeOrder (encodeRecord kNewOrderRecord ordinal order) = Order.with_sequence 0 order.
Proof.
  intros [_ [Hs _] [Ht _] [Hf _] _ Hp Hq _]. unfold decodeOrder, Order.with_sequence.
  f_equal.
  - by apply record_id; left.
  - exact Hs.
  - exact Ht.
  - exact Hf.
  - replace (getU64 _ 28) with (bits_of_i64 (Order.price order)); [by apply i64_bits|].
    symmetry. field64. apply u64_range.
  - by field32.
Qed.

Lemma record_length record_type :
  record_type = kNewOrderRecord \/ record_type = kCancelRecord ->
  length (encodeRecord record_type ordinal order) = kRecordSize.
Proof. by intros [->| ->]. Qed.
End record.

(** * Corruption *)

Lemma u32_bits x : is_u32 x <-> 0 <= x /\ forall k, 32 <= k -> Z.testbit x k = false.
Proof.
  split.
  - intros Hx. split; [range|]. intros k Hk. rewrite <- (Z.mod_small x (2 ^ 32)) by done.
    rewrite Z.testbit_mod_pow2 by lia. by rewrite (proj2 (Z.ltb_ge k 32)).
  - intros [H0 Hb]. assert (x = x mod 2 ^ 32) as ->; [|apply u32_range].
    apply Z.bits_inj'. intros k Hk. rewrite Z.testbit_mod_pow2 by lia.
    destruct (Z.ltb_spec k 32); [done|]. by rewrite Hb.
Qed.

Lemma lxor_u32 x y : is_u32 x -> is_u32 y -> is_u32 (Z.lxor x y).
Proof.
  rewrite !u32_bits. intros [Hx Hx'] [Hy Hy']. split; [by apply Z.lxor_nonneg|].
  intros k Hk. by rewrite Z.lxor_spec, Hx', Hy'.
Qed.

(** One turn of the bit loop, without the mask trick. *)
Lemma crc_bit_spec a :
  crc_bit a = Z.lxor (Z.div2 a) (if Z.odd a then kPolynomial else 0).
Proof.
  unfold crc_bit. rewrite <- Z.div2_spec. change 1 with (Z.ones 1). rewrite Z.land_ones by lia.
  change (2 ^ 1) with 2. rewrite Zmod_odd. by destruct (Z.odd a).
Qed.

(** The turn undone: the polynomial has bit 31 set and [a / 2] has not. *)
Definition crc_unbit (c : Z) : Z :=
  2 * Z.lxor c (if Z.testbit c 31 then kPolynomial else 0) + Z.b2z (Z.testbit c 31).

Lemma crc_unbit_bit a : is_u32 a -> crc_unbit (crc_bit a) = a.
Proof.
  intros Ha. rewrite crc_bit_spec. unfold crc_unbit.
  assert (Z.testbit (Z.lxor (Z.div2 a) (if Z.odd a then kPolynomial else 0)) 31 = Z.odd a) as ->.
  { rewrite Z.lxor_spec, Z.div2_spec, Z.shiftr_spec by lia.
    rewrite (proj2 (proj1 (u32_bits a) Ha)) by lia. by destruct (Z.odd a). }
  rewrite Z.lxor_assoc, Z.lxor_nilpotent, Z.lxor_0_r. symmetry. apply Z.div2_odd.
Qed.

Lemma crc_bit_u32 a : is_u32 a -> is_u32 (crc_bit a).
Proof.
  intros Ha. rewrite crc_bit_spec. apply lxor_u32.
  - rewrite Z.div2_div. pose proof (Z.div_lt_upper_bound a 2 (2 ^ 32)). pose proof (Z.div_pos a 2). range.
  - by destruct (Z.odd a).
Qed.

Lemma crc_bits_inj n a b :
  is_u32 a -> is_u32 b ->
  is_u32 (Nat.iter n crc_bit a) /\ (Nat.iter n crc_bit a = Nat.iter n crc_bit b -> a = b).
Proof.
  intros Ha Hb. induction n as [|n [IHr IHi]]; [done|]. rewrite !Nat.iter_succ.
  split; [by apply crc_bit_u32|]. intros E. apply IHi.
  assert (is_u32 (Nat.iter n crc_bit b)) as Hb'.
  { clear -Hb. induction n; rewrite ?Nat.iter_succ; [done|by apply crc_bit_u32]. }
  rewrite <- (crc_unbit_bit _ IHr), E. by apply crc_unbit_bit.
Qed.

Lemma u8_u32 b : is_u8 b -> is_u32 b.
Proof. range. Qed.

(** One byte, and then any run of bytes, keeps different states different. *)
Lemma crc_byte_inj a b x y :
  is_u32 a -> is_u32 b -> is_u8 x -> is_u8 y ->
  is_u32 (crc_byte a x) /\ (crc_byte a x = crc_byte b y -> Z.lxor a x = Z.lxor b y).
Proof. intros. apply crc_bits_inj; apply lxor_u32; auto using u8_u32. Qed.

Lemma crc_run_inj l : forall a b,
  Forall is_u8 l -> is_u32 a -> is_u32 b ->
  is_u32 (foldl crc_byte a l) /\ (foldl crc_byte a l = foldl crc_byte b l -> a = b).
Proof.
  induction l as [|x l IH]; intros a b Hl Ha Hb; cbn [foldl]; [done|].
  apply Forall_cons in Hl as [Hx Hl].
  destruct (crc_byte_inj a b x x Ha Hb Hx Hx) as [H1 H2].
  destruct (crc_byte_inj b a x x Hb Ha Hx Hx) as [H3 _].
  destruct (IH _ _ Hl H1 H3) as [H4 H5]. split; [exact H4|]. intros E. specialize (H2 (H5 E)).
  apply (f_equal (fun z => Z.lxor z x)) in H2.
  by rewrite !Z.lxor_assoc, Z.lxor_nilpotent, !Z.lxor_0_r in H2.
Qed.

(** CRC-32 tells apart any two messages that differ in one byte. *)
Lemma crc32_one_byte l1 x y l2 :
  Forall is_u8 l1 -> Forall is_u8 l2 -> is_u8 x -> is_u8 y ->
  crc32 (l1 ++ x :: l2) = crc32 (l1 ++ y :: l2) -> x = y.
Proof.
  intros H1 H2 Hx Hy. unfold crc32. rewrite !foldl_app. cbn [foldl].
  set (s := foldl crc_byte 0xFFFFFFFF l1).
  assert (is_u32 s) as Hs by (apply (crc_run_inj l1 _ 0); (done || range)).
  destruct (crc_byte_inj s s x y Hs Hs Hx Hy) as [Hcx Hinj].
  destruct (crc_byte_inj s s y x Hs Hs Hy Hx) as [Hcy _].
  destruct (crc_run_inj l2 _ _ H2 Hcx Hcy) as [Hrx Hrun].
  destruct (crc_run_inj l2 _ _ H2 Hcy Hcx) as [Hry _].
  assert (forall c, is_u32 c -> u32 (Z.lnot c) = 2 ^ 32 - 1 - c) as Hnot.
  { intros c Hc. unfold u32, Z.lnot. symmetry. apply (Z.mod_unique _ _ (-1)); range. }
  rewrite !Hnot by done. intros E. assert (Z.lxor s x = Z.lxor s y) as E' by (apply Hinj, Hrun; lia).
  apply (f_equal (Z.lxor s)) in E'. by rewrite <- !Z.lxor_assoc, !Z.lxor_nilpotent, !Z.lxor_0_l in E'.
Qed.

(** A four-byte field determines its bytes. *)
Lemma getU32_bytes bytes offset i :
  Forall is_u8 bytes -> (offset + 4 <= length bytes)%nat -> (i < 4)%nat ->
  bytes !!! (offset + i)%nat = u8 (Z.shiftr (getU32 bytes offset) (8 * Z.of_nat i)).
Proof.
  intros Hb Hlen Hi.
  assert (forall k, (k < 4)%nat -> is_u8 (bytes !!! (offset + k)%nat)) as Hr.
  { intros k Hk. eapply (Forall_lookup_total_1 _ bytes); [done|lia]. }
  pose proof (Hr 0%nat ltac:(lia)). pose proof (Hr 1%nat ltac:(lia)).
  pose proof (Hr 2%nat ltac:(lia)). pose proof (Hr 3%nat ltac:(lia)).
  set (v := bytes !!! (offset + 0)%nat + 2 ^ 8 * bytes !!! (offset + 1)%nat
            + 2 ^ 16 * bytes !!! (offset + 2)%nat + 2 ^ 24 * bytes !!! (offset + 3)%nat).
  assert (forall k, (k < 4)%nat -> bytes !!! (offset + k)%nat = u8 (Z.shiftr v (8 * Z.of_nat k))) as Hv.
  { apply field_of_four; unfold u8; rewrite Z.shiftr_div_pow2 by lia; subst v.
    - apply (Z.mod_unique _ _ (bytes !!! (offset + 1)%nat + 2 ^ 8 * bytes !!! (offset + 2)%nat
                               + 2 ^ 16 * bytes !!! (offset + 3)%nat)); [range|].
      change (2 ^ (8 * Z.of_nat 0)) with 1. rewrite Z.div_1_r. lia.
    - apply (Z.mod_unique _ _ (bytes !!! (offset + 2)%nat + 2 ^ 8 * bytes !!! (offset + 3)%nat)); [range|].
      symmetry. apply (Z.div_unique _ _ _ (bytes !!! (offset + 0)%nat)); cbn; range.
    - apply (Z.mod_unique _ _ (bytes !!! (offset + 3)%nat)); [range|].
      symmetry. apply (Z.div_unique _ _ _ (bytes !!! (offset + 0)%nat + 2 ^ 8 * bytes !!! (offset + 1)%nat));
        cbn; range.
    - apply (Z.mod_unique _ _ 0); [range|].
      symmetry. apply (Z.div_unique _ _ _ (bytes !!! (offset + 0)%nat + 2 ^ 8 * bytes !!! (offset + 1)%nat
        + 2 ^ 16 * bytes !!! (offset + 2)%nat)); cbn; range. }
  rewrite (getU32_field bytes offset v); [by apply Hv|subst v; range|done].
Qed.

(** * Bytes of a record *)

Lemma put_bytes_u8 n bytes offset v : Forall is_u8 bytes -> Forall is_u8 (put_bytes n bytes offset v).
Proof.
  unfold put_bytes. generalize (seq 0 n). intros l. revert bytes.
  induction l as [|i l IH]; intros bytes Hb; cbn [foldl]; [done|].
  apply IH, Forall_insert; [done|apply u8_range].
Qed.

Lemma record_bytes record_type n order :
  record_type = kNewOrderRecord \/ record_type = kCancelRecord -> Order.in_range order ->
  Forall is_u8 (encodeRecord record_type n order).
Proof.
  intros Ht [_ [_ Hs] [_ Hty] [_ Htif] Hf _ _ _]. unfold encodeRecord, putU32, putU64, putU16.
  apply put_bytes_u8. destruct (_ =? _); repeat first [apply put_bytes_u8 | apply Forall_insert];
    try (done || apply u8_range).
  all: first [by destruct Ht as [->| ->] | apply Forall_replicate; range].
Qed.

(** A one-byte change to a valid record makes it invalid, under any ordinal. *)
Lemma one_byte_invalid bytes n k b n' :
  validateRecord bytes n = None -> length bytes = kRecordSize -> Forall is_u8 bytes ->
  (k < kRecordSize)%nat -> is_u8 b -> b <> bytes !!! k ->
  exists error, validateRecord (<[k := b]> bytes) n' = Some error.
Proof.
  intros Hv Hlen Hb Hk Hbb Hne. destruct (validateRecord (<[k := b]> bytes) n') as [error|] eqn:E; [by exists error|].
  exfalso.
  assert (forall l m, validateRecord l m = None -> getU32 l kChecksumOffset = crc32 (take kChecksumOffset l)) as Hcrc.
  { intros l m. unfold validateRecord. repeat case_match; try done. intros _. by apply Z.eqb_eq, negb_false_iff. }
  apply Hcrc in Hv, E. destruct (decide (k < kChecksumOffset)%nat) as [Hlt|Hge].
  - assert (getU32 (<[k := b]> bytes) kChecksumOffset = getU32 bytes kChecksumOffset) as Hsame.
    { unfold getU32. cbn [seq foldl].
      by rewrite !list_lookup_total_insert_ne by (unfold kChecksumOffset in *; lia). }
    rewrite Hsame, Hv in E. apply Hne. symmetry.
    assert (k < length (take kChecksumOffset bytes))%nat as Hk'.
    { rewrite length_take, Hlen. unfold kChecksumOffset, kRecordSize in *. lia. }
    rewrite take_insert_lt in E by done.
    assert (take kChecksumOffset bytes !! k = Some (bytes !!! k)) as Hl.
    { rewrite lookup_take_lt by done. apply list_lookup_lookup_total_lt. lia. }
    rewrite insert_take_drop in E by done. rewrite <- (take_drop_middle _ _ _ Hl) in E at 1.
    assert (Forall is_u8 (take kChecksumOffset bytes)) as Hf by by apply Forall_take.
    eapply crc32_one_byte; [..|exact E]; [by apply Forall_take|by apply Forall_drop| |done].
    eapply Forall_lookup_1; [exact Hb|]. apply list_lookup_lookup_total_lt. lia.
  - rewrite take_insert_ge, <- Hv in E by lia. apply Hne.
    assert (exists i, (i < 4)%nat /\ k = (kChecksumOffset + i)%nat) as (i & Hi & ->).
    { exists (k - kChecksumOffset)%nat. unfold kChecksumOffset, kRecordSize in *. lia. }
    assert (kChecksumOffset + 4 <= length bytes)%nat as Hoff by (rewrite Hlen; unfold kChecksumOffset, kRecordSize; lia).
    rewrite (getU32_bytes bytes kChecksumOffset i Hb Hoff Hi), <- E.
    rewrite <- (getU32_bytes (<[(kChecksumOffset + i)%nat := b]> bytes)); [|by apply Forall_insert| |done].
    + rewrite list_lookup_total_insert_eq by lia. done.
    + by rewrite length_insert.
Qed.
