(* ===== verification/JournalReplay.v ===== *)
(** The journal as a log of commands: what appending writes, what replaying
    applies, under any way the kernel splits, interrupts or cuts short the I/O. *)

From stdpp Require Import strings.
From S2P Require Import Prelude.
From S2P Require Import OrderTypes.
From S2P Require Import OrderBook.
From S2P Require Import Risk.
From S2P Require Import MatchingEngine.
From S2P Require Import Session.
From S2P Require Import SessionRuns.
From S2P Require Import Journal.
From S2P Require Import JournalCodec.

#[local] Open Scope Z_scope.

(** * Scripts *)

(** No call fails (interruptions are allowed). *)
Definition steady (script : list Sys) : Prop :=
  Forall (fun c => match c with Fail _ => False | _ => True end) script.

#[export] Instance steady_dec script : Decision (steady script).
Proof. apply Forall_dec. intros []; apply _. Defined.

(** The calls that do something. *)
Fixpoint transfers (script : list Sys) : nat :=
  match script with
  | [] => 0
  | Transfer _ :: script => S (transfers script)
  | _ :: script => transfers script
  end.

(** [script'] is what is left of [script] after at most [n] effective calls. *)
Definition later (n : nat) (script script' : list Sys) : Prop :=
  script' `suffix_of` script /\ (transfers script <= transfers script' + n)%nat.

Lemma later_refl n script : later n script script.
Proof. split; [done|lia]. Qed.
Lemma later_trans n m s1 s2 s3 : later n s1 s2 -> later m s2 s3 -> later (n + m) s1 s3.
Proof. intros [? ?] [? ?]. split; [by etrans|lia]. Qed.
Lemma later_eintr n s s' : later n s s' -> later n (Eintr :: s) s'.
Proof. intros [? ?]. split; [by apply suffix_cons_r|done]. Qed.
Lemma later_transfer n k s s' : later n s s' -> later (S n) (Transfer k :: s) s'.
Proof. intros [? ?]. split; [by apply suffix_cons_r|cbn; lia]. Qed.
Lemma later_mono n m s s' : later n s s' -> (n <= m)%nat -> later m s s'.
Proof. intros [? ?] ?. split; [done|lia]. Qed.

(** A property of every call is one of every later call. *)
Lemma later_Forall (P : Sys -> Prop) n s s' : later n s s' -> Forall P s -> Forall P s'.
Proof. intros [[l ->] _] H. by apply Forall_app in H as []. Qed.

Section reading.
Context (file : list Z).

Lemma store_at_length offset data bytes :
  (offset + length data <= length bytes)%nat -> length (store_at offset data bytes) = length bytes.
Proof. intros H. unfold store_at. rewrite !length_app, length_take, length_drop. lia. Qed.

(** Reading on after a partial read is reading the whole. *)
Lemma store_at_continue offset pos n need bytes :
  (offset + need <= length bytes)%nat -> (n <= need)%nat -> (pos + need <= length file)%nat ->
  take (offset + n) (store_at offset (take n (drop pos file)) bytes)
    ++ take (need - n) (drop (pos + n) file)
  = take offset bytes ++ take need (drop pos file).
Proof.
  intros H1 H2 H3. unfold store_at. rewrite app_assoc, take_app_length'.
  - rewrite <- app_assoc. f_equal. rewrite <- drop_drop.
    rewrite take_take_drop. by replace (n + (need - n))%nat with need by lia.
  - rewrite length_app, !length_take, length_drop. lia.
Qed.

(** Enough file and enough calls: the record is read in full. *)
Lemma readRecord_full script : forall pos bytes rb,
  steady script -> length bytes = kRecordSize -> (rb <= kRecordSize)%nat ->
  (pos + (kRecordSize - rb) <= length file)%nat -> (kRecordSize - rb <= transfers script)%nat ->
  exists script',
    readRecord script file pos bytes rb
    = Ok (FULL, ""%string, take rb bytes ++ take (kRecordSize - rb) (drop pos file),
          (pos + (kRecordSize - rb))%nat, script')
    /\ later (kRecordSize - rb) script script'.
Proof.
  induction script as [|call script IH]; intros pos bytes rb Hs Hlen Hrb Hfile Ht; cbn [readRecord].
  - cbn [transfers] in Ht. assert (rb = kRecordSize) as -> by lia.
    rewrite (proj2 (Nat.leb_le _ _)) by lia. exists []. rewrite Nat.sub_diag, take_ge, app_nil_r, Nat.add_0_r by lia.
    split; [done|apply later_refl].
  - destruct (length bytes <=? rb)%nat eqn:E.
    { apply Nat.leb_le in E. assert (rb = kRecordSize) as -> by lia. exists (call :: script).
      rewrite Nat.sub_diag, take_ge, app_nil_r, Nat.add_0_r by lia. split; [done|apply later_refl]. }
    apply Nat.leb_gt in E. apply Forall_cons in Hs as [Hc Hs].
    destruct call as [n| |e]; [| |done].
    2:{ destruct (IH pos bytes rb) as (script' & H1 & H2); [done..|]. exists script'. by split; [|apply later_eintr]. }
    set (k := Nat.min (S n) (Nat.min (length bytes - rb) (length file - pos))).
    assert (k <> 0 /\ k <= kRecordSize - rb)%nat as [Hk Hk'] by lia.
    rewrite (proj2 (Nat.eqb_neq k 0)) by done. cbn [transfers] in Ht.
    assert (length (take k (drop pos file)) = k) as Hlk by (rewrite length_take, length_drop; lia).
    destruct (IH (pos + k)%nat (store_at rb (take k (drop pos file)) bytes) (rb + k)%nat Hs)
      as (script' & H1 & H2); [rewrite store_at_length; [done|rewrite Hlk; lia]|lia|lia|lia|].
    exists script'. rewrite H1. split; [|apply later_transfer with (k := n) in H2; eapply later_mono; [exact H2|lia]].
    replace (kRecordSize - (rb + k))%nat with (kRecordSize - rb - k)%nat by lia.
    rewrite store_at_continue by lia.
    by replace (pos + k + (kRecordSize - rb - k))%nat with (pos + (kRecordSize - rb))%nat by lia.
Qed.

(** Not enough file: end of file before the first byte, a torn record after. *)
Lemma readRecord_short script : forall pos bytes rb,
  steady script -> length bytes = kRecordSize -> (pos <= length file)%nat ->
  (rb + (length file - pos) < kRecordSize)%nat -> (length file - pos < transfers script)%nat ->
  exists bytes' script',
    readRecord script file pos bytes rb
    = Ok (if (rb + (length file - pos) =? 0)%nat then EOF_REACHED else PARTIAL, ""%string, bytes',
          length file, script')
    /\ later (S (length file - pos)) script script'.
Proof.
  induction script as [|call script IH]; intros pos bytes rb Hs Hlen Hpos Hshort Ht; cbn [readRecord].
  - cbn [transfers] in Ht. lia.
  - rewrite (proj2 (Nat.leb_gt _ _)) by lia. apply Forall_cons in Hs as [Hc Hs].
    destruct call as [n| |e]; [| |done].
    2:{ destruct (IH pos bytes rb) as (bytes' & script' & H1 & H2); [done..|].
        exists bytes', script'. by split; [|apply later_eintr]. }
    cbn [transfers] in Ht.
    set (k := Nat.min (S n) (Nat.min (length bytes - rb) (length file - pos))).
    destruct (k =? 0)%nat eqn:Ek.
    + apply Nat.eqb_eq in Ek. replace (length file) with pos by lia. rewrite Nat.sub_diag, Nat.add_0_r.
      eexists _, _. split; [done|]. eapply later_mono; [apply later_transfer, (later_refl 0)|lia].
    + apply Nat.eqb_neq in Ek.
      assert (length (take k (drop pos file)) = k) as Hlk by (rewrite length_take, length_drop; lia).
      destruct (IH (pos + k)%nat (store_at rb (take k (drop pos file)) bytes) (rb + k)%nat Hs)
        as (bytes' & script' & H1 & H2); [rewrite store_at_length; [done|rewrite Hlk; lia]|lia|lia|lia|].
      exists bytes', script'. rewrite H1.
      split; [|apply later_transfer with (k := n) in H2; eapply later_mono; [exact H2|lia]].
      by replace (rb + k + (length file - (pos + k)))%nat with (rb + (length file - pos))%nat by lia.
Qed.
End reading.

(** * The log *)

(** What the journal records: the two commands a producer can send. *)
Inductive Logged : Type := LogNew (order : Order.t) | LogCancel (order_id : Z).

Definition logged_in_range (c : Logged) : Prop :=
  match c with LogNew order => Order.in_range order | LogCancel i => is_u64 i end.

#[export] Instance logged_in_range_dec c : Decision (logged_in_range c).
Proof. destruct c; cbn; unfold is_u64; apply _. Defined.

Definition command_of (c : Logged) : EngineCommand :=
  match c with LogNew order => Submit order | LogCancel i => Cancel i end.

Definition record_of (n : Z) (c : Logged) : list Z :=
  match c with
  | LogNew order => encodeRecord kNewOrderRecord n order
  | LogCancel i => encodeRecord kCancelRecord n (Order.with_id i Order.default)
  end.

(** The records of [cs], numbered from [n]. *)
Fixpoint log_from (n : Z) (cs : list Logged) : list Z :=
  match cs with
  | [] => []
  | c :: cs => record_of n c ++ log_from (n + 1) cs
  end.

Lemma record_of_length n c : length (record_of n c) = kRecordSize.
Proof. destruct c; apply record_length; [by left|by right]. Qed.

Lemma log_from_length cs : forall n, length (log_from n cs) = (kRecordSize * length cs)%nat.
Proof.
  induction cs as [|c cs IH]; intros n; cbn [log_from length]; [lia|].
  rewrite length_app, record_of_length, IH. lia.
Qed.

Lemma record_of_valid n c : is_u64 n -> validateRecord (record_of n c) n = None.
Proof. intros Hn. destruct c; [by apply new_record_valid|by apply cancel_record_valid]. Qed.

(** The engine overwrites the sequence of an order it accepts and never reads it. *)
Lemma processOrder_sequence e o s out : processOrder e (Order.with_sequence s o) out = processOrder e o out.
Proof. reflexivity. Qed.

(** Applying a record is applying its command. *)
Lemma replay_record_of n c e r e' ts rs :
  is_u64 n -> logged_in_range c -> apply_command e [] (command_of c) = Ok (e', ts, rs) ->
  exists report, rs = [report]
    /\ replay_record (record_of n c) e n r
       = Ok (e', replay_count r (match c with LogNew _ => true | LogCancel _ => false end) n
                   (Z.of_nat (length ts)) report).
Proof.
  intros Hn Hc. destruct c as [o|i]; cbn [command_of apply_command record_of]; unfold replay_record.
  - change (encodeRecord kNewOrderRecord n o !!! 6%nat =? kNewOrderRecord) with true. cbv iota.
    rewrite decode_encode, processOrder_sequence by (done || apply Hc).
    intros ([[e1 ts1] r1] & -> & [= <- <- <-])%bind_Ok. by exists r1.
  - change (encodeRecord kCancelRecord n (Order.with_id i Order.default) !!! 6%nat =? kNewOrderRecord)
      with false. cbv iota.
    rewrite record_id by (exact Hc || by right). cbn [Order.id Order.with_id].
    intros ([e1 r1] & -> & [= <- <- <-])%bind_Ok. by exists r1.
Qed.

(** What a replay of [cs] that ended in [reports] and [ts] adds to the counters. *)
Record tallied (r r' : JournalReplayResult) (cs : list Logged) (ts : list Trade.t)
    (reports : list ExecutionReport.t) : Prop := {
  tally_ok : replay_ok r' = replay_ok r;
  tally_records : replay_records r' = u64 (replay_records r + Z.of_nat (length cs));
  tally_trades : replay_trades r' = u64 (replay_trades r + Z.of_nat (length ts));
  tally_accepted : replay_accepted r' =
    u64 (replay_accepted r + Z.of_nat (length (filter (fun x => ExecutionReport.accepted x = true) reports)));
  tally_rejected : replay_rejected r' =
    u64 (replay_rejected r + Z.of_nat (length (filter (fun x => ExecutionReport.accepted x = false) reports)));
  tally_error : replay_error r' = replay_error r
}.

Definition counters_in_range (r : JournalReplayResult) : Prop :=
  is_u64 (replay_records r) /\ is_u64 (replay_trades r) /\ is_u64 (replay_accepted r)
  /\ is_u64 (replay_rejected r).

Lemma tallied_nil r : counters_in_range r -> tallied r r [] [] [].
Proof. intros (? & ? & ? & ?). split; cbn; rewrite ?Z.add_0_r, ?u64_small; done. Qed.

Lemma tallied_cons r r' c b n cs ts1 ts report reports :
  counters_in_range r ->
  tallied (replay_count r b n (Z.of_nat (length ts1)) report) r' cs ts reports ->
  tallied r r' (c :: cs) (ts1 ++ ts) (report :: reports).
Proof.
  intros (H1 & H2 & H3 & H4) [E1 E2 E3 E4 E5 E6].
  cbn [replay_ok replay_records replay_trades replay_accepted replay_rejected replay_error replay_count] in *.
  split; [done| | | | |done].
  - rewrite E2, u64_add_l. cbn [length]. f_equal. lia.
  - rewrite E3, u64_add_l, length_app. f_equal. lia.
  - rewrite E4, filter_cons. destruct (ExecutionReport.accepted report) eqn:E.
    + rewrite decide_True by done. cbn [length]. rewrite u64_add_l. f_equal. lia.
    + by rewrite decide_False by congruence.
  - rewrite E5, filter_cons. destruct (ExecutionReport.accepted report) eqn:E.
    + by rewrite decide_False by congruence.
    + rewrite decide_True by done. cbn [length]. rewrite u64_add_l. f_equal. lia.
Qed.

Lemma replay_count_in_range r b n k report :
  counters_in_range r -> counters_in_range (replay_count r b n k report).
Proof.
  intros (H1 & H2 & H3 & H4).
  split_and!; cbn; try apply u64_range; destruct (ExecutionReport.accepted report); done || apply u64_range.
Qed.

(** * Replaying a log *)

(** Why a replay stops after the last good record, with [tail] left in the file
    and ordinal [n] expected: [Some None] at a clean end, [Some] error otherwise;
    [None] when it does not stop there. *)
Definition stops_at (n : Z) (tail : list Z) : option (option string) :=
  match tail with
  | [] => Some None
  | _ => if (length tail <? kRecordSize)%nat then Some (Some "truncated journal record"%string)
         else Some <$> validateRecord (take kRecordSize tail) n
  end.

Definition finish (r : JournalReplayResult) (why : option string) : JournalReplayResult :=
  match why with None => replay_done r | Some error => replay_stop r error end.

(** The read that makes a replay or a scan stop. *)
Lemma read_tail script pre tail bytes n why :
  stops_at n tail = Some why ->
  steady script -> (kRecordSize <= transfers script)%nat -> length bytes = kRecordSize ->
  exists rr bytes' pos' script',
    readRecord script (pre ++ tail) (length pre) bytes 0 = Ok (rr, ""%string, bytes', pos', script')
    /\ later kRecordSize script script'
    /\ match rr with
       | EOF_REACHED => why = None
       | PARTIAL => why = Some "truncated journal record"%string
       | FULL => exists error, validateRecord bytes' n = Some error /\ why = Some error
       | READ_ERROR => False
       end.
Proof.
  intros Hstop Hs Ht Hb.
  assert (length (pre ++ tail) - length pre = length tail)%nat as Hrest by (rewrite length_app; lia).
  destruct (decide (length tail < kRecordSize)%nat) as [Hlt|Hge].
  - destruct (readRecord_short (pre ++ tail) script (length pre) bytes 0) as (bytes' & script' & -> & Hl);
      [done|done|rewrite length_app; lia|lia|lia|].
    rewrite Hrest in *. eexists _, _, _, _. split; [done|]. split; [eapply later_mono; [exact Hl|lia]|].
    unfold stops_at in Hstop. destruct tail as [|x tail]; [by simplify_eq|].
    rewrite (proj2 (Nat.ltb_lt _ _)) in Hstop by done. by simplify_eq.
  - destruct (readRecord_full (pre ++ tail) script (length pre) bytes 0) as (script' & -> & Hl);
      [done|done|lia|rewrite length_app; lia|lia|].
    rewrite Nat.sub_0_r, drop_app_length, take_0, app_nil_l in *.
    eexists _, _, _, _. split; [done|]. split; [done|].
    unfold stops_at in Hstop. rewrite (proj2 (Nat.ltb_ge _ _)) in Hstop by lia.
    destruct tail as [|x tail]; [cbn in Hge; unfold kRecordSize in Hge; lia|].
    destruct (validateRecord _ n) as [error|]; [|done]. injection Hstop as <-. eauto.
Qed.

(** The read of one record of the log. *)
Lemma read_logged script pre n c rest bytes :
  steady script -> (kRecordSize <= transfers script)%nat -> length bytes = kRecordSize ->
  exists script',
    readRecord script (pre ++ record_of n c ++ rest) (length pre) bytes 0
    = Ok (FULL, ""%string, record_of n c, length (pre ++ record_of n c), script')
    /\ later kRecordSize script script'.
Proof.
  intros Hs Ht Hb. pose proof (record_of_length n c) as Hlen.
  destruct (readRecord_full (pre ++ record_of n c ++ rest) script (length pre) bytes 0)
    as (script' & -> & Hl); [done|done|lia|rewrite !length_app; lia|lia|].
  exists script'. rewrite Nat.sub_0_r in *.
  by rewrite drop_app_length, take_0, app_nil_l, take_app_length', length_app, Hlen by done.
Qed.

Lemma replay_loop_log tail why cs : forall fuel script pre bytes n e r e' ts rs,
  stops_at (n + Z.of_nat (length cs)) tail = Some why ->
  (length cs < fuel)%nat -> steady script ->
  (kRecordSize * S (length cs) <= transfers script)%nat -> length bytes = kRecordSize ->
  0 <= n -> n + Z.of_nat (length cs) < 2 ^ 64 -> counters_in_range r -> Forall logged_in_range cs ->
  run e [] (command_of <$> cs) = Ok (e', ts, rs) ->
  exists r' script', tallied r r' cs ts rs
    /\ replay_loop fuel script (pre ++ log_from n cs ++ tail) (length pre) bytes n e r
       = Ok (e', finish r' why, script')
    /\ later (kRecordSize * S (length cs)) script script'.
Proof.
  induction cs as [|c cs IH]; intros fuel script pre bytes n e r e' ts rs Hstop Hf Hs Ht Hb Hn Hn' Hr Hc Hrun;
    cbn [length] in *; (destruct fuel as [|fuel]; [lia|]).
  { cbn in Hrun. simplify_eq. cbn [log_from app replay_loop]. rewrite Z.add_0_r in Hstop.
    destruct (read_tail script pre tail bytes n why Hstop Hs ltac:(lia) Hb)
      as (rr & bytes' & pos' & script' & -> & Hl & Hrr). exists r, script'. split; [by apply tallied_nil|].
    split; [|eapply later_mono; [exact Hl|lia]].
    cbn [mbind result_bind]. destruct rr; [destruct Hrr as (error & -> & ->)|by subst why|by subst why|done]; done. }
  apply Forall_cons in Hc as [Hc Hcs]. cbn [fmap list_fmap run] in Hrun.
  apply bind_Ok in Hrun as ([[e1 ts1] rs1] & Ha & ([[e2 ts2] rs2] & Hrun & [= <- <- <-])%bind_Ok).
  rewrite run_out in Hrun. destruct (run e1 [] _) as [[[e3 ts3] rs3]|] eqn:Hrun'; cbn in Hrun; [|done].
  simplify_eq. cbn [replay_loop log_from]. rewrite <- app_assoc.
  destruct (read_logged script pre n c (log_from (n + 1) cs ++ tail) bytes Hs ltac:(lia) Hb)
    as (script1 & -> & Hl1).
  pose proof (later_Forall _ _ _ _ Hl1 Hs) as Hs1. pose proof Hl1 as [_ Ht1].
  cbn [mbind result_bind]. rewrite record_of_valid by range.
  destruct (replay_record_of n c e r e1 ts1 rs1 ltac:(range) Hc Ha) as (report & -> & ->).
  cbn [mbind result_bind]. rewrite u64_small by range.
  match goal with |- context [replay_count r ?b n ?k report] => set (r1 := replay_count r b n k report) end.
  destruct (IH fuel script1 (pre ++ record_of n c) (record_of n c) (n + 1) e1 r1 e2 ts3 rs2)
    as (r' & script' & Htal & E & Hl); [by replace (n + 1 + Z.of_nat (length cs))
      with (n + Z.of_nat (S (length cs))) by lia|lia|done|lia|apply record_of_length|lia|lia
      |by apply replay_count_in_range|done|done|].
  exists r', script'. split; [by eapply tallied_cons|]. rewrite <- app_assoc in E.
  split; [exact E|]. eapply later_mono; [by eapply later_trans|lia].
Qed.

Lemma log_from_app cs1 : forall n cs2,
  log_from n (cs1 ++ cs2) = log_from n cs1 ++ log_from (n + Z.of_nat (length cs1)) cs2.
Proof.
  induction cs1 as [|c cs1 IH]; intros n cs2; cbn [app log_from length]; [by rewrite Z.add_0_r|].
  rewrite IH, <- app_assoc. by replace (n + 1 + Z.of_nat (length cs1))
    with (n + Z.of_nat (S (length cs1))) by lia.
Qed.

(** [replay] of a file that starts with the log of [cs] and stops after it. *)
Lemma replay_log script fs path e cs tail why e' ts rs k :
  fs !! path = Some (log_from 1 cs ++ tail) ->
  stops_at (1 + Z.of_nat (length cs)) tail = Some why ->
  steady script -> (kRecordSize * S (length cs) <= transfers script)%nat ->
  Z.of_nat (length cs) < 2 ^ 63 -> Forall logged_in_range cs ->
  run e [] (command_of <$> cs) = Ok (e', ts, rs) ->
  exists r' script', tallied JournalReplayResult_default r' cs ts rs
    /\ replay (Transfer k :: script) fs path e = Ok (e', finish r' why, script')
    /\ later (kRecordSize * S (length cs)) script script'.
Proof.
  intros Hfs Hstop Hs Ht Hn Hc Hrun. unfold replay. rewrite Hfs.
  apply (replay_loop_log tail why cs (scan_fuel (log_from 1 cs ++ tail)) script [] zero_record 1 e);
    [done| |done|done|done|lia|lia|done|done|done].
  unfold scan_fuel. rewrite length_app, log_from_length. unfold kRecordSize. lia.
Qed.

(** * Appending *)

Lemma writeAll_spec script : forall contents data written contents' error script',
  (written <= length data)%nat ->
  writeAll script contents data written = Ok (contents', error, script') ->
  exists k, (written <= k <= length data)%nat
    /\ contents' = contents ++ take (k - written) (drop written data)
    /\ (error = None <-> k = length data).
Proof.
  induction script as [|call script IH]; intros contents data written contents' error script' Hw;
    cbn [writeAll]; (destruct (length data <=? written)%nat eqn:E; [apply Nat.leb_le in E|apply Nat.leb_gt in E]).
  1,3: intros [= <- <- <-]; exists written; rewrite Nat.sub_diag, take_0, app_nil_r;
    split_and!; [lia|lia|done|split; [lia|done]].
  - done.
  - destruct call as [n| |e].
    + destruct (Nat.min n (length data - written) =? 0)%nat eqn:En.
      * intros [= <- <- <-]. exists written. rewrite Nat.sub_diag, take_0, app_nil_r.
        split_and!; [lia|lia|done|split; [done|lia]].
      * apply Nat.eqb_neq in En. set (m := Nat.min n (length data - written)) in *.
        intros (k & Hk & -> & Hiff)%IH; [|lia]. exists k. split; [lia|]. split; [|done].
        rewrite <- app_assoc, <- drop_drop, take_take_drop.
        by replace (m + (k - (written + m)))%nat with (k - written)%nat by lia.
    + intros (k & Hk & Hc & Hiff)%IH; [|done]. by exists k.
    + intros [= <- <- <-]. exists written. rewrite Nat.sub_diag, take_0, app_nil_r.
      split_and!; [lia|lia|done|split; [done|lia]].
Qed.

(** Calls that let a write make progress. *)
Definition writable (script : list Sys) : Prop :=
  Forall (fun c => match c with Transfer (S _) | Eintr => True | _ => False end) script.

#[export] Instance writable_dec script : Decision (writable script).
Proof. apply Forall_dec. intros [[]| |]; apply _. Defined.

Lemma writeAll_complete script : forall contents data written,
  (written <= length data)%nat -> writable script -> (length data - written <= transfers script)%nat ->
  exists script', writeAll script contents data written = Ok (contents ++ drop written data, None, script')
    /\ writable script' /\ (transfers script <= transfers script' + (length data - written))%nat.
Proof.
  induction script as [|call script IH]; intros contents data written Hw Hs Ht; cbn [writeAll].
  - cbn [transfers] in Ht. rewrite (proj2 (Nat.leb_le _ _)) by lia. rewrite drop_ge, app_nil_r by lia.
    exists []. split_and!; [done|done|cbn [transfers]; lia].
  - destruct (length data <=? written)%nat eqn:E.
    { apply Nat.leb_le in E. rewrite drop_ge, app_nil_r by lia. exists (call :: script).
      split_and!; [done|done|lia]. }
    apply Nat.leb_gt in E. apply Forall_cons in Hs as [Hc Hs].
    destruct call as [[|n]| |e]; [done| |by apply IH|done]. cbn [transfers] in *.
    set (m := Nat.min (S n) (length data - written)). rewrite (proj2 (Nat.eqb_neq m 0)) by lia.
    destruct (IH (contents ++ take m (drop written data)) data (written + m)%nat) as (script' & -> & H1 & H2);
      [lia|done|lia|].
    exists script'. split_and!; [|done|lia]. by rewrite <- app_assoc, <- drop_drop, take_drop.
Qed.

(** * Scanning *)

(** What [scanFile] reports after [records] good records. *)
Definition scan_outcome (records : Z) (why : option string) : ScanResult :=
  match why with
  | None => mkScan true records 0 ""
  | Some error => mkScan false records (u64 (records * Z.of_nat kRecordSize)) error
  end.

Lemma scan_loop_log tail why cs : forall fuel script pre bytes n records,
  stops_at (n + Z.of_nat (length cs)) tail = Some why ->
  (length cs < fuel)%nat -> steady script ->
  (kRecordSize * S (length cs) <= transfers script)%nat -> length bytes = kRecordSize ->
  0 <= records <= n -> n + Z.of_nat (length cs) < 2 ^ 64 ->
  exists script',
    scan_loop fuel script (pre ++ log_from n cs ++ tail) (length pre) bytes n records
    = Ok (scan_outcome (records + Z.of_nat (length cs)) why, script')
    /\ later (kRecordSize * S (length cs)) script script'.
Proof.
  induction cs as [|c cs IH]; intros fuel script pre bytes n records Hstop Hf Hs Ht Hb Hn Hn';
    cbn [length] in *; (destruct fuel as [|fuel]; [lia|]).
  { cbn [log_from app scan_loop]. rewrite Z.add_0_r in Hstop |- *.
    destruct (read_tail script pre tail bytes n why Hstop Hs ltac:(lia) Hb)
      as (rr & bytes' & pos' & script' & -> & Hl & Hrr). exists script'.
    split; [|eapply later_mono; [exact Hl|lia]]. cbn [mbind result_bind].
    destruct rr; [destruct Hrr as (error & -> & ->)|by subst why|by subst why|done]; done. }
  cbn [scan_loop log_from]. rewrite <- app_assoc.
  destruct (read_logged script pre n c (log_from (n + 1) cs ++ tail) bytes Hs ltac:(lia) Hb)
    as (script1 & -> & Hl1).
  pose proof (later_Forall _ _ _ _ Hl1 Hs) as Hs1. pose proof Hl1 as [_ Ht1]. cbn [mbind result_bind].
  rewrite record_of_valid by range. rewrite !u64_small by range.
  destruct (IH fuel script1 (pre ++ record_of n c) (record_of n c) (n + 1) (records + 1)) as (script' & E & Hl);
    [by replace (n + 1 + Z.of_nat (length cs)) with (n + Z.of_nat (S (length cs))) by lia|lia|done|lia
    |apply record_of_length|lia|lia|].
  exists script'. rewrite <- app_assoc in E. rewrite E.
  split; [by replace (records + 1 + Z.of_nat (length cs)) with (records + Z.of_nat (S (length cs))) by lia|].
  eapply later_mono; [by eapply later_trans|lia].
Qed.
