(* ===== verification/JournalProps.v ===== *)
(** What the journal guarantees: records round-trip, corruption is detected, and
    a crash at any point loses only what was never acknowledged. *)

From stdpp Require Import strings.
From S2P Require Import Prelude.
From S2P Require Import OrderTypes.
From S2P Require Import OrderBook.
From S2P Require Import BookQueries.
From S2P Require Import Risk.
From S2P Require Import MatchingEngine.
From S2P Require Import Session.
From S2P Require Import EngineProps.
From S2P Require Import Journal.
From S2P Require Import JournalCodec.
From S2P Require Import JournalReplay.

#[local] Open Scope Z_scope.

(** * Appending a sequence of commands *)

Definition append_logged (script : list Sys) (fs : FileSystem) (j : EventJournal) (c : Logged) :
    result (bool * EventJournal * FileSystem * list Sys) :=
  match c with
  | LogNew order => appendNewOrder script fs j order
  | LogCancel i => appendCancel script fs j i
  end.

(** Append until a command is refused, as the engine's main loop does; the
    acknowledged commands come first. *)
Fixpoint append_all (script : list Sys) (fs : FileSystem) (j : EventJournal) (cs : list Logged) :
    result (list Logged * EventJournal * FileSystem * list Sys) :=
  match cs with
  | [] => Ok ([], j, fs, script)
  | c :: cs =>
    '(ok, j, fs, script) ← append_logged script fs j c;
    match (ok : bool) with
    | false => Ok ([], j, fs, script)
    | true =>
      '(acked, j, fs, script) ← append_all script fs j cs;
      Ok (c :: acked, j, fs, script)
    end
  end.

(** Appending a command is appending its record. *)
Lemma append_logged_record c :
  exists t o, (forall script fs j, append_logged script fs j c = appendRecord script fs j t o)
    /\ forall n, encodeRecord t n o = record_of n c.
Proof. destruct c; by eexists _, _. Qed.

Section appending.
Context (path : string).

(** One append, whatever the kernel does: a prefix of the record reaches the
    file, all of it if the append is acknowledged. *)
Lemma append_logged_spec script fs j c contents ok j' fs' script' :
  fd_ j = Some path -> fs !! path = Some contents ->
  append_logged script fs j c = Ok (ok, j', fs', script') ->
  exists k, (k <= kRecordSize)%nat
    /\ fs' !! path = Some (contents ++ take k (record_of (next_ordinal_ j) c))
    /\ fd_ j' = Some path /\ durability_ j' = durability_ j
    /\ (ok = true -> k = kRecordSize /\ next_ordinal_ j' = u64 (next_ordinal_ j + 1))
    /\ (ok = false -> durability_ j = BUFFERED -> (k < kRecordSize)%nat).
Proof.
  intros Hfd Hfs Happ.
  destruct (append_logged_record c) as (t & o & Heq & Henc).
  rewrite Heq in Happ. unfold appendRecord in Happ. rewrite Hfd, Hfs in Happ. cbn [default] in Happ.
  pose proof (record_of_length (next_ordinal_ j) c) as Hlen. rewrite Henc in Happ.
  apply bind_Ok in Happ as ([[contents' error] script1] & Hw & Happ). unfold default, id in Hw.
  apply writeAll_spec in Hw as (k & Hk & -> & Hiff); [|lia]. rewrite Nat.sub_0_r, drop_0 in *.
  exists k. split; [lia|]. destruct error as [msg|].
  - injection Happ as <- <- <- <-. rewrite lookup_insert_eq. split_and!; [done|done|done|done|].
    intros _ _. assert (k <> length (record_of (next_ordinal_ j) c)); [|lia]. intros Hk'. by apply Hiff in Hk'.
  - assert (k = kRecordSize) as -> by (rewrite <- Hlen; by apply Hiff). cbn [durability_] in Happ.
    destruct (durability_ j) eqn:Ed.
    + injection Happ as <- <- <- <-. rewrite lookup_insert_eq. by split_and!.
    + apply bind_Ok in Happ as ([[ok1 j1] script2] & Hsync & [= <- <- <- <-]). rewrite lookup_insert_eq.
      unfold sync in Hsync. cbn [fd_] in Hsync.
      destruct script1 as [|[n| |e] script1]; [done|..]; injection Hsync as <- <- <-; by split_and!.
Qed.

Lemma append_all_spec cs : forall script fs j old acked j' fs' script',
  fd_ j = Some path -> fs !! path = Some (log_from 1 old) ->
  next_ordinal_ j = 1 + Z.of_nat (length old) -> Z.of_nat (length old + length cs) < 2 ^ 63 ->
  append_all script fs j cs = Ok (acked, j', fs', script') ->
  exists rest tail, cs = acked ++ rest
    /\ fs' !! path = Some (log_from 1 (old ++ acked) ++ tail)
    /\ match rest with
       | [] => tail = []
       | c :: _ => exists k, (k <= kRecordSize)%nat
           /\ tail = take k (record_of (1 + Z.of_nat (length (old ++ acked))) c)
           /\ (durability_ j = BUFFERED -> (k < kRecordSize)%nat)
       end.
Proof.
  induction cs as [|c cs IH]; intros script fs j old acked j' fs' script' Hfd Hfs Hn Hlen; cbn [append_all].
  { intros [= <- <- <- <-]. exists [], []. by rewrite !app_nil_r. }
  intros ([[[ok j1] fs1] script1] & Ha & Hrest)%bind_Ok.
  destruct (append_logged_spec _ _ _ _ _ _ _ _ _ Hfd Hfs Ha) as (k & Hk & Hfs1 & Hfd1 & Hd1 & Ht & Hf).
  cbn [length] in Hlen. destruct ok.
  - destruct (Ht eq_refl) as [-> Hn1].
    apply bind_Ok in Hrest as ([[[acked2 j2] fs2] script2] & Hall & [= <- <- <- <-]).
    rewrite take_ge in Hfs1 by (rewrite record_of_length; lia).
    assert (log_from 1 old ++ record_of (next_ordinal_ j) c = log_from 1 (old ++ [c])) as E.
    { rewrite log_from_app, Hn. cbn [log_from]. by rewrite app_nil_r. }
    rewrite E in Hfs1.
    destruct (IH script1 fs1 j1 (old ++ [c]) acked2 j2 fs2 script2 Hfd1 Hfs1) as (rest & tail & -> & H1 & H2).
    + rewrite Hn1, u64_small, Hn, length_app by range. cbn. lia.
    + rewrite length_app. cbn [length]. lia.
    + exact Hall.
    + exists rest, tail. rewrite <- app_assoc in H1, H2. cbn [app] in *. rewrite Hd1 in H2. done.
  - injection Hrest as <- <- <- <-. exists (c :: cs), (take k (record_of (next_ordinal_ j) c)).
    rewrite app_nil_r. split_and!; [done|done|]. exists k. rewrite Hn. split_and!; [done|done|].
    intros Hb. by apply Hf.
Qed.
End appending.

(** A strict prefix of a record at the end of the file stops a replay there. *)
Lemma stops_at_torn n k record :
  length record = kRecordSize -> (k < kRecordSize)%nat ->
  stops_at n (take k record)
  = Some (if (k =? 0)%nat then None else Some "truncated journal record"%string).
Proof.
  intros Hl Hk. unfold stops_at. destruct k as [|k]; [done|]. destruct record as [|x record]; [done|].
  change (take (S k) (x :: record)) with (x :: take k record).
  rewrite (proj2 (Nat.ltb_lt _ _)); [done|]. cbn [length] in *. rewrite length_take. lia.
Qed.

(** Any logged session can be run from a fresh engine. *)
Lemma logged_run limits cs :
  RiskLimits.in_range limits -> Forall logged_in_range cs -> Z.of_nat (length cs) <= max_resting ->
  exists e ts rs, run (MatchingEngine_new limits) [] (command_of <$> cs) = Ok (e, ts, rs).
Proof.
  intros Hl Hc Hn.
  pose proof (run_ok (command_of <$> cs) 0 _ [] (session_new limits Hl)) as H.
  destruct (market_run _ _) as [[m ts] rs].
  destruct H as (e & Hr & _); [rewrite length_fmap; lia| |by exists e, ts, rs].
  rewrite Forall_fmap. eapply Forall_impl; [exact Hc|]. by intros [].
Qed.

(** * Recovery *)


Module JournalScenario.
Definition commands : list Logged :=
  [LogNew (Scenario.limit 1 SELL 101 100); LogNew (Scenario.limit 2 BUY 101 30); LogCancel 1].
(** The third record is cut off by a full disk after 20 bytes. *)
Definition writes : list Sys :=
  [Transfer 1; Transfer 40; Eintr; Transfer 99; Transfer 48; Transfer 20; Fail "No space left on device"].
Definition reads : list Sys := replicate 200 (Transfer 6).

Definition opened : EventJournal * FileSystem * list Sys :=
  match journal_open writes ∅ EventJournal_new "j" TRUNCATE BUFFERED with
  | Ok (_, j, fs, script) => (j, fs, script)
  | Fault _ => (EventJournal_new, ∅, [])
  end.
Definition written : EventJournal * FileSystem * list Sys :=
  match append_all opened.2 opened.1.2 opened.1.1 commands with
  | Ok (_, j, fs, script) => (j, fs, script)
  | Fault _ => opened
  end.

Lemma opened_ok :
  journal_open writes ∅ EventJournal_new "j" TRUNCATE BUFFERED
  = Ok (true, opened.1.1, opened.1.2, opened.2).
Proof. vm_compute. reflexivity. Qed.
Lemma written_ok :
  append_all opened.2 opened.1.2 opened.1.1 commands
  = Ok (take 2 commands, written.1.1, written.1.2, written.2).
Proof. vm_compute. reflexivity. Qed.
End JournalScenario.


(** C29. A truncated journal replays its complete records.  Cut a journal at any
    byte: the replay applies exactly the commands whose records are whole, stops
    without applying anything else, and reports success only if the cut is on a
    record boundary. *)
Theorem truncated_journal_replays_prefix limits fs path cs cut script k :
  RiskLimits.in_range limits -> Forall logged_in_range cs -> Z.of_nat (length cs) <= max_resting ->
  (cut <= kRecordSize * length cs)%nat -> fs !! path = Some (take cut (log_from 1 cs)) ->
  steady script -> (kRecordSize * S (length cs) <= transfers script)%nat ->
  let whole := (cut / kRecordSize)%nat in
  exists e ts rs r script',
    run (MatchingEngine_new limits) [] (command_of <$> take whole cs) = Ok (e, ts, rs)
    /\ replay (Transfer k :: script) fs path (MatchingEngine_new limits) = Ok (e, r, script')
    /\ replay_records r = Z.of_nat whole
    /\ replay_ok r = (cut mod kRecordSize =? 0)%nat.
Proof.
  intros Hl Hc Hn Hcut Hfs Hs Ht whole. unfold max_resting in Hn.
  pose proof (Nat.div_mod_eq cut kRecordSize) as Hdiv. fold whole in Hdiv.
  pose proof (Nat.mod_upper_bound cut kRecordSize ltac:(done)) as Hmod.
  set (torn := (cut mod kRecordSize)%nat) in *. clearbody torn whole.
  assert (whole <= length cs)%nat as Hw by (unfold kRecordSize in *; lia).
  assert (length (take whole cs) = whole) as Hlw by (rewrite length_take; lia).
  destruct (logged_run limits (take whole cs) Hl) as (e & ts & rs & Hrun);
    [by apply Forall_take|unfold max_resting; lia|].
  set (rest := log_from (1 + Z.of_nat whole) (drop whole cs)).
  assert (take cut (log_from 1 cs) = log_from 1 (take whole cs) ++ take torn rest) as Hfile.
  { rewrite <- (take_drop whole cs) at 1. rewrite log_from_app, Hlw. fold rest.
    rewrite take_app, log_from_length, Hlw. rewrite (take_ge (log_from _ _)) by (rewrite log_from_length, Hlw; lia).
    by replace (cut - kRecordSize * whole)%nat with torn by lia. }
  assert (stops_at (1 + Z.of_nat (length (take whole cs))) (take torn rest)
          = Some (if (torn =? 0)%nat then None else Some "truncated journal record"%string)) as Hstop.
  { destruct (drop whole cs) as [|c cs'] eqn:Ed.
    - assert (torn = 0)%nat as ->; [|done]. apply (f_equal length) in Ed. rewrite length_drop in Ed.
      cbn in Ed. unfold kRecordSize in *. lia.
    - subst rest. cbn [log_from]. rewrite take_app_le by (rewrite record_of_length; lia).
      by apply stops_at_torn; [apply record_of_length|]. }
  rewrite Hfile in Hfs.
  destruct (replay_log script fs path (MatchingEngine_new limits) (take whole cs) _ _ e ts rs k Hfs Hstop Hs)
    as (r & script' & Htal & Hr & _); [lia|lia|by apply Forall_take|done|].
  exists e, ts, rs, (finish r (if (torn =? 0)%nat then None else Some "truncated journal record"%string)), script'.
  split_and!; [done|done| |].
  - transitivity (replay_records r); [by destruct (torn =? 0)%nat|].
    rewrite (tally_records _ _ _ _ _ Htal), Hlw. apply u64_small. cbn. range.
  - pose proof (tally_ok _ _ _ _ _ Htal) as Hok. by destruct (torn =? 0)%nat.
Qed.

Lemma truncated_journal_replays_prefix_witness :
  exists e ts rs r script',
    run (MatchingEngine_new RiskLimits.default) [] (command_of <$> take 1 JournalScenario.commands)
    = Ok (e, ts, rs)
    /\ replay (Transfer 0 :: JournalScenario.reads) {[ "j"%string := take 90 (log_from 1 JournalScenario.commands) ]}
         "j" (MatchingEngine_new RiskLimits.default) = Ok (e, r, script')
    /\ replay_ok r = false.
Proof.
  destruct (truncated_journal_replays_prefix RiskLimits.default
    {[ "j"%string := take 90 (log_from 1 JournalScenario.commands) ]} "j" JournalScenario.commands 90
    JournalScenario.reads 0 ltac:(evaluate) ltac:(evaluate) ltac:(unfold max_resting; cbn; lia)
    ltac:(evaluate) ltac:(apply lookup_singleton_eq) ltac:(evaluate) ltac:(evaluate))
    as (e & ts & rs & r & script' & H1 & H2 & _ & H3).
  exists e, ts, rs, r, script'. split; [exact H1|]. split; [exact H2|]. exact H3.
Defined.

(** The log around one of its commands. *)
Lemma log_split cs before c :
  cs !! before = Some c ->
  log_from 1 cs = log_from 1 (take before cs) ++ record_of (1 + Z.of_nat before) c
                  ++ log_from (1 + Z.of_nat before + 1) (drop (S before) cs).
Proof.
  intros Hc. pose proof (lookup_lt_Some _ _ _ Hc). rewrite <- (take_drop_middle _ _ _ Hc) at 1.
  rewrite log_from_app, length_take, Nat.min_l by lia. done.
Qed.

(** A replay stops at an altered record. *)
Lemma stops_at_altered n c off b rest :
  is_u64 n -> logged_in_range c -> (off < kRecordSize)%nat -> is_u8 b -> b <> record_of n c !!! off ->
  exists error, stops_at n (<[off := b]> (record_of n c) ++ rest) = Some (Some error).
Proof.
  intros Hn Hc Hoff Hb Hne. pose proof (record_of_length n c) as Hlr.
  destruct (one_byte_invalid (record_of n c) n off b n) as [error Herr];
    [by apply record_of_valid|done| |done|done|done|].
  { destruct c; apply record_bytes; [by left|done|by right|]. split; cbn; (done || range). }
  exists error. unfold stops_at. rewrite take_app_length' by (by rewrite length_insert). rewrite Herr.
  destruct (<[off := b]> (record_of n c) ++ rest) eqn:Ex.
  - apply (f_equal length) in Ex. rewrite length_app, length_insert, Hlr in Ex. done.
  - rewrite <- Ex, (proj2 (Nat.ltb_ge _ _)); [done|]. rewrite length_app, length_insert. lia.
Qed.

(** C30. One altered byte is always caught.  Change any single byte of a journal -
    in a field, the padding or the checksum: the replay applies exactly the
    commands before the altered record, reports failure, and names the byte
    offset of that record. *)
Theorem altered_byte_detected limits fs path cs at_byte b script k :
  RiskLimits.in_range limits -> Forall logged_in_range cs -> Z.of_nat (length cs) <= max_resting ->
  (at_byte < kRecordSize * length cs)%nat -> is_u8 b -> b <> log_from 1 cs !!! at_byte ->
  fs !! path = Some (<[at_byte := b]> (log_from 1 cs)) ->
  steady script -> (kRecordSize * S (length cs) <= transfers script)%nat ->
  let before := (at_byte / kRecordSize)%nat in
  exists e ts rs r script',
    run (MatchingEngine_new limits) [] (command_of <$> take before cs) = Ok (e, ts, rs)
    /\ replay (Transfer k :: script) fs path (MatchingEngine_new limits) = Ok (e, r, script')
    /\ replay_ok r = false /\ replay_records r = Z.of_nat before
    /\ replay_error_offset r = Z.of_nat (kRecordSize * before).
Proof.
  intros Hl Hc Hn Hat Hb Hne Hfs Hs Ht before. unfold max_resting in Hn.
  pose proof (Nat.div_mod_eq at_byte kRecordSize) as Hdiv. fold before in Hdiv.
  pose proof (Nat.mod_upper_bound at_byte kRecordSize ltac:(done)) as Hmod.
  set (off := (at_byte mod kRecordSize)%nat) in *. clearbody off before.
  assert (before < length cs)%nat as Hw by (unfold kRecordSize in *; lia).
  destruct (lookup_lt_is_Some_2 cs before Hw) as [c Hcx].
  pose proof (log_split cs before c Hcx) as Hlog. set (pre := take before cs) in *.
  assert (length pre = before) as Hlw by (subst pre; rewrite length_take; lia).
  assert (Forall logged_in_range pre /\ logged_in_range c) as [Hpre Hlc].
  { split; [by apply Forall_take|by eapply Forall_lookup_1]. }
  destruct (logged_run limits pre Hl Hpre) as (e & ts & rs & Hrun); [unfold max_resting; lia|].
  pose proof (log_from_length pre 1) as Hll. rewrite Hlw in Hll.
  pose proof (record_of_length (1 + Z.of_nat before) c) as Hlr.
  assert (at_byte - length (log_from 1 pre) = off)%nat as Hoff by lia.
  rewrite Hlog, insert_app_r_alt, Hoff, insert_app_l in Hfs by lia.
  rewrite Hlog, lookup_total_app_r, Hoff, lookup_total_app_l in Hne by lia.
  destruct (stops_at_altered (1 + Z.of_nat before) c off b
    (log_from (1 + Z.of_nat before + 1) (drop (S before) cs))) as [error Hstop]; [range|done..|].
  rewrite <- Hlw in Hstop at 1.
  destruct (replay_log script fs path (MatchingEngine_new limits) pre _ _ e ts rs k Hfs Hstop Hs)
    as (r & script' & Htal & Hr & _); [lia|lia|done|done|].
  pose proof (tally_records _ _ _ _ _ Htal) as Hrec. cbn in Hrec. rewrite Hlw, u64_small in Hrec by range.
  exists e, ts, rs, (finish r (Some error)), script'. split_and!; [done|done| |exact Hrec|].
  - exact (tally_ok _ _ _ _ _ Htal).
  - cbn [finish replay_stop replay_error_offset]. rewrite Hrec.
    rewrite u64_small by (unfold kRecordSize; range). lia.
Qed.

Lemma altered_byte_detected_witness :
  exists e ts rs r script',
    run (MatchingEngine_new RiskLimits.default) [] (command_of <$> take 1 JournalScenario.commands)
    = Ok (e, ts, rs)
    /\ replay (Transfer 0 :: JournalScenario.reads)
         {[ "j"%string := <[85%nat := 200]> (log_from 1 JournalScenario.commands) ]}
         "j" (MatchingEngine_new RiskLimits.default) = Ok (e, r, script')
    /\ replay_ok r = false.
Proof.
  destruct (altered_byte_detected RiskLimits.default
    {[ "j"%string := <[85%nat := 200]> (log_from 1 JournalScenario.commands) ]} "j" JournalScenario.commands
    85 200 JournalScenario.reads 0 ltac:(evaluate) ltac:(evaluate) ltac:(unfold max_resting; cbn; lia)
    ltac:(evaluate) ltac:(range) ltac:(by vm_compute) ltac:(apply lookup_singleton_eq)
    ltac:(evaluate) ltac:(evaluate)) as (e & ts & rs & r & script' & H1 & H2 & H3 & _).
  exists e, ts, rs, r, script'. split; [exact H1|]. split; [exact H2|]. exact H3.
Defined.

(** Records round-trip.  The record of a command is 48 bytes, valid under its
    own ordinal and refused as out of order under every other, and decodes to the
    command: the same order (its sequence is not stored) or the same id. *)
Theorem record_roundtrip n c :
  is_u64 n -> logged_in_range c ->
  length (record_of n c) = kRecordSize /\ Forall is_u8 (record_of n c)
  /\ validateRecord (record_of n c) n = None
  /\ (forall n', n' <> n ->
      validateRecord (record_of n c) n' = Some "journal ordinal gap or reordering"%string)
  /\ match c with
     | LogNew order => record_of n c !!! 6%nat = kNewOrderRecord
                       /\ decodeOrder (record_of n c) = Order.with_sequence 0 order
     | LogCancel i => record_of n c !!! 6%nat = kCancelRecord /\ getU64 (record_of n c) 16 = i
     end.
Proof.
  intros Hn Hc.
  assert (getU64 (record_of n c) 8 = n) as Hord by (destruct c; field64; done).
  split; [apply record_of_length|]. split; [|split; [by apply record_of_valid|split]].
  - destruct c; apply record_bytes; [by left|done|by right|]. split; cbn; (done || range).
  - intros n' Hne. unfold validateRecord. rewrite Hord, (proj2 (Z.eqb_neq n n')) by done.
    by destruct c.
  - destruct c as [order|i]; (split; [done|]).
    + apply decode_encode; [|done]. apply Hc.
    + apply record_id; [exact Hc|by right].
Qed.

Lemma record_roundtrip_witness :
  decodeOrder (record_of 7 (LogNew (Order.with_sequence 3 (Scenario.post_only (Scenario.limit 9 SELL 12345678901 77)))))
  = Scenario.post_only (Scenario.limit 9 SELL 12345678901 77).
Proof.
  destruct (record_roundtrip 7
    (LogNew (Order.with_sequence 3 (Scenario.post_only (Scenario.limit 9 SELL 12345678901 77)))))
    as (_ & _ & _ & _ & _ & H); [range|evaluate|]. exact H.
Defined.

(** Every call succeeds. *)
Definition smooth (script : list Sys) : Prop :=
  Forall (fun c => match c with Transfer _ => True | _ => False end) script.

#[export] Instance smooth_dec script : Decision (smooth script).
Proof. apply Forall_dec. intros []; apply _. Defined.

Lemma smooth_steady script : smooth script -> steady script.
Proof. intros H. eapply Forall_impl; [exact H|]. by intros []. Qed.

Lemma reopen_log fs path cs torn c j durability script k :
  Z.of_nat (length cs) <= max_resting -> (torn < kRecordSize)%nat ->
  fs !! path = Some (log_from 1 cs ++ take torn (record_of (1 + Z.of_nat (length cs)) c)) ->
  smooth script -> (kRecordSize * S (length cs) < transfers script)%nat ->
  exists j' script',
    journal_open (Transfer k :: script) fs j path APPEND durability = Ok ((torn =? 0)%nat, j', fs, script')
    /\ j' = (if (torn =? 0)%nat then mkJournal (Some path) (Z.of_nat (length cs) + 1) durability ""
             else mkJournal None 1 durability (last_error_ j')).
Proof.
  intros Hn Htorn Hfs Hs Ht. unfold max_resting in Hn.
  set (why := if (torn =? 0)%nat then None else Some "truncated journal record"%string).
  assert (stops_at (1 + Z.of_nat (length cs)) (take torn (record_of (1 + Z.of_nat (length cs)) c)) = Some why)
    as Hstop by (by apply stops_at_torn; [apply record_of_length|]).
  set (tail := take torn (record_of _ c)) in *.
  destruct (scan_loop_log tail why cs (scan_fuel (log_from 1 cs ++ tail)) script [] zero_record 1 0)
    as (script' & Hscan & Hlater); [done| |by apply smooth_steady|lia|done|lia|lia|].
  { unfold scan_fuel. rewrite length_app, log_from_length. unfold kRecordSize. lia. }
  pose proof (later_Forall _ _ _ _ Hlater Hs) as Hs'. destruct Hlater as [_ Ht'].
  unfold journal_open, scanFile. rewrite Hfs. cbn [app length] in Hscan. rewrite Hscan.
  cbn [mbind result_bind]. rewrite Z.add_0_l. subst why. destruct (torn =? 0)%nat; cbn [scan_outcome scan_ok negb].
  - destruct script' as [|call script']; [cbn [transfers] in Ht'; lia|]. apply Forall_cons in Hs' as [Hcall _].
    destruct call as [m| |]; [|done..]. eexists _, _. split; [unfold open_file; by rewrite Hfs|].
    cbn. rewrite u64_small by range. done.
  - eexists _, _. done.
Qed.

(** Reopening continues the numbering, or refuses.  Opening an existing journal
    for append succeeds exactly when it ends on a record boundary; the next record
    then gets the ordinal after the last one.  A torn journal is refused; in both
    cases its contents are untouched. *)
Theorem reopen_continues_or_refuses fs path cs torn c j durability script k :
  Z.of_nat (length cs) <= max_resting -> (torn < kRecordSize)%nat ->
  fs !! path = Some (log_from 1 cs ++ take torn (record_of (1 + Z.of_nat (length cs)) c)) ->
  smooth script -> (kRecordSize * S (length cs) < transfers script)%nat ->
  exists j' script',
    journal_open (Transfer k :: script) fs j path APPEND durability = Ok ((torn =? 0)%nat, j', fs, script')
    /\ next_ordinal_ j' = (if (torn =? 0)%nat then Z.of_nat (length cs) + 1 else 1)
    /\ fd_ j' = (if (torn =? 0)%nat then Some path else None).
Proof.
  intros Hn Ht Hfs Hs Htr.
  destruct (reopen_log fs path cs torn c j durability script k Hn Ht Hfs Hs Htr) as (j' & script' & Ho & Hj).
  exists j', script'. split; [done|]. rewrite Hj. by destruct (torn =? 0)%nat.
Qed.

Lemma reopen_continues_or_refuses_witness :
  exists j' script',
    journal_open (Transfer 0 :: JournalScenario.reads)
      {[ "j"%string := log_from 1 JournalScenario.commands ++ take 0 (record_of 4 (LogCancel 1)) ]}
      EventJournal_new "j" APPEND BUFFERED
    = Ok (true, j', {[ "j"%string := log_from 1 JournalScenario.commands ++ take 0 (record_of 4 (LogCancel 1)) ]}, script')
    /\ next_ordinal_ j' = 4.
Proof.
  destruct (reopen_continues_or_refuses
    {[ "j"%string := log_from 1 JournalScenario.commands ++ take 0 (record_of 4 (LogCancel 1)) ]} "j"
    JournalScenario.commands 0 (LogCancel 1) EventJournal_new BUFFERED JournalScenario.reads 0)
    as (j' & script' & H1 & H2 & _);
    [unfold max_resting; cbn; lia|evaluate|apply lookup_singleton_eq|evaluate|evaluate|].
  exists j', script'. exact (conj H1 H2).
Defined.

(** C31. A failed [fdatasync] does not take the command back.  When every record is
    synced and the sync fails after the write, [append] reports failure although
    the record is complete in the file and its ordinal used: a later replay
    applies a command its producer was told was not applied. *)
Theorem refused_by_sync_still_replayed limits fs path old c j message script script3 n k :
  RiskLimits.in_range limits -> Forall logged_in_range (old ++ [c]) ->
  Z.of_nat (length (old ++ [c])) <= max_resting ->
  fd_ j = Some path -> durability_ j = FDATASYNC_EACH_RECORD ->
  next_ordinal_ j = 1 + Z.of_nat (length old) -> fs !! path = Some (log_from 1 old) ->
  (kRecordSize <= n)%nat ->
  steady script3 -> (kRecordSize * S (length (old ++ [c])) <= transfers script3)%nat ->
  exists j' fs' e ts rs r script4,
    append_logged (Transfer n :: Fail message :: script) fs j c = Ok (false, j', fs', script)
    /\ run (MatchingEngine_new limits) [] (command_of <$> (old ++ [c])) = Ok (e, ts, rs)
    /\ replay (Transfer k :: script3) fs' path (MatchingEngine_new limits) = Ok (e, r, script4).
Proof.
  intros Hl Hc Hn Hfd Hdur Hord Hfs Hw Hs Ht.
  destruct (logged_run limits (old ++ [c]) Hl Hc Hn) as (e & ts & rs & Hrun). unfold max_resting in Hn.
  set (rec := record_of (next_ordinal_ j) c). pose proof (record_of_length (next_ordinal_ j) c : length rec = _) as Hlen.
  assert (writeAll (Transfer n :: Fail message :: script) (log_from 1 old) rec 0
          = Ok (log_from 1 old ++ rec, None, Fail message :: script)) as Hwrite.
  { cbn [writeAll]. rewrite Hlen, Nat.sub_0_r, (Nat.min_r n) by done. cbn [Nat.eqb Nat.leb kRecordSize Nat.add].
    rewrite drop_0, take_ge by (rewrite Hlen; done). done. }
  exists (setError (errnoMessage "fdatasync journal" message)
            (mkJournal (fd_ j) (u64 (next_ordinal_ j + 1)) (durability_ j) (last_error_ j))),
    (<[path := log_from 1 old ++ rec]> fs), e, ts, rs.
  assert (log_from 1 old ++ rec = log_from 1 (old ++ [c])) as Elog.
  { subst rec. rewrite log_from_app, Hord. cbn [log_from]. by rewrite app_nil_r. }
  destruct (replay_log script3 (<[path := log_from 1 old ++ rec]> fs) path (MatchingEngine_new limits)
    (old ++ [c]) [] None e ts rs k) as (r & script4 & _ & Hr & _);
    [by rewrite lookup_insert_eq, Elog, app_nil_r|done|done|done|lia|done|done|].
  exists (finish r None), script4. split_and!; [|done|done].
  destruct (append_logged_record c) as (t & o & Heq & Henc).
  rewrite Heq. unfold appendRecord. rewrite Hfd, Hfs, Henc. fold rec.
  cbn [default]. unfold id. rewrite Hwrite. cbn [mbind result_bind durability_]. rewrite Hdur.
  unfold sync. cbn [fd_]. done.
Qed.

Lemma refused_by_sync_still_replayed_witness :
  exists j' fs' e ts rs r script4,
    append_logged [Transfer 48; Fail "Input/output error"] {[ "j"%string := [] ]}
      (mkJournal (Some "j"%string) 1 FDATASYNC_EACH_RECORD "") (LogNew Scenario.sweep)
    = Ok (false, j', fs', [])
    /\ run (MatchingEngine_new RiskLimits.default) [] [Submit Scenario.sweep] = Ok (e, ts, rs)
    /\ replay (Transfer 0 :: JournalScenario.reads) fs' "j" (MatchingEngine_new RiskLimits.default)
       = Ok (e, r, script4).
Proof.
  exact (refused_by_sync_still_replayed RiskLimits.default {[ "j"%string := [] ]} "j" []
    (LogNew Scenario.sweep) (mkJournal (Some "j"%string) 1 FDATASYNC_EACH_RECORD "")
    "Input/output error" [] JournalScenario.reads 48 0 ltac:(evaluate) ltac:(evaluate)
    ltac:(unfold max_resting; cbn; lia) eq_refl eq_refl eq_refl
    ltac:(apply lookup_singleton_eq) ltac:(evaluate) ltac:(evaluate) ltac:(evaluate)).
Defined.
