(* ===== verification/Spsc.v ===== *)
(** [spsc_queue.hpp]: the lock-free single-producer single-consumer ring buffer.

    The first part is the class as a sequential object.  The second is the two
    threads: every atomic access and the plain payload access is a step of its
    own, and an acquire load of the other side's counter may return a stale
    value - any value in the counter's modification order that is not older than
    what this thread read before.  Payloads are plain memory; [race_free] is the
    reason that is sound: the two threads never touch the same slot at once. *)

From S2P Require Import Prelude.

#[local] Open Scope Z_scope.

Section spsc.
(** [T] and [Capacity] are the template parameters; the class requires the
    capacity to be a power of two, and it is a [size_t]. *)
Context {T : Type} (capacity_bits : nat).
Hypothesis Hbits : (capacity_bits <= 63)%nat.

Definition Capacity : Z := 2 ^ Z.of_nat capacity_bits.

Record SPSCQueue : Type := mkSpsc { head_ : Z; tail_ : Z; buffer_ : list T }.

(** [SPSCQueue()] with [buffer_{}] filled by the value-initialised element. *)
Definition SPSCQueue_new (zero : T) : SPSCQueue := mkSpsc 0 0 (replicate (Z.to_nat Capacity) zero).

Definition index (counter : Z) : nat := Z.to_nat (Z.land counter (Capacity - 1)).

Definition try_push (q : SPSCQueue) (item : T) : bool * SPSCQueue :=
  let head := head_ q in
  let tail := tail_ q in
  if Capacity <=? u64 (head - tail) then (false, q)
  else (true, mkSpsc (u64 (head + 1)) tail (<[index head := item]> (buffer_ q))).

Definition try_pop (q : SPSCQueue) : result (option T * SPSCQueue) :=
  let tail := tail_ q in
  let head := head_ q in
  if tail =? head then Ok (None, q)
  else
    out ← defined (buffer_ q !! index tail);
    Ok (Some out, mkSpsc head (u64 (tail + 1)) (buffer_ q)).

Definition spsc_empty (q : SPSCQueue) : bool := head_ q =? tail_ q.
Definition spsc_full (q : SPSCQueue) : bool := Capacity <=? u64 (head_ q - tail_ q).
Definition spsc_size (q : SPSCQueue) : Z := u64 (head_ q - tail_ q).

(** * Counters *)

Lemma Capacity_range : 1 <= Capacity <= 2 ^ 63.
Proof.
  unfold Capacity. split; [|apply Z.pow_le_mono_r; lia].
  apply (Z.pow_le_mono_r 2 0); lia.
Qed.

(** A slot number is the counter modulo the capacity, also after wrap-around. *)
Lemma index_mod c : index (u64 c) = Z.to_nat (c mod Capacity).
Proof.
  unfold index, Capacity, u64.
  replace (2 ^ Z.of_nat capacity_bits - 1) with (Z.ones (Z.of_nat capacity_bits)) by (rewrite Z.ones_equiv; lia).
  rewrite Z.land_ones by lia. f_equal. apply Z.mod_mod_divide.
  exists (2 ^ (64 - Z.of_nat capacity_bits)). rewrite <- Z.pow_add_r by lia. f_equal. lia.
Qed.

Lemma index_lt c : (index (u64 c) < Z.to_nat Capacity)%nat.
Proof.
  rewrite index_mod. pose proof Capacity_range. pose proof (Z.mod_pos_bound c Capacity). lia.
Qed.

(** Less than a lap apart means different slots. *)
Lemma index_distinct a b : 0 <= a -> a < b -> b - a < Capacity -> index (u64 a) <> index (u64 b).
Proof.
  intros Ha Hab Hlap. rewrite !index_mod. pose proof Capacity_range as Hc.
  pose proof (Z.mod_pos_bound a Capacity ltac:(lia)). pose proof (Z.mod_pos_bound b Capacity ltac:(lia)).
  intros E%Z2Nat.inj; [|lia|lia].
  pose proof (Z.div_mod a Capacity ltac:(lia)). pose proof (Z.div_mod b Capacity ltac:(lia)).
  assert (b / Capacity - a / Capacity = 0 \/ b / Capacity - a / Capacity <= -1
          \/ b / Capacity - a / Capacity >= 1) by lia. nia.
Qed.

(** The distance of two wrapped counters that are at most a lap apart. *)
Lemma distance a b : a <= b -> b - a <= Capacity -> u64 (u64 b - u64 a) = b - a.
Proof.
  intros Hab Hlap. pose proof Capacity_range. unfold u64. rewrite <- Zminus_mod.
  apply Z.mod_small. lia.
Qed.

Lemma same_counter a b : a <= b -> b - a <= Capacity -> (u64 a =? u64 b) = bool_decide (a = b).
Proof.
  intros Hab Hlap. pose proof (distance a b Hab Hlap) as Hd. case_bool_decide as E.
  - subst. apply Z.eqb_refl.
  - apply Z.eqb_neq. intros Eq. rewrite Eq, Z.sub_diag in Hd. change (u64 0) with 0 in Hd. lia.
Qed.

(** * The sequential object is a bounded FIFO queue *)

(** The ring holds [items] after [popped] items have gone through it. *)
Record represents (q : SPSCQueue) (popped : nat) (items : list T) : Prop := {
  rep_tail : tail_ q = u64 (Z.of_nat popped);
  rep_head : head_ q = u64 (Z.of_nat (popped + length items));
  rep_room : Z.of_nat (length items) <= Capacity;
  rep_length : length (buffer_ q) = Z.to_nat Capacity;
  rep_slots : forall i x, items !! i = Some x ->
    buffer_ q !! index (u64 (Z.of_nat (popped + i))) = Some x
}.

Lemma represents_new zero : represents (SPSCQueue_new zero) 0 [].
Proof.
  pose proof Capacity_range. split; cbn; [done|done|lia|apply length_replicate|done].
Qed.

Lemma rep_size q popped items : represents q popped items -> spsc_size q = Z.of_nat (length items).
Proof.
  intros [Ht Hh Hr _ _]. unfold spsc_size. rewrite Ht, Hh, distance by lia. lia.
Qed.

Lemma rep_push q popped items item :
  represents q popped items ->
  if bool_decide (Z.of_nat (length items) = Capacity)
  then try_push q item = (false, q)
  else exists q', try_push q item = (true, q') /\ represents q' popped (items ++ [item]).
Proof.
  intros Hrep. pose proof (rep_size _ _ _ Hrep) as Hsize. destruct Hrep as [Ht Hh Hr Hl Hs].
  unfold spsc_size in Hsize. unfold try_push. rewrite Hsize. case_bool_decide as E.
  { by rewrite (proj2 (Z.leb_le _ _)) by lia. }
  rewrite (proj2 (Z.leb_gt _ _)) by lia. eexists. split; [done|]. split; cbn; [done| | | |].
  - rewrite Hh, u64_add_l, length_app. cbn. f_equal. lia.
  - rewrite length_app. cbn. lia.
  - by rewrite length_insert.
  - intros i x [Hi|[Hi Hx]]%lookup_app_Some.
    + pose proof (lookup_lt_Some _ _ _ Hi). rewrite Hh, list_lookup_insert_ne; [by apply Hs|].
      intros Eq. symmetry in Eq. revert Eq. apply index_distinct; lia.
    + apply list_lookup_singleton_Some in Hx as [Hx <-]. rewrite Hh.
      replace (popped + i)%nat with (popped + length items)%nat by lia.
      apply list_lookup_insert_eq. rewrite Hl. apply index_lt.
Qed.

Lemma rep_pop q popped items :
  represents q popped items ->
  match items with
  | [] => try_pop q = Ok (None, q)
  | x :: items' => exists q', try_pop q = Ok (Some x, q') /\ represents q' (S popped) items'
  end.
Proof.
  intros [Ht Hh Hr Hl Hs]. unfold try_pop. rewrite Ht, Hh, same_counter by lia.
  destruct items as [|x items]; cbn [length] in *.
  { by rewrite bool_decide_true by lia. }
  rewrite bool_decide_false by lia.
  assert (buffer_ q !! index (u64 (Z.of_nat popped)) = Some x) as ->.
  { rewrite <- (Nat.add_0_r popped). by apply Hs. }
  cbn. eexists. split; [done|]. split; cbn; [|f_equal; lia|lia|done|].
  - rewrite u64_add_l. f_equal. lia.
  - intros i y Hi. replace (S (popped + i)) with (popped + S i)%nat by lia. by apply Hs.
Qed.

(** * Runs of the sequential object against a plain list *)

Inductive QueueOp : Type := Push (item : T) | Pop.
Inductive QueueAnswer : Type := Pushed (ok : bool) | Popped (out : option T).

Definition ring_step (q : SPSCQueue) (op : QueueOp) : result (QueueAnswer * SPSCQueue) :=
  match op with
  | Push item => let '(ok, q) := try_push q item in Ok (Pushed ok, q)
  | Pop => '(out, q) ← try_pop q; Ok (Popped out, q)
  end.

Fixpoint ring_run (q : SPSCQueue) (ops : list QueueOp) : result (list QueueAnswer) :=
  match ops with
  | [] => Ok []
  | op :: ops => '(a, q) ← ring_step q op; answers ← ring_run q ops; Ok (a :: answers)
  end.

(** The specification: a list with at most [Capacity] elements. *)
Definition list_step (items : list T) (op : QueueOp) : QueueAnswer * list T :=
  match op with
  | Push item =>
    if Z.of_nat (length items) <? Capacity then (Pushed true, items ++ [item]) else (Pushed false, items)
  | Pop => (Popped (head items), tail items)
  end.

Fixpoint list_run (items : list T) (ops : list QueueOp) : list QueueAnswer :=
  match ops with
  | [] => []
  | op :: ops => let '(a, items) := list_step items op in a :: list_run items ops
  end.

(** The ring is a bounded FIFO queue.  For every sequence of pushes and pops,
    however long - the 64-bit counters wrap any number of times - the ring answers
    exactly as a plain list bounded by [Capacity]: no item lost, duplicated or
    reordered, a push refused only when full, a pop empty-handed only when empty,
    and no access outside the array. *)
Theorem ring_is_bounded_fifo zero ops :
  ring_run (SPSCQueue_new zero) ops = Ok (list_run [] ops).
Proof.
  pose proof (represents_new zero) as Hrep. revert Hrep.
  generalize (SPSCQueue_new zero), 0%nat, (@nil T). induction ops as [|op ops IH]; intros q n items Hrep; [done|].
  cbn [ring_run list_run]. destruct op as [item|]; cbn [ring_step list_step].
  - pose proof (rep_push _ _ _ item Hrep) as Hp. pose proof (rep_room _ _ _ Hrep). case_bool_decide as E.
    + rewrite Hp. cbn [mbind result_bind]. rewrite (proj2 (Z.ltb_ge _ _)) by lia. by rewrite (IH _ _ _ Hrep).
    + destruct Hp as (q' & -> & Hrep'). cbn [mbind result_bind]. rewrite (proj2 (Z.ltb_lt _ _)) by lia.
      by rewrite (IH _ _ _ Hrep').
  - pose proof (rep_pop _ _ _ Hrep) as Hp. destruct items as [|x items].
    + rewrite Hp. cbn [mbind result_bind]. by rewrite (IH _ _ _ Hrep).
    + destruct Hp as (q' & -> & Hrep'). cbn [mbind result_bind]. by rewrite (IH _ _ _ Hrep').
Qed.

(** * The two threads *)

Inductive ProducerPc : Type :=
| PIdle
| PLoadedHead (item : T) (head : Z)   (** after [head_.load(relaxed)] *)
| PChecked (item : T) (head : Z)      (** after [tail_.load(acquire)] and the room test *)
| PWritten (item : T) (head : Z).     (** after the payload store *)

Inductive ConsumerPc : Type :=
| CIdle
| CLoadedTail (tail : Z)
| CChecked (tail : Z)
| CRead (tail : Z) (out : T).

(** [pushed] and [popped] log the completed operations; [p_seen] and [c_seen] are
    the newest value each thread has read of the other side's counter. *)
Record Machine : Type := mkMachine {
  shared : SPSCQueue;
  producer : ProducerPc;
  consumer : ConsumerPc;
  p_seen : nat;
  c_seen : nat;
  pushed : list T;
  popped : list T
}.

Definition machine_new (zero : T) : Machine := mkMachine (SPSCQueue_new zero) PIdle CIdle 0 0 [] [].

Inductive step (m : Machine) : Machine -> Prop :=
| p_load_head item :
    producer m = PIdle ->
    step m (mkMachine (shared m) (PLoadedHead item (head_ (shared m))) (consumer m)
              (p_seen m) (c_seen m) (pushed m) (popped m))
| p_load_tail item head seen :
    producer m = PLoadedHead item head -> (p_seen m <= seen <= length (popped m))%nat ->
    step m (mkMachine (shared m)
              (if Capacity <=? u64 (head - u64 (Z.of_nat seen)) then PIdle else PChecked item head)
              (consumer m) seen (c_seen m) (pushed m) (popped m))
| p_write item head :
    producer m = PChecked item head ->
    step m (mkMachine (mkSpsc (head_ (shared m)) (tail_ (shared m))
                         (<[index head := item]> (buffer_ (shared m))))
              (PWritten item head) (consumer m) (p_seen m) (c_seen m) (pushed m) (popped m))
| p_publish item head :
    producer m = PWritten item head ->
    step m (mkMachine (mkSpsc (u64 (head + 1)) (tail_ (shared m)) (buffer_ (shared m)))
              PIdle (consumer m) (p_seen m) (c_seen m) (pushed m ++ [item]) (popped m))
| c_load_tail :
    consumer m = CIdle ->
    step m (mkMachine (shared m) (producer m) (CLoadedTail (tail_ (shared m)))
              (p_seen m) (c_seen m) (pushed m) (popped m))
| c_load_head tail seen :
    consumer m = CLoadedTail tail -> (c_seen m <= seen <= length (pushed m))%nat ->
    step m (mkMachine (shared m) (producer m)
              (if tail =? u64 (Z.of_nat seen) then CIdle else CChecked tail)
              (p_seen m) seen (pushed m) (popped m))
| c_read tail out :
    consumer m = CChecked tail -> buffer_ (shared m) !! index tail = Some out ->
    step m (mkMachine (shared m) (producer m) (CRead tail out)
              (p_seen m) (c_seen m) (pushed m) (popped m))
| c_publish tail out :
    consumer m = CRead tail out ->
    step m (mkMachine (mkSpsc (head_ (shared m)) (u64 (tail + 1)) (buffer_ (shared m)))
              (producer m) CIdle (p_seen m) (c_seen m) (pushed m) (popped m ++ [out])).

Inductive reachable (zero : T) : Machine -> Prop :=
| reachable_new : reachable zero (machine_new zero)
| reachable_step m m' : reachable zero m -> step m m' -> reachable zero m'.

Record machine_ok (m : Machine) : Prop := {
  ok_head : head_ (shared m) = u64 (Z.of_nat (length (pushed m)));
  ok_tail : tail_ (shared m) = u64 (Z.of_nat (length (popped m)));
  ok_prefix : popped m `prefix_of` pushed m;
  ok_p_seen : (p_seen m <= length (popped m))%nat;
  ok_room : Z.of_nat (length (pushed m)) <= Z.of_nat (p_seen m) + Capacity;
  ok_c_seen : (length (popped m) <= c_seen m <= length (pushed m))%nat;
  ok_buffer : length (buffer_ (shared m)) = Z.to_nat Capacity;
  ok_slots : forall i x, (length (popped m) <= i)%nat -> pushed m !! i = Some x ->
    buffer_ (shared m) !! index (u64 (Z.of_nat i)) = Some x;
  ok_producer :
    match producer m with
    | PIdle => True
    | PLoadedHead _ head => head = head_ (shared m)
    | PChecked _ head =>
      head = head_ (shared m) /\ Z.of_nat (length (pushed m)) < Z.of_nat (p_seen m) + Capacity
    | PWritten item head =>
      head = head_ (shared m) /\ Z.of_nat (length (pushed m)) < Z.of_nat (p_seen m) + Capacity
      /\ buffer_ (shared m) !! index head = Some item
    end;
  ok_consumer :
    match consumer m with
    | CIdle => True
    | CLoadedTail tail => tail = tail_ (shared m)
    | CChecked tail => tail = tail_ (shared m) /\ (length (popped m) < c_seen m)%nat
    | CRead tail out => tail = tail_ (shared m) /\ (length (popped m) < c_seen m)%nat
                        /\ pushed m !! length (popped m) = Some out
    end
}.

Lemma machine_new_ok zero : machine_ok (machine_new zero).
Proof.
  pose proof Capacity_range.
  split; cbn; [done|done|done|lia|lia|lia|apply length_replicate|by intros [] ?|done|done].
Qed.

(** The producer's steps. *)
Lemma load_tail_ok m item head seen :
  machine_ok m -> producer m = PLoadedHead item head -> (p_seen m <= seen <= length (popped m))%nat ->
  machine_ok (mkMachine (shared m)
    (if Capacity <=? u64 (head - u64 (Z.of_nat seen)) then PIdle else PChecked item head)
    (consumer m) seen (c_seen m) (pushed m) (popped m)).
Proof.
  intros [] Hp Hseen. rewrite Hp in *. split; cbn; try done; [lia|lia|].
  rewrite ok_producer0, ok_head0, distance by lia.
  destruct (Capacity <=? _) eqn:E; [done|]. split; [done|lia].
Qed.

Lemma write_ok m item head :
  machine_ok m -> producer m = PChecked item head ->
  machine_ok (mkMachine (mkSpsc (head_ (shared m)) (tail_ (shared m))
                           (<[index head := item]> (buffer_ (shared m))))
    (PWritten item head) (consumer m) (p_seen m) (c_seen m) (pushed m) (popped m)).
Proof.
  intros [] Hp. rewrite Hp in *. destruct ok_producer0 as [-> Hroom]. rewrite ok_head0.
  split; cbn; try done.
  - by rewrite length_insert.
  - intros i x Hi Hx. pose proof (lookup_lt_Some _ _ _ Hx).
    rewrite list_lookup_insert_ne; [by apply ok_slots0|].
    intros E. symmetry in E. revert E. apply index_distinct; lia.
  - split_and!; [done|lia|]. apply list_lookup_insert_eq. rewrite ok_buffer0. apply index_lt.
Qed.

Lemma publish_head_ok m item head :
  machine_ok m -> producer m = PWritten item head ->
  machine_ok (mkMachine (mkSpsc (u64 (head + 1)) (tail_ (shared m)) (buffer_ (shared m)))
    PIdle (consumer m) (p_seen m) (c_seen m) (pushed m ++ [item]) (popped m)).
Proof.
  intros [] Hp. rewrite Hp in *. destruct ok_producer0 as (-> & Hroom & Hitem). rewrite ok_head0 in *.
  split; cbn; rewrite ?length_app; cbn [length]; try done; try lia.
  - rewrite u64_add_l. f_equal. lia.
  - by apply prefix_app_r.
  - intros i x Hi [Hx|[Hlen Hx]]%lookup_app_Some; [by apply ok_slots0|].
    apply list_lookup_singleton_Some in Hx as [Hx <-].
    by replace i with (length (pushed m)) by lia.
  - destruct (consumer m) as [| | |t out]; try done. destruct ok_consumer0 as (? & ? & ?).
    split_and!; [done|done|]. by apply lookup_app_l_Some.
Qed.

(** The consumer's steps. *)
Lemma load_head_ok m tail seen :
  machine_ok m -> consumer m = CLoadedTail tail -> (c_seen m <= seen <= length (pushed m))%nat ->
  machine_ok (mkMachine (shared m) (producer m)
    (if tail =? u64 (Z.of_nat seen) then CIdle else CChecked tail) (p_seen m) seen (pushed m) (popped m)).
Proof.
  intros [] Hc Hseen. rewrite Hc in *. split; cbn; try done; [lia|].
  rewrite ok_consumer0, ok_tail0, same_counter by lia.
  case_bool_decide; [done|]. split; [done|lia].
Qed.

Lemma read_ok m tail out :
  machine_ok m -> consumer m = CChecked tail -> buffer_ (shared m) !! index tail = Some out ->
  machine_ok (mkMachine (shared m) (producer m) (CRead tail out) (p_seen m) (c_seen m) (pushed m) (popped m)).
Proof.
  intros [] Hc Hout. rewrite Hc in *. destruct ok_consumer0 as [-> Hlt]. split; cbn; try done.
  split_and!; [done|done|]. destruct (lookup_lt_is_Some_2 (pushed m) (length (popped m))) as [x Hx]; [lia|].
  rewrite ok_tail0 in Hout. pose proof (ok_slots0 _ _ (le_n _) Hx) as Hslot. congruence.
Qed.

Lemma publish_tail_ok m tail out :
  machine_ok m -> consumer m = CRead tail out ->
  machine_ok (mkMachine (mkSpsc (head_ (shared m)) (u64 (tail + 1)) (buffer_ (shared m)))
    (producer m) CIdle (p_seen m) (c_seen m) (pushed m) (popped m ++ [out])).
Proof.
  intros [] Hc. rewrite Hc in *. destruct ok_consumer0 as (-> & Hlt & Hout).
  split; cbn; rewrite ?length_app; cbn [length]; try done; try lia.
  - rewrite ok_tail0, u64_add_l. f_equal. lia.
  - destruct ok_prefix0 as [rest E]. rewrite E in Hout |- *.
    rewrite lookup_app_r, Nat.sub_diag in Hout by lia. destruct rest as [|y rest]; [done|].
    cbn in Hout. simplify_eq. exists rest. by rewrite <- app_assoc.
  - intros i x Hi. apply ok_slots0. lia.
Qed.

Lemma step_ok m m' : machine_ok m -> step m m' -> machine_ok m'.
Proof.
  intros Hm [item Hp|item head seen Hp Hs|item head Hp|item head Hp|Hc|tail seen Hc Hs|tail out Hc Ho|tail out Hc].
  - destruct Hm. by split.
  - by apply load_tail_ok.
  - by apply write_ok.
  - by apply publish_head_ok.
  - destruct Hm. by split.
  - by apply load_head_ok.
  - by apply read_ok.
  - by apply publish_tail_ok.
Qed.

Lemma reachable_ok zero m : reachable zero m -> machine_ok m.
Proof. induction 1; [apply machine_new_ok|by eapply step_ok]. Qed.

(** C32. Across threads the ring is FIFO and free of data races.  In every
    interleaving of a producer and a consumer, with stale counter reads allowed:
    what has been popped is a prefix of what has been pushed; no more than
    [Capacity] items are in flight; a consumer about to read its slot finds the
    next item of the sequence there; and the slot the producer is about to write
    is never the slot the consumer is about to read. *)
Theorem spsc_fifo_race_free zero m :
  reachable zero m ->
  popped m `prefix_of` pushed m
  /\ Z.of_nat (length (pushed m)) <= Z.of_nat (length (popped m)) + Capacity
  /\ (forall tail, consumer m = CChecked tail ->
        exists out, buffer_ (shared m) !! index tail = Some out
          /\ pushed m !! length (popped m) = Some out)
  /\ (forall item head tail, producer m = PChecked item head -> consumer m = CChecked tail ->
        index head <> index tail).
Proof.
  intros [? ? ? ? ? ? ? ? Hp Hc]%reachable_ok. split_and!; [done|lia| |].
  - intros tail E. rewrite E in Hc. destruct Hc as [-> Hlt].
    destruct (lookup_lt_is_Some_2 (pushed m) (length (popped m))) as [x Hx]; [lia|].
    exists x. split; [|done]. rewrite ok_tail0. by apply ok_slots0.
  - intros item head tail E1 E2. rewrite E1 in Hp. rewrite E2 in Hc.
    destruct Hp as [-> Hroom], Hc as [-> Hlt]. rewrite ok_head0, ok_tail0.
    intros E. symmetry in E. revert E. apply index_distinct; lia.
Qed.
End spsc.

(** A ring of two slots: filled, refused, drained past the array's end. *)
Lemma ring_is_bounded_fifo_witness :
  ring_run 1 (SPSCQueue_new 1 0) [Push 7; Push 8; Push 9; Pop; Push 9; Pop; Pop; Pop]
  = Ok [Pushed true; Pushed true; Pushed false; Popped (Some 7); Pushed true; Popped (Some 8);
        Popped (Some 9); Popped None].
Proof.
  rewrite (ring_is_bounded_fifo 1 ltac:(lia) 0
             [Push 7; Push 8; Push 9; Pop; Push 9; Pop; Pop; Pop]). reflexivity.
Defined.

(** Both threads past their checks, on different slots. *)
Definition contended : Machine :=
  mkMachine (mkSpsc 1 0 [7; 0]) (PChecked 8 1) (CChecked 0) 0 1 [7] [].

(** Take a step of a concrete run and evaluate the state it leads to. *)
Tactic Notation "take_step" ident(R) tactic(tac) :=
  eapply reachable_step in R; [|tac; first [reflexivity | cbn; lia]..]; cbv in R.

Lemma contended_reachable : reachable 1 0 contended.
Proof.
  pose proof (reachable_new 1 0) as R. cbv in R.
  take_step R (eapply (p_load_head 1 _ 7)).
  take_step R (eapply (p_load_tail 1 _ 7 0 0)).
  take_step R (eapply (p_write 1 _ 7 0)).
  take_step R (eapply (p_publish 1 _ 7 0)).
  take_step R (eapply (p_load_head 1 _ 8)).
  take_step R (eapply (p_load_tail 1 _ 8 1 0)).
  take_step R (eapply (c_load_tail 1 _)).
  take_step R (eapply (c_load_head 1 _ 0 1)).
  exact R.
Qed.

Lemma spsc_fifo_race_free_witness :
  reachable 1 0 contended /\ index 1 1 <> index 1 0.
Proof.
  split; [exact contended_reachable|].
  destruct (spsc_fifo_race_free 1 ltac:(lia) 0 contended contended_reachable) as (_ & _ & _ & H).
  exact (H 8 1 0 eq_refl eq_refl).
Defined.
