(* ===== verification/Mpmc.v ===== *)
(** [mpmc_queue.hpp]: the bounded blocking queue behind the thread pools.

    The critical sections are the operations: each runs under the mutex, so it is
    one atomic step.  The second part is the threads: sleeping in a condition
    variable, woken (also spuriously) and about to retry, and the notifications
    issued after the lock is released, which are separate steps. *)

From S2P Require Import Prelude.

#[local] Open Scope Z_scope.

Section mpmc.
Context {T : Type}.

Record MPMCQueue : Type := mkMpmc {
  buffer_ : list T;
  capacity_ : Z;
  high_watermark_ : Z;
  closed_ : bool
}.

(** The constructor throws [std::invalid_argument] on a zero capacity. *)
Definition MPMCQueue_new (capacity : Z) : option MPMCQueue :=
  if capacity =? 0 then None else Some (mkMpmc [] capacity 0 false).

Definition mpmc_size (q : MPMCQueue) : Z := Z.of_nat (length (buffer_ q)).
Definition mpmc_closed (q : MPMCQueue) : bool := closed_ q.
Definition highWatermark (q : MPMCQueue) : Z := high_watermark_ q.

Definition push_back (q : MPMCQueue) (item : T) : MPMCQueue :=
  let buffer := buffer_ q ++ [item] in
  mkMpmc buffer (capacity_ q) (Z.max (high_watermark_ q) (Z.of_nat (length buffer))) (closed_ q).

Definition pop_front (q : MPMCQueue) : MPMCQueue :=
  mkMpmc (tail (buffer_ q)) (capacity_ q) (high_watermark_ q) (closed_ q).

(** The wait predicates of [push] and [pop]. *)
Definition may_push (q : MPMCQueue) : bool := closed_ q || (mpmc_size q <? capacity_ q).
Definition may_pop (q : MPMCQueue) : bool :=
  closed_ q || negb (match buffer_ q with [] => true | _ => false end).

(** [push] under the lock: [None] when the thread waits. *)
Definition push (q : MPMCQueue) (item : T) : option (bool * MPMCQueue) :=
  if negb (may_push q) then None
  else if closed_ q then Some (false, q)
  else Some (true, push_back q item).

Definition try_push (q : MPMCQueue) (item : T) : bool * MPMCQueue :=
  if closed_ q || (capacity_ q <=? mpmc_size q) then (false, q) else (true, push_back q item).

(** [pop] under the lock: [None] when the thread waits, [Some None] when it
    returns false. *)
Definition pop (q : MPMCQueue) : option (option T * MPMCQueue) :=
  if negb (may_pop q) then None
  else Some (match buffer_ q with [] => (None, q) | x :: _ => (Some x, pop_front q) end).

Definition try_pop (q : MPMCQueue) : option T * MPMCQueue :=
  match buffer_ q with [] => (None, q) | x :: _ => (Some x, pop_front q) end.

Definition close (q : MPMCQueue) : MPMCQueue :=
  mkMpmc (buffer_ q) (capacity_ q) (high_watermark_ q) true.

(** * Invariant *)

Record mpmc_ok (q : MPMCQueue) : Prop := {
  cap_positive : 0 < capacity_ q;
  within_capacity : mpmc_size q <= capacity_ q;
  watermark_bounds : mpmc_size q <= high_watermark_ q <= capacity_ q
}.

Lemma mpmc_new_ok capacity q : 0 <= capacity -> MPMCQueue_new capacity = Some q -> mpmc_ok q.
Proof.
  unfold MPMCQueue_new. intros Hc. destruct (capacity =? 0) eqn:E; [done|]. intros [= <-].
  split; unfold mpmc_size; cbn; lia.
Qed.

Lemma push_back_ok q item : mpmc_ok q -> mpmc_size q < capacity_ q -> mpmc_ok (push_back q item).
Proof.
  intros [] Hlt. split; unfold mpmc_size in *; cbn; rewrite ?length_app; cbn; lia.
Qed.

Lemma pop_front_ok q : mpmc_ok q -> mpmc_ok (pop_front q).
Proof.
  intros []. assert (mpmc_size (pop_front q) <= mpmc_size q).
  { unfold mpmc_size. cbn. destruct (buffer_ q); cbn; lia. }
  split; cbn in *; lia.
Qed.

Lemma close_ok q : mpmc_ok q -> mpmc_ok (close q).
Proof. by intros []; split. Qed.

(** * Threads *)

(** Threads inside [push]: [push_asleep] holds what the sleepers want to push,
    [push_awake] what the woken ones (about to re-take the lock) want to push;
    [pop_asleep] and [pop_awake] count the threads inside [pop].  [to_pop] and
    [to_push] count [notify_one] calls not yet made on [not_empty_] and
    [not_full_]; [wake_poppers] and [wake_pushers] are the two [notify_all] calls
    a [close] still has to make.
    [entered] and [left] log the items in the order the lock gave them. *)
Record Threads : Type := mkThreads {
  queue : MPMCQueue;
  push_asleep : list T;
  push_awake : list T;
  pop_asleep : nat;
  pop_awake : nat;
  to_pop : nat;
  to_push : nat;
  wake_poppers : bool;
  wake_pushers : bool;
  entered : list T;
  left : list T
}.

Definition threads_new (q : MPMCQueue) : Threads := mkThreads q [] [] 0 0 0 0 false false [] [].

(** A thread runs [push] (or [try_push]) from the lock on. *)
Definition run_push (s : Threads) (item : T) (awake : list T) : Threads :=
  match push (queue s) item with
  | None => mkThreads (queue s) (item :: push_asleep s) awake (pop_asleep s) (pop_awake s)
              (to_pop s) (to_push s) (wake_poppers s) (wake_pushers s) (entered s) (left s)
  | Some (true, q) => mkThreads q (push_asleep s) awake (pop_asleep s) (pop_awake s)
              (S (to_pop s)) (to_push s) (wake_poppers s) (wake_pushers s) (entered s ++ [item]) (left s)
  | Some (false, q) => mkThreads q (push_asleep s) awake (pop_asleep s) (pop_awake s)
              (to_pop s) (to_push s) (wake_poppers s) (wake_pushers s) (entered s) (left s)
  end.

Definition run_pop (s : Threads) (awake : nat) : Threads :=
  match pop (queue s) with
  | None => mkThreads (queue s) (push_asleep s) (push_awake s) (S (pop_asleep s)) awake
              (to_pop s) (to_push s) (wake_poppers s) (wake_pushers s) (entered s) (left s)
  | Some (Some x, q) => mkThreads q (push_asleep s) (push_awake s) (pop_asleep s) awake
              (to_pop s) (S (to_push s)) (wake_poppers s) (wake_pushers s) (entered s) (left s ++ [x])
  | Some (None, q) => mkThreads q (push_asleep s) (push_awake s) (pop_asleep s) awake
              (to_pop s) (to_push s) (wake_poppers s) (wake_pushers s) (entered s) (left s)
  end.

Inductive tstep (s : Threads) : Threads -> Prop :=
| enter_push item : tstep s (run_push s item (push_awake s))
| retry_push l1 item l2 :
    push_awake s = l1 ++ item :: l2 -> tstep s (run_push s item (l1 ++ l2))
| enter_pop : tstep s (run_pop s (pop_awake s))
| retry_pop n : pop_awake s = S n -> tstep s (run_pop s n)
| spurious_push l1 item l2 :
    push_asleep s = l1 ++ item :: l2 ->
    tstep s (mkThreads (queue s) (l1 ++ l2) (item :: push_awake s) (pop_asleep s) (pop_awake s)
               (to_pop s) (to_push s) (wake_poppers s) (wake_pushers s) (entered s) (left s))
| spurious_pop n :
    pop_asleep s = S n ->
    tstep s (mkThreads (queue s) (push_asleep s) (push_awake s) n (S (pop_awake s))
               (to_pop s) (to_push s) (wake_poppers s) (wake_pushers s) (entered s) (left s))
| notify_not_empty n :
    to_pop s = S n ->
    tstep s (mkThreads (queue s) (push_asleep s) (push_awake s) (pred (pop_asleep s))
               (if (pop_asleep s =? 0)%nat then pop_awake s else S (pop_awake s))
               n (to_push s) (wake_poppers s) (wake_pushers s) (entered s) (left s))
| notify_not_full_one n l1 item l2 :
    to_push s = S n -> push_asleep s = l1 ++ item :: l2 ->
    tstep s (mkThreads (queue s) (l1 ++ l2) (item :: push_awake s) (pop_asleep s) (pop_awake s)
               (to_pop s) n (wake_poppers s) (wake_pushers s) (entered s) (left s))
| notify_not_full_none n :
    to_push s = S n -> push_asleep s = [] ->
    tstep s (mkThreads (queue s) [] (push_awake s) (pop_asleep s) (pop_awake s)
               (to_pop s) n (wake_poppers s) (wake_pushers s) (entered s) (left s))
| close_queue :
    tstep s (mkThreads (close (queue s)) (push_asleep s) (push_awake s) (pop_asleep s) (pop_awake s)
               (to_pop s) (to_push s) true true (entered s) (left s))
| notify_all_not_empty :
    wake_poppers s = true ->
    tstep s (mkThreads (queue s) (push_asleep s) (push_awake s) 0 (pop_asleep s + pop_awake s)
               (to_pop s) (to_push s) false (wake_pushers s) (entered s) (left s))
| notify_all_not_full :
    wake_pushers s = true ->
    tstep s (mkThreads (queue s) [] (push_asleep s ++ push_awake s) (pop_asleep s) (pop_awake s)
               (to_pop s) (to_push s) (wake_poppers s) false (entered s) (left s)).

Inductive treachable (q : MPMCQueue) : Threads -> Prop :=
| treachable_new : treachable q (threads_new q)
| treachable_step s s' : treachable q s -> tstep s s' -> treachable q s'.

(** The non-blocking calls are the blocking ones when those would not wait. *)
Lemma try_push_spec q item :
  try_push q item
  = match push q item with Some (ok, q') => (ok, q') | None => (false, q) end.
Proof.
  unfold try_push, push, may_push. destruct (closed_ q) eqn:E; cbn [orb negb]; [done|].
  destruct (Z.ltb_spec (mpmc_size q) (capacity_ q)), (Z.leb_spec (capacity_ q) (mpmc_size q)); (done || lia).
Qed.

Lemma try_pop_spec q : try_pop q = match pop q with Some r => r | None => (None, q) end.
Proof.
  unfold try_pop, pop, may_pop. destruct (buffer_ q) as [|x l]; cbn; [|by rewrite orb_true_r].
  by destruct (closed_ q).
Qed.

Record threads_ok (s : Threads) : Prop := {
  th_queue : mpmc_ok (queue s);
  th_fifo : entered s = left s ++ buffer_ (queue s);
  th_pop_closed : (0 < pop_asleep s)%nat -> closed_ (queue s) = true -> wake_poppers s = true;
  th_pop_open : (0 < pop_asleep s)%nat -> closed_ (queue s) = false ->
    mpmc_size (queue s) <= Z.of_nat (pop_awake s + to_pop s);
  th_push_closed : push_asleep s <> [] -> closed_ (queue s) = true -> wake_pushers s = true;
  th_push_open : push_asleep s <> [] -> closed_ (queue s) = false ->
    capacity_ (queue s) - mpmc_size (queue s) <= Z.of_nat (length (push_awake s) + to_push s)
}.

Lemma push_cases q item :
  match push q item with
  | None => closed_ q = false /\ capacity_ q <= mpmc_size q
  | Some (true, q') => closed_ q = false /\ mpmc_size q < capacity_ q /\ q' = push_back q item
  | Some (false, q') => closed_ q = true /\ q' = q
  end.
Proof.
  unfold push, may_push. destruct (closed_ q); cbn; [done|].
  destruct (Z.ltb_spec (mpmc_size q) (capacity_ q)); cbn; split_and!; (done || lia).
Qed.

Lemma pop_cases q :
  match pop q with
  | None => closed_ q = false /\ buffer_ q = []
  | Some (Some x, q') => (exists rest, buffer_ q = x :: rest) /\ q' = pop_front q
  | Some (None, q') => closed_ q = true /\ buffer_ q = [] /\ q' = q
  end.
Proof.
  unfold pop, may_pop. destruct (buffer_ q) as [|x l]; cbn; [|rewrite orb_true_r; cbn; split; [by exists l|done]].
  by destruct (closed_ q).
Qed.

Lemma push_back_size q item : mpmc_size (push_back q item) = mpmc_size q + 1.
Proof. unfold mpmc_size. cbn. rewrite length_app. cbn. lia. Qed.

Lemma run_push_ok s item awake :
  threads_ok s -> (length (push_awake s) <= S (length awake))%nat -> threads_ok (run_push s item awake).
Proof.
  intros [] Ha. unfold run_push. pose proof (push_cases (queue s) item) as Hp.
  destruct (push _ _) as [[[] q]|].
  - destruct Hp as (Hopen & Hlt & ->). split; cbn [queue entered left pop_asleep pop_awake to_pop to_push
      wake_poppers wake_pushers push_asleep push_awake]; rewrite ?push_back_size; try done.
    + by apply push_back_ok.
    + by rewrite th_fifo0, <- app_assoc.
    + intros H1 H2. specialize (th_pop_open0 H1 Hopen). lia.
    + intros H1 H2. specialize (th_push_open0 H1 Hopen). cbn [capacity_ push_back]. lia.
  - destruct Hp as (Hclosed & ->). split; cbn; try done; congruence.
  - destruct Hp as (Hopen & Hge). split; cbn; try done; [congruence|lia].
Qed.

Lemma run_pop_ok s awake :
  threads_ok s -> (pop_awake s <= S awake)%nat -> threads_ok (run_pop s awake).
Proof.
  intros [] Ha. unfold run_pop. pose proof (pop_cases (queue s)) as Hp.
  destruct (pop _) as [[[x|] q]|].
  - destruct Hp as ([rest Hb] & ->).
    assert (mpmc_size (pop_front (queue s)) = mpmc_size (queue s) - 1) as Hsize.
    { unfold mpmc_size. cbn. rewrite Hb. cbn. lia. }
    split; cbn [queue entered left pop_asleep pop_awake to_pop to_push
      wake_poppers wake_pushers push_asleep push_awake]; rewrite ?Hsize; try done.
    + by apply pop_front_ok.
    + rewrite th_fifo0, <- app_assoc. cbn. by rewrite Hb.
    + intros H1 H2. specialize (th_pop_open0 H1 H2). lia.
    + intros H1 H2. specialize (th_push_open0 H1 H2). cbn [capacity_ pop_front]. lia.
  - destruct Hp as (Hclosed & Hb & ->). split; cbn; try done; congruence.
  - destruct Hp as (Hopen & Hb). split; cbn; try done; [congruence|].
    intros _ _. unfold mpmc_size. rewrite Hb. cbn. lia.
Qed.

Lemma asleep_nonempty (l1 l2 : list T) item : l1 ++ item :: l2 <> [].
Proof. by destruct l1. Qed.

Lemma tstep_ok s s' : threads_ok s -> tstep s s' -> threads_ok s'.
Proof.
  intros Hok [item|l1 item l2 E| |n E|l1 item l2 E|n E|n E|n l1 item l2 E E'|n E E'| |E|E].
  - by apply run_push_ok; [|lia].
  - apply run_push_ok; [done|]. rewrite E, !length_app. cbn. lia.
  - by apply run_pop_ok; [|lia].
  - by apply run_pop_ok; [|lia].
  - pose proof (asleep_nonempty l1 l2 item). destruct Hok. rewrite E in *. split; cbn; try done; try lia.
    + intros _. by apply th_push_closed0.
    + intros _ H2. specialize (th_push_open0 H H2). lia.
  - destruct Hok. rewrite E in *. split; cbn; try done; try lia.
    + intros _. apply th_pop_closed0. lia.
    + intros _ H2. specialize (th_pop_open0 ltac:(lia) H2). lia.
  - destruct Hok. split; cbn; try done.
    + intros H1. apply th_pop_closed0. lia.
    + intros H1 H2. specialize (th_pop_open0 ltac:(lia) H2).
      rewrite (proj2 (Nat.eqb_neq _ 0)) by lia. lia.
  - pose proof (asleep_nonempty l1 l2 item). destruct Hok. rewrite E' in *. split; cbn; try done; try lia.
    + intros _. by apply th_push_closed0.
    + intros _ H2. specialize (th_push_open0 H H2). lia.
  - destruct Hok. by split; cbn.
  - destruct Hok. by split; cbn; [apply close_ok|..].
  - destruct Hok. split; cbn; try done; lia.
  - destruct Hok. by split; cbn.
Qed.

Lemma treachable_ok q s : mpmc_ok q -> buffer_ q = [] -> treachable q s -> threads_ok s.
Proof.
  intros Hq Hb. induction 1; [|by eapply tstep_ok]. split; cbn; try done; try lia.
Qed.

(** The queue is a bounded FIFO across any number of threads.  In every
    interleaving of pushes, pops, closes and (spurious) wake-ups, items leave in
    the order they entered, each exactly once; the queue never exceeds its
    capacity and the high watermark bounds it; once closed, nothing enters. *)
Theorem mpmc_fifo_bounded capacity q s :
  0 <= capacity -> MPMCQueue_new capacity = Some q -> treachable q s ->
  entered s = left s ++ buffer_ (queue s)
  /\ mpmc_size (queue s) <= capacity_ (queue s)
  /\ mpmc_size (queue s) <= highWatermark (queue s) <= capacity_ (queue s)
  /\ (closed_ (queue s) = true -> forall s', tstep s s' ->
        closed_ (queue s') = true /\ entered s' = entered s).
Proof.
  intros Hc Hn Hr. assert (buffer_ q = []) as Hb.
  { unfold MPMCQueue_new in Hn. case_match; [done|]. by injection Hn as <-. }
  destruct (treachable_ok q s (mpmc_new_ok _ _ Hc Hn) Hb Hr) as [[] ? _ _ _ _].
  unfold highWatermark. split_and!; [done|done|lia|lia|]. intros Hclosed s' Hstep.
  assert (forall item awake, closed_ (queue (run_push s item awake)) = true
            /\ entered (run_push s item awake) = entered s) as Hpush.
  { intros item awake. unfold run_push. pose proof (push_cases (queue s) item) as Hp.
    destruct (push _ _) as [[[] q']|]; cbn; [destruct Hp; congruence|by destruct Hp as [_ ->]|done]. }
  assert (forall awake, closed_ (queue (run_pop s awake)) = true
            /\ entered (run_pop s awake) = entered s) as Hpop.
  { intros awake. unfold run_pop. pose proof (pop_cases (queue s)) as Hp.
    destruct (pop _) as [[[] q']|]; cbn; [by destruct Hp as [_ ->]|by destruct Hp as (_ & _ & ->)|done]. }
  by destruct Hstep; cbn; auto.
Qed.

(** C33. No wake-up is lost.  Although [notify_one] is called after the lock is
    released, whenever no notification is outstanding and no woken thread is still
    to retry, every thread asleep in [pop] or [push] is right to sleep: its
    predicate is false. *)
Theorem mpmc_no_lost_wakeup capacity q s :
  0 <= capacity -> MPMCQueue_new capacity = Some q -> treachable q s ->
  (pop_awake s = 0%nat -> to_pop s = 0%nat -> wake_poppers s = false ->
   (0 < pop_asleep s)%nat -> may_pop (queue s) = false)
  /\ (push_awake s = [] -> to_push s = 0%nat -> wake_pushers s = false ->
      push_asleep s <> [] -> may_push (queue s) = false).
Proof.
  intros Hc Hn Hr. assert (buffer_ q = []) as Hb.
  { unfold MPMCQueue_new in Hn. case_match; [done|]. by injection Hn as <-. }
  destruct (treachable_ok q s (mpmc_new_ok _ _ Hc Hn) Hb Hr) as [_ _ H1 H2 H3 H4].
  split.
  - intros Ea Et Ew Hs. unfold may_pop. destruct (closed_ (queue s)); [by rewrite H1 in Ew|].
    specialize (H2 Hs eq_refl). rewrite Ea, Et in H2. unfold mpmc_size in H2.
    destruct (buffer_ (queue s)); [done|cbn in H2; lia].
  - intros Ea Et Ew Hs. unfold may_push. destruct (closed_ (queue s)); [by rewrite H3 in Ew|].
    specialize (H4 Hs eq_refl). rewrite Ea, Et in H4. cbn in *. apply Z.ltb_ge. lia.
Qed.
End mpmc.

(** One slot: a second producer and a consumer after it has drained both sleep. *)
Definition parked : Threads :=
  mkThreads (mkMpmc [1] 1 1 false) [2] [] 0 0 0 0 false false [1] [].

Lemma parked_reachable : treachable (mkMpmc [] 1 0 false) parked.
Proof.
  pose proof (treachable_new (mkMpmc (T := Z) [] 1 0 false)) as R.
  eapply treachable_step in R; [|apply (enter_push _ 1)]. cbv in R.
  eapply treachable_step in R; [|apply (enter_push _ 2)]. cbv in R.
  eapply treachable_step in R; [|apply (notify_not_empty _ 0); reflexivity]. cbv in R.
  exact R.
Qed.

Lemma mpmc_fifo_bounded_witness :
  treachable (mkMpmc [] 1 0 false) parked /\ entered parked = left parked ++ buffer_ (queue parked).
Proof.
  split; [exact parked_reachable|].
  exact (proj1 (mpmc_fifo_bounded 1 (mkMpmc [] 1 0 false) parked ltac:(lia) eq_refl parked_reachable)).
Defined.

Lemma mpmc_no_lost_wakeup_witness : push_asleep parked = [2] /\ may_push (queue parked) = false.
Proof.
  split; [reflexivity|].
  apply (mpmc_no_lost_wakeup 1 (mkMpmc [] 1 0 false) parked ltac:(lia) eq_refl parked_reachable);
    reflexivity || discriminate.
Defined.
