(* ===== verification/Symbols.v ===== *)
(** [symbol.hpp] and [trade_log.hpp]: instrument codes, their hash, and the
    bounded per-symbol trade history. *)

From S2P Require Import Prelude.
From S2P Require Import OrderTypes.

#[local] Open Scope Z_scope.

Definition kMaxLen : nat := 8.

(** [char data[kMaxLen + 1]], as unsigned bytes. *)
Record Symbol : Type := mkSymbol { data : list Z }.

#[export] Instance symbol_eq_dec : EqDecision Symbol.
Proof. solve_decision. Defined.
#[export] Instance symbol_countable : Countable Symbol.
Proof. apply (inj_countable' data mkSymbol). by intros []. Defined.

(** The characters of a C string before its terminator. *)
Fixpoint c_string (s : list Z) : list Z :=
  match s with
  | [] => []
  | c :: s => if c =? 0 then [] else c :: c_string s
  end.

(** [strncpy(data, s, kMaxLen)]: at most [kMaxLen] characters, zero padded. *)
Definition strncpy8 (s : list Z) : list Z :=
  let copied := take kMaxLen (c_string s) in
  copied ++ replicate (kMaxLen - length copied) 0.

(** [Symbol(const char* s)]; [None] is the null pointer. *)
Definition symbol_of (s : option (list Z)) : Symbol :=
  match s with
  | None => mkSymbol (replicate (S kMaxLen) 0)
  | Some s => mkSymbol (strncpy8 s ++ [0])
  end.

(** [operator==]: [memcmp] over the first [kMaxLen] bytes. *)
Definition symbol_eqb (a b : Symbol) : bool :=
  bool_decide (take kMaxLen (data a) = take kMaxLen (data b)).

(** FNV-1a over the fixed-width buffer. *)
Definition hash (s : Symbol) : Z :=
  foldl (fun h c => u64 (Z.lxor h c * 1099511628211)) 1469598103934665603 (take kMaxLen (data s)).

Record SymbolOrder : Type := mkSymbolOrder { so_symbol : Symbol; so_order : Order.t }.

(** * Facts *)

(** What the constructors produce. *)
Record symbol_ok (s : Symbol) : Prop := {
  sym_length : length (data s) = S kMaxLen;
  sym_terminated : data s !! kMaxLen = Some 0
}.

Lemma symbol_of_ok s : symbol_ok (symbol_of s).
Proof.
  destruct s as [s|]; [|done].
  assert (length (strncpy8 s) = kMaxLen) as Hl.
  { unfold strncpy8. rewrite length_app, length_replicate. pose proof (length_take_le (c_string s) kMaxLen).
    rewrite length_take in *. lia. }
  split; cbn [data symbol_of]; [rewrite length_app, Hl; done|].
  rewrite lookup_app_r by (rewrite Hl; done). by rewrite Hl.
Qed.

(** The comparison of the hash map's keys is equality of symbols. *)
Lemma symbol_eqb_eq a b : symbol_ok a -> symbol_ok b -> symbol_eqb a b = true <-> a = b.
Proof.
  intros [Ha Ha'] [Hb Hb']. unfold symbol_eqb. rewrite bool_decide_eq_true. split; [|by intros ->].
  intros E. destruct a as [a], b as [b]. cbn [data] in *. f_equal.
  rewrite <- (take_drop kMaxLen a), <- (take_drop kMaxLen b), E. f_equal.
  rewrite (drop_S _ _ _ Ha'), (drop_S _ _ _ Hb'), !drop_ge by lia. done.
Qed.

Lemma hash_range s : symbol_ok s -> is_u64 (hash s).
Proof.
  intros [Hl _]. unfold hash. destruct (data s) as [|c l] eqn:E; [done|]. cbn [take kMaxLen].
  generalize (take 7 l). intros rest.
  assert (forall l h, is_u64 h -> is_u64 (foldl (fun h c => u64 (Z.lxor h c * 1099511628211)) h l)) as Hf.
  { clear. induction l as [|x l IH]; intros h Hh; cbn; [done|]. apply IH, u64_range. }
  apply (Hf (c :: rest)). range.
Qed.

(** * [TradeLog] *)

Record TradeLog : Type := mkTradeLog { max_per_symbol_ : Z; by_symbol_ : gmap Symbol (list Trade.t) }.

Definition TradeLog_new (max_per_symbol : Z) : TradeLog := mkTradeLog max_per_symbol ∅.

Definition log_record (log : TradeLog) (symbol : Symbol) (trade : Trade.t) : TradeLog :=
  let dq := default [] (by_symbol_ log !! symbol) ++ [trade] in
  let dq := if max_per_symbol_ log <? Z.of_nat (length dq) then tail dq else dq in
  mkTradeLog (max_per_symbol_ log) (<[symbol := dq]> (by_symbol_ log)).

Definition recent (log : TradeLog) (symbol : Symbol) (count : Z) : list Trade.t :=
  match by_symbol_ log !! symbol with
  | None => []
  | Some dq =>
    let n := Z.min count (Z.of_nat (length dq)) in
    drop (Z.to_nat (Z.of_nat (length dq) - n)) dq
  end.

Definition log_count (log : TradeLog) (symbol : Symbol) : Z :=
  match by_symbol_ log !! symbol with None => 0 | Some dq => Z.of_nat (length dq) end.

(** The last [n] elements. *)
Definition last_n {A} (n : nat) (l : list A) : list A := drop (length l - n) l.

Lemma last_n_snoc {A} n (l : list A) x : (0 < n)%nat -> last_n n (l ++ [x]) = last_n (pred n) l ++ [x].
Proof.
  intros Hn. unfold last_n. rewrite length_app. cbn.
  rewrite drop_app_le by lia. do 2 f_equal. lia.
Qed.

Lemma last_n_length {A} n (l : list A) : length (last_n n l) = Nat.min n (length l).
Proof. unfold last_n. rewrite length_drop. lia. Qed.

Lemma last_n_twice {A} n m (l : list A) : last_n n (last_n m l) = last_n (Nat.min n m) l.
Proof.
  unfold last_n. rewrite drop_drop, length_drop. f_equal. lia.
Qed.

Lemma tail_last_n {A} n (l : list A) x :
  (n <= length l)%nat -> tail (last_n n l ++ [x]) = last_n n (l ++ [x]).
Proof.
  intros Hn. unfold last_n. rewrite length_app. cbn.
  destruct n as [|n].
  - rewrite Nat.sub_0_r, drop_all. cbn. rewrite drop_ge; [done|]. rewrite length_app. cbn. lia.
  - assert (length (drop (length l - S n) l) = S n) as Hl by (rewrite length_drop; lia).
    destruct (drop (length l - S n) l) as [|y rest] eqn:E; [done|]. cbn.
    replace (length l + 1 - S n)%nat with (S (length l - S n)) by lia.
    rewrite drop_app_le by lia. replace (S (length l - S n)) with (length l - S n + 1)%nat by lia.
    by rewrite <- drop_drop, E.
Qed.

(** The trade log keeps the latest trades of each symbol.  After any sequence
    of recordings, [recent] returns the last trades recorded for that symbol, in
    order: as many as asked for, at most [max_per_symbol] and at most those there
    are; other symbols' trades do not matter. *)
Theorem trade_log_keeps_latest (max n : nat) (events : list (Symbol * Trade.t)) symbol :
  let log := foldl (fun log ev => log_record log ev.1 ev.2) (TradeLog_new (Z.of_nat max)) events in
  let mine := (filter (fun ev => ev.1 = symbol) events).*2 in
  recent log symbol (Z.of_nat n) = last_n (Nat.min n max) mine
  /\ log_count log symbol = Z.of_nat (Nat.min max (length mine)).
Proof.
  assert (forall evs, max_per_symbol_ (foldl (fun log ev => log_record log ev.1 ev.2)
            (TradeLog_new (Z.of_nat max)) evs) = Z.of_nat max
          /\ default [] (by_symbol_ (foldl (fun log ev => log_record log ev.1 ev.2)
               (TradeLog_new (Z.of_nat max)) evs) !! symbol)
             = last_n max (filter (fun ev => ev.1 = symbol) evs).*2) as Hinv.
  { intros evs. induction evs as [|[s t] evs [IHm IHd]] using rev_ind; [done|].
    rewrite foldl_app. cbn [foldl fst snd]. set (log := foldl _ _ evs) in *. split; [done|].
    rewrite filter_app, fmap_app. cbn [log_record by_symbol_].
    destruct (decide (s = symbol)) as [->|Hne].
    - rewrite lookup_insert_eq, filter_cons_True by done. cbn [default from_option id].
      cbn [filter fmap list_fmap snd]. rewrite IHd, IHm, length_app, last_n_length. cbn [length].
      set (mine := (filter _ evs).*2). change (list_filter _ _ []) with (@nil (Symbol * Trade.t)).
      destruct (Z.ltb_spec (Z.of_nat max) (Z.of_nat (Nat.min max (length mine) + 1))).
      + apply tail_last_n. lia.
      + unfold last_n. rewrite length_app. cbn. rewrite drop_app_le by lia.
        by replace (length mine + 1 - max)%nat with (length mine - max)%nat by lia.
    - rewrite lookup_insert_ne, filter_cons_False by done. by rewrite app_nil_r. }
  intros log mine. destruct (Hinv events) as [_ Hd]. fold log mine in Hd. unfold recent, log_count.
  destruct (by_symbol_ log !! symbol) as [dq|]; cbn in Hd.
  - pose proof (last_n_length max mine) as Hlen. rewrite <- last_n_twice, <- Hd in *.
    split; [|by rewrite Hlen]. unfold last_n. f_equal. lia.
  - assert (Nat.min max (length mine) = 0)%nat as E by (rewrite <- (last_n_length max mine), <- Hd; done).
    split; [|by rewrite E]. rewrite <- last_n_twice, <- Hd. by unfold last_n.
Qed.
