(* ===== verification/LatencyHistogram.v ===== *)
(** [latency_histogram.hpp]: power-of-two latency buckets.

    The atomics are updated one by one; the model is the state after whole
    [record] calls (each compare-exchange loop leaves the smaller, respectively
    larger, of the two values).  [HistogramThreads] has the single atomic operations. *)

From S2P Require Import Prelude.
From S2P Require Import Doubles.

#[local] Open Scope Z_scope.

Definition kBucketCount : nat := 64.

Record LatencyHistogram : Type := mkHistogram {
  buckets_ : list Z;
  count_ : Z;
  total_ns_ : Z;
  min_ns_ : Z;
  max_ns_ : Z
}.

Definition LatencyHistogram_new : LatencyHistogram :=
  mkHistogram (replicate kBucketCount 0) 0 0 UINT64_MAX 0.

(** [std::bit_width]. *)
Definition bit_width (value : Z) : Z := if value =? 0 then 0 else Z.log2 value + 1.

Definition bucketFor (value : Z) : nat :=
  if value <=? 1 then 0%nat
  else
    let width := bit_width (value - 1) in
    if Z.of_nat kBucketCount <=? width then (kBucketCount - 1)%nat else Z.to_nat width.

Definition bucketUpperBound (bucket : nat) : Z :=
  if (63 <=? bucket)%nat then UINT64_MAX else Z.shiftl 1 (Z.of_nat bucket).

Definition histogram_record (h : LatencyHistogram) (nanoseconds : Z) : LatencyHistogram :=
  mkHistogram (alter (fun n => u64 (n + 1)) (bucketFor nanoseconds) (buckets_ h))
    (u64 (count_ h + 1)) (u64 (total_ns_ h + nanoseconds))
    (if nanoseconds <? min_ns_ h then nanoseconds else min_ns_ h)
    (if max_ns_ h <? nanoseconds then nanoseconds else max_ns_ h).

(** The loop of [percentileUpperBound] from bucket [i] on. *)
Fixpoint percentile_scan (buckets : list Z) (i : nat) (cumulative rank max_ns : Z) : Z :=
  match buckets with
  | [] => max_ns
  | n :: buckets =>
    let cumulative := u64 (cumulative + n) in
    if rank <=? cumulative then bucketUpperBound i
    else percentile_scan buckets (S i) cumulative rank max_ns
  end.

(** The bound for a rank. *)
Definition ranked (h : LatencyHistogram) (rank : Z) : Z :=
  percentile_scan (buckets_ h) 0 0 (if rank =? 0 then 1 else rank) (max_ns_ h).

Definition percentileUpperBound (h : LatencyHistogram) (percentile : double) (count : Z) : result Z :=
  rank ← defined (ceil (double_mul percentile (double_of count 0)));
  if bool_decide (is_u64 rank) then Ok (ranked h rank) else Fault UndefinedBehaviour.

Record LatencySnapshot : Type := mkLatency {
  lat_count : Z; lat_min_ns : Z; lat_mean : double; lat_p50_ns : Z; lat_p95_ns : Z; lat_p99_ns : Z;
  lat_p999_ns : Z; lat_max_ns : Z
}.

Definition histogram_snapshot (h : LatencyHistogram) : result LatencySnapshot :=
  if count_ h =? 0 then Ok (mkLatency 0 0 (double_of 0 0) 0 0 0 0 0)
  else
    p50 ← percentileUpperBound h (double_literal 50 100) (count_ h);
    p95 ← percentileUpperBound h (double_literal 95 100) (count_ h);
    p99 ← percentileUpperBound h (double_literal 99 100) (count_ h);
    p999 ← percentileUpperBound h (double_literal 999 1000) (count_ h);
    Ok (mkLatency (count_ h) (min_ns_ h) (double_div (double_of (total_ns_ h) 0) (double_of (count_ h) 0))
          p50 p95 p99 p999 (max_ns_ h)).

(** * Buckets *)

Lemma bucketFor_range x : is_u64 x -> (bucketFor x < kBucketCount)%nat.
Proof.
  intros Hx. unfold bucketFor. destruct (x <=? 1); [unfold kBucketCount; lia|].
  cbv zeta. destruct (Z.leb_spec (Z.of_nat kBucketCount) (bit_width (x - 1))); unfold kBucketCount in *; lia.
Qed.

(** Up to bucket [i] are exactly the samples of at most [2^i] nanoseconds. *)
Lemma bucketFor_le x i :
  is_u64 x -> (i < 63)%nat -> (bucketFor x <= i)%nat <-> x <= bucketUpperBound i.
Proof.
  intros Hx Hi. unfold bucketFor, bucketUpperBound.
  rewrite (proj2 (Nat.leb_gt 63 i)), Z.shiftl_1_l by lia.
  assert (1 <= 2 ^ Z.of_nat i) as Hp by (apply (Z.pow_le_mono_r 2 0); lia).
  destruct (Z.leb_spec x 1); [lia|]. unfold bit_width. rewrite (proj2 (Z.eqb_neq _ 0)) by lia.
  pose proof (Z.log2_nonneg (x - 1)) as H0.
  pose proof (Z.log2_lt_pow2 (x - 1) (Z.of_nat i) ltac:(lia)) as Hlog.
  destruct (Z.leb_spec (Z.of_nat kBucketCount) (Z.log2 (x - 1) + 1)); unfold kBucketCount in *; lia.
Qed.

(** * Recording a list of samples *)

Definition record_all (xs : list Z) : LatencyHistogram := foldl histogram_record LatencyHistogram_new xs.

Definition count_le (bound : Z) (xs : list Z) : Z := Z.of_nat (length (filter (fun x => x <= bound) xs)).

Lemma record_all_snoc xs x : record_all (xs ++ [x]) = histogram_record (record_all xs) x.
Proof. unfold record_all. by rewrite foldl_app. Qed.

Lemma record_all_buckets xs i :
  Forall is_u64 xs -> Z.of_nat (length xs) < 2 ^ 64 -> (i < kBucketCount)%nat ->
  buckets_ (record_all xs) !! i = Some (Z.of_nat (length (filter (fun x => bucketFor x = i) xs))).
Proof.
  induction xs as [|x xs IH] using rev_ind; intros Hx Hn Hi.
  { change (replicate kBucketCount 0 !! i = Some 0). by apply lookup_replicate_2. }
  rewrite record_all_snoc. apply Forall_app in Hx as [Hxs Hx]. rewrite length_app in Hn. cbn in Hn.
  rewrite filter_app, length_app. cbn [buckets_ histogram_record].
  pose proof (length_filter (fun x => bucketFor x = i) xs). destruct (decide (bucketFor x = i)) as [<-|Hne].
  - rewrite list_lookup_alter_eq, IH, filter_cons_True by (done || lia). cbn. f_equal. rewrite u64_small; [lia|range].
  - rewrite list_lookup_alter_ne, IH, filter_cons_False by (done || lia). cbn. f_equal. lia.
Qed.

(** The scan stops at the first bucket that covers the rank. *)
Lemma percentile_scan_spec xs rank max_ns : forall k i,
  Forall is_u64 xs -> Z.of_nat (length xs) < 2 ^ 64 -> (i + k = kBucketCount)%nat -> 1 <= rank ->
  Z.of_nat (length (filter (fun x => (bucketFor x < i)%nat) xs)) < rank <= Z.of_nat (length xs) ->
  exists j, (i <= j < kBucketCount)%nat
    /\ percentile_scan (drop i (buckets_ (record_all xs))) i
         (Z.of_nat (length (filter (fun x => (bucketFor x < i)%nat) xs))) rank max_ns
       = bucketUpperBound j
    /\ Z.of_nat (length (filter (fun x => (bucketFor x < j)%nat) xs)) < rank
       <= Z.of_nat (length (filter (fun x => (bucketFor x < S j)%nat) xs)).
Proof.
  induction k as [|k IH]; intros i Hx Hn Hik Hr [Hlo Hhi].
  { exfalso. assert (filter (fun x => (bucketFor x < i)%nat) xs = xs) as E; [|rewrite E in Hlo; lia].
    apply filter_all. eapply Forall_impl; [exact Hx|]. intros x Hxx. pose proof (bucketFor_range x Hxx). lia. }
  assert (i < kBucketCount)%nat as Hi by lia.
  rewrite (drop_S _ _ _ (record_all_buckets xs i Hx Hn Hi)). cbn [percentile_scan].
  assert (length (filter (fun x => (bucketFor x < S i)%nat) xs)
          = length (filter (fun x => (bucketFor x < i)%nat) xs)
            + length (filter (fun x => bucketFor x = i) xs))%nat as Hsplit.
  { clear. induction xs as [|x xs IH]; [done|]. rewrite !filter_cons.
    repeat case_decide; cbn [length]; lia. }
  pose proof (length_filter (fun x => (bucketFor x < S i)%nat) xs).
  rewrite u64_small by range. rewrite <- Nat2Z.inj_add, <- Hsplit.
  destruct (Z.leb_spec rank (Z.of_nat (length (filter (fun x => (bucketFor x < S i)%nat) xs)))) as [Hle|Hgt].
  - exists i. split_and!; [lia|lia|done|done|done].
  - destruct (IH (S i) Hx Hn ltac:(lia) Hr ltac:(lia)) as (j & Hj & E & Hb). exists j.
    split_and!; [lia|lia|done|lia|lia].
Qed.

(** For a rank among the recorded samples the bound is at least the sample of that
    rank - enough samples lie at or below it - and, below the top bucket, less than
    twice it: fewer samples than the rank lie at or below half of it. *)
Lemma ranked_within_factor_two xs rank :
  Forall is_u64 xs -> Z.of_nat (length xs) < 2 ^ 64 -> 1 <= rank <= Z.of_nat (length xs) ->
  let bound := ranked (record_all xs) rank in
  rank <= count_le bound xs
  /\ (bound < 2 ^ 63 -> 1 < bound -> count_le (bound / 2) xs < rank).
Proof.
  intros Hx Hn Hr bound. subst bound. unfold ranked.
  rewrite (proj2 (Z.eqb_neq rank 0)) by lia.
  assert (filter (fun x => (bucketFor x < 0)%nat) xs = []) as H0.
  { apply filter_none. apply Forall_true. lia. }
  destruct (percentile_scan_spec xs rank (max_ns_ (record_all xs)) kBucketCount 0 Hx Hn eq_refl)
    as (j & Hj & E & Hlo & Hhi); [lia|rewrite H0; cbn; lia|]. rewrite H0, drop_0 in E. cbn [length] in E.
  change (Z.of_nat 0) with 0 in E. rewrite E.
  assert (forall i, (i < 63)%nat ->
    count_le (bucketUpperBound i) xs = Z.of_nat (length (filter (fun x => (bucketFor x < S i)%nat) xs))) as Hcount.
  { intros i Hi. unfold count_le. do 2 f_equal. apply filter_same. eapply Forall_impl; [exact Hx|].
    intros x Hxx. rewrite <- (bucketFor_le x i Hxx Hi). lia. }
  destruct (decide (j < 63)%nat) as [Hj'|Hj'].
  - rewrite Hcount by done. split; [done|]. intros _ Hb. destruct j as [|j]; [by change (1 < 1) in Hb; lia|].
    assert (bucketUpperBound (S j) / 2 = bucketUpperBound j) as ->; [|rewrite Hcount by lia; done].
    unfold bucketUpperBound. rewrite !(proj2 (Nat.leb_gt 63 _)), !Z.shiftl_1_l by lia.
    rewrite Nat2Z.inj_succ, Z.pow_succ_r, Z.mul_comm by lia. by apply Z.div_mul.
  - assert (bucketUpperBound j = UINT64_MAX) as ->.
    { unfold bucketUpperBound. by rewrite (proj2 (Nat.leb_le 63 j)) by lia. }
    split; [|unfold UINT64_MAX; lia]. unfold count_le. rewrite filter_all; [lia|].
    eapply Forall_impl; [exact Hx|]. unfold UINT64_MAX. intros x Hxx. range.
Qed.

(** * Snapshots *)

Lemma record_all_extremes xs :
  Forall is_u64 xs -> Z.of_nat (length xs) < 2 ^ 64 ->
  count_ (record_all xs) = Z.of_nat (length xs)
  /\ Forall (fun x => min_ns_ (record_all xs) <= x <= max_ns_ (record_all xs)) xs
  /\ (xs = [] -> min_ns_ (record_all xs) = UINT64_MAX /\ max_ns_ (record_all xs) = 0)
  /\ (xs <> [] -> min_ns_ (record_all xs) ∈ xs /\ (max_ns_ (record_all xs) ∈ xs)).
Proof.
  induction xs as [|x xs IH] using rev_ind; intros Hx Hn; [done|].
  rewrite record_all_snoc. apply Forall_app in Hx as [Hxs Hx]. rewrite Forall_singleton in Hx.
  rewrite length_app in *. cbn [length] in *. destruct IH as (Hc & Hf & He & Hne); [done|lia|].
  cbn [histogram_record count_ min_ns_ max_ns_]. rewrite Hc. split_and!.
  - rewrite u64_small by range. lia.
  - rewrite Forall_app, Forall_singleton. split.
    + eapply Forall_impl; [exact Hf|]. cbn. intros y Hy.
      destruct (Z.ltb_spec x (min_ns_ (record_all xs))), (Z.ltb_spec (max_ns_ (record_all xs)) x); lia.
    + destruct (Z.ltb_spec x (min_ns_ (record_all xs))), (Z.ltb_spec (max_ns_ (record_all xs)) x); lia.
  - by destruct xs.
  - intros _. destruct xs as [|y ys].
    + cbn. unfold UINT64_MAX in *. destruct (Z.ltb_spec x (2 ^ 64 - 1)), (Z.ltb_spec 0 x);
        split; apply list_elem_of_singleton; range.
    + destruct Hne as [Hmin Hmax]; [done|]. split; case_match; set_solver.
Qed.

Lemma percentile_literal num den mp count :
  double_literal num den = SpecFloat.S754_finite false mp (-53) -> percentile num den (Z.pos mp) ->
  0 < num <= den -> 0 < count < 2 ^ 40 ->
  exists rank, (forall h, percentileUpperBound h (double_literal num den) count = Ok (ranked h rank))
    /\ 1 <= rank <= count /\ rank = - (- (num * count) / den).
Proof.
  intros Hl Hp Hnum Hc. destruct (percentile_of_count num den mp count Hp Hc) as [_ Hr].
  set (rank := - (- (num * count) / den)) in *. exists rank.
  assert (1 <= rank <= count) as Hrank.
  { unfold rank. pose proof (Z.div_mod (- (num * count)) den ltac:(lia)).
    pose proof (Z.mod_pos_bound (- (num * count)) den ltac:(lia)). nia. }
  split_and!; try lia. intros h. unfold percentileUpperBound. rewrite Hl, Hr. cbn [defined mbind result_bind].
  rewrite bool_decide_eq_true_2 by range. done.
Qed.

Definition ceiling_rank (num den count : Z) : Z := - (- (num * count) / den).

(** The snapshot in terms of the exact ranks. *)
Lemma snapshot_ok xs :
  Forall is_u64 xs -> 0 < Z.of_nat (length xs) < 2 ^ 40 ->
  let h := record_all xs in
  exists s, histogram_snapshot h = Ok s /\ lat_count s = Z.of_nat (length xs)
    /\ lat_min_ns s = min_ns_ h /\ lat_max_ns s = max_ns_ h
    /\ Forall (fun '(num, den, bound) =>
         let rank := ceiling_rank num den (Z.of_nat (length xs)) in
         1 <= rank <= Z.of_nat (length xs) /\ bound = ranked h rank)
       [(50, 100, lat_p50_ns s); (95, 100, lat_p95_ns s); (99, 100, lat_p99_ns s); (999, 1000, lat_p999_ns s)].
Proof.
  intros Hx Hn h. destruct (record_all_extremes xs Hx ltac:(lia)) as (Hc & _).
  unfold histogram_snapshot. fold h in Hc. rewrite Hc, (proj2 (Z.eqb_neq _ 0)) by lia.
  pose proof (fun num den mp Hl Hp Hnum => percentile_literal num den mp (Z.of_nat (length xs)) Hl Hp Hnum Hn) as Hpc.
  destruct (Hpc 50 100 _ eq_refl) as (p50 & E50 & H50); [by apply (bool_decide_unpack _)|lia|].
  destruct (Hpc 95 100 _ eq_refl) as (p95 & E95 & H95); [by apply (bool_decide_unpack _)|lia|].
  destruct (Hpc 99 100 _ eq_refl) as (p99 & E99 & H99); [by apply (bool_decide_unpack _)|lia|].
  destruct (Hpc 999 1000 _ eq_refl) as (p999 & E999 & H999); [by apply (bool_decide_unpack _)|lia|].
  rewrite E50, E95, E99, E999. eexists. split; [done|].
  cbn [lat_count lat_min_ns lat_max_ns lat_p50_ns lat_p95_ns lat_p99_ns lat_p999_ns]. split_and!; [done..|].
  unfold ceiling_rank. repeat (constructor; [by destruct_and!; subst|]). constructor.
Qed.


