(* ===== verification/HistogramThreads.v ===== *)
(** [AtomicLatencyHistogram] under threads: [record] as its single atomic operations.

    The counters change by [fetch_add].  The minimum and the maximum are atomics with
    relaxed loads: a load, also the one of a failed [compare_exchange_weak], may return
    any value the atomic has had; a successful exchange acts on the latest, and an
    exchange may fail spuriously. *)

From S2P Require Import Prelude.
From S2P Require Import Doubles.
From S2P Require Import LatencyHistogram.

#[local] Open Scope Z_scope.

(** The atomics; [c_min] and [c_max] are all values so far, the latest first. *)
Record Cells : Type := mkCells {
  c_buckets : list Z;
  c_count : Z;
  c_total : Z;
  c_min : list Z;
  c_max : list Z
}.
Definition Cells_new : Cells := mkCells (replicate kBucketCount 0) 0 0 [UINT64_MAX] [0].

(** Where a thread is in [record]; [cur] is [current_min] or [current_max]. *)
Inductive Place : Type :=
| AtBucket
| AtCount
| AtTotal
| MinLoad
| MinTry (cur : Z)
| MaxLoad
| MaxTry (cur : Z).

(** A thread records the samples [todo] one after the other. *)
Record Recorder : Type := mkRecorder { finished : list Z; current : option (Z * Place); todo : list Z }.

Definition at_place (t : Recorder) (x : Z) (p : Place) : Recorder := mkRecorder (finished t) (Some (x, p)) (todo t).
Definition returned (t : Recorder) (x : Z) : Recorder := mkRecorder (finished t ++ [x]) None (todo t).

Inductive rec_step (c : Cells) (t : Recorder) : Cells -> Recorder -> Prop :=
| rec_call x rest :
    current t = None -> todo t = x :: rest ->
    rec_step c t c (mkRecorder (finished t) (Some (x, AtBucket)) rest)
| rec_bucket x :
    current t = Some (x, AtBucket) ->
    rec_step c t (mkCells (alter (fun n => u64 (n + 1)) (bucketFor x) (c_buckets c)) (c_count c) (c_total c) (c_min c) (c_max c))
      (at_place t x AtCount)
| rec_count x :
    current t = Some (x, AtCount) ->
    rec_step c t (mkCells (c_buckets c) (u64 (c_count c + 1)) (c_total c) (c_min c) (c_max c)) (at_place t x AtTotal)
| rec_total x :
    current t = Some (x, AtTotal) ->
    rec_step c t (mkCells (c_buckets c) (c_count c) (u64 (c_total c + x)) (c_min c) (c_max c)) (at_place t x MinLoad)
| min_load x v :
    current t = Some (x, MinLoad) -> v ∈ c_min c -> rec_step c t c (at_place t x (MinTry v))
| min_enough x cur :
    current t = Some (x, MinTry cur) -> cur <= x -> rec_step c t c (at_place t x MaxLoad)
| min_swap x cur :
    current t = Some (x, MinTry cur) -> x < cur -> head (c_min c) = Some cur ->
    rec_step c t (mkCells (c_buckets c) (c_count c) (c_total c) (x :: c_min c) (c_max c)) (at_place t x MaxLoad)
| min_again x cur v :
    current t = Some (x, MinTry cur) -> x < cur -> v ∈ c_min c -> rec_step c t c (at_place t x (MinTry v))
| max_load x v :
    current t = Some (x, MaxLoad) -> v ∈ c_max c -> rec_step c t c (at_place t x (MaxTry v))
| max_enough x cur :
    current t = Some (x, MaxTry cur) -> x <= cur -> rec_step c t c (returned t x)
| max_swap x cur :
    current t = Some (x, MaxTry cur) -> cur < x -> head (c_max c) = Some cur ->
    rec_step c t (mkCells (c_buckets c) (c_count c) (c_total c) (c_min c) (x :: c_max c)) (returned t x)
| max_again x cur v :
    current t = Some (x, MaxTry cur) -> cur < x -> v ∈ c_max c -> rec_step c t c (at_place t x (MaxTry v)).

Record Recording : Type := mkRecording { cells : Cells; recorders : list Recorder }.

Inductive recording_step (s : Recording) : Recording -> Prop :=
| recorder_moves k t c t' :
    recorders s !! k = Some t -> rec_step (cells s) t c t' ->
    recording_step s (mkRecording c (<[k := t']> (recorders s))).

Inductive recording_reachable (programs : list (list Z)) : Recording -> Prop :=
| recording_start :
    recording_reachable programs (mkRecording Cells_new (mkRecorder [] None <$> programs))
| recording_next s s' : recording_reachable programs s -> recording_step s s' -> recording_reachable programs s'.

(** The histogram as a reader sees it when nobody is recording. *)
Definition histogram_of (c : Cells) : LatencyHistogram :=
  mkHistogram (c_buckets c) (c_count c) (c_total c) (default 0 (head (c_min c))) (default 0 (head (c_max c))).

(** * What has happened so far *)

(** The samples whose [n]-th operation is behind. *)
Definition stage (p : Place) : nat :=
  match p with
  | AtBucket => 0 | AtCount => 1 | AtTotal => 2 | MinLoad | MinTry _ => 3 | MaxLoad | MaxTry _ => 4
  end.
Definition past (n : nat) (t : Recorder) : list Z :=
  finished t ++ match current t with Some (x, p) => if (n <=? stage p)%nat then [x] else [] | None => [] end.
Definition samples (t : Recorder) : list Z :=
  finished t ++ match current t with Some (x, _) => [x] | None => [] end ++ todo t.

(** A record of values that only get better, [best] being the latest, and where it stands:
    the values come from [source], none of [behind] beats the latest, and what the
    threads have [seen] are such values. *)
Record tracks (better : Z -> Z -> Prop) (first : Z) (history source behind seen : list Z) : Prop := {
  tr_source : Forall (fun v => v = first \/ v ∈ source) history;
  tr_best : exists best, head history = Some best /\ best ∈ history
    /\ Forall (better best) history /\ Forall (better best) behind;
  tr_first : first ∈ history;
  tr_seen : Forall (.∈ history) seen
}.

(** What a thread holds in [current_min] and [current_max]. *)
Definition min_seen (t : Recorder) : list Z := match current t with Some (_, MinTry cur) => [cur] | _ => [] end.
Definition max_seen (t : Recorder) : list Z := match current t with Some (_, MaxTry cur) => [cur] | _ => [] end.

Definition tallies (xs : list Z) (buckets : list Z) : Prop :=
  length buckets = kBucketCount
  /\ forall i, (i < kBucketCount)%nat ->
       buckets !! i = Some (u64 (Z.of_nat (length (filter (fun x => bucketFor x = i) xs)))).

Record recording_ok (programs : list (list Z)) (s : Recording) : Prop := {
  rk_samples : recorders s ≫= samples ≡ₚ concat programs;
  rk_buckets : tallies (recorders s ≫= past 1) (c_buckets (cells s));
  rk_count : c_count (cells s) = u64 (Z.of_nat (length (recorders s ≫= past 2)));
  rk_total : c_total (cells s) = u64 (sum id (recorders s ≫= past 3));
  rk_min : tracks Z.le UINT64_MAX (c_min (cells s)) (concat programs) (recorders s ≫= past 4) (recorders s ≫= min_seen);
  rk_max : tracks Z.ge 0 (c_max (cells s)) (concat programs) (recorders s ≫= past 5) (recorders s ≫= max_seen)
}.

(** * Single operations *)

#[global] Instance tallies_proper : Proper ((≡ₚ) ==> eq ==> iff) tallies.
Proof. intros xs ys Hp b ? <-. unfold tallies. by setoid_rewrite Hp. Qed.

#[global] Instance tracks_proper better first history :
  Proper ((≡ₚ) ==> (≡ₚ) ==> (≡ₚ) ==> iff) (tracks better first history).
Proof.
  intros xs ys Hs b b' Hb z z' Hz.
  split; intros [H1 H2 H3 H4]; split; try done;
    first [by setoid_rewrite Hs in H1 | by setoid_rewrite Hs | by setoid_rewrite Hb in H2 | by setoid_rewrite Hb
          | by rewrite Hz in H4 | by rewrite Hz].
Qed.

Lemma tallies_add xs x buckets :
  tallies xs buckets -> tallies (x :: xs) (alter (fun n => u64 (n + 1)) (bucketFor x) buckets).
Proof.
  intros [Hl Hb]. split; [by rewrite length_alter|]. intros i Hi. rewrite filter_cons.
  destruct (decide (bucketFor x = i)) as [<-|Hne].
  - rewrite list_lookup_alter_eq, Hb by done. cbn. f_equal. rewrite u64_add_l. f_equal. lia.
  - by rewrite list_lookup_alter_ne, Hb.
Qed.

Section Tracks.
Context (better : Z -> Z -> Prop) `{!Reflexive better, !Transitive better}.
Context (first : Z) (source : list Z).

Lemma tracks_forget history behind seen rest :
  tracks better first history source behind (seen ++ rest) -> tracks better first history source behind rest.
Proof using Type. intros [H1 H2 H3 [_ H4]%Forall_app]. by split. Qed.

Lemma tracks_load history behind rest v :
  tracks better first history source behind rest -> v ∈ history ->
  tracks better first history source behind (v :: rest).
Proof using Type. intros [H1 H2 H3 H4] Hv. split; try done. by constructor. Qed.

(** The loop ends because the value seen is good enough: the latest is better still. *)
Lemma tracks_enough history behind rest x cur :
  tracks better first history source behind (cur :: rest) -> better cur x ->
  tracks better first history source (x :: behind) rest.
Proof using All.
  intros [H1 (best & Hh & Hi & Ha & Hb) H3 [Hc H4]%Forall_cons] Hx. split; try done.
  exists best. split_and!; try done. constructor; [|done]. rewrite Forall_forall in Ha. by etrans; [apply Ha|].
Qed.

(** The exchange: the new value is better than the latest. *)
Lemma tracks_swap history behind rest x cur :
  tracks better first history source behind (cur :: rest) -> head history = Some cur -> better x cur -> x ∈ source ->
  tracks better first (x :: history) source (x :: behind) rest.
Proof using All.
  intros [H1 (best & Hh & Hi & Ha & Hb) H3 [Hc H4]%Forall_cons] Hcur Hx Hs. rewrite Hcur in Hh. injection Hh as <-.
  assert (forall l, Forall (better cur) l -> Forall (better x) (x :: l)) as Hall.
  { intros l Hl. constructor; [done|]. eapply Forall_impl; [exact Hl|]. intros y Hy. by etrans. }
  split.
  - constructor; [by right|done].
  - exists x. split_and!; [done|left|by apply Hall|by apply Hall].
  - by right.
  - eapply Forall_impl; [exact H4|]. by right.
Qed.
End Tracks.

(** * The invariant *)

Lemma recording_ok_start programs :
  recording_ok programs (mkRecording Cells_new (mkRecorder [] None <$> programs)).
Proof.
  assert (forall f : Recorder -> list Z, (forall p, f (mkRecorder [] None p) = []) -> (mkRecorder [] None <$> programs) ≫= f = []) as Hn.
  { intros f Hf. induction programs as [|p ps IH]; [done|]. cbn. by rewrite Hf, IH. }
  split; cbn [cells recorders Cells_new c_buckets c_count c_total c_min c_max]; rewrite ?Hn by done; try done.
  - clear. induction programs as [|p ps IH]; [done|]. cbn. by rewrite IH.
  - split; [by rewrite length_replicate|]. intros i Hi. by apply lookup_replicate_2.
  - split; [by constructor; [left|]| |left|done]. exists UINT64_MAX. split_and!; try done; [left|by repeat constructor].
  - split; [by constructor; [left|]| |left|done]. exists 0. split_and!; try done; [left|by repeat constructor].
Qed.

Lemma rec_step_samples c t c' t' : rec_step c t c' t' -> samples t' ≡ₚ samples t.
Proof.
  destruct 1; unfold samples, at_place, returned; cbn [finished current todo];
    repeat match goal with E : _ t = _ |- _ => rewrite E; clear E end; by rewrite <- ?app_assoc.
Qed.

(** Each operation moves the sample past one stage, and changes the atomic of that stage. *)
Ltac by_operation :=
  destruct 1; unfold past, min_seen, max_seen, at_place, returned; cbn [finished current todo];
  repeat match goal with E : current _ = _ |- _ => rewrite E end;
  cbn [stage Nat.leb c_buckets c_count c_total c_min c_max]; rewrite ?app_nil_r, <- ?app_assoc;
  cbn [app]; rewrite <- ?Permutation_middle.

Lemma rec_step_buckets c t c' t' rest :
  rec_step c t c' t' -> tallies (past 1 t ++ rest) (c_buckets c) -> tallies (past 1 t' ++ rest) (c_buckets c').
Proof. by_operation; try done. apply tallies_add. Qed.

Lemma rec_step_count c t c' t' rest :
  rec_step c t c' t' -> c_count c = u64 (Z.of_nat (length (past 2 t ++ rest))) ->
  c_count c' = u64 (Z.of_nat (length (past 2 t' ++ rest))).
Proof. by_operation; try done. intros ->. rewrite u64_add_l. cbn [length]. f_equal. lia. Qed.

Lemma rec_step_total c t c' t' rest :
  rec_step c t c' t' -> c_total c = u64 (sum id (past 3 t ++ rest)) -> c_total c' = u64 (sum id (past 3 t' ++ rest)).
Proof.
  by_operation; try done. intros ->. rewrite u64_add_l, !sum_app, sum_cons. f_equal. unfold id. lia.
Qed.

Lemma rec_step_min c t c' t' source rest behind :
  rec_step c t c' t' -> (forall x p, current t = Some (x, p) -> x ∈ source) ->
  tracks Z.le UINT64_MAX (c_min c) source (past 4 t ++ behind) (min_seen t ++ rest) ->
  tracks Z.le UINT64_MAX (c_min c') source (past 4 t' ++ behind) (min_seen t' ++ rest).
Proof.
  by_operation; intros Hs; try done; intros Ht.
  - by apply tracks_load.
  - by apply (tracks_enough Z.le _ _ _ _ _ _ cur).
  - apply (tracks_swap Z.le _ _ _ _ _ _ cur); [done|done|lia|by eapply Hs].
  - apply tracks_load; [|done]. by apply (tracks_forget _ _ _ _ _ [cur]).
Qed.

Lemma rec_step_max c t c' t' source rest behind :
  rec_step c t c' t' -> (forall x p, current t = Some (x, p) -> x ∈ source) ->
  tracks Z.ge 0 (c_max c) source (past 5 t ++ behind) (max_seen t ++ rest) ->
  tracks Z.ge 0 (c_max c') source (past 5 t' ++ behind) (max_seen t' ++ rest).
Proof.
  assert (Reflexive Z.ge) by (intros z; lia). assert (Transitive Z.ge) by (intros x y z; lia).
  by_operation; intros Hs; try done; intros Ht.
  - by apply tracks_load.
  - apply (tracks_enough Z.ge _ _ _ _ _ _ cur); [done|lia].
  - apply (tracks_swap Z.ge _ _ _ _ _ _ cur); [done|done|lia|by eapply Hs].
  - apply tracks_load; [|done]. by apply (tracks_forget _ _ _ _ _ [cur]).
Qed.

Lemma recording_ok_step programs s s' : recording_ok programs s -> recording_step s s' -> recording_ok programs s'.
Proof.
  intros [Hs Hb Hc Ht Hmin Hmax] [k t c t' Hk Hstep].
  assert (forall x p, current t = Some (x, p) -> x ∈ concat programs) as Hx.
  { intros x p E. rewrite <- Hs. apply list_elem_of_bind. exists t. split; [|by eapply list_elem_of_lookup_2].
    unfold samples. rewrite E. set_solver. }
  assert (forall f : Recorder -> list Z, exists rest,
    recorders s ≫= f ≡ₚ f t ++ rest /\ <[k := t']> (recorders s) ≫= f ≡ₚ f t' ++ rest) as Hf.
  { intros f. by apply bind_insert. }
  split; cbn [recorders cells].
  - destruct (Hf samples) as (r & E & ->). rewrite E in Hs. by rewrite (rec_step_samples _ _ _ _ Hstep).
  - destruct (Hf (past 1)) as (r & E & ->). rewrite E in Hb. by eapply rec_step_buckets.
  - destruct (Hf (past 2)) as (r & E & ->). rewrite E in Hc. by eapply rec_step_count.
  - destruct (Hf (past 3)) as (r & E & E'). rewrite (sum_perm _ _ _ E) in Ht. rewrite (sum_perm _ _ _ E').
    by eapply rec_step_total.
  - destruct (Hf (past 4)) as (r & E & ->), (Hf min_seen) as (r' & E1 & ->). rewrite E, E1 in Hmin.
    by eapply rec_step_min.
  - destruct (Hf (past 5)) as (r & E & ->), (Hf max_seen) as (r' & E1 & ->). rewrite E, E1 in Hmax.
    by eapply rec_step_max.
Qed.

Lemma recording_reachable_ok programs s : recording_reachable programs s -> recording_ok programs s.
Proof. induction 1; [apply recording_ok_start|by eapply recording_ok_step]. Qed.

(** * When all samples are recorded *)

Definition idle (s : Recording) : Prop := Forall (fun t => current t = None /\ todo t = []) (recorders s).

Lemma past_idle s n : idle s -> recorders s ≫= past n = recorders s ≫= samples.
Proof.
  unfold idle. destruct s as [c ts]. cbn. induction 1 as [|t ts [Hc Hd] _ IH]; [done|]. cbn. rewrite IH. f_equal.
  unfold past, samples. by rewrite Hc, Hd.
Qed.

Lemma record_all_total xs : total_ns_ (record_all xs) = u64 (sum id xs).
Proof.
  induction xs as [|x xs IH] using rev_ind; [done|]. rewrite record_all_snoc. cbn [total_ns_ histogram_record].
  rewrite IH, u64_add_l. autorewrite with sums. f_equal. unfold id. lia.
Qed.

Lemma record_all_bucket_count xs : length (buckets_ (record_all xs)) = kBucketCount.
Proof.
  induction xs as [|x xs IH] using rev_ind; [done|]. rewrite record_all_snoc. cbn [buckets_ histogram_record].
  by rewrite length_alter.
Qed.

(** * A thread on its own finishes *)

Definition alone (a b : Cells * Recorder) : Prop := rec_step a.1 a.2 b.1 b.2.
Definition cells_ready (c : Cells) : Prop := is_Some (head (c_min c)) /\ is_Some (head (c_max c)).

(** From [t] the call in progress, on [x], can be completed. *)
Definition completes (x : Z) (c : Cells) (t : Recorder) : Prop :=
  exists c', cells_ready c' /\ rtc alone (c, t) (c', mkRecorder (finished t ++ [x]) None (todo t)).

Lemma completes_step x c t c' t' :
  rec_step c t c' t' -> finished t' = finished t -> todo t' = todo t -> completes x c' t' -> completes x c t.
Proof.
  intros Hs Hf Ht (c2 & Hr & Hrun). exists c2. split; [done|]. eapply (rtc_l _ _ (c', t')); [exact Hs|]. by rewrite <- Hf, <- Ht.
Qed.

Lemma completes_max x c t :
  cells_ready c -> (exists p, current t = Some (x, p) /\ stage p = 4%nat) -> completes x c t.
Proof.
  intros Hc (p & Hp & Hst). pose proof Hc as [_ [best Hb]].
  assert (best ∈ c_max c) as Hin by (by destruct (c_max c); simplify_eq/=; left).
  assert (forall u v, finished u = finished t -> todo u = todo t -> current u = Some (x, MaxTry v) ->
    x <= v \/ v = best -> completes x c u) as Hlast.
  { intros u v Eu Eu' Hu Hv. destruct (Z.leb_spec x v) as [Hle|Hgt].
    - exists c. split; [done|]. apply rtc_once. by eapply max_enough.
    - exists (mkCells (c_buckets c) (c_count c) (c_total c) (c_min c) (x :: c_max c)).
      split; [by destruct Hc; split|]. apply rtc_once. eapply max_swap; [done|lia|]. rewrite Hb. f_equal. lia. }
  destruct p; try done.
  - eapply completes_step; [by eapply max_load|done|done|]. by eapply Hlast; [..|right].
  - destruct (Z.leb_spec x cur) as [Hle|Hgt]; [by eapply Hlast; [..|left]|].
    eapply completes_step; [by eapply (max_again c t x cur best)|done|done|]. by eapply Hlast; [..|right].
Qed.

Lemma completes_min x c t :
  cells_ready c -> (exists p, current t = Some (x, p) /\ stage p = 3%nat) -> completes x c t.
Proof.
  intros Hc (p & Hp & Hst). pose proof Hc as [[best Hb] _].
  assert (best ∈ c_min c) as Hin by (by destruct (c_min c); simplify_eq/=; left).
  assert (forall u v, finished u = finished t -> todo u = todo t -> current u = Some (x, MinTry v) ->
    v <= x \/ v = best -> completes x c u) as Hlast.
  { intros u v Eu Eu' Hu Hv. destruct (Z.leb_spec v x) as [Hle|Hgt].
    - eapply completes_step; [by eapply min_enough|done|done|]. apply completes_max; [done|by eexists].
    - eapply completes_step; [eapply min_swap; [done|lia|rewrite Hb; f_equal; lia]|done|done|].
      apply completes_max; [by destruct Hc; split|by eexists]. }
  destruct p; try done.
  - eapply completes_step; [by eapply min_load|done|done|]. by eapply Hlast; [..|right].
  - destruct (Z.leb_spec cur x) as [Hle|Hgt]; [by eapply Hlast; [..|left]|].
    eapply completes_step; [by eapply (min_again c t x cur best)|done|done|]. by eapply Hlast; [..|right].
Qed.

Lemma completes_call x p c t : cells_ready c -> current t = Some (x, p) -> completes x c t.
Proof.
  intros Hc Hp.
  assert (forall c t, cells_ready c -> current t = Some (x, MinLoad) -> completes x c t) as H3.
  { intros ????. apply completes_min; [done|by eexists]. }
  assert (forall c t, cells_ready c -> current t = Some (x, AtTotal) -> completes x c t) as H2.
  { intros ????. eapply completes_step; [by eapply rec_total|done|done|]. by apply H3. }
  assert (forall c t, cells_ready c -> current t = Some (x, AtCount) -> completes x c t) as H1.
  { intros ????. eapply completes_step; [by eapply rec_count|done|done|]. by apply H2. }
  destruct p; first [by apply H1 | by apply H2 | by apply H3 | by apply completes_min; eauto
                    | by apply completes_max; eauto | idtac].
  eapply completes_step; [by eapply rec_bucket|done|done|]. by apply H1.
Qed.

Lemma thread_finishes c t :
  cells_ready c -> exists c' t', cells_ready c' /\ rtc alone (c, t) (c', t') /\ current t' = None /\ todo t' = [].
Proof.
  intros Hc. destruct t as [done_ cur todo_].
  assert (forall c d, cells_ready c ->
    exists c' t', cells_ready c' /\ rtc alone (c, mkRecorder d None todo_) (c', t') /\ current t' = None /\ todo t' = [])
    as Hrest.
  { clear. induction todo_ as [|x xs IH]; intros c d Hc; [by exists c, (mkRecorder d None [])|].
    destruct (completes_call x AtBucket c (mkRecorder d (Some (x, AtBucket)) xs) Hc eq_refl) as (c1 & H1 & Hrun).
    destruct (IH c1 (d ++ [x]) H1) as (c2 & t2 & H2 & Hrun2 & Hn). exists c2, t2. split_and!; try done; try apply Hn.
    eapply (rtc_l _ _ (c, mkRecorder d (Some (x, AtBucket)) xs)); [by apply (rec_call c (mkRecorder d None (x :: xs)))|].
    by etrans. }
  destruct cur as [[x p]|]; [|by apply Hrest].
  destruct (completes_call x p c (mkRecorder done_ (Some (x, p)) todo_) Hc eq_refl) as (c1 & H1 & Hrun).
  destruct (Hrest c1 (done_ ++ [x]) H1) as (c2 & t2 & H2 & Hrun2 & Hn). exists c2, t2.
  split_and!; try done; try apply Hn. by etrans.
Qed.

Lemma alone_recording a b ts k :
  rtc alone a b -> ts !! k = Some a.2 ->
  rtc recording_step (mkRecording a.1 ts) (mkRecording b.1 (<[k := b.2]> ts)).
Proof.
  intros Hr. revert ts. induction Hr as [a|a m b Hs _ IH]; intros ts Hk.
  { rewrite list_insert_id by done. done. }
  pose proof (lookup_lt_Some _ _ _ Hk) as Hlt. eapply rtc_l.
  - by apply (recorder_moves (mkRecording a.1 ts) k a.2 m.1 m.2).
  - specialize (IH (<[k := m.2]> ts)). rewrite list_insert_insert_eq in IH. apply IH.
    by rewrite list_lookup_insert_eq.
Qed.

Lemma threads_finish s n :
  cells_ready (cells s) -> (n <= length (recorders s))%nat ->
  exists s', rtc recording_step s s' /\ cells_ready (cells s') /\ length (recorders s') = length (recorders s)
    /\ Forall (fun t => current t = None /\ todo t = []) (take n (recorders s')).
Proof.
  intros Hc. induction n as [|n IH]; intros Hn; [by exists s|].
  destruct IH as ([c ts] & Hr & Hc' & Hl & Hf); [lia|]. cbn [cells recorders] in *.
  destruct (lookup_lt_is_Some_2 ts n) as [t Ht]; [lia|].
  destruct (thread_finishes c t Hc') as (c1 & t1 & H1 & Hrun & Hidle).
  exists (mkRecording c1 (<[n := t1]> ts)). cbn [cells recorders]. split_and!; try done.
  - etrans; [exact Hr|]. by apply (alone_recording (c, t) (c1, t1)).
  - by rewrite length_insert.
  - rewrite (take_S_r _ _ t1) by (rewrite list_lookup_insert_eq; [done|lia]).
    rewrite take_insert_ge by lia. by apply Forall_app_2; [|constructor].
Qed.

Lemma reachable_rtc programs s s' :
  recording_reachable programs s -> rtc recording_step s s' -> recording_reachable programs s'.
Proof. intros Hs Hr. induction Hr; [done|]. apply IHHr. by eapply recording_next. Qed.

Lemma recording_can_finish programs s :
  recording_reachable programs s -> exists s', rtc recording_step s s' /\ idle s'.
Proof.
  intros Hs. destruct (recording_reachable_ok _ _ Hs) as [_ _ _ _ [_ (b & Hb & _) _ _] [_ (b' & Hb' & _) _ _]].
  destruct (threads_finish s (length (recorders s))) as (s' & Hr & _ & Hl & Hf); [by split|done|].
  exists s'. split; [done|]. rewrite <- Hl, take_ge in Hf by done. exact Hf.
Qed.

(** The best of a complete record is the best of the samples. *)
Lemma tracked_min history xs seen :
  tracks Z.le UINT64_MAX history xs xs seen -> Forall is_u64 xs -> Z.of_nat (length xs) < 2 ^ 64 ->
  default 0 (head history) = min_ns_ (record_all xs).
Proof.
  intros [Hsrc (b & -> & Hin & _ & Hb) _ _] Hx Hn.
  destruct (record_all_extremes xs Hx Hn) as (_ & Hf & He & Hne). rewrite Forall_forall in *. cbn.
  specialize (Hsrc b Hin). destruct (decide (xs = [])) as [->|Hxs]; [destruct Hsrc as [->|Hsrc]; [|set_solver]; by destruct He|].
  destruct (Hne Hxs) as [Hmin _]. specialize (Hb _ Hmin). destruct Hsrc as [->|Hsrc].
  - specialize (Hx _ Hmin). unfold UINT64_MAX in *. range.
  - specialize (Hf _ Hsrc). lia.
Qed.

Lemma tracked_max history xs seen :
  tracks Z.ge 0 history xs xs seen -> Forall is_u64 xs -> Z.of_nat (length xs) < 2 ^ 64 ->
  default 0 (head history) = max_ns_ (record_all xs).
Proof.
  intros [Hsrc (b & -> & Hin & _ & Hb) _ _] Hx Hn.
  destruct (record_all_extremes xs Hx Hn) as (_ & Hf & He & Hne). rewrite Forall_forall in *. cbn.
  specialize (Hsrc b Hin). destruct (decide (xs = [])) as [->|Hxs]; [destruct Hsrc as [->|Hsrc]; [|set_solver]; by destruct He|].
  destruct (Hne Hxs) as [_ Hmax]. specialize (Hb _ Hmax). destruct Hsrc as [->|Hsrc].
  - specialize (Hx _ Hmax). range.
  - specialize (Hf _ Hsrc). lia.
Qed.

(** C22. Threads record into one histogram without locks and lose nothing.  Whatever the
    interleaving of the single atomic operations, however stale the relaxed loads and
    however often the weak exchanges fail: all calls can still be completed, and once
    they are the histogram is the one that results from recording all samples of all
    threads one after the other. *)
Theorem histogram_threads_exact programs s :
  recording_reachable programs s -> Forall is_u64 (concat programs) -> Z.of_nat (length (concat programs)) < 2 ^ 64 ->
  (exists s', rtc recording_step s s' /\ idle s')
  /\ (idle s -> histogram_of (cells s) = record_all (concat programs)).
Proof.
  intros Hs Hx Hn. split; [by eapply recording_can_finish|]. intros Hi.
  destruct (recording_reachable_ok _ _ Hs) as [Hp Hb Hc Ht Hmin Hmax].
  rewrite !past_idle in * by done. rewrite (sum_perm _ _ _ Hp) in Ht. rewrite Hp in *.
  unfold histogram_of. rewrite (tracked_min _ _ _ Hmin Hx Hn), (tracked_max _ _ _ Hmax Hx Hn), Ht, Hc, <- record_all_total.
  rewrite u64_small, <- (proj1 (record_all_extremes _ Hx Hn)) by range.
  assert (c_buckets (cells s) = buckets_ (record_all (concat programs))) as ->; [|by destruct record_all].
  destruct Hb as [Hl Hb]. apply list_eq. intros i. destruct (decide (i < kBucketCount)%nat) as [Hlt|Hge].
  - rewrite Hb, record_all_buckets, u64_small; [done| |done..].
    pose proof (length_filter (fun x => bucketFor x = i) (concat programs)). range.
  - rewrite !lookup_ge_None_2; [done|rewrite record_all_bucket_count; lia|lia].
Qed.

(** One operation of recorder [k], by the rule [rule]. *)
Tactic Notation "operation" hyp(R) constr(k) open_constr(rule) :=
  let s := match type of R with recording_reachable _ ?s => s end in
  eapply (recording_next _ s) in R;
    [|eapply (recorder_moves s k); [reflexivity|eapply rule; cbn; first [reflexivity|lia|set_solver]]];
  cbn in R.

(** Both threads read the initial minimum; the second stores 5, so the exchange of the
    first one fails and its loop ends at the value it then reads. *)
Lemma histogram_threads_exact_witness :
  exists s, idle s /\ histogram_of (cells s) = record_all [300; 5] /\ c_min (cells s) = [5; UINT64_MAX].
Proof.
  pose proof (recording_start [[300]; [5]]) as R.
  operation R 0%nat rec_call. operation R 1%nat rec_call. operation R 0%nat rec_bucket. operation R 0%nat rec_count.
  operation R 1%nat rec_bucket. operation R 0%nat rec_total. operation R 0%nat (min_load _ _ 300 UINT64_MAX).
  operation R 1%nat rec_count. operation R 1%nat rec_total. operation R 1%nat (min_load _ _ 5 UINT64_MAX).
  operation R 1%nat min_swap. operation R 0%nat (min_again _ _ 300 UINT64_MAX 5).
  operation R 0%nat min_enough. operation R 1%nat (max_load _ _ 5 0). operation R 0%nat (max_load _ _ 300 0).
  operation R 0%nat max_swap. operation R 1%nat (max_again _ _ 5 0 300). operation R 1%nat max_enough.
  eexists. split; [|split; [apply (histogram_threads_exact [[300]; [5]] _ R)|reflexivity]].
  - by repeat constructor.
  - repeat constructor; range.
  - done.
  - by repeat constructor.
Defined.
