(* ===== verification/Partitioned.v ===== *)
(** [partitioned_engine.hpp]: one FIFO queue and one worker thread per shard.

    [enqueueCommand] and an iteration of [workerLoop] are composed of the pieces
    between which other threads can run: the count of the pending command, the
    queue operation ([push] can wait), the outcome; the pop, the block under
    [state_mutex], the accounting.  [shutdown] closes the queues one by one.  The
    clock readings are arguments, promises are numbers with a map of the values
    set. *)

From S2P Require Import Prelude.
From S2P Require Import OrderTypes.
From S2P Require Import OrderBook.
From S2P Require Import Risk.
From S2P Require Import MatchingEngine.
From S2P Require Import Symbols.
From S2P Require Import LatencyHistogram.
From S2P Require Import Mpmc.

#[local] Open Scope Z_scope.

Record PartitionedCommandResult : Type := mkResult {
  res_report : ExecutionReport.t; res_trades : list Trade.t
}.

Record Command : Type := mkCommand {
  cmd_type : CommandType;
  cmd_symbol : Symbol;
  cmd_order : Order.t;
  cmd_completion : option nat;
  cmd_enqueued_at : Z
}.

Record Shard : Type := mkShard {
  shard_queue : MPMCQueue (T := Command);
  shard_engines : gmap Symbol MatchingEngine
}.

Record PartitionedEngine : Type := mkPartitioned {
  shard_count_ : Z;
  risk_limits_ : RiskLimits.t;
  shards_ : list Shard;
  trade_log_ : TradeLog;
  accepting_ : bool;
  submitted_ : Z;
  processed_ : Z;
  accepted_ : Z;
  rejected_ : Z;
  trades_ : Z;
  pending_ : Z;
  latency_ : LatencyHistogram;
  completions : gmap nat PartitionedCommandResult
}.

(** The constructor; [None] is a thrown [std::invalid_argument]. *)
Definition PartitionedEngine_new (shard_count queue_capacity : Z) (limits : RiskLimits.t)
    (log_depth : Z) : option PartitionedEngine :=
  if (shard_count =? 0) || negb (Z.land shard_count (shard_count - 1) =? 0) then None
  else
    q ← MPMCQueue_new queue_capacity;
    Some (mkPartitioned shard_count limits (replicate (Z.to_nat shard_count) (mkShard q ∅))
            (TradeLog_new log_depth) true 0 0 0 0 0 0 LatencyHistogram_new ∅).

Definition shardIndex (shard_count : Z) (symbol : Symbol) : nat :=
  Z.to_nat (Z.land (hash symbol) (shard_count - 1)).

(** Field updates. *)
Definition with_shards (p : PartitionedEngine) (shards : list Shard) : PartitionedEngine :=
  mkPartitioned (shard_count_ p) (risk_limits_ p) shards (trade_log_ p) (accepting_ p) (submitted_ p)
    (processed_ p) (accepted_ p) (rejected_ p) (trades_ p) (pending_ p) (latency_ p) (completions p).
Definition with_pending (p : PartitionedEngine) (pending : Z) : PartitionedEngine :=
  mkPartitioned (shard_count_ p) (risk_limits_ p) (shards_ p) (trade_log_ p) (accepting_ p)
    (submitted_ p) (processed_ p) (accepted_ p) (rejected_ p) (trades_ p) pending (latency_ p)
    (completions p).
Definition with_submitted (p : PartitionedEngine) (submitted : Z) : PartitionedEngine :=
  mkPartitioned (shard_count_ p) (risk_limits_ p) (shards_ p) (trade_log_ p) (accepting_ p)
    submitted (processed_ p) (accepted_ p) (rejected_ p) (trades_ p) (pending_ p) (latency_ p)
    (completions p).
Definition with_accepting (p : PartitionedEngine) (accepting : bool) : PartitionedEngine :=
  mkPartitioned (shard_count_ p) (risk_limits_ p) (shards_ p) (trade_log_ p) accepting
    (submitted_ p) (processed_ p) (accepted_ p) (rejected_ p) (trades_ p) (pending_ p) (latency_ p)
    (completions p).
Definition with_completions (p : PartitionedEngine) (cs : gmap nat PartitionedCommandResult) :
    PartitionedEngine :=
  mkPartitioned (shard_count_ p) (risk_limits_ p) (shards_ p) (trade_log_ p) (accepting_ p)
    (submitted_ p) (processed_ p) (accepted_ p) (rejected_ p) (trades_ p) (pending_ p) (latency_ p) cs.

(** [finishOnePending]: the counter, and whether [idle_cv_.notify_all()] is called. *)
Definition finishOnePending (p : PartitionedEngine) : PartitionedEngine * bool :=
  (with_pending p (u64 (pending_ p - 1)), pending_ p =? 1).

(** [enqueueCommand] in its three interleaving points: the test of [accepting_]
    and the count of the pending command, the queue operation, the outcome. *)
Definition count_pending (p : PartitionedEngine) : PartitionedEngine :=
  with_pending p (u64 (pending_ p + 1)).

(** [Ok None]: the thread waits in [push]. *)
Definition queue_push (p : PartitionedEngine) (command : Command) (blocking : bool) :
    result (option (bool * PartitionedEngine)) :=
  let i := shardIndex (shard_count_ p) (cmd_symbol command) in
  shard ← defined (shards_ p !! i);
  Ok ('(pushed, q) ← (if blocking then push (shard_queue shard) command
                      else Some (try_push (shard_queue shard) command));
      Some (pushed, with_shards p (<[i := mkShard q (shard_engines shard)]> (shards_ p)))).

Definition settle (p : PartitionedEngine) (pushed : bool) : PartitionedEngine :=
  if negb pushed then (finishOnePending p).1 else with_submitted p (u64 (submitted_ p + 1)).

Definition enqueueCommand (p : PartitionedEngine) (command : Command) (blocking : bool) :
    result (option (bool * PartitionedEngine)) :=
  if negb (accepting_ p) then Ok (Some (false, p))
  else
    r ← queue_push (count_pending p) command blocking;
    Ok ('(pushed, p) ← r; Some (pushed, settle p pushed)).

Definition new_command (symbol : Symbol) (order : Order.t) (completion : option nat) (now : Z) : Command :=
  mkCommand NEW_ORDER symbol order completion now.
Definition cancel_command (symbol : Symbol) (order_id : Z) (completion : option nat) (now : Z) : Command :=
  mkCommand CANCEL_ORDER symbol (Order.with_id order_id Order.default) completion now.

Definition enqueue (p : PartitionedEngine) (symbol : Symbol) (order : Order.t) (now : Z) :=
  enqueueCommand p (new_command symbol order None now) true.
Definition enqueueCancel (p : PartitionedEngine) (symbol : Symbol) (order_id now : Z) :=
  enqueueCommand p (cancel_command symbol order_id None now) true.
Definition tryEnqueue (p : PartitionedEngine) (symbol : Symbol) (order : Order.t) (now : Z) :=
  enqueueCommand p (new_command symbol order None now) false.

Definition completeRejected (p : PartitionedEngine) (completion : nat) (order_id : Z)
    (command : CommandType) (reason : RejectReason) : PartitionedEngine :=
  with_completions p (<[completion :=
    mkResult (ExecutionReport.mk order_id 0 command REJECTED reason 0 0 0 0 0) []]> (completions p)).

(** [submit] and [cancel] with the promise [completion]. *)
Definition submit_with (p : PartitionedEngine) (command : Command) (completion : nat) :
    result (option PartitionedEngine) :=
  r ← enqueueCommand p command true;
  Ok (match r with
      | None => None
      | Some (true, p) => Some p
      | Some (false, p) => Some (completeRejected p completion (Order.id (cmd_order command))
                                   (cmd_type command) ENGINE_SHUTTING_DOWN)
      end).
Definition submit (p : PartitionedEngine) (symbol : Symbol) (order : Order.t) (completion : nat) (now : Z) :=
  submit_with p (new_command symbol order (Some completion) now) completion.
Definition partitioned_cancel (p : PartitionedEngine) (symbol : Symbol) (order_id : Z)
    (completion : nat) (now : Z) :=
  submit_with p (cancel_command symbol order_id (Some completion) now) completion.

(** The engine's part of a worker iteration, under [state_mutex]. *)
Definition serve (engine : MatchingEngine) (command : Command) :
    result (MatchingEngine * PartitionedCommandResult) :=
  match cmd_type command with
  | NEW_ORDER =>
    '(engine, trades, report) ← processOrder engine (cmd_order command) [];
    Ok (engine, mkResult report trades)
  | CANCEL_ORDER =>
    '(engine, report) ← cancel engine (Order.id (cmd_order command));
    Ok (engine, mkResult report [])
  end.

(** What [workerLoop] does with the result of a command. *)
Definition account (p : PartitionedEngine) (command : Command) (r : PartitionedCommandResult) (now : Z) :
    PartitionedEngine :=
  let acc := ExecutionReport.accepted (res_report r) in
  let latency := now - cmd_enqueued_at command in
  (finishOnePending
     (mkPartitioned (shard_count_ p) (risk_limits_ p) (shards_ p)
        (foldl (fun log t => log_record log (cmd_symbol command) t) (trade_log_ p) (res_trades r))
        (accepting_ p) (submitted_ p) (u64 (processed_ p + 1))
        (if acc then u64 (accepted_ p + 1) else accepted_ p)
        (if acc then rejected_ p else u64 (rejected_ p + 1))
        (u64 (trades_ p + Z.of_nat (length (res_trades r)))) (pending_ p)
        (histogram_record (latency_ p) (if latency <? 0 then 0 else latency))
        (match cmd_completion command with
         | Some k => <[k := r]> (completions p)
         | None => completions p
         end))).1.

(** The pop of [workerLoop] on shard [i]; [Ok None] when it waits or the loop ends. *)
Definition worker_take (p : PartitionedEngine) (i : nat) : result (option (Command * PartitionedEngine)) :=
  shard ← defined (shards_ p !! i);
  Ok (match pop (shard_queue shard) with
      | None | Some (None, _) => None
      | Some (Some command, q) =>
        Some (command, with_shards p (<[i := mkShard q (shard_engines shard)]> (shards_ p)))
      end).

(** The block under [state_mutex]: [try_emplace] the symbol's engine and run the
    command on it. *)
Definition worker_serve (p : PartitionedEngine) (i : nat) (command : Command) :
    result (PartitionedCommandResult * PartitionedEngine) :=
  shard ← defined (shards_ p !! i);
  let engine := default (MatchingEngine_new (risk_limits_ p))
                  (shard_engines shard !! cmd_symbol command) in
  '(engine, r) ← serve engine command;
  Ok (r, with_shards p
           (<[i := mkShard (shard_queue shard) (<[cmd_symbol command := engine]> (shard_engines shard))]>
              (shards_ p))).

(** One iteration of [workerLoop]. *)
Definition workerTurn (p : PartitionedEngine) (i : nat) (now : Z) :
    result (option (PartitionedEngine * Command * PartitionedCommandResult)) :=
  taken ← worker_take p i;
  match taken with
  | None => Ok None
  | Some (command, p) =>
    '(r, p) ← worker_serve p i command;
    Ok (Some (account p command r now, command, r))
  end.

Definition close_shard (p : PartitionedEngine) (i : nat) : PartitionedEngine :=
  match shards_ p !! i with
  | None => p
  | Some sh => with_shards p (<[i := mkShard (close (shard_queue sh)) (shard_engines sh)]> (shards_ p))
  end.

(** [shutdown]: stop accepting, then close the queues one by one (the joins wait
    for the workers, whose iterations are the steps above). *)
Definition shutdown (p : PartitionedEngine) : PartitionedEngine :=
  if negb (accepting_ p) then p
  else foldl close_shard (with_accepting p false) (seq 0 (length (shards_ p))).

Record PartitionedSnapshot : Type := mkPSnapshot {
  ps_exists : bool; ps_best_bid : option Z; ps_best_ask : option Z; ps_order_count : Z;
  ps_buy_depth : Z; ps_sell_depth : Z; ps_sequence : Z
}.

Definition partitioned_snapshot (p : PartitionedEngine) (symbol : Symbol) : result PartitionedSnapshot :=
  shard ← defined (shards_ p !! shardIndex (shard_count_ p) symbol);
  Ok (match shard_engines shard !! symbol with
      | None => mkPSnapshot false None None 0 0 0 0
      | Some e => mkPSnapshot true (bestBid (book_ e)) (bestAsk (book_ e)) (orderCount (book_ e))
                    (depth (book_ e) BUY) (depth (book_ e) SELL) (sequence_ e)
      end).

Definition partitioned_validate (p : PartitionedEngine) (symbol : Symbol) : result bool :=
  shard ← defined (shards_ p !! shardIndex (shard_count_ p) symbol);
  match shard_engines shard !! symbol with
  | None => Ok true
  | Some e => checkInvariants (book_ e)
  end.
