(* ===== verification/PartitionedProps.v ===== *)
(** Every symbol of the partitioned engine is served by one deterministic,
    sequential matching engine, whatever the threads do; and a wait for idleness
    that can miss its wake-up. *)

From S2P Require Import Prelude.
From S2P Require Import OrderTypes.
From S2P Require Import OrderBook.
From S2P Require Import BookInvariant.
From S2P Require Import BookQueries.
From S2P Require Import BookCheck.
From S2P Require Import Risk.
From S2P Require Import MatchingEngine.
From S2P Require Import Market.
From S2P Require Import MarketInvariant.
From S2P Require Import Refinement.
From S2P Require Import Session.
From S2P Require Import SessionRuns.
From S2P Require Import MatchFacts.
From S2P Require Import EngineProps.
From S2P Require Import Symbols.
From S2P Require Import LatencyHistogram.
From S2P Require Import Mpmc.
From S2P Require Import Partitioned.

#[local] Open Scope Z_scope.

(** * The threads as steps *)

(** Where a thread is in [enqueueCommand]: past the test of [accepting_], past the
    count, past the queue operation with its outcome; and, back in [submit] or
    [cancel] with [false], about to call [completeRejected]. *)
Inductive Stage : Type := Checked | Counted | Pushed (ok : bool) | Refused.

(** What a worker holds: the command it popped, then also its result. *)
Inductive Hand : Type :=
| Took (c : Command)
| Served (c : Command) (r : PartitionedCommandResult).

(** The system with its threads and its history: the commands in the order their
    queue took them, those run on their engine with their results, and those
    accounted for. *)
Record System : Type := mkSystem {
  engine : PartitionedEngine;
  producers : list (Command * bool * Stage);
  workers : gmap nat Hand;
  entered : list Command;
  served : list (Command * PartitionedCommandResult);
  accounted : list (Command * PartitionedCommandResult)
}.

(** The caller of [enqueueCommand] got [false]: [submit] and [cancel] have a promise
    to set, [enqueue], [enqueueCancel] and [tryEnqueue] return. *)
Definition refused_call (c : Command) (blocking : bool) : list (Command * bool * Stage) :=
  match cmd_completion c with Some _ => [(c, blocking, Refused)] | None => [] end.

(** A client inside a call, or a worker, goes on. *)
Inductive moves (s : System) : System -> Prop :=
| count_command l1 c blocking l2 :
    producers s = l1 ++ (c, blocking, Checked) :: l2 ->
    moves s (mkSystem (count_pending (engine s)) (l1 ++ (c, blocking, Counted) :: l2) (workers s)
               (entered s) (served s) (accounted s))
| push_command l1 c blocking l2 p (ok : bool) :
    producers s = l1 ++ (c, blocking, Counted) :: l2 ->
    queue_push (engine s) c blocking = Ok (Some (ok, p)) ->
    moves s (mkSystem p (l1 ++ (c, blocking, Pushed ok) :: l2) (workers s)
               (if ok then entered s ++ [c] else entered s) (served s) (accounted s))
| settle_command l1 c blocking ok l2 :
    producers s = l1 ++ (c, blocking, Pushed ok) :: l2 ->
    moves s (mkSystem (settle (engine s) ok) (l1 ++ (if ok then [] else refused_call c blocking) ++ l2)
               (workers s) (entered s) (served s) (accounted s))
| reject_command l1 c blocking k l2 :
    producers s = l1 ++ (c, blocking, Refused) :: l2 -> cmd_completion c = Some k ->
    moves s (mkSystem (completeRejected (engine s) k (Order.id (cmd_order c)) (cmd_type c) ENGINE_SHUTTING_DOWN)
               (l1 ++ l2) (workers s) (entered s) (served s) (accounted s))
| take_command i c p :
    workers s !! i = None -> worker_take (engine s) i = Ok (Some (c, p)) ->
    moves s (mkSystem p (producers s) (<[i := Took c]> (workers s))
               (entered s) (served s) (accounted s))
| serve_command i c r p :
    workers s !! i = Some (Took c) -> worker_serve (engine s) i c = Ok (r, p) ->
    moves s (mkSystem p (producers s) (<[i := Served c r]> (workers s))
               (entered s) (served s ++ [(c, r)]) (accounted s))
| account_command i c r now :
    workers s !! i = Some (Served c r) -> is_i64 (now - cmd_enqueued_at c) ->
    moves s (mkSystem (account (engine s) c r now) (producers s) (delete i (workers s))
               (entered s) (served s) (accounted s ++ [(c, r)])).

(** A step of the system: a client calls (its test of [accepting_] succeeds or
    fails), a thread goes on, or [shutdown] does. *)
Inductive pstep (s : System) : System -> Prop :=
| check_accepting c blocking :
    accepting_ (engine s) = true ->
    pstep s (mkSystem (engine s) ((c, blocking, Checked) :: producers s) (workers s)
               (entered s) (served s) (accounted s))
| turn_away c blocking :
    accepting_ (engine s) = false ->
    pstep s (mkSystem (engine s) (refused_call c blocking ++ producers s) (workers s)
               (entered s) (served s) (accounted s))
| thread_moves s' : moves s s' -> pstep s s'
| stop_accepting :
    accepting_ (engine s) = true ->
    pstep s (mkSystem (with_accepting (engine s) false) (producers s) (workers s)
               (entered s) (served s) (accounted s))
| close_queue_of i :
    accepting_ (engine s) = false ->
    pstep s (mkSystem (close_shard (engine s) i) (producers s) (workers s)
               (entered s) (served s) (accounted s)).

Inductive preachable (p : PartitionedEngine) : System -> Prop :=
| preachable_new : preachable p (mkSystem p [] ∅ [] [] [])
| preachable_step s s' : preachable p s -> pstep s s' -> preachable p s'.

(** A queued command as a command of a single engine. *)
Definition as_engine_command (c : Command) : EngineCommand :=
  match cmd_type c with
  | NEW_ORDER => Submit (cmd_order c)
  | CANCEL_ORDER => Cancel (Order.id (cmd_order c))
  end.

(** What was served for a symbol. *)
Definition served_for (symbol : Symbol) (log : list (Command * PartitionedCommandResult)) :
    list (Command * PartitionedCommandResult) :=
  filter (fun x => cmd_symbol x.1 = symbol) log.

Section invariant.
Context (limits : RiskLimits.t) (n : Z).

(** The shard's engine for a symbol has run exactly the symbol's commands. *)
Definition engine_of (log : list (Command * PartitionedCommandResult)) (symbol : Symbol)
    (e : option MatchingEngine) : Prop :=
  match e with
  | None => served_for symbol log = []
  | Some e =>
    run (MatchingEngine_new limits) [] ((fun x => as_engine_command x.1) <$> served_for symbol log)
    = Ok (e, served_for symbol log ≫= (fun x => res_trades x.2),
          (fun x => res_report x.2) <$> served_for symbol log)
  end.

(** The shard a command goes to. *)
Definition shard_of (c : Command) : nat := shardIndex n (cmd_symbol c).

Definition taken_by (s : System) (i : nat) : list Command :=
  match workers s !! i with Some (Took c) => [c] | _ => [] end.
Definition served_by (s : System) (i : nat) : list (Command * PartitionedCommandResult) :=
  match workers s !! i with Some (Served c r) => [(c, r)] | _ => [] end.
Definition queued_at (p : PartitionedEngine) (i : nat) : list Command :=
  default [] (buffer_ ∘ shard_queue <$> shards_ p !! i).
Definition engines_at (p : PartitionedEngine) (i : nat) : gmap Symbol MatchingEngine :=
  default ∅ (shard_engines <$> shards_ p !! i).

(** Commands counted as pending that are not in [entered]. *)
Definition outside (ps : list (Command * bool * Stage)) : Z :=
  sum (fun x => match x.2 with Counted | Pushed false => 1 | _ => 0 end) ps.

Record system_ok (s : System) : Prop := {
  sys_limits : risk_limits_ (engine s) = limits;
  sys_count : shard_count_ (engine s) = n;
  sys_length : length (shards_ (engine s)) = Z.to_nat n;
  sys_fifo i : class shard_of i (entered s)
    = class shard_of i (served s).*1 ++ taken_by s i ++ queued_at (engine s) i;
  sys_accounted i : class (fun x => shard_of x.1) i (served s)
    = class (fun x => shard_of x.1) i (accounted s) ++ served_by s i;
  sys_engines symbol :
    engine_of (served s) symbol (engines_at (engine s) (shardIndex n symbol) !! symbol);
  sys_pending : pending_ (engine s)
    = u64 (outside (producers s) + Z.of_nat (length (entered s)) - Z.of_nat (length (accounted s)))
}.
End invariant.

Lemma serve_apply e out c e' r :
  serve e c = Ok (e', r) ->
  apply_command e out (as_engine_command c) = Ok (e', out ++ res_trades r, [res_report r]).
Proof.
  unfold serve, as_engine_command. destruct (cmd_type c); cbn [apply_command].
  - intros ([[e1 ts] rep] & Hp & [= <- <-])%bind_Ok. rewrite processOrder_out, Hp. done.
  - intros ([e1 rep] & -> & [= <- <-])%bind_Ok. cbn. by rewrite app_nil_r.
Qed.

Lemma served_for_snoc symbol log c r :
  served_for symbol (log ++ [(c, r)])
  = served_for symbol log ++ (if decide (cmd_symbol c = symbol) then [(c, r)] else []).
Proof. unfold served_for. rewrite filter_app. cbn. by case_decide. Qed.

Section steps.
Context (limits : RiskLimits.t) (n : Z).

(** Serving the next command of a symbol extends the symbol's session. *)
Lemma engine_of_snoc log c r e e' symbol :
  engine_of limits log (cmd_symbol c) e ->
  serve (default (MatchingEngine_new limits) e) c = Ok (e', r) -> symbol = cmd_symbol c ->
  engine_of limits (log ++ [(c, r)]) symbol (Some e').
Proof.
  intros He Hs ->. unfold engine_of. rewrite served_for_snoc, decide_True by done.
  rewrite fmap_app, bind_app, fmap_app. cbn [fmap list_fmap mbind list_bind fst snd]. rewrite run_snoc.
  assert (run (MatchingEngine_new limits) []
            ((fun x => as_engine_command x.1) <$> served_for (cmd_symbol c) log)
          = Ok (default (MatchingEngine_new limits) e, served_for (cmd_symbol c) log ≫= (fun x => res_trades x.2),
                (fun x => res_report x.2) <$> served_for (cmd_symbol c) log)) as ->.
  { destruct e as [e|]; [exact He|]. cbn in He. by rewrite He. }
  cbn [mbind result_bind]. rewrite (serve_apply _ _ _ _ _ Hs). cbn [mbind result_bind].
  by rewrite app_nil_r.
Qed.

Lemma engine_of_other log c r e symbol :
  symbol <> cmd_symbol c -> engine_of limits log symbol e -> engine_of limits (log ++ [(c, r)]) symbol e.
Proof.
  intros Hne. unfold engine_of. rewrite served_for_snoc, decide_False by congruence. by rewrite app_nil_r.
Qed.

Lemma at_insert {B} (g : Shard -> B) d (shs : list Shard) i sh0 sh j :
  shs !! i = Some sh0 ->
  default d (g <$> <[i := sh]> shs !! j)
  = if decide (j = i) then g sh else default d (g <$> shs !! j).
Proof.
  intros Hi. case_decide as Hj; [subst|by rewrite list_lookup_insert_ne].
  by rewrite list_lookup_insert_eq by (eapply lookup_lt_Some, Hi).
Qed.

Lemma outside_move l1 x y l2 k :
  outside [y] = outside [x] + k -> outside (l1 ++ y :: l2) = outside (l1 ++ x :: l2) + k.
Proof. unfold outside. autorewrite with sums. lia. Qed.

Lemma outside_app l1 l2 : outside (l1 ++ l2) = outside l1 + outside l2.
Proof. apply sum_app. Qed.

Lemma outside_refused c blocking : outside (refused_call c blocking) = 0.
Proof. unfold refused_call. by case_match. Qed.

Lemma outside_cons x l : outside (x :: l) = outside [x] + outside l.
Proof. apply (outside_app [x]). Qed.

Lemma queue_push_inv p c blocking ok p' :
  queue_push p c blocking = Ok (Some (ok, p')) ->
  let i := shardIndex (shard_count_ p) (cmd_symbol c) in
  exists sh q, shards_ p !! i = Some sh
    /\ p' = with_shards p (<[i := mkShard q (shard_engines sh)]> (shards_ p))
    /\ buffer_ q = buffer_ (shard_queue sh) ++ if ok then [c] else [].
Proof.
  unfold queue_push. intros (sh & Hsh & H)%bind_Ok.
  destruct (shards_ p !! _) as [sh'|] eqn:E; [|done]. injection Hsh as ->.
  injection H as ([ok' q] & Hq & [= -> <-])%bind_Some. exists sh, q. split_and!; [done..|].
  assert (match push (shard_queue sh) c with Some r => r | None => (false, shard_queue sh) end = (ok, q)) as Hp.
  { destruct blocking; [by rewrite Hq|]. injection Hq as Hq. rewrite <- Hq, try_push_spec.
    by destruct (push _ _) as [[]|]. }
  pose proof (push_cases (shard_queue sh) c) as Hc. destruct (push _ _) as [[[] q']|]; injection Hp as <- <-.
  - destruct Hc as (_ & _ & ->). done.
  - destruct Hc as (_ & ->). by rewrite app_nil_r.
  - by rewrite app_nil_r.
Qed.

Lemma worker_take_inv p i c p' :
  worker_take p i = Ok (Some (c, p')) ->
  exists sh q, shards_ p !! i = Some sh
    /\ p' = with_shards p (<[i := mkShard q (shard_engines sh)]> (shards_ p))
    /\ buffer_ (shard_queue sh) = c :: buffer_ q.
Proof.
  unfold worker_take. intros (sh & Hsh & H)%bind_Ok.
  destruct (shards_ p !! _) as [sh'|] eqn:E; [|done]. injection Hsh as ->.
  pose proof (pop_cases (shard_queue sh)) as Hc.
  destruct (pop _) as [[[x|] q]|]; [|done..]. injection H as <- <-.
  destruct Hc as ([rest Hb] & ->). exists sh, (pop_front (shard_queue sh)). split_and!; [done..|].
  cbn. by rewrite Hb.
Qed.

Lemma worker_serve_inv p i c r p' :
  worker_serve p i c = Ok (r, p') ->
  exists sh e, shards_ p !! i = Some sh
    /\ serve (default (MatchingEngine_new (risk_limits_ p)) (shard_engines sh !! cmd_symbol c)) c = Ok (e, r)
    /\ p' = with_shards p (<[i := mkShard (shard_queue sh) (<[cmd_symbol c := e]> (shard_engines sh))]> (shards_ p)).
Proof.
  unfold worker_serve. intros (sh & Hsh & H)%bind_Ok.
  destruct (shards_ p !! _) as [sh'|] eqn:E; [|done]. injection Hsh as ->.
  apply bind_Ok in H as ([e r'] & He & [= -> <-]). by exists sh, e.
Qed.

#[local] Abbreviation ok := (system_ok limits n).

Lemma waiting_shard s i c : ok s -> c ∈ taken_by s i ++ queued_at (engine s) i -> shard_of n c = i.
Proof.
  intros Hok Hc. assert (c ∈ class (shard_of n) i (entered s)) as [? _]%list_elem_of_filter; [|done].
  rewrite (sys_fifo _ _ _ Hok). apply elem_of_app. by right.
Qed.

Lemma result_shard s i c r : ok s -> (c, r) ∈ served_by s i -> shard_of n c = i.
Proof.
  intros Hok Hc.
  assert ((c, r) ∈ class (fun x => shard_of n x.1) i (served s)) as [? _]%list_elem_of_filter; [|done].
  rewrite (sys_accounted _ _ _ Hok). apply elem_of_app. by right.
Qed.

(** Steps that touch neither queues nor engines. *)
Lemma same_shards_ok s p ps :
  ok s -> risk_limits_ p = risk_limits_ (engine s) -> shard_count_ p = shard_count_ (engine s) ->
  length (shards_ p) = length (shards_ (engine s)) ->
  (forall i, queued_at p i = queued_at (engine s) i /\ engines_at p i = engines_at (engine s) i) ->
  pending_ p = u64 (pending_ (engine s) + (outside ps - outside (producers s))) ->
  ok (mkSystem p ps (workers s) (entered s) (served s) (accounted s)).
Proof.
  intros [] Hl Hn Hlen Hs Hp. split; cbn; [by rewrite Hl|by rewrite Hn|by rewrite Hlen|..|].
  - intros i. by rewrite (proj1 (Hs i)).
  - done.
  - intros symbol. by rewrite (proj2 (Hs _)).
  - rewrite Hp, sys_pending0, u64_add_l. f_equal. lia.
Qed.

Lemma push_ok s l1 c blocking l2 p ok' :
  ok s -> producers s = l1 ++ (c, blocking, Counted) :: l2 ->
  queue_push (engine s) c blocking = Ok (Some (ok', p)) ->
  ok (mkSystem p (l1 ++ (c, blocking, Pushed ok') :: l2) (workers s)
        (if ok' then entered s ++ [c] else entered s) (served s) (accounted s)).
Proof.
  intros [] Hps (sh & q & Hsh & -> & Hb)%queue_push_inv. rewrite sys_count0 in *.
  split; cbn; [done|done|by rewrite length_insert| |done| |].
  - intros i. unfold queued_at. cbn. rewrite (at_insert _ _ _ _ _ _ _ Hsh).
    specialize (sys_fifo0 i). unfold taken_by, queued_at in *. cbn in *.
    assert (class (shard_of n) i (if ok' then entered s ++ [c] else entered s)
            = class (shard_of n) i (entered s) ++ if ok' then class (shard_of n) i [c] else []) as ->.
    { destruct ok'; [apply class_app|by rewrite app_nil_r]. }
    rewrite sys_fifo0, <- !app_assoc. case_decide as Hi.
    + subst i. rewrite Hb, Hsh. cbn. do 3 f_equal. destruct ok'; [apply (class_here (shard_of n))|done].
    + f_equal. rewrite class_other by (unfold shard_of; congruence). by destruct ok'; rewrite app_nil_r.
  - intros symbol. unfold engines_at. cbn. rewrite (at_insert _ _ _ _ _ _ _ Hsh).
    specialize (sys_engines0 symbol). unfold engines_at in *. case_decide as Hi; [|done].
    rewrite Hi, Hsh in sys_engines0. done.
  - rewrite sys_pending0. rewrite Hps. f_equal.
    rewrite (outside_move l1 (c, blocking, Counted) (c, blocking, Pushed ok') l2 (if ok' then -1 else 0)) by (by destruct ok').
    destruct ok'; rewrite ?length_app; cbn; lia.
Qed.

Lemma take_ok s i c p :
  ok s -> workers s !! i = None -> worker_take (engine s) i = Ok (Some (c, p)) ->
  ok (mkSystem p (producers s) (<[i := Took c]> (workers s)) (entered s) (served s) (accounted s)).
Proof.
  intros [] Hw (sh & q & Hsh & -> & Hb)%worker_take_inv. split; cbn; [done|done|by rewrite length_insert| | | |done].
  - intros j. rewrite sys_fifo0. f_equal. unfold taken_by, queued_at. cbn.
    rewrite (at_insert _ _ _ _ _ _ _ Hsh). case_decide as Hj.
    + subst j. rewrite lookup_insert_eq, Hw, Hsh. cbn. by rewrite Hb.
    + by rewrite lookup_insert_ne.
  - intros j. rewrite sys_accounted0. f_equal. unfold served_by. cbn.
    destruct (decide (j = i)) as [->|]; [by rewrite lookup_insert_eq, Hw|by rewrite lookup_insert_ne].
  - intros symbol. unfold engines_at. cbn. rewrite (at_insert _ _ _ _ _ _ _ Hsh).
    specialize (sys_engines0 symbol). unfold engines_at in *. case_decide as Hi; [|done].
    rewrite Hi, Hsh in sys_engines0. done.
Qed.

Lemma serve_ok s i c r p :
  ok s -> workers s !! i = Some (Took c) -> worker_serve (engine s) i c = Ok (r, p) ->
  ok (mkSystem p (producers s) (<[i := Served c r]> (workers s)) (entered s) (served s ++ [(c, r)])
        (accounted s)).
Proof.
  intros Hok Hw (sh & e & Hsh & He & ->)%worker_serve_inv.
  assert (shard_of n c = i) as Hc.
  { apply (waiting_shard s); [done|]. unfold taken_by. rewrite Hw. set_solver. }
  destruct Hok. split; cbn; [done|done|by rewrite length_insert| | | |done].
  - intros j. rewrite fmap_app, class_app. specialize (sys_fifo0 j). revert sys_fifo0.
    unfold taken_by, queued_at. cbn. rewrite (at_insert _ _ _ _ _ _ _ Hsh). case_decide as Hj.
    + subst j i. rewrite lookup_insert_eq, Hw, Hsh, class_here. cbn. by rewrite <- app_assoc.
    + rewrite lookup_insert_ne, class_other, app_nil_r by congruence. done.
  - intros j. rewrite class_app, sys_accounted0, <- app_assoc. f_equal. unfold served_by. cbn.
    destruct (decide (j = i)) as [->|].
    + rewrite lookup_insert_eq, Hw. rewrite <- Hc. apply (class_here (fun x => shard_of n x.1) (c, r)).
    + rewrite lookup_insert_ne, class_other, app_nil_r by (cbn; congruence). done.
  - intros symbol. unfold engines_at. cbn. rewrite (at_insert _ _ _ _ _ _ _ Hsh).
    pose proof (sys_engines0 symbol) as Hs. unfold engines_at in Hs.
    destruct (decide (symbol = cmd_symbol c)) as [->|Hne].
    + rewrite decide_True by done. cbn. rewrite lookup_insert_eq.
      unfold shard_of in Hc. rewrite Hc, Hsh in Hs. rewrite sys_limits0 in He.
      by eapply engine_of_snoc.
    + apply engine_of_other; [done|]. case_decide as Hi; [|done].
      cbn. rewrite lookup_insert_ne by done. rewrite Hi, Hsh in Hs. done.
Qed.

Lemma account_ok s i c r now :
  ok s -> workers s !! i = Some (Served c r) ->
  ok (mkSystem (account (engine s) c r now) (producers s) (delete i (workers s)) (entered s) (served s)
        (accounted s ++ [(c, r)])).
Proof.
  intros Hok Hw. assert (shard_of n c = i) as Hc.
  { apply (result_shard s _ _ r); [done|]. unfold served_by. rewrite Hw. set_solver. }
  destruct Hok. split; cbn; [done..| | |done|].
  - intros j. rewrite sys_fifo0. f_equal. unfold taken_by. cbn.
    destruct (decide (j = i)) as [->|]; [by rewrite lookup_delete_eq, Hw|by rewrite lookup_delete_ne].
  - intros j. rewrite sys_accounted0, class_app, <- app_assoc. f_equal. unfold served_by. cbn.
    destruct (decide (j = i)) as [->|].
    + rewrite lookup_delete_eq, Hw, app_nil_r, <- Hc.
      symmetry. apply (class_here (fun x => shard_of n x.1) (c, r)).
    + rewrite lookup_delete_ne, class_other by (cbn; congruence). done.
  - rewrite sys_pending0, u64_sub_l, length_app. f_equal. cbn. lia.
Qed.

Lemma close_shard_same p i j :
  queued_at (close_shard p i) j = queued_at p j /\ engines_at (close_shard p i) j = engines_at p j.
Proof.
  unfold close_shard. destruct (shards_ p !! i) as [sh|] eqn:E; [|done].
  unfold queued_at, engines_at. cbn. rewrite !(at_insert _ _ _ _ _ _ _ E).
  case_decide; [subst j; by rewrite E|done].
Qed.

Lemma close_shard_rest p i :
  risk_limits_ (close_shard p i) = risk_limits_ p /\ shard_count_ (close_shard p i) = shard_count_ p
  /\ length (shards_ (close_shard p i)) = length (shards_ p)
  /\ pending_ (close_shard p i) = pending_ p.
Proof. unfold close_shard. case_match; [|done]. cbn. by rewrite length_insert. Qed.

Lemma settle_same p pushed :
  risk_limits_ (settle p pushed) = risk_limits_ p /\ shard_count_ (settle p pushed) = shard_count_ p
  /\ shards_ (settle p pushed) = shards_ p
  /\ pending_ (settle p pushed) = if pushed then pending_ p else u64 (pending_ p - 1).
Proof. by destruct pushed. Qed.

Lemma pending_kept s : ok s -> pending_ (engine s) = u64 (pending_ (engine s) + 0).
Proof. intros []. by rewrite sys_pending0, u64_add_l, Z.add_0_r. Qed.

Lemma pstep_ok s s' : ok s -> pstep s s' -> ok s'.
Proof.
  intros Hok [c b _|c b _|s2 [l1 c b l2 E|l1 c b l2 p pushed E Hp|l1 c b pushed l2 E|l1 c b k l2 E Hk|i c p|i c r p
    |i c r now Hw _]|_|i _].
  - apply same_shards_ok; try done. rewrite (pending_kept _ Hok) at 1. f_equal.
    unfold outside. rewrite sum_cons. cbn. lia.
  - apply same_shards_ok; try done. rewrite (pending_kept _ Hok) at 1. f_equal.
    rewrite outside_app, outside_refused. lia.
  - apply same_shards_ok; try done. cbn. rewrite E.
    rewrite (outside_move l1 (c, b, Checked) (c, b, Counted) l2 1) by done. f_equal. lia.
  - by apply push_ok.
  - destruct (settle_same (engine s) pushed) as (H1 & H2 & H3 & H4).
    apply same_shards_ok; try done; [by rewrite H3|by unfold queued_at, engines_at; rewrite H3|].
    rewrite H4, E, !outside_app, (outside_cons (c, b, _)).
    destruct pushed; rewrite ?outside_refused; [rewrite (pending_kept _ Hok) at 1|]; f_equal; unfold outside;
      autorewrite with sums; cbn; lia.
  - apply same_shards_ok; try done. cbn. rewrite (pending_kept _ Hok) at 1. f_equal.
    rewrite E, !outside_app, (outside_cons (c, b, _)). change (outside [_]) with 0. lia.
  - by apply take_ok.
  - by apply serve_ok.
  - by apply account_ok.
  - apply same_shards_ok; try done. by rewrite Z.sub_diag, <- (pending_kept _ Hok).
  - destruct (close_shard_rest (engine s) i) as (H1 & H2 & H3 & H4).
    apply same_shards_ok; try done; [apply close_shard_same|].
    by rewrite H4, Z.sub_diag, <- (pending_kept _ Hok).
Qed.

Lemma preachable_ok capacity depth p s :
  PartitionedEngine_new n capacity limits depth = Some p -> preachable p s -> ok s.
Proof.
  intros Hp. induction 1; [|by eapply pstep_ok].
  unfold PartitionedEngine_new in Hp. case_match; [done|].
  apply bind_Some in Hp as (q & Hq & [= <-]). unfold MPMCQueue_new in Hq. case_match; [done|].
  injection Hq as <-. split; cbn; try done; [apply length_replicate|..]; intros;
    unfold queued_at, engines_at; cbn.
  - by destruct (replicate _ _ !! i) as [sh|] eqn:E; [apply lookup_replicate in E as [-> _]|].
  - set (i := shardIndex n symbol).
    by destruct (replicate _ _ !! i) as [sh|] eqn:E; [apply lookup_replicate in E as [-> _]|].
Qed.
End steps.

Lemma serve_total m e c :
  session_ok m e -> Z.of_nat m < max_resting -> command_in_range (as_engine_command c) ->
  exists e' r, serve e c = Ok (e', r).
Proof.
  intros He Hm Hc. pose proof (apply_command_ok m e [] _ He Hm Hc) as Hx.
  destruct (market_apply _ _) as [[m' trades] reports]. destruct Hx as (e' & Ha & _ & _).
  unfold serve, as_engine_command in *. destruct (cmd_type c); cbn in Ha.
  - apply bind_Ok in Ha as ([[e1 out] rep] & -> & _). by eexists _, _.
  - apply bind_Ok in Ha as ([e1 rep] & -> & _). by eexists _, _.
Qed.

Lemma class_fst {B} n i (l : list (Command * B)) :
  class (shard_of n) i l.*1 = (class (fun x => shard_of n x.1) i l).*1.
Proof.
  unfold class. induction l as [|[c r] l IH]; [done|]. rewrite fmap_cons, !filter_cons. cbn.
  case_decide; [by rewrite fmap_cons, IH|done].
Qed.

Lemma outside_bounds ps : 0 <= outside ps <= Z.of_nat (length ps).
Proof.
  unfold outside. induction ps as [|[[c b] st] ps IH]; [done|]. rewrite sum_cons. cbn [length].
  destruct st as [| |[]|]; cbn [snd]; lia.
Qed.

(** * One sequential engine per symbol *)

Section claims.
Context (n capacity depth : Z) (limits : RiskLimits.t) (p : PartitionedEngine) (s : System).
Hypothesis (Hnew : PartitionedEngine_new n capacity limits depth = Some p) (Hs : preachable p s).

(** The engine that serves a symbol now (a fresh one before its first command). *)
Definition engine_for (s : System) (symbol : Symbol) : MatchingEngine :=
  default (MatchingEngine_new limits) (engines_at (engine s) (shardIndex n symbol) !! symbol).

Lemma engine_for_run symbol :
  let log := served_for symbol (served s) in
  run (MatchingEngine_new limits) [] (as_engine_command <$> log.*1)
  = Ok (engine_for s symbol, log ≫= (fun x => res_trades x.2), res_report <$> log.*2).
Proof using Hnew Hs.
  pose proof (sys_engines _ _ _ (preachable_ok _ _ _ _ _ _ Hnew Hs) symbol) as He.
  cbn zeta. rewrite <- !list_fmap_compose. unfold engine_for.
  destruct (engines_at _ _ !! symbol) as [e|]; [exact He|]. cbn in He. by rewrite He.
Qed.

Lemma filter_symbol_class symbol (l : list Command) :
  filter (fun c => cmd_symbol c = symbol) l
  = filter (fun c => cmd_symbol c = symbol) (class (shard_of n) (shardIndex n symbol) l).
Proof.
  unfold class. rewrite list_filter_filter. apply filter_same, Forall_true.
  intros c. unfold shard_of. naive_solver.
Qed.

Lemma served_for_fst symbol log :
  (served_for symbol log).*1 = filter (fun c => cmd_symbol c = symbol) log.*1.
Proof.
  unfold served_for. induction log as [|[c r] log IH]; [done|]. rewrite fmap_cons, !filter_cons.
  cbn. case_decide; [by rewrite fmap_cons, IH|done].
Qed.

(** C6. Determinism under any thread schedule.  At every moment the engine of each
    symbol is exactly what one sequential engine becomes on the commands served
    for that symbol, with the same trades and reports, and those commands are
    served in the order their queue took them, none skipped or repeated. *)
Theorem partitioned_deterministic symbol :
  let log := served_for symbol (served s) in
  run (MatchingEngine_new limits) [] (as_engine_command <$> log.*1)
  = Ok (engine_for s symbol, log ≫= (fun x => res_trades x.2), res_report <$> log.*2)
  /\ log.*1 `prefix_of` filter (fun c => cmd_symbol c = symbol) (entered s).
Proof using Hnew Hs.
  split; [apply engine_for_run|].
  rewrite served_for_fst, (filter_symbol_class symbol (entered s)), filter_symbol_class.
  rewrite (sys_fifo _ _ _ (preachable_ok _ _ _ _ _ _ Hnew Hs)), filter_app. by apply prefix_app_r.
Qed.

Lemma served_entered c : c ∈ (served s).*1 -> c ∈ entered s.
Proof using Hnew Hs.
  intros Hc. assert (c ∈ class (shard_of n) (shard_of n c) (entered s)) as [_ ?]%list_elem_of_filter; [|done].
  rewrite (sys_fifo _ _ _ (preachable_ok _ _ _ _ _ _ Hnew Hs)).
  apply elem_of_app. left. by apply list_elem_of_filter.
Qed.

Lemma engine_for_session symbol :
  RiskLimits.in_range limits ->
  Forall (fun c => command_in_range (as_engine_command c)) (entered s) ->
  Z.of_nat (length (served s)) < max_resting ->
  let log := served_for symbol (served s) in
  let '(m, trades, reports) := market_run (market_new limits) (as_engine_command <$> log.*1) in
  session_ok (length log) (engine_for s symbol) /\ abs (engine_for s symbol) = m
  /\ trades = log ≫= (fun x => res_trades x.2) /\ reports = res_report <$> log.*2
  /\ Z.of_nat (length log) < max_resting.
Proof using Hnew Hs.
  intros Hl Hf Hn. cbn zeta. pose proof (engine_for_run symbol) as Hrun. cbn zeta in Hrun.
  set (log := served_for symbol (served s)) in *.
  assert (Z.of_nat (length log) < max_resting) as Hlen.
  { eapply Z.le_lt_trans; [|exact Hn]. apply inj_le, length_filter. }
  assert (Forall command_in_range (as_engine_command <$> log.*1)) as Hf'.
  { apply Forall_fmap, Forall_forall. intros c Hc. cbn. eapply Forall_forall in Hf; [exact Hf|].
    apply served_entered. unfold log in Hc. rewrite served_for_fst in Hc.
    by apply list_elem_of_filter in Hc as [_ ?]. }
  assert (Z.of_nat (0 + length (as_engine_command <$> log.*1)) <= max_resting) as Hn'.
  { rewrite !length_fmap. cbn. lia. }
  pose proof (run_ok _ 0 _ [] (session_new limits Hl) Hn' Hf') as H.
  change (abs (MatchingEngine_new limits)) with (market_new limits) in H.
  destruct (market_run _ _) as [[m trades] reports]. destruct H as (e & Hr & Hok & Ha).
  rewrite Hr in Hrun. cbn [app Nat.add] in *. rewrite !length_fmap in Hok. by simplify_eq.
Qed.
Lemma land_bound a m : 0 <= m -> 0 <= Z.land a m <= m.
Proof.
  intros Hm. apply Z.ldiff_le; [done|]. apply Z.bits_inj'. intros k _.
  rewrite Z.ldiff_spec, Z.land_spec, Z.bits_0. by destruct (Z.testbit a k), (Z.testbit m k).
Qed.

Lemma shard_exists symbol :
  0 <= n -> exists sh, shards_ (engine s) !! shardIndex n symbol = Some sh.
Proof using Hnew Hs.
  intros Hn. apply lookup_lt_is_Some. rewrite (sys_length _ _ _ (preachable_ok _ _ _ _ _ _ Hnew Hs)).
  assert (n <> 0).
  { intros ->. unfold PartitionedEngine_new in Hnew. by cbn in Hnew. }
  unfold shardIndex. pose proof (land_bound (hash symbol) (n - 1)). lia.
Qed.

Lemma symbol_validates symbol :
  0 <= n -> RiskLimits.in_range limits ->
  Forall (fun c => command_in_range (as_engine_command c)) (entered s) ->
  Z.of_nat (length (served s)) < max_resting ->
  partitioned_validate (engine s) symbol = Ok true.
Proof using Hnew Hs.
  intros Hn Hl Hf Hlen. pose proof (preachable_ok _ _ _ _ _ _ Hnew Hs) as Hok.
  pose proof (engine_for_session symbol Hl Hf Hlen) as He. cbn zeta in He.
  destruct (market_run _ _) as [[m trades] reports]. destruct He as (Hse & _ & _ & _ & Hlog).
  unfold partitioned_validate. rewrite (sys_count _ _ _ Hok).
  destruct (shard_exists symbol Hn) as [sh Hsh]. rewrite Hsh. cbn [defined mbind result_bind].
  unfold engine_for, engines_at in Hse. rewrite Hsh in Hse. cbn in Hse.
  destruct (shard_engines sh !! symbol) as [e|]; [|done]. eapply session_audit; [exact Hse|lia].
Qed.

(** A worker holding a command completes it. *)
Lemma took_served i c :
  0 <= n -> RiskLimits.in_range limits ->
  Forall (fun c => command_in_range (as_engine_command c)) (entered s) ->
  Z.of_nat (length (served s)) < max_resting ->
  workers s !! i = Some (Took c) -> exists r p', worker_serve (engine s) i c = Ok (r, p').
Proof using Hnew Hs.
  intros Hn Hl Hf Hlen Hw. pose proof (preachable_ok _ _ _ _ _ _ Hnew Hs) as Hok.
  assert (c ∈ taken_by s i ++ queued_at (engine s) i) as Hin.
  { unfold taken_by. rewrite Hw. set_solver. }
  pose proof (waiting_shard _ _ _ _ _ Hok Hin) as <-.
  assert (command_in_range (as_engine_command c)) as Hc.
  { eapply Forall_forall in Hf; [exact Hf|]. assert (c ∈ class (shard_of n) (shard_of n c) (entered s))
      as [_ ?]%list_elem_of_filter; [|done].
    rewrite (sys_fifo _ _ _ Hok). set_solver. }
  pose proof (engine_for_session (cmd_symbol c) Hl Hf Hlen) as He. cbn zeta in He.
  destruct (market_run _ _) as [[m trades] reports]. destruct He as (Hse & _ & _ & _ & Hlog).
  destruct (shard_exists (cmd_symbol c) Hn) as [sh Hsh]. unfold worker_serve, shard_of. rewrite Hsh.
  unfold engine_for, engines_at in Hse. rewrite Hsh in Hse. cbn [defined mbind result_bind] in *.
  rewrite (sys_limits _ _ _ Hok). cbn in Hse.
  destruct (serve_total _ _ c Hse Hlog Hc) as (e' & r & ->). by eauto.
Qed.

(** The shards are price-time markets.  If the clients' commands are
    well-typed and fewer than 2^32 have been served, then for every symbol the
    trades and reports handed out are those of the abstract market on the symbol's
    commands, the symbol's engine stands for that market, [validate] answers true,
    and a worker holding a command always completes it. *)
Theorem partitioned_refines_markets :
  0 <= n -> RiskLimits.in_range limits ->
  Forall (fun c => command_in_range (as_engine_command c)) (entered s) ->
  Z.of_nat (length (served s)) < max_resting ->
  (forall symbol,
    let log := served_for symbol (served s) in
    market_run (market_new limits) (as_engine_command <$> log.*1)
    = (abs (engine_for s symbol), log ≫= (fun x => res_trades x.2), res_report <$> log.*2)
    /\ partitioned_validate (engine s) symbol = Ok true)
  /\ (forall i c, workers s !! i = Some (Took c) ->
        exists r p', worker_serve (engine s) i c = Ok (r, p')).
Proof using Hnew Hs.
  intros Hn Hl Hf Hlen. pose proof (preachable_ok _ _ _ _ _ _ Hnew Hs) as Hok.
  split; [intros symbol|intros i c Hw].
  - pose proof (engine_for_session symbol Hl Hf Hlen) as He. cbn zeta in *.
    destruct (market_run _ _) as [[m trades] reports]. destruct He as (Hse & <- & -> & -> & Hlog).
    split; [done|by apply symbol_validates].
  - by eapply took_served.
Qed.

(** Everything that entered is accounted for, waits in a queue or is in a worker's
    hands. *)
Lemma entered_split i :
  class (shard_of n) i (entered s) = class (shard_of n) i (accounted s).*1
    ++ (served_by s i).*1 ++ taken_by s i ++ queued_at (engine s) i.
Proof using Hnew Hs.
  pose proof (preachable_ok _ _ _ _ _ _ Hnew Hs) as Hok.
  rewrite (sys_fifo _ _ _ Hok), !class_fst, (sys_accounted _ _ _ Hok), fmap_app. by rewrite <- app_assoc.
Qed.

Lemma accounted_le i :
  (length (class (shard_of n) i (accounted s).*1) <= length (class (shard_of n) i (entered s)))%nat.
Proof using Hnew Hs. rewrite entered_split, !length_app. lia. Qed.

Lemma idle_all_accounted :
  Z.of_nat (length (producers s)) + Z.of_nat (length (entered s)) < 2 ^ 64 ->
  pending_ (engine s) = 0 -> length (entered s) = length (accounted s).*1.
Proof using Hnew Hs.
  intros Hsmall Hidle. pose proof (preachable_ok _ _ _ _ _ _ Hnew Hs) as Hok.
  pose proof (class_total_le _ _ _ accounted_le) as Htot. pose proof (outside_bounds (producers s)) as Ho.
  rewrite (sys_pending _ _ _ Hok), u64_small in Hidle; rewrite length_fmap in *; range.
Qed.

(** Idleness means drained.  When [pending_] reads zero (the condition
    [waitUntilIdle] waits for, fewer than 2^64 commands having entered), every
    queue is empty, no worker holds a command, and every command that entered a
    queue has been run and accounted for, in queue order. *)
Theorem idle_means_drained :
  Z.of_nat (length (producers s)) + Z.of_nat (length (entered s)) < 2 ^ 64 ->
  pending_ (engine s) = 0 ->
  (forall i, queued_at (engine s) i = [] /\ taken_by s i = [] /\ served_by s i = []
    /\ class (shard_of n) i (accounted s).*1 = class (shard_of n) i (entered s))
  /\ length (accounted s) = length (entered s).
Proof using Hnew Hs.
  intros Hsmall Hidle. pose proof (idle_all_accounted Hsmall Hidle) as Hlen.
  split; [intros i|by rewrite Hlen, length_fmap].
  pose proof (classes_tight _ _ _ accounted_le Hlen i) as Hi. rewrite entered_split, !length_app, length_fmap in Hi.
  assert (queued_at (engine s) i = [] /\ taken_by s i = [] /\ served_by s i = []) as (Hq & Ht & Hv).
  { split_and!; apply nil_length_inv; lia. }
  split_and!; [done..|]. by rewrite entered_split, Hq, Ht, Hv, !app_nil_r.
Qed.
End claims.

(** * Waiting for idleness *)

(** [waitUntilIdle] as its thread sees it: about to test the predicate with
    [idle_mutex_] held, having found it false and still to block on [idle_cv_],
    blocked, returned.  The predicate is an atomic load, and [finishOnePending]
    does not take [idle_mutex_]: a decrement and its [notify_all] can fall between
    the test and the block. *)
Inductive Waiter : Type := Testing | Found_busy | Blocked | Returned.

(** Who makes a step. *)
Inductive Actor : Type := WaiterThread | Finisher | Client | SpuriousWakeup | ShutdownThread.

Record IdleState : Type := mkIdle {
  idle_engine : PartitionedEngine;
  idle_notifies : nat;
  idle_waiter : Waiter
}.

Definition wake (w : Waiter) : Waiter := match w with Blocked => Testing | w => w end.

Inductive istep (s : IdleState) : Actor -> IdleState -> Prop :=
| test_idle :
    idle_waiter s = Testing -> pending_ (idle_engine s) = 0 ->
    istep s WaiterThread (mkIdle (idle_engine s) (idle_notifies s) Returned)
| test_busy :
    idle_waiter s = Testing -> pending_ (idle_engine s) <> 0 ->
    istep s WaiterThread (mkIdle (idle_engine s) (idle_notifies s) Found_busy)
| block :
    idle_waiter s = Found_busy ->
    istep s WaiterThread (mkIdle (idle_engine s) (idle_notifies s) Blocked)
| finish p notify :
    pending_ (idle_engine s) <> 0 -> finishOnePending (idle_engine s) = (p, notify) ->
    istep s Finisher (mkIdle p (if notify then S (idle_notifies s) else idle_notifies s) (idle_waiter s))
| notify_idle k :
    idle_notifies s = S k -> istep s Finisher (mkIdle (idle_engine s) k (wake (idle_waiter s)))
| new_pending :
    istep s Client (mkIdle (count_pending (idle_engine s)) (idle_notifies s) (idle_waiter s))
| spurious :
    idle_waiter s = Blocked ->
    istep s SpuriousWakeup (mkIdle (idle_engine s) (idle_notifies s) Testing)
| shutdown_notify :
    istep s ShutdownThread
      (mkIdle (with_accepting (idle_engine s) false) (idle_notifies s) (wake (idle_waiter s))).

Inductive ireachable (s : IdleState) : IdleState -> Prop :=
| ireachable_here : ireachable s s
| ireachable_step s1 a s2 : ireachable s s1 -> istep s1 a s2 -> ireachable s s2.

(** C39. [waitUntilIdle] can miss the wake-up it waits for: with one command pending
    there is a schedule after which nothing is pending, every [notify_all] has been
    made, and the waiter is blocked; neither it nor any worker has a step left, so
    only a spurious wake-up, a new command or [shutdown] can let it return. *)
Theorem waitUntilIdle_can_miss_wakeup p :
  pending_ p = 1 ->
  exists s, ireachable (mkIdle p 0 Testing) s
    /\ pending_ (idle_engine s) = 0 /\ idle_notifies s = 0%nat /\ idle_waiter s = Blocked
    /\ forall a s', istep s a s' -> a = Client \/ a = SpuriousWakeup \/ a = ShutdownThread.
Proof.
  intros Hp. exists (mkIdle (with_pending p 0) 0 Blocked).
  assert (finishOnePending p = (with_pending p 0, true)) as Hf.
  { unfold finishOnePending. by rewrite Hp. }
  split_and!; try done.
  - pose proof (ireachable_here (mkIdle p 0 Testing)) as R.
    eapply ireachable_step in R; [|apply test_busy; cbn; [done|by rewrite Hp]]. cbn in R.
    eapply ireachable_step in R; [|eapply finish; cbn; [by rewrite Hp|exact Hf]]. cbn in R.
    eapply ireachable_step in R; [|by apply (notify_idle _ 0)]. cbn in R.
    eapply ireachable_step in R; [|by apply block]. exact R.
  - intros a s' Hs. inversion Hs; cbn in *; try done; auto.
Qed.

(** * A concrete run *)

(** Two shards; one symbol's bid meets its ask while another symbol waits. *)
Module Floor.
Definition AAPL : Symbol := symbol_of (Some [65; 65; 80; 76]).
Definition MSFT : Symbol := symbol_of (Some [77; 83; 70; 84]).

Inductive Action : Type :=
| Enqueue (c : Command) (blocking : bool)
| Work (i : nat) (now : Z).

(** One call or worker iteration, without interleaving. *)
Definition act (s : System) (a : Action) : option System :=
  match a with
  | Enqueue c blocking =>
    if accepting_ (engine s) then
      match queue_push (count_pending (engine s)) c blocking with
      | Ok (Some (ok, p)) =>
        Some (mkSystem (settle p ok) ((if ok then [] else refused_call c blocking) ++ producers s) (workers s)
                (if ok then entered s ++ [c] else entered s) (served s) (accounted s))
      | _ => None
      end
    else None
  | Work i now =>
    match workers s !! i, worker_take (engine s) i with
    | None, Ok (Some (c, p)) =>
      match worker_serve p i c with
      | Ok (r, p) =>
        if decide (is_i64 (now - cmd_enqueued_at c)) then
          Some (mkSystem (account p c r now) (producers s)
                  (delete i (<[i := Served c r]> (<[i := Took c]> (workers s))))
                  (entered s) (served s ++ [(c, r)]) (accounted s ++ [(c, r)]))
        else None
      | Fault _ => None
      end
    | _, _ => None
    end
  end.

Lemma act_reachable p s a s' : preachable p s -> act s a = Some s' -> preachable p s'.
Proof.
  intros R. destruct a as [c b|i now]; cbn [act].
  - destruct (accepting_ (engine s)) eqn:Ea; [|done].
    destruct (queue_push _ c b) as [[[ok p']|]|] eqn:E; [|done..]. intros [= <-].
    eapply preachable_step in R; [|by apply (check_accepting _ c b)].
    eapply preachable_step in R; [|by apply thread_moves, (count_command _ [] c b (producers s))].
    eapply preachable_step in R; [|by apply thread_moves, (push_command _ [] c b (producers s) p' ok)].
    eapply preachable_step in R; [|by apply thread_moves, (settle_command _ [] c b ok (producers s))]. exact R.
  - destruct (workers s !! i) eqn:Ew; [done|].
    destruct (worker_take _ i) as [[[c p1]|]|] eqn:E1; [|done..].
    destruct (worker_serve p1 i c) as [[r p2]|] eqn:E2; [|done]. case_decide as Hnow; [|done]. intros [= <-].
    eapply preachable_step in R; [|by apply thread_moves, (take_command _ i c p1)].
    eapply preachable_step in R; [|by apply thread_moves, (serve_command _ i c r p2); cbn; [rewrite lookup_insert_eq|]].
    eapply preachable_step in R; [|by apply thread_moves, (account_command _ i c r now); cbn; [rewrite lookup_insert_eq|]].
    exact R.
Qed.

Definition day : list Action :=
  [Enqueue (new_command AAPL (Scenario.limit 1 SELL 100 10) (Some 0%nat) 5) true;
   Enqueue (new_command MSFT (Scenario.limit 1 BUY 300 7) None 6) false;
   Enqueue (new_command AAPL (Scenario.limit 2 BUY 100 4) (Some 1%nat) 7) true;
   Work (shardIndex 2 AAPL) 10; Work (shardIndex 2 MSFT) 11; Work (shardIndex 2 AAPL) 15].

Definition open : PartitionedEngine :=
  default (mkPartitioned 0 RiskLimits.default [] (TradeLog_new 0) false 0 0 0 0 0 0
             LatencyHistogram_new ∅) (PartitionedEngine_new 2 8 RiskLimits.default 200).
Definition after (script : list Action) : System :=
  played act (mkSystem open [] ∅ [] [] []) script.

Lemma after_reachable script : preachable open (after script).
Proof.
  unfold after. apply played_preserves; [apply act_reachable|constructor].
Qed.
End Floor.

Lemma partitioned_deterministic_witness :
  (served_for Floor.AAPL (served (Floor.after Floor.day))).*1
    `prefix_of` filter (fun c => cmd_symbol c = Floor.AAPL) (entered (Floor.after Floor.day))
  /\ Trade.quantity <$> (served_for Floor.AAPL (served (Floor.after Floor.day))
                          ≫= (fun x => res_trades x.2)) = [4].
Proof.
  split; [|vm_compute; reflexivity].
  exact (proj2 (partitioned_deterministic 2 8 200 RiskLimits.default Floor.open
                  (Floor.after Floor.day) eq_refl (Floor.after_reachable Floor.day) Floor.AAPL)).
Defined.

Lemma partitioned_refines_markets_witness :
  partitioned_validate (engine (Floor.after Floor.day)) Floor.AAPL = Ok true.
Proof.
  refine (proj2 (proj1 (partitioned_refines_markets 2 8 200 RiskLimits.default Floor.open
                  (Floor.after Floor.day) eq_refl (Floor.after_reachable Floor.day)
                  ltac:(lia) ltac:(evaluate) _ _) Floor.AAPL)).
  - evaluate.
  - vm_compute. reflexivity.
Defined.

Lemma idle_means_drained_witness :
  length (accounted (Floor.after Floor.day)) = length (entered (Floor.after Floor.day))
  /\ length (entered (Floor.after Floor.day)) = 3%nat.
Proof.
  split; [|vm_compute; reflexivity].
  refine (proj2 (idle_means_drained 2 8 200 RiskLimits.default Floor.open
                  (Floor.after Floor.day) eq_refl (Floor.after_reachable Floor.day) _ _));
    vm_compute; reflexivity.
Defined.

Lemma waitUntilIdle_can_miss_wakeup_witness :
  exists s, ireachable (mkIdle (count_pending Floor.open) 0 Testing) s
    /\ pending_ (idle_engine s) = 0 /\ idle_waiter s = Blocked.
Proof.
  destruct (waitUntilIdle_can_miss_wakeup (count_pending Floor.open) ltac:(vm_compute; reflexivity))
    as (s & R & Hp & _ & Hw & _).
  by exists s.
Defined.
