(* ===== verification/Sharded.v ===== *)
(** [sharded_engine.hpp]: one mutex per shard around the matching engines.

    [locked_submit] is the block under the shard's mutex; the trades are logged
    after it, one [TradeLog] critical section each, so other threads run in
    between. *)

From S2P Require Import Prelude.
From S2P Require Import OrderTypes.
From S2P Require Import OrderBook.
From S2P Require Import Risk.
From S2P Require Import MatchingEngine.
From S2P Require Import Session.
From S2P Require Import SessionRuns.
From S2P Require Import MatchFacts.
From S2P Require Import EngineProps.
From S2P Require Import Symbols.

#[local] Open Scope Z_scope.

Definition kShardCount : Z := 8.

Record ShardedEngine : Type := mkSharded {
  sharded_shards : list (gmap Symbol MatchingEngine);
  sharded_log : TradeLog
}.

Definition ShardedEngine_new (log_depth : Z) : ShardedEngine :=
  mkSharded (replicate (Z.to_nat kShardCount) ∅) (TradeLog_new log_depth).

Definition shardFor (symbol : Symbol) : nat := Z.to_nat (Z.land (hash symbol) (kShardCount - 1)).

Definition with_engine (s : ShardedEngine) (symbol : Symbol) (engines : gmap Symbol MatchingEngine)
    (e : MatchingEngine) : ShardedEngine :=
  mkSharded (<[shardFor symbol := <[symbol := e]> engines]> (sharded_shards s)) (sharded_log s).

(** Under the shard's mutex: [shard.engines[symbol]], then [submitOrder]. *)
Definition locked_submit (s : ShardedEngine) (symbol : Symbol) (order : Order.t) (out : list Trade.t) :
    result (list Trade.t * ShardedEngine) :=
  engines ← defined (sharded_shards s !! shardFor symbol);
  '(e, out, _) ← submitOrder (default (MatchingEngine_new RiskLimits.default) (engines !! symbol)) order out;
  Ok (out, with_engine s symbol engines e).

Definition record_trade (s : ShardedEngine) (symbol : Symbol) (trade : Trade.t) : ShardedEngine :=
  mkSharded (sharded_shards s) (log_record (sharded_log s) symbol trade).

(** [submit]: the number of new trades, the caller's vector, the engine. *)
Definition sharded_submit (s : ShardedEngine) (symbol : Symbol) (order : Order.t) (out : list Trade.t) :
    result (Z * list Trade.t * ShardedEngine) :=
  let before := length out in
  '(out, s) ← locked_submit s symbol order out;
  Ok (Z.of_nat (length out - before), out,
      foldl (fun s t => record_trade s symbol t) s (drop before out)).

Definition sharded_cancel (s : ShardedEngine) (symbol : Symbol) (order_id : Z) :
    result (bool * ShardedEngine) :=
  engines ← defined (sharded_shards s !! shardFor symbol);
  match engines !! symbol with
  | None => Ok (false, s)
  | Some e => '(e, ok) ← engine_cancelOrder e order_id; Ok (ok, with_engine s symbol engines e)
  end.

Record ShardedSnapshot : Type := mkShardedSnapshot {
  ss_exists : bool; ss_best_bid : option Z; ss_best_ask : option Z; ss_order_count : Z
}.
Definition sharded_snapshot (s : ShardedEngine) (symbol : Symbol) : result ShardedSnapshot :=
  engines ← defined (sharded_shards s !! shardFor symbol);
  Ok (match engines !! symbol with
      | None => mkShardedSnapshot false None None 0
      | Some e => mkShardedSnapshot true (bestBid (book_ e)) (bestAsk (book_ e)) (orderCount (book_ e))
      end).

(** * Threads *)

(** The engine with its history: commands in the order the shard's mutex let them
    in, with the trades of each; trades not yet logged, per thread; trades in the
    order the log took them. *)
Record Arena : Type := mkArena {
  arena : ShardedEngine;
  entered : list (Symbol * EngineCommand * list Trade.t);
  logging : list (Symbol * list Trade.t);
  logged : list (Symbol * Trade.t)
}.

Inductive sstep (s : Arena) : Arena -> Prop :=
| enter_submit symbol order trades s' :
    locked_submit (arena s) symbol order [] = Ok (trades, s') ->
    sstep s (mkArena s' (entered s ++ [(symbol, Submit order, trades)]) ((symbol, trades) :: logging s) (logged s))
| log_trade l1 symbol t ts l2 :
    logging s = l1 ++ (symbol, t :: ts) :: l2 ->
    sstep s (mkArena (record_trade (arena s) symbol t) (entered s) (l1 ++ (symbol, ts) :: l2)
               (logged s ++ [(symbol, t)]))
| enter_cancel symbol order_id ok s' :
    is_Some (sharded_shards (arena s) !! shardFor symbol ≫= lookup symbol) ->
    sharded_cancel (arena s) symbol order_id = Ok (ok, s') ->
    sstep s (mkArena s' (entered s ++ [(symbol, Cancel order_id, [])]) (logging s) (logged s)).

Inductive sreachable (depth : Z) : Arena -> Prop :=
| sreachable_new : sreachable depth (mkArena (ShardedEngine_new depth) [] [] [])
| sreachable_step s s' : sreachable depth s -> sstep s s' -> sreachable depth s'.

Definition of_symbol (symbol : Symbol) (l : list (Symbol * EngineCommand * list Trade.t)) :=
  filter (fun x => x.1.1 = symbol) l.
Definition trades_for (symbol : Symbol) (l : list (Symbol * EngineCommand * list Trade.t)) : list Trade.t :=
  of_symbol symbol l ≫= snd.
Definition unlogged_for (symbol : Symbol) (l : list (Symbol * list Trade.t)) : list Trade.t :=
  filter (fun x => x.1 = symbol) l ≫= snd.
Definition logged_for (symbol : Symbol) (l : list (Symbol * Trade.t)) : list Trade.t :=
  (filter (fun x => x.1 = symbol) l).*2.

Definition engine_at (s : ShardedEngine) (symbol : Symbol) : option MatchingEngine :=
  sharded_shards s !! shardFor symbol ≫= lookup symbol.

Record arena_ok (depth : Z) (s : Arena) : Prop := {
  ar_engine symbol : exists rs,
    run (MatchingEngine_new RiskLimits.default) [] ((fun x => x.1.2) <$> of_symbol symbol (entered s))
    = Ok (default (MatchingEngine_new RiskLimits.default) (engine_at (arena s) symbol),
          trades_for symbol (entered s), rs);
  ar_none symbol : engine_at (arena s) symbol = None -> of_symbol symbol (entered s) = [];
  ar_trades symbol : logged_for symbol (logged s) ++ unlogged_for symbol (logging s)
    ≡ₚ trades_for symbol (entered s);
  ar_log : sharded_log (arena s)
    = foldl (fun log ev => log_record log ev.1 ev.2) (TradeLog_new depth) (logged s)
}.

Lemma engine_at_insert s symbol engines e symbol' :
  sharded_shards s !! shardFor symbol = Some engines ->
  engine_at (with_engine s symbol engines e) symbol'
  = if decide (symbol' = symbol) then Some e else engine_at s symbol'.
Proof.
  intros Hs. unfold engine_at. cbn. destruct (decide (symbol' = symbol)) as [->|Hne].
  - rewrite list_lookup_insert_eq by (eapply lookup_lt_Some, Hs). cbn. apply lookup_insert_eq.
  - destruct (decide (shardFor symbol' = shardFor symbol)) as [E|E].
    + rewrite E, list_lookup_insert_eq by (eapply lookup_lt_Some, Hs). cbn. rewrite Hs. cbn.
      by apply lookup_insert_ne.
    + by rewrite list_lookup_insert_ne.
Qed.

(** One more command under the mutex. *)
Lemma enter_engine s e0 symbol c trades engines e r rs :
  run (MatchingEngine_new RiskLimits.default) [] ((fun x => x.1.2) <$> of_symbol symbol (entered s))
  = Ok (e0, trades_for symbol (entered s), rs) ->
  sharded_shards (arena s) !! shardFor symbol = Some engines ->
  (forall out, apply_command e0 out c = Ok (e, out ++ trades, [r])) ->
  exists rs',
    run (MatchingEngine_new RiskLimits.default) []
      ((fun x => x.1.2) <$> of_symbol symbol (entered s ++ [(symbol, c, trades)]))
    = Ok (default (MatchingEngine_new RiskLimits.default)
            (engine_at (with_engine (arena s) symbol engines e) symbol),
          trades_for symbol (entered s ++ [(symbol, c, trades)]), rs').
Proof.
  intros Hrun Hs Ha. unfold trades_for, of_symbol in *. rewrite filter_app, filter_cons_True by done.
  rewrite fmap_app, bind_app. cbn [fmap list_fmap filter fst snd].
  change (list_filter _ _ []) with (@nil (Symbol * EngineCommand * list Trade.t)). cbn [fmap list_fmap mbind list_bind snd].
  rewrite run_snoc, Hrun. cbn [mbind result_bind]. rewrite Ha. cbn [mbind result_bind].
  rewrite (engine_at_insert _ _ _ _ _ Hs), decide_True by done. cbn. rewrite app_nil_r. by eexists.
Qed.

Lemma of_symbol_other symbol l symbol' c ts :
  symbol' <> symbol -> of_symbol symbol' (l ++ [(symbol, c, ts)]) = of_symbol symbol' l.
Proof.
  intros. unfold of_symbol. rewrite filter_app, filter_cons_False by (cbn; congruence). apply app_nil_r.
Qed.

Lemma trades_for_snoc symbol l c ts : trades_for symbol (l ++ [(symbol, c, ts)]) = trades_for symbol l ++ ts.
Proof.
  unfold trades_for, of_symbol. rewrite filter_app, filter_cons_True, bind_app by done. cbn.
  change (list_filter _ _ []) with (@nil (Symbol * EngineCommand * list Trade.t)). cbn. by rewrite app_nil_r.
Qed.

Lemma enter_ok depth s symbol c trades engines e r logging' :
  arena_ok depth s -> sharded_shards (arena s) !! shardFor symbol = Some engines ->
  (forall out, apply_command (default (MatchingEngine_new RiskLimits.default) (engines !! symbol)) out c
               = Ok (e, out ++ trades, [r])) ->
  (forall symbol', unlogged_for symbol' logging'
     ≡ₚ unlogged_for symbol' (logging s) ++ if decide (symbol' = symbol) then trades else []) ->
  arena_ok depth (mkArena (with_engine (arena s) symbol engines e) (entered s ++ [(symbol, c, trades)]) logging' (logged s)).
Proof.
  intros [He Hn Ht Hl] Hs Ha Hu.
  assert (engine_at (arena s) symbol = engines !! symbol) as Eat by (unfold engine_at; by rewrite Hs).
  split; cbn [arena entered logging logged]; [| | |exact Hl].
  - intros symbol'. destruct (decide (symbol' = symbol)) as [->|Hne].
    + destruct (He symbol) as [rs Hrun]. rewrite Eat in Hrun. by eapply enter_engine.
    + unfold trades_for. rewrite of_symbol_other, (engine_at_insert _ _ _ _ _ Hs), decide_False by done. apply He.
  - intros symbol'. rewrite (engine_at_insert _ _ _ _ _ Hs). case_decide; [done|].
    rewrite of_symbol_other by done. apply Hn.
  - intros symbol'. rewrite Hu. case_decide as E.
    + subst symbol'. by rewrite trades_for_snoc, app_assoc, Ht.
    + unfold trades_for. by rewrite of_symbol_other, app_nil_r by done.
Qed.

Lemma sstep_ok depth s s' : arena_ok depth s -> sstep s s' -> arena_ok depth s'.
Proof.
  intros Hok [symbol order trades s1 Hs|l1 symbol t ts l2 E|symbol i ok s1 Hsome Hs].
  - unfold locked_submit in Hs. apply bind_Ok in Hs as (engines & Hen & Hs).
    destruct (sharded_shards (arena s) !! shardFor symbol) as [engines'|] eqn:Eat; [|done]. injection Hen as ->.
    apply bind_Ok in Hs as ([[e out] n] & Hp & [= -> <-]).
    unfold submitOrder in Hp. apply bind_Ok in Hp as ([[e1 out1] report] & Hp & [= -> -> <-]).
    apply (enter_ok depth s symbol (Submit order) trades engines e report); [done|done| |].
    + intros out. cbn [apply_command]. by rewrite processOrder_out, Hp.
    + intros symbol'. unfold unlogged_for. rewrite filter_cons. case_decide as E1; cbn in E1.
      * cbn. rewrite decide_True by done. apply Permutation_app_comm.
      * rewrite decide_False by congruence. by rewrite app_nil_r.
  - destruct Hok as [He Hn Ht Hl]. split; cbn [arena entered logging logged]; [exact He|exact Hn| |].
    + intros symbol'. rewrite <- Ht, E. unfold logged_for, unlogged_for.
      rewrite !filter_app, fmap_app, !bind_app, !filter_cons. cbn [fst].
      case_decide; cbn; [|by rewrite !app_nil_r]. solve_Permutation.
    + rewrite foldl_app. cbn. by rewrite Hl.
  - unfold sharded_cancel in Hs. apply bind_Ok in Hs as (engines & Hen & Hs).
    destruct (sharded_shards (arena s) !! shardFor symbol) as [engines'|] eqn:Eat; [|done]. injection Hen as ->.
    destruct Hsome as [e0 He0]. cbn in He0. rewrite He0 in Hs.
    apply bind_Ok in Hs as ([e ok1] & Hc & [= -> <-]).
    unfold engine_cancelOrder in Hc. apply bind_Ok in Hc as ([e1 report] & Hc & [= -> <-]).
    apply (enter_ok depth s symbol (Cancel i) [] engines e report); [done|done| |].
    + intros out. rewrite He0. cbn. by rewrite Hc, app_nil_r.
    + intros symbol'. case_decide; by rewrite app_nil_r.
Qed.

Lemma sreachable_ok depth s : sreachable depth s -> arena_ok depth s.
Proof.
  induction 1; [|by eapply sstep_ok]. split; try done. intros symbol. exists [].
  unfold engine_at. cbn [arena sharded_shards ShardedEngine_new].
  by destruct (replicate _ _ !! _) as [m|] eqn:E; [apply lookup_replicate in E as [-> _]|].
Qed.

(** C35. Locking serialises each symbol.  Under any interleaving of threads, the
    engine of a symbol is the sequential engine on the commands in the order they
    got the shard's mutex, with the trades handed to the callers; and the trade log
    has recorded every one of those trades exactly once, except those a thread is
    still about to record. *)
Theorem sharded_serialises depth s symbol :
  sreachable depth s ->
  (exists rs,
    run (MatchingEngine_new RiskLimits.default) [] ((fun x => x.1.2) <$> of_symbol symbol (entered s))
    = Ok (default (MatchingEngine_new RiskLimits.default) (engine_at (arena s) symbol),
          trades_for symbol (entered s), rs))
  /\ logged_for symbol (logged s) ++ unlogged_for symbol (logging s) ≡ₚ trades_for symbol (entered s)
  /\ sharded_log (arena s) = foldl (fun log ev => log_record log ev.1 ev.2) (TradeLog_new depth) (logged s).
Proof. intros []%sreachable_ok. split_and!; eauto. Qed.

(** Two bids against one ask; the second thread logs first. *)
Module Race.
Definition AAPL : Symbol := symbol_of (Some [65; 65; 80; 76]).
Inductive Action : Type := Enter (order : Order.t) | Log (thread : nat).

Definition act (s : Arena) (a : Action) : option Arena :=
  match a with
  | Enter order =>
    match locked_submit (arena s) AAPL order [] with
    | Ok (trades, s') => Some (mkArena s' (entered s ++ [(AAPL, Submit order, trades)])
                                 ((AAPL, trades) :: logging s) (logged s))
    | Fault _ => None
    end
  | Log i =>
    match logging s !! i with
    | Some (symbol, t :: ts) =>
      Some (mkArena (record_trade (arena s) symbol t) (entered s)
              (take i (logging s) ++ (symbol, ts) :: drop (S i) (logging s)) (logged s ++ [(symbol, t)]))
    | _ => None
    end
  end.

Lemma race_act_step s a s' : act s a = Some s' -> sstep s s'.
Proof.
  destruct a as [order|i]; cbn [act].
  - destruct (locked_submit _ _ _ _) as [[trades s1]|] eqn:E; [|done]. intros [= <-]. by apply enter_submit.
  - destruct (logging s !! i) as [[symbol [|t ts]]|] eqn:E; [done| |done]. intros [= <-].
    apply log_trade. symmetry. by apply take_drop_middle.
Qed.

Definition actions : list Action :=
  [Enter (Scenario.limit 1 SELL 100 10); Enter (Scenario.limit 2 BUY 100 4); Enter (Scenario.limit 3 BUY 100 6);
   Log 0; Log 1].
Definition start : Arena := mkArena (ShardedEngine_new 200) [] [] [].
Definition raced : Arena := played act start actions.

Lemma raced_reachable : sreachable 200 raced.
Proof.
  unfold raced. apply played_preserves; [|constructor]. intros s a s' Hs Ha%race_act_step. by eapply sreachable_step.
Qed.
End Race.

Lemma sharded_serialises_witness :
  logged_for Race.AAPL (logged Race.raced) ++ unlogged_for Race.AAPL (logging Race.raced)
    ≡ₚ trades_for Race.AAPL (entered Race.raced)
  /\ length (trades_for Race.AAPL (entered Race.raced)) = 2%nat.
Proof.
  split; [|vm_compute; reflexivity].
  exact (proj1 (proj2 (sharded_serialises 200 Race.raced Race.AAPL Race.raced_reachable))).
Defined.

(** C40. The shared trade log can show executions out of order: the trades are recorded
    after the shard's mutex is released, so a later execution of the same symbol can
    be recorded first; [recent], which promises the oldest first, then returns trade 2
    before trade 1. *)
Theorem sharded_log_can_reorder :
  exists s symbol, sreachable 200 s
    /\ Trade.trade_id <$> trades_for symbol (entered s) = [1; 2]
    /\ Trade.trade_id <$> recent (sharded_log (arena s)) symbol 10 = [2; 1].
Proof.
  exists Race.raced, Race.AAPL. split; [exact Race.raced_reachable|]. split; vm_compute; reflexivity.
Qed.
