(* ===== verification/SharedMemory.v ===== *)
(** [shared_memory.cpp]: who owns which descriptor and mapping.

    The kernel is its tables of files, open descriptors and mappings; whether a
    call succeeds is read off a script.  Objects are numbered, since the move
    operations work on two of them. *)

From stdpp Require Import strings.
From S2P Require Import Prelude.

#[local] Open Scope Z_scope.

(** The outcome of a system call: success, or an [errno] ([Enoent] for the one the
    code distinguishes). *)
Inductive Call : Type := Success | Enoent | Failure.

(** [k_files] maps paths to sizes; descriptors and mappings are handed out by
    [k_next], so that a number is never reused. *)
Record Kernel : Type := mkKernel {
  k_files : gmap string Z;
  k_fds : gmap Z string;
  k_maps : gmap Z Z;
  k_next : Z
}.

(** [addr_ == nullptr] and [fd_ == -1] are [None]. *)
Record SharedMemoryRegion : Type := mkRegionObject {
  addr_ : option Z;
  size_ : Z;
  fd_ : option Z
}.
Definition SharedMemoryRegion_new : SharedMemoryRegion := mkRegionObject None 0 None.

Definition is_mapped (r : SharedMemoryRegion) : bool := bool_decide (is_Some (addr_ r)).

(** [::close] and [::munmap] of something this object holds. *)
Definition sys_close (k : Kernel) (fd : Z) : Kernel :=
  mkKernel (k_files k) (delete fd (k_fds k)) (k_maps k) (k_next k).
Definition sys_munmap (k : Kernel) (addr : Z) : Kernel :=
  mkKernel (k_files k) (k_fds k) (delete addr (k_maps k)) (k_next k).
Definition sys_open (k : Kernel) (path : string) (files : gmap string Z) : Z * Kernel :=
  (k_next k, mkKernel files (<[k_next k := path]> (k_fds k)) (k_maps k) (k_next k + 1)).
Definition sys_mmap (k : Kernel) (size : Z) : Z * Kernel :=
  (k_next k, mkKernel (k_files k) (k_fds k) (<[k_next k := size]> (k_maps k)) (k_next k + 1)).

Definition region_close (k : Kernel) (r : SharedMemoryRegion) : SharedMemoryRegion * Kernel :=
  let '(r, k) := match addr_ r with
                 | Some a => (mkRegionObject None 0 (fd_ r), sys_munmap k a)
                 | None => (r, k)
                 end in
  match fd_ r with
  | Some fd => (mkRegionObject (addr_ r) (size_ r) None, sys_close k fd)
  | None => (r, k)
  end.

(** The result of an operation that can fail: its return value, the object, the
    kernel and the rest of the script. *)
Definition Step : Type := (bool * SharedMemoryRegion * Kernel * list Call)%type.

Definition map_common (script : list Call) (k : Kernel) (r : SharedMemoryRegion) (fd size : Z) : result Step :=
  match script with
  | [] => Fault OutOfFuel
  | Success :: script =>
    let '(a, k) := sys_mmap k size in Ok (true, mkRegionObject (Some a) size (Some fd), k, script)
  | _ :: script => Ok (false, r, sys_close k fd, script)
  end.

Definition create (script : list Call) (k : Kernel) (r : SharedMemoryRegion) (path : string) (size : Z) :
    result Step :=
  let '(r, k) := region_close k r in
  match script with
  | [] => Fault OutOfFuel
  | Success :: script =>
    let '(fd, k) := sys_open k path (<[path := 0]> (k_files k)) in
    match script with
    | [] => Fault OutOfFuel
    | Success :: script =>
      map_common script (mkKernel (<[path := size]> (k_files k)) (k_fds k) (k_maps k) (k_next k)) r fd size
    | _ :: script => Ok (false, r, sys_close k fd, script)
    end
  | _ :: script => Ok (false, r, k, script)
  end.

(** [open]: the file must exist and be large enough. *)
Definition region_open (script : list Call) (k : Kernel) (r : SharedMemoryRegion) (path : string) (size : Z) :
    result Step :=
  let '(r, k) := region_close k r in
  match script, k_files k !! path with
  | [], _ => Fault OutOfFuel
  | Success :: script, Some st_size =>
    let '(fd, k) := sys_open k path (k_files k) in
    match script with
    | [] => Fault OutOfFuel
    | Success :: script =>
      if st_size <? size then Ok (false, r, sys_close k fd, script)
      else map_common script k r fd size
    | _ :: script => Ok (false, r, sys_close k fd, script)
    end
  | _ :: script, _ => Ok (false, r, k, script)
  end.

(** The move constructor: the new object and what is left of [other]. *)
Definition move_construct (other : SharedMemoryRegion) : SharedMemoryRegion * SharedMemoryRegion :=
  (other, SharedMemoryRegion_new).

(** Move assignment of distinct objects. *)
Definition move_assign (k : Kernel) (r other : SharedMemoryRegion) :
    SharedMemoryRegion * SharedMemoryRegion * Kernel :=
  let '(_, k) := region_close k r in (other, SharedMemoryRegion_new, k).

Definition remove_file (call : Call) (k : Kernel) (path : string) : bool * Kernel :=
  match call with
  | Success => (true, mkKernel (delete path (k_files k)) (k_fds k) (k_maps k) (k_next k))
  | Enoent => (true, k)
  | Failure => (false, k)
  end.

(** * A program that uses several objects *)

Inductive RegionOp : Type :=
| Create (i : nat) (path : string) (size : Z)
| Open (i : nat) (path : string) (size : Z)
| Close (i : nat)
| MoveAssign (i j : nat)
| RemoveFile (path : string).

Definition World : Type := (gmap nat SharedMemoryRegion * Kernel * list Call)%type.

Definition object (w : World) (i : nat) : SharedMemoryRegion :=
  default SharedMemoryRegion_new (w.1.1 !! i).

Definition region_step (w : World) (op : RegionOp) : result World :=
  let '(objs, k, script) := w in
  match op with
  | Create i path size =>
    '(_, r, k, script) ← create script k (object w i) path size; Ok (<[i := r]> objs, k, script)
  | Open i path size =>
    '(_, r, k, script) ← region_open script k (object w i) path size; Ok (<[i := r]> objs, k, script)
  | Close i => let '(r, k) := region_close k (object w i) in Ok (<[i := r]> objs, k, script)
  | MoveAssign i j =>
    if decide (i = j) then Ok w
    else
      let '(r, other, k) := move_assign k (object w i) (object w j) in
      Ok (<[i := r]> (<[j := other]> objs), k, script)
  | RemoveFile path =>
    match script with
    | [] => Fault OutOfFuel
    | call :: script => Ok (objs, (remove_file call k path).2, script)
    end
  end.

Fixpoint region_run (w : World) (ops : list RegionOp) : result World :=
  match ops with
  | [] => Ok w
  | op :: ops => w ← region_step w op; region_run w ops
  end.

(** * Ownership *)

Definition obs (objs : gmap nat SharedMemoryRegion) (i : nat) : SharedMemoryRegion :=
  default SharedMemoryRegion_new (objs !! i).

Lemma obs_insert_eq objs i r : obs (<[i := r]> objs) i = r.
Proof. unfold obs. by rewrite lookup_insert_eq. Qed.
Lemma obs_insert_ne objs i j r : i <> j -> obs (<[i := r]> objs) j = obs objs j.
Proof. intros. unfold obs. by rewrite lookup_insert_ne. Qed.

(** Every open descriptor and every mapping belongs to exactly one object, every
    object holds a descriptor and a mapping or neither, and what it holds is open. *)
Record owned (objs : gmap nat SharedMemoryRegion) (k : Kernel) : Prop := {
  own_fd fd : is_Some (k_fds k !! fd) <-> exists i, fd_ (obs objs i) = Some fd;
  own_map a size : k_maps k !! a = Some size
    <-> exists i, addr_ (obs objs i) = Some a /\ size_ (obs objs i) = size;
  own_fd_inj i j fd : fd_ (obs objs i) = Some fd -> fd_ (obs objs j) = Some fd -> i = j;
  own_map_inj i j a : addr_ (obs objs i) = Some a -> addr_ (obs objs j) = Some a -> i = j;
  own_pair i : (is_Some (addr_ (obs objs i)) /\ is_Some (fd_ (obs objs i)))
    \/ obs objs i = SharedMemoryRegion_new;
  own_next_fd fd : is_Some (k_fds k !! fd) -> fd < k_next k;
  own_next_map a : is_Some (k_maps k !! a) -> a < k_next k
}.

Lemma owned_files objs k files next :
  k_next k <= next -> owned objs k -> owned objs (mkKernel files (k_fds k) (k_maps k) next).
Proof. intros Hn []. split; cbn; try done; intros ? H; [apply own_next_fd0 in H|apply own_next_map0 in H]; lia. Qed.

Lemma close_owned objs k i :
  owned objs k ->
  exists k', region_close k (obs objs i) = (SharedMemoryRegion_new, k')
    /\ owned (<[i := SharedMemoryRegion_new]> objs) k' /\ k_files k' = k_files k /\ k_next k' = k_next k.
Proof.
  intros Hk. destruct (own_pair _ _ Hk i) as [[[a Ha] [fd Hfd]]|E].
  - exists (sys_close (sys_munmap k a) fd).
    split; [unfold region_close; rewrite Ha; cbn; by rewrite Hfd|]. split; [|done].
    destruct Hk. split; cbn.
    + intros fd'. rewrite lookup_delete_is_Some, own_fd0. split.
      * intros [Hne [j Hj]]. exists j. rewrite obs_insert_ne; [done|]. intros ->. congruence.
      * intros [j Hj]. destruct (decide (i = j)) as [->|Hij]; [by rewrite obs_insert_eq in Hj|].
        rewrite obs_insert_ne in Hj by done. split; [intros ->; by apply Hij, (own_fd_inj0 _ _ fd')|by exists j].
    + intros a' size. rewrite lookup_delete_Some, own_map0. split.
      * intros [Hne [j Hj]]. exists j. rewrite obs_insert_ne; [done|]. intros ->. destruct Hj. congruence.
      * intros [j Hj]. destruct (decide (i = j)) as [->|Hij]; [rewrite obs_insert_eq in Hj; by destruct Hj|].
        rewrite obs_insert_ne in Hj by done.
        split; [intros ->; destruct Hj; by apply Hij, (own_map_inj0 _ _ a')|by exists j].
    + intros j1 j2 fd'. destruct (decide (i = j1)) as [<-|], (decide (i = j2)) as [<-|];
        rewrite ?obs_insert_eq, ?obs_insert_ne by done; try done. apply own_fd_inj0.
    + intros j1 j2 a'. destruct (decide (i = j1)) as [<-|], (decide (i = j2)) as [<-|];
        rewrite ?obs_insert_eq, ?obs_insert_ne by done; try done. apply own_map_inj0.
    + intros j. destruct (decide (i = j)) as [->|]; [rewrite obs_insert_eq; by right|].
      by rewrite obs_insert_ne.
    + intros fd' [_ H]%lookup_delete_is_Some. by apply own_next_fd0.
    + intros a' [_ H]%lookup_delete_is_Some. by apply own_next_map0.
  - exists k. split; [by rewrite E|]. split; [|done].
    assert (forall j, obs (<[i := SharedMemoryRegion_new]> objs) j = obs objs j) as Ho.
    { intros j. destruct (decide (i = j)) as [->|]; [by rewrite obs_insert_eq|by rewrite obs_insert_ne]. }
    destruct Hk. split; intros; try setoid_rewrite Ho; rewrite ?Ho in *; eauto.
Qed.

(** A fresh descriptor and a fresh mapping for an object that holds nothing. *)
Lemma acquire_owned objs k i path size files n :
  owned objs k -> obs objs i = SharedMemoryRegion_new -> n = k_next k + 1 ->
  owned (<[i := mkRegionObject (Some n) size (Some (k_next k))]> objs)
    (mkKernel files (<[k_next k := path]> (k_fds k)) (<[n := size]> (k_maps k)) (n + 1)).
Proof.
  intros [] Hi ->. assert (k_fds k !! k_next k = None /\ k_maps k !! (k_next k + 1) = None) as [Hf Hm].
  { split; apply eq_None_not_Some; intros H; [apply own_next_fd0 in H|apply own_next_map0 in H]; lia. }
  assert (forall j, fd_ (obs objs j) <> Some (k_next k)) as Hf'.
  { intros j Hj. assert (is_Some (k_fds k !! k_next k)) as [? ?] by (apply own_fd0; by exists j). congruence. }
  assert (forall j, addr_ (obs objs j) <> Some (k_next k + 1)) as Hm'.
  { intros j Hj. assert (k_maps k !! (k_next k + 1) = Some (size_ (obs objs j))) by (apply own_map0; by exists j). congruence. }
  split; cbn.
  - intros fd. rewrite lookup_insert_is_Some, own_fd0. split.
    + intros [<-|[Hne [j Hj]]]; [exists i; by rewrite obs_insert_eq|]. exists j.
      rewrite obs_insert_ne; [done|]. intros ->. by rewrite Hi in Hj.
    + intros [j Hj]. destruct (decide (i = j)) as [->|]; [rewrite obs_insert_eq in Hj; left; by injection Hj|].
      rewrite obs_insert_ne in Hj by done. right. split; [intros <-; by apply (Hf' j)|by exists j].
  - intros a s. rewrite lookup_insert_Some, own_map0. split.
    + intros [[<- <-]|[Hne [j Hj]]]; [exists i; by rewrite obs_insert_eq|]. exists j.
      rewrite obs_insert_ne; [done|]. intros ->. rewrite Hi in Hj. by destruct Hj.
    + intros [j Hj]. destruct (decide (i = j)) as [->|].
      * rewrite obs_insert_eq in Hj. left. destruct Hj as [[= ->] <-]. done.
      * rewrite obs_insert_ne in Hj by done. right. split; [intros <-; by apply (Hm' j), Hj|by exists j].
  - intros j1 j2 fd. destruct (decide (i = j1)) as [<-|], (decide (i = j2)) as [<-|];
      rewrite ?obs_insert_eq, ?obs_insert_ne by done; cbn; try done; [| |apply own_fd_inj0];
      intros H1 H2; simplify_eq; exfalso; by eapply Hf'.
  - intros j1 j2 a. destruct (decide (i = j1)) as [<-|], (decide (i = j2)) as [<-|];
      rewrite ?obs_insert_eq, ?obs_insert_ne by done; cbn; try done; [| |apply own_map_inj0];
      intros H1 H2; simplify_eq; exfalso; by eapply Hm'.
  - intros j. destruct (decide (i = j)) as [->|]; [rewrite obs_insert_eq; left; by split; eexists|].
    rewrite obs_insert_ne by done. apply own_pair0.
  - intros fd [<-|[_ H]]%lookup_insert_is_Some; [lia|]. apply own_next_fd0 in H. lia.
  - intros a [<-|[_ H]]%lookup_insert_is_Some; [lia|]. apply own_next_map0 in H. lia.
Qed.

Lemma fresh_fd objs k : owned objs k -> k_fds k !! k_next k = None.
Proof. intros []. apply eq_None_not_Some. intros H%own_next_fd0. lia. Qed.

(** Opening and closing again leaves nothing behind. *)
Lemma undo_open objs k path files :
  owned objs k ->
  owned objs (sys_close (mkKernel files (<[k_next k := path]> (k_fds k)) (k_maps k) (k_next k + 1)) (k_next k)).
Proof.
  intros Hk. unfold sys_close. cbn. rewrite delete_insert_id by (by eapply fresh_fd).
  apply owned_files; [lia|done].
Qed.

Lemma create_owned objs k i script path size ok r k' script' :
  owned objs k -> create script k (obs objs i) path size = Ok (ok, r, k', script') ->
  owned (<[i := r]> objs) k' /\ ok = is_mapped r
  /\ (ok = true -> size_ r = size /\ k_files k' !! path = Some size)
  /\ (ok = false -> r = SharedMemoryRegion_new).
Proof.
  intros Hk. destruct (close_owned objs k i Hk) as (k1 & E & Hk1 & _ & _). unfold create. rewrite E.
  destruct script as [|[] script]; [done| |intros [= <- <- <- <-]; done..]. cbn [sys_open].
  destruct script as [|[] script]; [done| |intros [= <- <- <- <-];
    by split; [apply undo_open, Hk1|]..].
  unfold map_common. destruct script as [|[] script]; [done| |intros [= <- <- <- <-];
    by split; [apply undo_open, Hk1|]..].
  cbn [sys_mmap k_next k_files k_fds k_maps]. intros [= <- <- <- <-].
  split; [|split_and!; try done; intros _; split; [done|]; cbn; by rewrite lookup_insert_eq].
  rewrite <- (insert_insert_eq objs i _ SharedMemoryRegion_new).
  by apply acquire_owned; [|rewrite obs_insert_eq|].
Qed.

Lemma open_owned objs k i script path size ok r k' script' :
  owned objs k -> region_open script k (obs objs i) path size = Ok (ok, r, k', script') ->
  owned (<[i := r]> objs) k' /\ ok = is_mapped r
  /\ (ok = true -> size_ r = size /\ exists st_size, k_files k !! path = Some st_size /\ size <= st_size)
  /\ (ok = false -> r = SharedMemoryRegion_new).
Proof.
  intros Hk. destruct (close_owned objs k i Hk) as (k1 & E & Hk1 & Hfiles & _). unfold region_open. rewrite E.
  destruct script as [|[] script]; [done| |intros [= <- <- <- <-]; done..].
  destruct (k_files k1 !! path) as [st_size|] eqn:Efile; [|intros [= <- <- <- <-]; done]. cbn [sys_open].
  destruct script as [|[] script]; [done| |intros [= <- <- <- <-];
    by split; [apply undo_open, Hk1|]..].
  destruct (Z.ltb_spec st_size size).
  { intros [= <- <- <- <-]. by split; [apply undo_open, Hk1|]. }
  unfold map_common. destruct script as [|[] script]; [done| |intros [= <- <- <- <-];
    by split; [apply undo_open, Hk1|]..].
  cbn [sys_mmap k_next k_files k_fds k_maps]. intros [= <- <- <- <-].
  split; [|split_and!; try done; intros _; split; [done|]; exists st_size; by rewrite <- Hfiles].
  rewrite <- (insert_insert_eq objs i _ SharedMemoryRegion_new).
  by apply acquire_owned; [|rewrite obs_insert_eq|].
Qed.

(** Which object holds what does not matter. *)
Lemma owned_permute (f : nat -> nat) objs objs' k :
  (forall n, obs objs' n = obs objs (f n)) -> (forall n, f (f n) = n) -> owned objs k -> owned objs' k.
Proof.
  intros Hobs Hinv []. assert (forall i j, f i = f j -> i = j) as Hinj.
  { intros i j E%(f_equal f). by rewrite !Hinv in E. }
  split; try done.
  - intros fd. rewrite own_fd0. split; intros [i Hi].
    + exists (f i). by rewrite Hobs, Hinv.
    + exists (f i). by rewrite <- Hobs.
  - intros a size. rewrite own_map0. split; intros [i Hi].
    + exists (f i). by rewrite Hobs, Hinv.
    + exists (f i). by rewrite <- Hobs.
  - intros i j fd. rewrite !Hobs. intros H1 H2. by eapply Hinj, own_fd_inj0.
  - intros i j a. rewrite !Hobs. intros H1 H2. by eapply Hinj, own_map_inj0.
  - intros i. rewrite !Hobs. apply own_pair0.
Qed.

Lemma move_owned objs k i j :
  i <> j -> owned objs k ->
  let '(r, other, k') := move_assign k (obs objs i) (obs objs j) in owned (<[i := r]> (<[j := other]> objs)) k'.
Proof.
  intros Hij Hk. unfold move_assign. destruct (close_owned objs k i Hk) as (k1 & -> & Hk1 & _).
  apply (owned_permute (fun n => if decide (n = i) then j else if decide (n = j) then i else n)
           (<[i := SharedMemoryRegion_new]> objs)); [| |done].
  - intros n. destruct (decide (n = i)) as [->|]; [by rewrite obs_insert_eq, obs_insert_ne|].
    rewrite obs_insert_ne by done. destruct (decide (n = j)) as [->|]; [by rewrite !obs_insert_eq|].
    by rewrite !obs_insert_ne by done.
  - intros n. repeat case_decide; congruence.
Qed.

Lemma region_step_owned objs k script op objs' k' script' :
  owned objs k -> region_step (objs, k, script) op = Ok (objs', k', script') -> owned objs' k'.
Proof.
  intros Hk. destruct op as [i path size|i path size|i|i j|path]; cbn [region_step].
  - intros ([[[ok r] k1] script1] & Hc & [= <- <- <-])%bind_Ok. by eapply create_owned.
  - intros ([[[ok r] k1] script1] & Hc & [= <- <- <-])%bind_Ok. by eapply open_owned.
  - destruct (close_owned objs k i Hk) as (k1 & E & Hk1 & _).
    change (object _ i) with (obs objs i). rewrite E. by intros [= <- <- <-].
  - case_decide as Hij; [by intros [= <- <- <-]|].
    pose proof (move_owned objs k i j Hij Hk) as Hm. change (object _ i) with (obs objs i).
    change (object _ j) with (obs objs j). destruct (move_assign _ _ _) as [[r other] k1].
    by intros [= <- <- <-].
  - destruct script as [|call script]; [done|]. intros [= <- <- <-].
    destruct call; cbn; [|done..]. by apply (owned_files objs k _ (k_next k)).
Qed.

Lemma owned_nothing files next : owned ∅ (mkKernel files ∅ ∅ next).
Proof.
  assert (forall i, obs ∅ i = SharedMemoryRegion_new) as Ho by done.
  split; cbn; try setoid_rewrite Ho; cbn.
  - intros fd. rewrite lookup_empty. split; [by intros [? ?]|by intros [? ?]].
  - intros a size. rewrite lookup_empty. split; [done|by intros [? [? ?]]].
  - done.
  - done.
  - by right.
  - intros fd. rewrite lookup_empty. by intros [? ?].
  - intros a. rewrite lookup_empty. by intros [? ?].
Qed.


(** The second create runs out of address space, the third object takes over the
    first: one descriptor is left open. *)
Definition takeover : result World :=
  region_run (∅, mkKernel ∅ ∅ ∅ 3, [Success; Success; Success; Success; Success; Failure])
    [Create 0 "a" 64; Create 1 "b" 64; MoveAssign 2 0].

