(* ===== verification/EngineProcess.v ===== *)
(** [matching_engine_main.cpp] and [shared_types.hpp]: the engine process between
    the three shared-memory rings, the journal and the matching engine.

    [startup] is [main] up to the loop, [next_step] what the process does next: a
    loop iteration is cut at the points where a crash or another process can come
    in between - the pop, the idle test, the journal append, the engine call, each push.  A retry
    loop around [try_push] is a step that changes nothing while the ring is full. *)

From stdpp Require Import strings.
From S2P Require Import Prelude.
From S2P Require Import OrderTypes.
From S2P Require Import OrderBook.
From S2P Require Import Risk.
From S2P Require Import MatchingEngine.
From S2P Require Import Journal.
From S2P Require Import Spsc.

#[local] Open Scope Z_scope.

(** [OrderMsgType] is whatever 32-bit value the producer wrote: the process tests
    for [NEW_ORDER] only. *)
Definition MSG_NEW_ORDER : Z := 0.
Definition MSG_CANCEL_ORDER : Z := 1.
Record OrderMsg : Type := mkMsg { msg_type : Z; msg_order : Order.t }.
Definition OrderMsg_default : OrderMsg := mkMsg MSG_NEW_ORDER Order.default.
Definition is_new_order (m : OrderMsg) : bool := msg_type m =? MSG_NEW_ORDER.

Definition kSharedMemoryMagic : Z := 0x4C4F4253505343.
Definition kSharedMemoryVersion : Z := 2.
Definition NOT_READY : Z := 0.
Definition READY : Z := 1.

Module SharedHeader.
Record t : Type := mk {
  magic : Z;
  region_size : Z;
  version : Z;
  state : Z;
  producer_done : Z;
  engine_done : Z;
  best_bid : Z;
  best_ask : Z;
  processed_commands : Z;
  accepted_commands : Z;
  rejected_commands : Z;
  canceled_orders : Z;
  trades_generated : Z;
  last_sequence : Z;
  engine_heartbeat_ns : Z;
  producer_heartbeat_ns : Z;
  viewer_heartbeat_ns : Z
}.
Definition kNoBid : Z := INT64_MIN.
Definition kNoAsk : Z := INT64_MAX.
Definition default : t := mk 0 0 0 NOT_READY 0 0 kNoBid kNoAsk 0 0 0 0 0 0 0 0 0.

Definition with_book (bid ask sequence : Z) (h : t) : t :=
  mk (magic h) (region_size h) (version h) (state h) (producer_done h) (engine_done h) bid ask
    (processed_commands h) (accepted_commands h) (rejected_commands h) (canceled_orders h)
    (trades_generated h) sequence (engine_heartbeat_ns h) (producer_heartbeat_ns h) (viewer_heartbeat_ns h).
Definition with_counters (processed accepted rejected canceled trades : Z) (h : t) : t :=
  mk (magic h) (region_size h) (version h) (state h) (producer_done h) (engine_done h) (best_bid h)
    (best_ask h) processed accepted rejected canceled trades (last_sequence h) (engine_heartbeat_ns h)
    (producer_heartbeat_ns h) (viewer_heartbeat_ns h).
Definition with_identity (m size v : Z) (h : t) : t :=
  mk m size v (state h) (producer_done h) (engine_done h) (best_bid h) (best_ask h)
    (processed_commands h) (accepted_commands h) (rejected_commands h) (canceled_orders h)
    (trades_generated h) (last_sequence h) (engine_heartbeat_ns h) (producer_heartbeat_ns h)
    (viewer_heartbeat_ns h).
Definition with_flags (st producer engine : Z) (h : t) : t :=
  mk (magic h) (region_size h) (version h) st producer engine (best_bid h) (best_ask h)
    (processed_commands h) (accepted_commands h) (rejected_commands h) (canceled_orders h)
    (trades_generated h) (last_sequence h) (engine_heartbeat_ns h) (producer_heartbeat_ns h)
    (viewer_heartbeat_ns h).
Definition with_heartbeat (now : Z) (h : t) : t :=
  mk (magic h) (region_size h) (version h) (state h) (producer_done h) (engine_done h) (best_bid h)
    (best_ask h) (processed_commands h) (accepted_commands h) (rejected_commands h) (canceled_orders h)
    (trades_generated h) (last_sequence h) now (producer_heartbeat_ns h) (viewer_heartbeat_ns h).
(** The heartbeats of the other two programs. *)
Definition with_peers (producer viewer : Z) (h : t) : t :=
  mk (magic h) (region_size h) (version h) (state h) (producer_done h) (engine_done h) (best_bid h)
    (best_ask h) (processed_commands h) (accepted_commands h) (rejected_commands h) (canceled_orders h)
    (trades_generated h) (last_sequence h) (engine_heartbeat_ns h) producer viewer.
Definition with_producer_heartbeat (now : Z) (h : t) : t := with_peers now (viewer_heartbeat_ns h) h.
Definition with_viewer_heartbeat (now : Z) (h : t) : t := with_peers (producer_heartbeat_ns h) now h.
End SharedHeader.

Record SharedRegion : Type := mkRegion {
  header : SharedHeader.t;
  order_queue : SPSCQueue (T := OrderMsg);
  trade_queue : SPSCQueue (T := Trade.t);
  report_queue : SPSCQueue (T := ExecutionReport.t)
}.

(** [Args] of the process. *)
Record Args : Type := mkArgs {
  shared_memory_path : string;
  idle_exit_ms : Z;
  journal_path : string;
  recover : bool;
  sync_journal : bool;
  args_risk_limits : RiskLimits.t
}.

(** Where the process is: at the top of the loop; the pop found nothing and the
    idle test is next; holding a popped message; the message journaled (or no
    journal in use); the engine's results still to be pushed; out of the loop;
    returned from [main]. *)
Inductive Phase : Type :=
| Polling
| Missed
| Popped (m : OrderMsg)
| Journaled (m : OrderMsg)
| Publishing (trades : list Trade.t) (trade_total : Z) (report : ExecutionReport.t)
| Draining (journal_failed : bool)
| Exited (code : Z).

Record Process : Type := mkProcess {
  p_args : Args;
  p_engine : MatchingEngine;
  p_journal : EventJournal;
  p_fs : FileSystem;
  p_region : SharedRegion;
  p_phase : Phase
}.

(** What the process observes of its environment in a step: [g_stop], the
    milliseconds since the last message, the clock, whether a heartbeat is due. *)
Record Env : Type := mkEnv { g_stop : bool; idle_for : Z; now_ns : Z; heartbeat_due : bool }.

Section process.
(** The three rings have the same capacity, [2 ^ 16] in the source. *)
Context (bits : nat).

Definition SharedRegion_new : SharedRegion :=
  mkRegion SharedHeader.default (SPSCQueue_new bits OrderMsg_default)
    (SPSCQueue_new bits (Trade.mk 0 0 0 0 0 0)) (SPSCQueue_new bits ExecutionReport.default).

Definition with_header (f : SharedHeader.t -> SharedHeader.t) (r : SharedRegion) : SharedRegion :=
  mkRegion (f (header r)) (order_queue r) (trade_queue r) (report_queue r).

Definition publishBook (e : MatchingEngine) : SharedRegion -> SharedRegion :=
  with_header (SharedHeader.with_book (default SharedHeader.kNoBid (bestBid (book_ e)))
                 (default SharedHeader.kNoAsk (bestAsk (book_ e))) (sequence_ e)).

(** The counters after a published report. *)
Definition count_report (report : ExecutionReport.t) (trade_total : Z) (h : SharedHeader.t) : SharedHeader.t :=
  let acc := ExecutionReport.accepted report in
  SharedHeader.with_counters
    (u64 (SharedHeader.processed_commands h + 1))
    (if acc then u64 (SharedHeader.accepted_commands h + 1) else SharedHeader.accepted_commands h)
    (if acc then SharedHeader.rejected_commands h else u64 (SharedHeader.rejected_commands h + 1))
    (if bool_decide (ExecutionReport.status report = CANCELED)
     then u64 (SharedHeader.canceled_orders h + 1) else SharedHeader.canceled_orders h)
    (u64 (SharedHeader.trades_generated h + trade_total)) h.

(** * [main] up to the loop *)

Inductive Outcome : Type :=
| Returned (code : Z)
| Running (p : Process).

(** The region once it is mapped and its header written, up to [state = READY]. *)
Definition initial_region (e : MatchingEngine) (replayed : JournalReplayResult) (region_size now : Z) :
    SharedRegion :=
  let r := with_header (SharedHeader.with_identity kSharedMemoryMagic region_size kSharedMemoryVersion)
             SharedRegion_new in
  let r := with_header (SharedHeader.with_heartbeat now) r in
  let r := with_header (SharedHeader.with_counters (replay_records replayed) (replay_accepted replayed)
             (replay_rejected replayed) (canceled_orders_ e) (tradeCount e)) r in
  with_header (SharedHeader.with_flags READY 0 0) (publishBook e r).

(** [mapped] is what [region.create] returned, [region_size] is
    [sizeof(SharedRegion)]. *)
Definition startup (script : list Sys) (fs : FileSystem) (args : Args) (mapped : bool)
    (region_size now : Z) : result (Outcome * FileSystem * list Sys) :=
  let e := MatchingEngine_new (args_risk_limits args) in
  '(e, replayed, script) ←
    (if recover args then replay script fs (journal_path args) e
     else Ok (e, JournalReplayResult_default, script));
  if recover args && negb (replay_ok replayed) then Ok (Returned 1, fs, script)
  else
    '(opened, journal, fs, script) ←
      (if bool_decide (journal_path args = ""%string) then Ok (true, EventJournal_new, fs, script)
       else journal_open script fs EventJournal_new (journal_path args)
              (if recover args then APPEND else TRUNCATE)
              (if sync_journal args then FDATASYNC_EACH_RECORD else BUFFERED));
    if negb opened || negb mapped then Ok (Returned 1, fs, script)
    else
      Ok (Running (mkProcess args e journal fs (initial_region e replayed region_size now) Polling),
          fs, script).

(** * The loop *)

Definition at_phase (p : Process) (ph : Phase) : Process :=
  mkProcess (p_args p) (p_engine p) (p_journal p) (p_fs p) (p_region p) ph.
Definition with_region (p : Process) (r : SharedRegion) (ph : Phase) : Process :=
  mkProcess (p_args p) (p_engine p) (p_journal p) (p_fs p) r ph.

Definition poll (env : Env) (p : Process) : result Process :=
  if g_stop env then Ok (at_phase p (Draining false))
  else
    let r := if heartbeat_due env
             then with_header (SharedHeader.with_heartbeat (now_ns env)) (p_region p) else p_region p in
    '(message, q) ← try_pop bits (order_queue r);
    let r := mkRegion (header r) q (trade_queue r) (report_queue r) in
    Ok (with_region p r (match message with Some m => Popped m | None => Missed end)).

(** [if (!got_one)]: leave the loop when the producer is done and the process has
    been idle for long enough. *)
Definition idle_check (env : Env) (p : Process) : Process :=
  at_phase p
    (if (0 <? idle_exit_ms (p_args p)) && negb (SharedHeader.producer_done (header (p_region p)) =? 0)
        && (idle_exit_ms (p_args p) <? idle_for env)
     then Draining false else Polling).

Definition journal_message (script : list Sys) (p : Process) (m : OrderMsg) :
    result (Process * list Sys) :=
  if negb (isOpen (p_journal p)) then Ok (at_phase p (Journaled m), script)
  else
    '(journaled, j, fs, script) ←
      (if is_new_order m then appendNewOrder script (p_fs p) (p_journal p) (msg_order m)
       else appendCancel script (p_fs p) (p_journal p) (Order.id (msg_order m)));
    Ok (mkProcess (p_args p) (p_engine p) j fs (p_region p)
          (if (journaled : bool) then Journaled m else Draining true), script).

Definition apply_message (p : Process) (m : OrderMsg) : result Process :=
  '(e, trades, report) ←
    (if is_new_order m then processOrder (p_engine p) (msg_order m) []
     else '(e, report) ← cancel (p_engine p) (Order.id (msg_order m)); Ok (e, [], report));
  Ok (mkProcess (p_args p) e (p_journal p) (p_fs p) (p_region p)
        (Publishing trades (Z.of_nat (length trades)) report)).

Definition publish (p : Process) (trades : list Trade.t) (trade_total : Z) (report : ExecutionReport.t) :
    Process :=
  let r := p_region p in
  match trades with
  | trade :: rest =>
    let '(ok, q) := try_push bits (trade_queue r) trade in
    with_region p (mkRegion (header r) (order_queue r) q (report_queue r))
      (Publishing (if (ok : bool) then rest else trades) trade_total report)
  | [] =>
    let '(ok, q) := try_push bits (report_queue r) report in
    let r := mkRegion (header r) (order_queue r) (trade_queue r) q in
    if (ok : bool)
    then with_region p (publishBook (p_engine p) (with_header (count_report report trade_total) r)) Polling
    else with_region p r (Publishing [] trade_total report)
  end.

(** After the loop: the final [sync], [engine_done], the exit code. *)
Definition drain (script : list Sys) (env : Env) (p : Process) (journal_failed : bool) :
    result (Process * list Sys) :=
  '(failed, j, script) ←
    (if isOpen (p_journal p) && negb (sync_journal (p_args p))
     then '(ok, j, script) ← sync script (p_journal p); Ok (journal_failed || negb ok, j, script)
     else Ok (journal_failed, p_journal p, script));
  let r := with_header (fun h => SharedHeader.with_flags (SharedHeader.state h)
                                   (SharedHeader.producer_done h) 1
                                   (SharedHeader.with_heartbeat (now_ns env) h)) (p_region p) in
  Ok (mkProcess (p_args p) (p_engine p) j (p_fs p) r (Exited (if (failed : bool) then 2 else 0)), script).

Definition next_step (script : list Sys) (env : Env) (p : Process) : result (Process * list Sys) :=
  match p_phase p with
  | Polling => p ← poll env p; Ok (p, script)
  | Missed => Ok (idle_check env p, script)
  | Popped m => journal_message script p m
  | Journaled m => p ← apply_message p m; Ok (p, script)
  | Publishing trades trade_total report => Ok (publish p trades trade_total report, script)
  | Draining journal_failed => drain script env p journal_failed
  | Exited _ => Ok (p, script)
  end.
End process.
