(* ===== verification/Arguments.v ===== *)
(** What the [main] functions share: decimal numbers as [strtoull] and [strtoll]
    read them, and the loop over [argv].  A call of [std::exit] is [Exit]. *)

From stdpp Require Import strings.
From Stdlib Require Import Wf_nat.
From S2P Require Import Prelude.

#[local] Open Scope Z_scope.

(** * Numbers *)

Definition char_code (c : Ascii.ascii) : Z := Z.of_nat (Ascii.nat_of_ascii c).
Definition is_space (c : Ascii.ascii) : bool :=
  (char_code c =? 32) || ((9 <=? char_code c) && (char_code c <=? 13)).
Definition is_digit (c : Ascii.ascii) : bool := (48 <=? char_code c) && (char_code c <=? 57).
Definition digit_value (c : Ascii.ascii) : Z := char_code c - 48.

Fixpoint skip_spaces (s : string) : string :=
  match s with
  | String c rest => if is_space c then skip_spaces rest else s
  | EmptyString => s
  end.

(** An optional sign: whether it is a minus, and what follows. *)
Definition read_sign (s : string) : bool * string :=
  match s with
  | String c rest =>
    if char_code c =? 45 then (true, rest) else if char_code c =? 43 then (false, rest) else (false, s)
  | EmptyString => (false, s)
  end.

(** The longest run of digits: how many, their value after [acc], the rest. *)
Fixpoint read_digits (acc : Z) (s : string) : nat * Z * string :=
  match s with
  | String c rest =>
    if is_digit c then
      let '(n, v, r) := read_digits (acc * 10 + digit_value c) rest in (S n, v, r)
    else (0%nat, acc, s)
  | EmptyString => (0%nat, acc, s)
  end.

(** The subject sequence of [strtoull] and [strtoll] in base 10: sign, magnitude
    and [end]; [None] when no conversion is performed ([end == value]). *)
Definition strto (value : string) : option (bool * Z * string) :=
  let '(minus, s) := read_sign (skip_spaces value) in
  let '(n, v, r) := read_digits 0 s in
  match n with O => None | S _ => Some (minus, v, r) end.

(** [ERANGE] when the magnitude does not fit; a minus sign negates modulo [2 ^ 64]. *)
Definition strtoull (value : string) : option (Z * string) :=
  '(minus, v, rest) ← strto value;
  if UINT64_MAX <? v then None else Some (if (minus : bool) then u64 (- v) else v, rest).

Definition starts_with_minus (value : string) : bool :=
  match value with String c _ => char_code c =? 45 | EmptyString => false end.

(** [parseU64] of [feed_handler.cpp], [journal_replay_main.cpp] and
    [partitioned_matching_main.cpp]. *)
Definition parseU64_unsigned (value : string) : option Z :=
  '(v, rest) ← strtoull value;
  if negb (bool_decide (rest = ""%string)) || starts_with_minus value then None else Some v.

(** * The loop over [argv] *)

(** [parseArgs] returns, or the process exits. *)
Inductive Parsed (A : Type) : Type :=
| Parsed_args (args : A)
| Exit (code : Z).
Arguments Parsed_args {A} _.
Arguments Exit {A} _.

Section flags.
Context {A : Type}.

(** [plain] handles the flags without a value, [valued] those that take one ([None]:
    not such a flag), [other] anything else. *)
Context (plain : string -> A -> option (Parsed A))
  (valued : string -> option (string -> A -> option A))
  (other : string -> A -> Parsed A).

Fixpoint parse_flags (argv : list string) (a : A) : Parsed A :=
  match argv with
  | [] => Parsed_args a
  | flag :: rest =>
    match plain flag a with
    | Some (Parsed_args a) => parse_flags rest a
    | Some (Exit code) => Exit code
    | None =>
      match valued flag with
      | Some set =>
        match rest with
        | [] => Exit 1
        | value :: rest => match set value a with Some a => parse_flags rest a | None => Exit 1 end
        end
      | None => match other flag a with Parsed_args a => parse_flags rest a | Exit code => Exit code end
      end
    end
  end.

(** What every flag preserves, the arguments have. *)
Lemma parse_flags_ok (P : A -> Prop) :
  (forall flag a a', P a -> plain flag a = Some (Parsed_args a') -> P a') ->
  (forall flag set value a a', P a -> valued flag = Some set -> set value a = Some a' -> P a') ->
  (forall flag a a', P a -> other flag a = Parsed_args a' -> P a') ->
  forall argv a a', P a -> parse_flags argv a = Parsed_args a' -> P a'.
Proof.
  intros Hp Hv Ho argv. induction argv as [argv IH] using (induction_ltof1 _ length).
  destruct argv as [|flag rest]; intros a a' Ha; cbn [parse_flags]; [by intros [= <-]|].
  destruct (plain flag a) as [[a1|]|] eqn:Ep; [|done|].
  { apply IH; [unfold ltof; cbn; lia|by eapply Hp]. }
  destruct (valued flag) as [set|] eqn:Ev.
  - destruct rest as [|value rest]; [done|]. destruct (set value a) as [a1|] eqn:Es; [|done].
    apply IH; [unfold ltof; cbn; lia|by eapply Hv].
  - destruct (other flag a) as [a1|] eqn:Eo; [|done]. apply IH; [unfold ltof; cbn; lia|by eapply Ho].
Qed.
End flags.

(** * What the numbers are *)

Fixpoint text (l : list Ascii.ascii) (rest : string) : string :=
  match l with [] => rest | c :: l => String c (text l rest) end.

Definition decimal (acc : Z) (ds : list Ascii.ascii) : Z :=
  foldl (fun acc c => acc * 10 + digit_value c) acc ds.

Definition minus_sign : list Ascii.ascii := [Ascii.ascii_of_nat 45].
Definition plus_sign : list Ascii.ascii := [Ascii.ascii_of_nat 43].

(** [value] is spaces, an optional sign and digits, with nothing after. *)
Record numeral (value : string) (minus : bool) (magnitude : Z) : Prop := {
  num_parts : exists spaces sign ds,
    value = text spaces (text sign (text ds "")) /\ Forall is_space spaces
    /\ (if minus then sign = minus_sign else sign = [] \/ sign = plus_sign)
    /\ Forall is_digit ds /\ ds <> [] /\ magnitude = decimal 0 ds
}.

Lemma skip_spaces_split s : exists sp, s = text sp (skip_spaces s) /\ Forall is_space sp.
Proof.
  induction s as [|c s IH]; cbn; [by exists []|]. destruct (is_space c) eqn:E; [|by exists []].
  destruct IH as (sp & Hs & Hsp). exists (c :: sp). cbn. split; [by f_equal|constructor; [by rewrite E|done]].
Qed.

Lemma skip_spaces_text sp s :
  Forall is_space sp -> match s with String c _ => is_space c = false | EmptyString => True end ->
  skip_spaces (text sp s) = s.
Proof.
  intros Hsp Hs. induction Hsp as [|c sp Hc _ IH]; cbn.
  - destruct s as [|c s]; [done|]. cbn. by rewrite Hs.
  - by rewrite (Is_true_true_1 _ Hc).
Qed.

Lemma read_digits_split s : forall acc n v r,
  read_digits acc s = (n, v, r) ->
  exists ds, s = text ds r /\ Forall is_digit ds /\ v = decimal acc ds /\ n = length ds.
Proof.
  induction s as [|c s IH]; intros acc n v r; cbn; [intros [= <- <- <-]; by exists []|].
  destruct (is_digit c) eqn:E; [|intros [= <- <- <-]; by exists []].
  destruct (read_digits _ s) as [[n' v'] r'] eqn:Er. intros [= <- <- <-].
  apply IH in Er as (ds & -> & Hds & -> & ->). exists (c :: ds).
  split_and!; [done|constructor; [by rewrite E|done]|done|done].
Qed.

Lemma read_digits_text ds : forall acc, Forall is_digit ds ->
  read_digits acc (text ds "") = (length ds, decimal acc ds, ""%string).
Proof.
  induction ds as [|c ds IH]; intros acc; [done|]. intros [Hc Hds]%Forall_cons. cbn.
  rewrite (Is_true_true_1 _ Hc), IH by done. done.
Qed.

Lemma digit_not_sign c : is_digit c -> is_space c = false /\ (char_code c =? 45) = false /\ (char_code c =? 43) = false.
Proof. unfold is_digit, is_space. intros H%Is_true_true_1. lia. Qed.

Lemma read_sign_split s minus r :
  read_sign s = (minus, r) ->
  exists sign, s = text sign r /\ if minus then sign = minus_sign else sign = [] \/ sign = plus_sign.
Proof.
  destruct s as [|c s]; cbn; [intros [= <- <-]; exists []; by split; [|left]|].
  assert (forall k, char_code c = Z.of_nat k -> (k < 256)%nat -> c = Ascii.ascii_of_nat k) as Hcode.
  { intros k Hk _. unfold char_code in Hk. apply Nat2Z.inj in Hk. by rewrite <- Hk, Ascii.ascii_nat_embedding. }
  destruct (Z.eqb_spec (char_code c) 45) as [E|].
  { intros [= <- <-]. apply (Hcode 45%nat) in E as ->; [|lia]. by exists minus_sign. }
  destruct (Z.eqb_spec (char_code c) 43) as [E|]; intros [= <- <-].
  - apply (Hcode 43%nat) in E as ->; [|lia]. exists plus_sign. by split; [|right].
  - exists []. by split; [|left].
Qed.

Lemma strto_numeral value minus v : strto value = Some (minus, v, ""%string) <-> numeral value minus v.
Proof.
  unfold strto. split.
  - destruct (read_sign _) as [m s] eqn:Es, (read_digits 0 s) as [[n v'] r] eqn:Ed.
    destruct n as [|n]; [done|]. intros [= <- <- ->].
    destruct (skip_spaces_split value) as (sp & Hv & Hsp).
    apply read_sign_split in Es as (sign & Hs & Hsign). apply read_digits_split in Ed as (ds & -> & Hds & -> & Hn).
    split. exists sp, sign, ds. rewrite <- Hs, <- Hv. split_and!; try done. by intros ->.
  - intros [(sp & sign & ds & -> & Hsp & Hsign & Hds & Hne & ->)].
    destruct ds as [|c ds]; [done|]. pose proof Hds as [Hc _]%Forall_cons.
    destruct (digit_not_sign c Hc) as (Hc1 & Hc2 & Hc3).
    rewrite skip_spaces_text; [|done|]; cycle 1.
    { destruct minus; [by rewrite Hsign|]. destruct Hsign as [-> | ->]; done. }
    assert (read_sign (text sign (text (c :: ds) "")) = (minus, text (c :: ds) "")) as ->.
    { destruct minus; [by rewrite Hsign|]. destruct Hsign as [-> | ->]; [|done]. cbn. by rewrite Hc2, Hc3. }
    by rewrite read_digits_text.
Qed.

Lemma decimal_nonneg ds : forall acc, 0 <= acc -> Forall is_digit ds -> 0 <= decimal acc ds.
Proof.
  induction ds as [|c ds IH]; intros acc Ha; [done|]. intros [Hc Hds]%Forall_cons. cbn. apply IH; [|done].
  unfold is_digit in Hc. apply Is_true_true_1 in Hc. unfold digit_value. lia.
Qed.

Lemma strtoull_range value v rest : strtoull value = Some (v, rest) -> is_u64 v.
Proof.
  unfold strtoull, strto. destruct (read_sign _) as [m s], (read_digits 0 s) as [[n d] r] eqn:Ed.
  apply read_digits_split in Ed as (ds & _ & Hds & -> & _). destruct n; cbn; [done|].
  destruct (Z.ltb_spec UINT64_MAX (decimal 0 ds)) as [|Hm]; [done|]. intros [= <- <-].
  pose proof (decimal_nonneg ds 0 ltac:(lia) Hds). unfold UINT64_MAX in Hm.
  destruct m; [apply u64_range|range].
Qed.

Lemma parseU64_unsigned_range value v : parseU64_unsigned value = Some v -> is_u64 v.
Proof.
  unfold parseU64_unsigned. intros ([w rest] & Hs%strtoull_range & Hv)%bind_Some. case_match; [done|].
  by injection Hv as <-.
Qed.
