(* ===== verification/CommandLine.v ===== *)
(** The command line of [matching_engine_main.cpp]: [parseU64], [parseI64] and
    [parseArgs].  A call of [std::exit(1)] is [None]. *)

From stdpp Require Import strings.
From Stdlib Require Import Wf_nat.
From S2P Require Import Prelude.
From S2P Require Import Arguments.
From S2P Require Import Risk.
From S2P Require Import EngineProcess.

#[local] Open Scope Z_scope.

(** * Numbers *)

Definition parseU64 (value : string) : option Z :=
  '(v, rest) ← strtoull value;
  if negb (bool_decide (rest = ""%string)) then None else Some v.

Definition parseI64 (value : string) : option Z :=
  '(minus, v, rest) ← strto value;
  let v := if (minus : bool) then - v else v in
  if bool_decide (is_i64 v) && bool_decide (rest = ""%string) then Some v else None.

(** [static_cast<int>] of an [int64_t]. *)
Definition to_int (z : Z) : Z := (z + 2 ^ 31) mod 2 ^ 32 - 2 ^ 31.

(** * Arguments *)

Definition Args_default : Args :=
  mkArgs "/tmp/lob_shared_memory.dat" 2000 "" false false RiskLimits.default.

Definition set_limits (f : RiskLimits.t -> RiskLimits.t) (a : Args) : Args :=
  mkArgs (shared_memory_path a) (idle_exit_ms a) (journal_path a) (recover a) (sync_journal a)
    (f (args_risk_limits a)).

(** What a flag that takes a value does with it. *)
Definition value_flag (flag value : string) (a : Args) : option (option Args) :=
  if bool_decide (flag = "--path"%string) then
    Some (Some (mkArgs value (idle_exit_ms a) (journal_path a) (recover a) (sync_journal a) (args_risk_limits a)))
  else if bool_decide (flag = "--idle-exit-ms"%string) then
    Some (v ← parseI64 value;
          Some (mkArgs (shared_memory_path a) (to_int v) (journal_path a) (recover a) (sync_journal a)
                  (args_risk_limits a)))
  else if bool_decide (flag = "--journal"%string) then
    Some (Some (mkArgs (shared_memory_path a) (idle_exit_ms a) value (recover a) (sync_journal a)
                  (args_risk_limits a)))
  else if bool_decide (flag = "--max-order-qty"%string) then
    Some (v ← parseU64 value;
          if UINT32_MAX <? v then None
          else Some (set_limits (fun l => RiskLimits.mk v (RiskLimits.min_limit_price l)
                 (RiskLimits.max_limit_price l) (RiskLimits.max_order_notional l) (RiskLimits.max_active_orders l)) a))
  else if bool_decide (flag = "--min-price"%string) then
    Some (v ← parseI64 value;
          Some (set_limits (fun l => RiskLimits.mk (RiskLimits.max_order_quantity l) v
                 (RiskLimits.max_limit_price l) (RiskLimits.max_order_notional l) (RiskLimits.max_active_orders l)) a))
  else if bool_decide (flag = "--max-price"%string) then
    Some (v ← parseI64 value;
          Some (set_limits (fun l => RiskLimits.mk (RiskLimits.max_order_quantity l) (RiskLimits.min_limit_price l)
                 v (RiskLimits.max_order_notional l) (RiskLimits.max_active_orders l)) a))
  else if bool_decide (flag = "--max-notional"%string) then
    Some (v ← parseU64 value;
          Some (set_limits (fun l => RiskLimits.mk (RiskLimits.max_order_quantity l) (RiskLimits.min_limit_price l)
                 (RiskLimits.max_limit_price l) v (RiskLimits.max_active_orders l)) a))
  else if bool_decide (flag = "--max-active-orders"%string) then
    Some (v ← parseU64 value;
          Some (set_limits (fun l => RiskLimits.mk (RiskLimits.max_order_quantity l) (RiskLimits.min_limit_price l)
                 (RiskLimits.max_limit_price l) (RiskLimits.max_order_notional l) v) a))
  else None.

(** The two flags without a value. *)
Definition plain_flag (flag : string) (a : Args) : option Args :=
  if bool_decide (flag = "--recover"%string) then
    Some (mkArgs (shared_memory_path a) (idle_exit_ms a) (journal_path a) true (sync_journal a) (args_risk_limits a))
  else if bool_decide (flag = "--sync-journal"%string) then
    Some (mkArgs (shared_memory_path a) (idle_exit_ms a) (journal_path a) (recover a) true (args_risk_limits a))
  else None.

(** The loop over [argv], from [i = 1]. *)
Fixpoint parse_loop (argv : list string) (a : Args) : option Args :=
  match argv with
  | [] => Some a
  | flag :: rest =>
    match plain_flag flag a with
    | Some a => parse_loop rest a
    | None =>
      match rest with
      | [] => None
      | value :: rest =>
        match value_flag flag value a with
        | None | Some None => None
        | Some (Some a) => parse_loop rest a
        end
      end
    end
  end.

Definition parseArgs (argv : list string) : option Args :=
  a ← parse_loop argv Args_default;
  if recover a && bool_decide (journal_path a = ""%string) then None
  else if RiskLimits.max_limit_price (args_risk_limits a) <? RiskLimits.min_limit_price (args_risk_limits a)
  then None
  else Some a.

(** Number parsing is exact.  [parseI64] accepts precisely the decimal numerals
    (leading spaces and a sign allowed, nothing after) of [int64_t] and returns their
    value.  [parseU64] accepts precisely the numerals whose magnitude fits a
    [uint64_t]; one with a minus sign is accepted too, and yields its value modulo
    [2 ^ 64]. *)
Theorem number_parsing_exact value z :
  (parseI64 value = Some z <->
   exists minus v, numeral value minus v /\ z = (if minus then - v else v) /\ is_i64 z)
  /\ (parseU64 value = Some z <->
      exists minus v, numeral value minus v /\ v <= UINT64_MAX /\ z = (if minus then u64 (- v) else v)).
Proof.
  unfold parseI64, parseU64. split; split.
  - intros ([[minus v] rest] & Hs & Hz)%bind_Some. case_match eqn:E; [|done].
    apply andb_true_iff in E as [Hr%bool_decide_eq_true ->%bool_decide_eq_true].
    injection Hz as <-. exists minus, v. split_and!; [by apply strto_numeral|done|done].
  - intros (minus & v & ->%strto_numeral & -> & Hr). cbn. by rewrite !bool_decide_true.
  - intros ([w rest] & ([[minus v] rest'] & Hs & Hw)%bind_Some & Hz)%bind_Some.
    destruct (Z.ltb_spec UINT64_MAX v); [done|]. injection Hw as <- <-.
    case_bool_decide as E; [|done]. cbn in Hz. injection Hz as <-. subst rest'.
    exists minus, v. split_and!; [by apply strto_numeral|done|done].
  - intros (minus & v & Hs%strto_numeral & Hv & ->). unfold strtoull. rewrite Hs. cbn.
    destruct (Z.ltb_spec UINT64_MAX v); [lia|]. cbn. by rewrite bool_decide_true.
Qed.

(** * What the arguments are *)

Definition args_ok (a : Args) : Prop :=
  RiskLimits.in_range (args_risk_limits a) /\ - 2 ^ 31 <= idle_exit_ms a < 2 ^ 31.

Lemma parseU64_range value v : parseU64 value = Some v -> is_u64 v.
Proof.
  unfold parseU64. intros ([w rest] & Hs%strtoull_range & Hz)%bind_Some.
  case_bool_decide; [|done]. cbn in Hz. by injection Hz as <-.
Qed.

Lemma parseI64_range value v : parseI64 value = Some v -> is_i64 v.
Proof.
  unfold parseI64. intros ([[minus m] rest] & _ & Hz)%bind_Some. case_match eqn:E; [|done].
  apply andb_true_iff in E as [Hr%bool_decide_eq_true _]. by injection Hz as <-.
Qed.

Lemma to_int_range z : - 2 ^ 31 <= to_int z < 2 ^ 31.
Proof. unfold to_int. pose proof (Z.mod_pos_bound (z + 2 ^ 31) (2 ^ 32)). lia. Qed.

Lemma value_flag_ok flag value a a' : args_ok a -> value_flag flag value a = Some (Some a') -> args_ok a'.
Proof.
  intros [[] Hidle]. unfold value_flag. repeat case_bool_decide; try done; intros [= Hv];
    try (by subst a'); apply bind_Some in Hv as (v & Hv & Ha);
    first [apply parseI64_range in Hv | apply parseU64_range in Hv].
  2: destruct (Z.ltb_spec UINT32_MAX v); [done|].
  all: injection Ha as <-; split; try done; try apply to_int_range; split; try done.
  cbn. unfold UINT32_MAX in *. range.
Qed.

Lemma plain_flag_ok flag a a' : args_ok a -> plain_flag flag a = Some a' -> args_ok a'.
Proof. intros Ha. unfold plain_flag. repeat case_bool_decide; try done; by intros [= <-]. Qed.

Lemma parse_loop_ok argv : forall a a', args_ok a -> parse_loop argv a = Some a' -> args_ok a'.
Proof.
  induction argv as [argv IH] using (induction_ltof1 _ length).
  destruct argv as [|flag rest]; intros a a' Ha; cbn [parse_loop]; [by intros [= <-]|].
  destruct (plain_flag flag a) as [a1|] eqn:Ep.
  { apply IH; [unfold ltof; cbn; lia|by eapply plain_flag_ok]. }
  destruct rest as [|value rest]; [done|].
  destruct (value_flag flag value a) as [[a1|]|] eqn:Ev; [|done..].
  apply IH; [unfold ltof; cbn; lia|by eapply value_flag_ok].
Qed.

(** The process starts only with usable arguments.  If [parseArgs] returns, every
    risk limit is in the range of its type, the price band is not empty, the idle
    timeout is an [int], and recovery names a journal: what [startup] needs. *)
Theorem parseArgs_usable argv a :
  parseArgs argv = Some a ->
  RiskLimits.in_range (args_risk_limits a) /\ - 2 ^ 31 <= idle_exit_ms a < 2 ^ 31
  /\ RiskLimits.min_limit_price (args_risk_limits a) <= RiskLimits.max_limit_price (args_risk_limits a)
  /\ (recover a = true -> journal_path a <> ""%string).
Proof.
  unfold parseArgs. intros (a' & Hl & Ha)%bind_Some.
  assert (args_ok a') as [Hr Hi].
  { eapply parse_loop_ok; [|exact Hl]. split; [by apply (bool_decide_unpack _)|cbn; lia]. }
  destruct (recover a' && _) eqn:E; [done|]. destruct (Z.ltb_spec (RiskLimits.max_limit_price (args_risk_limits a'))
    (RiskLimits.min_limit_price (args_risk_limits a'))); [done|]. injection Ha as <-.
  split_and!; [done|apply Hi|apply Hi|done|]. intros Hrec. rewrite Hrec in E. by apply bool_decide_eq_false in E.
Qed.

Lemma parseArgs_usable_witness :
  exists a, parseArgs ["--journal"; "j"; "--recover"; "--max-price"; " 500"; "--max-notional"; "-1"]%string = Some a
    /\ RiskLimits.max_order_notional (args_risk_limits a) = UINT64_MAX
    /\ RiskLimits.in_range (args_risk_limits a).
Proof.
  destruct (parseArgs ["--journal"; "j"; "--recover"; "--max-price"; " 500"; "--max-notional"; "-1"]%string)
    as [a|] eqn:E; [|vm_compute in E; discriminate E].
  exists a. split; [reflexivity|]. split; [vm_compute in E; by injection E as <-|].
  exact (proj1 (parseArgs_usable _ _ E)).
Defined.
