(* ===== verification/EngineProcessProps.v ===== *)
(** What the engine process guarantees to the feed, to the viewer and after a
    crash. *)

From stdpp Require Import strings.
From S2P Require Import Prelude.
From S2P Require Import OrderTypes.
From S2P Require Import OrderBook.
From S2P Require Import BookQueries.
From S2P Require Import Risk.
From S2P Require Import MatchingEngine.
From S2P Require Import PriceTime.
From S2P Require Import Market.
From S2P Require Import Refinement.
From S2P Require Import Session.
From S2P Require Import SessionRuns.
From S2P Require Import MatchFacts.
From S2P Require Import EngineProps.
From S2P Require Import Journal.
From S2P Require Import JournalCodec.
From S2P Require Import JournalReplay.
From S2P Require Import JournalProps.
From S2P Require Import Spsc.
From S2P Require Import EngineProcess.

#[local] Open Scope Z_scope.

(** A message as the journal and the engine see it. *)
Definition logged_of (m : OrderMsg) : Logged :=
  if is_new_order m then LogNew (msg_order m) else LogCancel (Order.id (msg_order m)).
Definition engine_command (m : OrderMsg) : EngineCommand := command_of (logged_of m).

(** * The three processes *)

(** The engine process with what the others did: messages the feed put in, the
    message the engine popped and has not applied, those it applied, and what the
    viewer took out. *)
Record Trio : Type := mkTrio {
  proc : Process;
  fed : list OrderMsg;
  held : list OrderMsg;
  applied : list OrderMsg;
  seen_trades : list Trade.t;
  seen_reports : list ExecutionReport.t
}.

Section trio.
Context (bits : nat).

Definition with_queues (p : Process) (r : SharedRegion) : Process := with_region p r (p_phase p).

(** What a step of the engine process means for the messages. *)
Definition note (before after : Phase) (held applied : list OrderMsg) : list OrderMsg * list OrderMsg :=
  match before, after with
  | Polling, Popped m => ([m], applied)
  | Journaled m, _ => ([], applied ++ [m])
  | _, _ => (held, applied)
  end.

Inductive trio_step (s : Trio) : Trio -> Prop :=
| engine_turn script env p script' h a :
    next_step bits script env (proc s) = Ok (p, script') ->
    note (p_phase (proc s)) (p_phase p) (held s) (applied s) = (h, a) ->
    trio_step s (mkTrio p (fed s) h a (seen_trades s) (seen_reports s))
| feed_push m q :
    try_push bits (order_queue (p_region (proc s))) m = (true, q) ->
    let r := p_region (proc s) in
    trio_step s (mkTrio (with_queues (proc s) (mkRegion (header r) q (trade_queue r) (report_queue r)))
                   (fed s ++ [m]) (held s) (applied s) (seen_trades s) (seen_reports s))
| feed_done :
    let r := p_region (proc s) in
    trio_step s (mkTrio (with_queues (proc s)
                   (with_header (fun h => SharedHeader.with_flags (SharedHeader.state h) 1
                                            (SharedHeader.engine_done h) h) r))
                   (fed s) (held s) (applied s) (seen_trades s) (seen_reports s))
| viewer_trade t q :
    try_pop bits (trade_queue (p_region (proc s))) = Ok (Some t, q) ->
    let r := p_region (proc s) in
    trio_step s (mkTrio (with_queues (proc s) (mkRegion (header r) (order_queue r) q (report_queue r)))
                   (fed s) (held s) (applied s) (seen_trades s ++ [t]) (seen_reports s))
| viewer_report x q :
    try_pop bits (report_queue (p_region (proc s))) = Ok (Some x, q) ->
    let r := p_region (proc s) in
    trio_step s (mkTrio (with_queues (proc s) (mkRegion (header r) (order_queue r) (trade_queue r) q))
                   (fed s) (held s) (applied s) (seen_trades s) (seen_reports s ++ [x]))
| peer_heartbeat producer viewer :
    let r := p_region (proc s) in
    trio_step s (mkTrio (with_queues (proc s) (with_header (SharedHeader.with_peers producer viewer) r))
                   (fed s) (held s) (applied s) (seen_trades s) (seen_reports s)).

Inductive trio_reachable (p : Process) : Trio -> Prop :=
| trio_start : trio_reachable p (mkTrio p [] [] [] [] [])
| trio_next s s' : trio_reachable p s -> trio_step s s' -> trio_reachable p s'.

(** * The invariant *)

(** A process at the top of its loop that has run [old] and nothing yet of its
    own: what [startup] produces. *)
Record started (limits : RiskLimits.t) (old : list Logged) (p : Process) : Prop := {
  st_phase : p_phase p = Polling;
  st_engine : exists ts rs, run (MatchingEngine_new limits) [] (command_of <$> old) = Ok (p_engine p, ts, rs);
  st_queues : order_queue (p_region p) = SPSCQueue_new bits OrderMsg_default
    /\ trade_queue (p_region p) = SPSCQueue_new bits (Trade.mk 0 0 0 0 0 0)
    /\ report_queue (p_region p) = SPSCQueue_new bits ExecutionReport.default;
  st_journal : forall path, fd_ (p_journal p) = Some path ->
    p_fs p !! path = Some (log_from 1 old) /\ next_ordinal_ (p_journal p) = 1 + Z.of_nat (length old);
  st_book : header (p_region p)
    = SharedHeader.with_book (default SharedHeader.kNoBid (bestBid (book_ (p_engine p))))
        (default SharedHeader.kNoAsk (bestAsk (book_ (p_engine p)))) (sequence_ (p_engine p)) (header (p_region p));
  st_counters : let h := header (p_region p) in
    Forall is_u64 [SharedHeader.processed_commands h; SharedHeader.accepted_commands h;
                   SharedHeader.rejected_commands h; SharedHeader.canceled_orders h;
                   SharedHeader.trades_generated h]
}.

Definition unpublished_trades (ph : Phase) : list Trade.t :=
  match ph with Publishing trades _ _ => trades | _ => [] end.
Definition unpublished_report (ph : Phase) : list ExecutionReport.t :=
  match ph with Publishing _ _ report => [report] | _ => [] end.
Definition uncounted_trades (ph : Phase) : Z :=
  match ph with Publishing _ total _ => total | _ => 0 end.

(** The message in the engine's hands. *)
Definition holds_message (ph : Phase) (held : list OrderMsg) : Prop :=
  match ph with
  | Popped m | Journaled m => held = [m]
  | Draining true => exists m, held = [m]
  | Exited code => (length held <= 1)%nat /\ (code = 0 -> held = [])
  | _ => held = []
  end.

Definition count_reports (f : ExecutionReport.t -> bool) (rs : list ExecutionReport.t) : Z :=
  Z.of_nat (length (filter (fun x => f x = true) rs)).

(** The counters of the header after the reports [rs] have been published. *)
Record telemetry (h0 h : SharedHeader.t) (rs : list ExecutionReport.t) (trades : Z) : Prop := {
  tel_processed : SharedHeader.processed_commands h
    = u64 (SharedHeader.processed_commands h0 + Z.of_nat (length rs));
  tel_accepted : SharedHeader.accepted_commands h
    = u64 (SharedHeader.accepted_commands h0 + count_reports ExecutionReport.accepted rs);
  tel_rejected : SharedHeader.rejected_commands h
    = u64 (SharedHeader.rejected_commands h0 + count_reports (negb ∘ ExecutionReport.accepted) rs);
  tel_canceled : SharedHeader.canceled_orders h
    = u64 (SharedHeader.canceled_orders h0
           + count_reports (fun x => bool_decide (ExecutionReport.status x = CANCELED)) rs);
  tel_trades : SharedHeader.trades_generated h = u64 (SharedHeader.trades_generated h0 + trades)
}.

Definition shows_book (h : SharedHeader.t) (e : MatchingEngine) : Prop :=
  SharedHeader.best_bid h = default SharedHeader.kNoBid (bestBid (book_ e))
  /\ SharedHeader.best_ask h = default SharedHeader.kNoAsk (bestAsk (book_ e))
  /\ SharedHeader.last_sequence h = sequence_ e.

Definition queue_holds {T} (q : SPSCQueue (T := T)) (items : list T) : Prop :=
  exists popped, represents bits q popped items.

Record delivered (p0 : Process) (s : Trio) (ts : list Trade.t) (rs : list ExecutionReport.t)
    (oq : list OrderMsg) (tq : list Trade.t) (rq : list ExecutionReport.t) : Prop := {
  dl_run : run (p_engine p0) [] (engine_command <$> applied s) = Ok (p_engine (proc s), ts, rs);
  dl_orders : queue_holds (order_queue (p_region (proc s))) oq;
  dl_trades : queue_holds (trade_queue (p_region (proc s))) tq;
  dl_reports : queue_holds (report_queue (p_region (proc s))) rq;
  dl_fed : fed s = applied s ++ held s ++ oq;
  dl_seen_trades : seen_trades s ++ tq ++ unpublished_trades (p_phase (proc s)) = ts;
  dl_seen_reports : seen_reports s ++ rq ++ unpublished_report (p_phase (proc s)) = rs;
  dl_held : holds_message (p_phase (proc s)) (held s);
  dl_telemetry : telemetry (header (p_region p0)) (header (p_region (proc s))) (seen_reports s ++ rq)
    (Z.of_nat (length ts) - uncounted_trades (p_phase (proc s)));
  dl_book : unpublished_report (p_phase (proc s)) = [] ->
    shows_book (header (p_region (proc s))) (p_engine (proc s))
}.

Hypothesis Hbits : (bits <= 63)%nat.

Lemma queue_push {T} (q : SPSCQueue (T := T)) items x ok q' :
  queue_holds q items -> try_push bits q x = (ok, q') ->
  queue_holds q' (items ++ if ok then [x] else []).
Proof using Hbits.
  intros [n Hn] Hp. pose proof (rep_push bits Hbits q n items x Hn) as H. case_bool_decide.
  - rewrite H in Hp. injection Hp as <- <-. rewrite app_nil_r. by exists n.
  - destruct H as (q1 & E & Hr). rewrite E in Hp. injection Hp as <- <-. by exists n.
Qed.

Lemma queue_pop {T} (q : SPSCQueue (T := T)) items o q' :
  queue_holds q items -> try_pop bits q = Ok (o, q') ->
  exists items', items = option_list o ++ items' /\ queue_holds q' items'.
Proof using Hbits.
  intros [n Hn] Hp. pose proof (rep_pop bits Hbits q n items Hn) as H.
  destruct items as [|x items]; [rewrite H in Hp; injection Hp as <- <-; exists []; by split; [|exists n]|].
  destruct H as (q1 & E & Hr). rewrite E in Hp. injection Hp as <- <-. exists items. by split; [|exists (S n)].
Qed.

Lemma queue_new {T} (zero : T) : queue_holds (SPSCQueue_new bits zero) [].
Proof using Hbits. exists 0%nat. by apply represents_new. Qed.

(** A queue always answers. *)
Lemma queue_pop_total {T} (q : SPSCQueue (T := T)) items :
  queue_holds q items -> exists q', try_pop bits q = Ok (head items, q').
Proof using Hbits.
  intros [n Hn]. pose proof (rep_pop bits Hbits q n items Hn) as H.
  destruct items as [|x items]; [by exists q|]. destruct H as (q1 & E & _). by exists q1.
Qed.
(** ** Steps of the engine process *)

Lemma telemetry_heartbeat h0 h rs n now :
  telemetry h0 h rs n -> telemetry h0 (SharedHeader.with_heartbeat now h) rs n.
Proof. by intros []. Qed.
Lemma telemetry_peers h0 h rs n a b :
  telemetry h0 h rs n -> telemetry h0 (SharedHeader.with_peers a b h) rs n.
Proof. by intros []. Qed.
Lemma telemetry_flags h0 h rs n a b c :
  telemetry h0 h rs n -> telemetry h0 (SharedHeader.with_flags a b c h) rs n.
Proof. by intros []. Qed.

Lemma count_reports_snoc f rs r :
  count_reports f (rs ++ [r]) = count_reports f rs + if f r then 1 else 0.
Proof using.
  clear Hbits bits.
  unfold count_reports. rewrite filter_app, length_app, filter_cons.
  destruct (f r); [rewrite decide_True by done|rewrite decide_False by done]; cbn; lia.
Qed.

Lemma u64_count a b c : u64 (u64 (a + b) + c) = u64 (a + (b + c)).
Proof. rewrite u64_add_l. f_equal. lia. Qed.

Lemma telemetry_count h0 h rs n report total :
  telemetry h0 h rs n -> telemetry h0 (count_report report total h) (rs ++ [report]) (n + total).
Proof.
  intros [H1 H2 H3 H4 H5].
  split; cbn; rewrite ?length_app, ?count_reports_snoc, ?H1, ?H2, ?H3, ?H4, ?H5, ?u64_count; cbn [length].
  - f_equal. lia.
  - by destruct (ExecutionReport.accepted report); rewrite ?Z.add_0_r.
  - by unfold compose; destruct (ExecutionReport.accepted report); cbn; rewrite ?Z.add_0_r.
  - by case_bool_decide; rewrite ?Z.add_0_r.
  - done.
Qed.

Section steps.
Context (p0 : Process) (s : Trio) (ts : list Trade.t) (rs : list ExecutionReport.t) (oq : list OrderMsg)
  (tq : list Trade.t) (rq : list ExecutionReport.t).
Hypothesis Hd : delivered p0 s ts rs oq tq rq.

Lemma poll_delivers env p :
  p_phase (proc s) = Polling -> poll bits env (proc s) = Ok p ->
  exists h oq', (h, applied s) = note Polling (p_phase p) (held s) (applied s)
    /\ delivered p0 (mkTrio p (fed s) h (applied s) (seen_trades s) (seen_reports s)) ts rs oq' tq rq.
Proof using Hbits Hd.
  intros Hph. destruct Hd as [Hrun Ho Ht Hr Hf Hts Hrs Hh Htel Hb]. rewrite Hph in *. cbn in Hts, Hrs, Hh, Htel, Hb.
  unfold poll. destruct (g_stop env).
  { intros [= <-]. exists (held s), oq. split; [done|]. by split. }
  set (r := if heartbeat_due env then _ else _).
  assert (order_queue r = order_queue (p_region (proc s)) /\ trade_queue r = trade_queue (p_region (proc s))
    /\ report_queue r = report_queue (p_region (proc s))
    /\ telemetry (header (p_region p0)) (header r) (seen_reports s ++ rq) (Z.of_nat (length ts) - 0)
    /\ shows_book (header r) (p_engine (proc s))) as (E1 & E2 & E3 & Htel' & Hb').
  { unfold r. destruct (heartbeat_due env); split_and!; try done; [by apply telemetry_heartbeat|by apply Hb|by apply Hb]. }
  clearbody r. intros ([o q] & Hp & [= <-])%bind_Ok. rewrite E1 in Hp.
  destruct (queue_pop _ _ _ _ Ho Hp) as (oq' & -> & Ho').
  destruct o as [m|]; cbn [option_list app] in *.
  - exists [m], oq'. split; [done|]. split; cbn; rewrite ?E2, ?E3, ?Hh in *; try done.
  - exists (held s), oq'. split; [done|]. split; cbn; rewrite ?E2, ?E3 in *; try done.
Qed.

Lemma publish_delivers trades total report p :
  p_phase (proc s) = Publishing trades total report ->
  publish bits (proc s) trades total report = p ->
  exists tq' rq', delivered p0 (mkTrio p (fed s) (held s) (applied s) (seen_trades s) (seen_reports s)) ts rs oq tq' rq'.
Proof using Hbits Hd.
  intros Hph <-. destruct Hd as [Hrun Ho Ht Hr Hf Hts Hrs Hh Htel Hb]. rewrite Hph in *. cbn in Hts, Hrs, Hh, Htel, Hb.
  destruct trades as [|t rest]; cbn [publish].
  - destruct (try_push bits _ report) as [ok q] eqn:Hp. pose proof (queue_push _ _ _ _ _ Hr Hp) as Hr'.
    destruct ok.
    + exists tq, (rq ++ [report]). split; cbn; try done; [by rewrite app_nil_r|].
      rewrite app_assoc. pose proof (telemetry_count _ _ _ _ report total Htel) as H.
      replace (Z.of_nat (length ts) - total + total) with (Z.of_nat (length ts) - 0) in H by lia.
      by destruct H.
    + exists tq, rq. rewrite app_nil_r in Hr'. by split.
  - destruct (try_push bits _ t) as [ok q] eqn:Hp. pose proof (queue_push _ _ _ _ _ Ht Hp) as Ht'.
    exists (tq ++ if ok then [t] else []), rq. split; cbn; try done.
    rewrite <- Hts. destruct ok; by rewrite <- ?app_assoc, ?app_nil_r.
Qed.

Lemma apply_message_inv p m p' :
  apply_message p m = Ok p' ->
  exists e trades report,
    p' = mkProcess (p_args p) e (p_journal p) (p_fs p) (p_region p)
           (Publishing trades (Z.of_nat (length trades)) report)
    /\ forall out, apply_command (p_engine p) out (engine_command m) = Ok (e, out ++ trades, [report]).
Proof.
  unfold apply_message. intros ([[e trades] report] & H & [= <-])%bind_Ok.
  exists e, trades, report. split; [done|]. intros out.
  unfold engine_command, logged_of. destruct (is_new_order m); cbn [command_of apply_command].
  - rewrite processOrder_out, H. done.
  - apply bind_Ok in H as ([e' report'] & -> & [= -> <- ->]). cbn. by rewrite app_nil_r.
Qed.

Lemma apply_delivers m p :
  p_phase (proc s) = Journaled m -> apply_message (proc s) m = Ok p ->
  exists ts' rs', delivered p0 (mkTrio p (fed s) [] (applied s ++ [m]) (seen_trades s) (seen_reports s)) ts' rs' oq tq rq.
Proof using Hbits Hd.
  intros Hph (e & trades & report & -> & Ha)%apply_message_inv.
  destruct Hd as [Hrun Ho Ht Hr Hf Hts Hrs Hh Htel Hb]. rewrite Hph in *. cbn in Hts, Hrs, Hh, Htel, Hb.
  exists (ts ++ trades), (rs ++ [report]). rewrite !app_nil_r in Hts, Hrs. split; cbn; try done.
  - rewrite fmap_app. cbn [fmap list_fmap]. rewrite run_snoc, Hrun. cbn [mbind result_bind].
    by rewrite Ha.
  - by rewrite Hf, Hh, <- app_assoc.
  - by rewrite <- Hts, <- app_assoc.
  - by rewrite <- Hrs, <- app_assoc.
  - rewrite length_app. by replace (Z.of_nat (length ts + length trades) - Z.of_nat (length trades))
      with (Z.of_nat (length ts) - 0) by lia.
Qed.

(** The journal and the final steps do not touch what was delivered. *)
Lemma journal_message_inv script p m p' script' :
  journal_message script p m = Ok (p', script') ->
  p_engine p' = p_engine p /\ p_region p' = p_region p
  /\ (p_phase p' = Journaled m \/ p_phase p' = Draining true).
Proof.
  unfold journal_message. destruct (isOpen _); cbn [negb]; [|intros [= <- <-]; by auto].
  intros ([[[ok j] fs] script1] & _ & [= <- <-])%bind_Ok. destruct ok; auto.
Qed.

Lemma drain_inv script env p failed p' script' :
  drain script env p failed = Ok (p', script') ->
  p_engine p' = p_engine p
  /\ (exists code, p_phase p' = Exited code /\ (failed = true -> code <> 0))
  /\ p_region p' = with_header (fun h => SharedHeader.with_flags (SharedHeader.state h)
                       (SharedHeader.producer_done h) 1 (SharedHeader.with_heartbeat (now_ns env) h)) (p_region p).
Proof.
  unfold drain. intros ([[f j] script1] & Hs & [= <- <-])%bind_Ok. split_and!; [done| |done].
  eexists. split; [done|]. intros ->. case_match; [|by injection Hs as <- _ _].
  apply bind_Ok in Hs as ([[ok j1] script2] & _ & [= <- _ _]). done.
Qed.
End steps.
Definition delivery (p0 : Process) (s : Trio) : Prop :=
  exists ts rs oq tq rq, delivered p0 s ts rs oq tq rq.

Lemma engine_turn_delivers p0 s script env p script' h a :
  delivery p0 s -> next_step bits script env (proc s) = Ok (p, script') ->
  note (p_phase (proc s)) (p_phase p) (held s) (applied s) = (h, a) ->
  delivery p0 (mkTrio p (fed s) h a (seen_trades s) (seen_reports s)).
Proof using Hbits.
  intros (ts & rs & oq & tq & rq & Hd). unfold next_step.
  destruct (p_phase (proc s)) as [| |m|m|trades total report|failed|code] eqn:Hph.
  - intros (p' & Hp & [= -> <-])%bind_Ok Hn.
    destruct (poll_delivers _ _ _ _ _ _ _ Hd env p Hph Hp) as (h' & oq' & En & Hd').
    rewrite Hn in En. injection En as -> <-. by exists ts, rs, oq', tq, rq.
  - intros [= <- <-] Hn. injection Hn as <- <-. exists ts, rs, oq, tq, rq. destruct Hd. rewrite Hph in *.
    unfold idle_check. case_match; by split.
  - intros (He & Hr & Hph')%journal_message_inv Hn. exists ts, rs, oq, tq, rq.
    destruct Hd. rewrite Hph in *. cbn in dl_held0.
    destruct Hph' as [E|E]; rewrite E in Hn; injection Hn as <- <-;
      split; cbn; rewrite ?He, ?Hr, ?E; try done; by eexists.
  - intros (p' & Hp & [= -> <-])%bind_Ok Hn.
    destruct (apply_delivers _ _ _ _ _ _ _ Hd m p Hph Hp) as (ts' & rs' & Hd').
    injection Hn as <- <-. by exists ts', rs', oq, tq, rq.
  - intros [= E <-] Hn.
    destruct (publish_delivers _ _ _ _ _ _ _ Hd _ _ _ p Hph E) as (tq' & rq' & Hd').
    injection Hn as <- <-. by exists ts, rs, oq, tq', rq'.
  - intros (He & (code & Hc & Hcode) & Hr)%drain_inv Hn. exists ts, rs, oq, tq, rq.
    destruct Hd. rewrite Hph in *. rewrite Hc in Hn. injection Hn as <- <-. cbn in *.
    split; cbn; rewrite ?He, ?Hr, ?Hc; cbn; try done.
    + destruct failed; [destruct dl_held0 as [m ->]|by rewrite dl_held0; split; [cbn; lia|]].
      split; [cbn; lia|]. intros ->. by destruct (Hcode eq_refl).
    + by apply telemetry_flags, telemetry_heartbeat.
  - intros [= <- <-] Hn. rewrite Hph in Hn. injection Hn as <- <-. exists ts, rs, oq, tq, rq.
    by destruct Hd.
Qed.

Lemma trio_step_delivers p0 s s' : delivery p0 s -> trio_step s s' -> delivery p0 s'.
Proof using Hbits.
  intros Hd [script env p script' h a Hs Hn|m q Hq r|r|t q Hq r|x q Hq r|producer viewer r].
  - by eapply engine_turn_delivers.
  - destruct Hd as (ts & rs & oq & tq & rq & []). exists ts, rs, (oq ++ [m]), tq, rq.
    pose proof (queue_push _ _ _ _ _ dl_orders0 Hq). split; cbn; try done.
    by rewrite dl_fed0, <- !app_assoc.
  - destruct Hd as (ts & rs & oq & tq & rq & []). exists ts, rs, oq, tq, rq.
    split; cbn; try done. by apply telemetry_flags.
  - destruct Hd as (ts & rs & oq & tq & rq & []).
    destruct (queue_pop _ _ _ _ dl_trades0 Hq) as (tq' & -> & Hq'). exists ts, rs, oq, tq', rq.
    split; cbn; try done. by rewrite <- dl_seen_trades0, <- !app_assoc.
  - destruct Hd as (ts & rs & oq & tq & rq & []).
    destruct (queue_pop _ _ _ _ dl_reports0 Hq) as (rq' & -> & Hq'). exists ts, rs, oq, tq, rq'.
    split; cbn; try done; [by rewrite <- dl_seen_reports0, <- !app_assoc|].
    by rewrite <- app_assoc.
  - destruct Hd as (ts & rs & oq & tq & rq & []). exists ts, rs, oq, tq, rq.
    split; cbn; try done. by apply telemetry_peers.
Qed.

Lemma trio_delivers limits old p0 s : started limits old p0 -> trio_reachable p0 s -> delivery p0 s.
Proof using Hbits.
  intros [Hph _ (Q1 & Q2 & Q3) _ Hbook Hc]. induction 1; [|by eapply trio_step_delivers].
  exists [], [], [], [], [].
  split; cbn; rewrite ?Hph, ?Q1, ?Q2, ?Q3; try done; try apply queue_new.
  - repeat (apply Forall_cons in Hc as [? Hc]).
    split; cbn; unfold count_reports; cbn; rewrite ?Z.add_0_r, u64_small; done.
  - intros _. rewrite Hbook. by split_and!.
Qed.

Lemma held_at_most_one ph h : holds_message ph h -> (length h <= 1)%nat.
Proof.
  destruct ph as [| | | | |[]|]; cbn; [intros ->..|intros [? ->]|intros ->|by intros []]; cbn; lia.
Qed.

(** C10. Exactly-once delivery between the processes.  Whatever the schedule of the
    feed, the engine process and the viewer: the messages applied are the messages
    fed, in order, less the one in hand and those still queued; the trades and
    reports the viewer has taken, those in the rings and those still to be pushed
    are together exactly those of one sequential engine run on the applied
    messages, in order; between messages the header shows that engine's best
    prices and sequence, and its counters count the published reports. *)
Theorem process_delivers_exactly_once limits old p0 s :
  started limits old p0 -> trio_reachable p0 s ->
  exists ts rs oq tq rq,
    run (p_engine p0) [] (engine_command <$> applied s) = Ok (p_engine (proc s), ts, rs)
    /\ queue_holds (order_queue (p_region (proc s))) oq
    /\ queue_holds (trade_queue (p_region (proc s))) tq
    /\ queue_holds (report_queue (p_region (proc s))) rq
    /\ fed s = applied s ++ held s ++ oq /\ (length (held s) <= 1)%nat
    /\ seen_trades s ++ tq ++ unpublished_trades (p_phase (proc s)) = ts
    /\ seen_reports s ++ rq ++ unpublished_report (p_phase (proc s)) = rs
    /\ telemetry (header (p_region p0)) (header (p_region (proc s))) (seen_reports s ++ rq)
         (Z.of_nat (length ts) - uncounted_trades (p_phase (proc s)))
    /\ (unpublished_report (p_phase (proc s)) = [] ->
        shows_book (header (p_region (proc s))) (p_engine (proc s))).
Proof using Hbits.
  intros Hst Hr. destruct (trio_delivers limits old p0 s Hst Hr) as (ts & rs & oq & tq & rq & []).
  exists ts, rs, oq, tq, rq. split_and!; try done. by eapply held_at_most_one.
Qed.
End trio.

(** * The journal on disk *)

Section recovery.
Context (bits : nat).
Hypothesis Hbits : (bits <= 63)%nat.
Context (limits : RiskLimits.t) (old : list Logged) (p0 : Process) (path : string).

(** What the process has applied in its life, as the journal logs it. *)
Definition history (s : Trio) : list Logged := old ++ (logged_of <$> applied s).

(** An interrupted append leaves part of a record at the end of the file. *)
Definition torn (n : Z) (tail : list Z) : Prop :=
  tail = [] \/ exists c k, (k < kRecordSize)%nat /\ tail = take k (record_of n c).

Definition clean_log (s : Trio) (cs : list Logged) : Prop :=
  p_fs (proc s) !! path = Some (log_from 1 cs)
  /\ next_ordinal_ (p_journal (proc s)) = 1 + Z.of_nat (length cs).

Definition journal_state (s : Trio) : Prop :=
  fd_ (p_journal (proc s)) = Some path
  /\ match p_phase (proc s) with
     | Journaled m => clean_log s (history s ++ [logged_of m])
     | Draining true | Exited _ => exists extra tail,
         (extra = [] \/ extra = held s)
         /\ p_fs (proc s) !! path = Some (log_from 1 (history s ++ (logged_of <$> extra)) ++ tail)
         /\ torn (1 + Z.of_nat (length (history s ++ (logged_of <$> extra)))) tail
     | _ => clean_log s (history s)
     end.

Lemma journal_message_append script p m :
  fd_ (p_journal p) = Some path ->
  journal_message script p m
  = ('(ok, j, fs, script) ← append_logged script (p_fs p) (p_journal p) (logged_of m);
     Ok (mkProcess (p_args p) (p_engine p) j fs (p_region p)
           (if (ok : bool) then Journaled m else Draining true), script)).
Proof.
  intros Hfd. unfold journal_message, isOpen. rewrite Hfd. cbn [negb bool_decide].
  rewrite bool_decide_true by (by eexists). cbn [negb].
  unfold logged_of. by destruct (is_new_order m).
Qed.

Lemma journal_message_state s m p script script' h a :
  holds_message (Popped m) (held s) -> p_phase (proc s) = Popped m -> journal_state s ->
  1 + Z.of_nat (length (history s)) + 1 < 2 ^ 64 ->
  journal_message script (proc s) m = Ok (p, script') ->
  note (Popped m) (p_phase p) (held s) (applied s) = (h, a) ->
  journal_state (mkTrio p (fed s) h a (seen_trades s) (seen_reports s)).
Proof.
  intros Hh Hph [Hfd Hj] Hn Hm Hnote. rewrite Hph in Hj. destruct Hj as [Hfs Hord].
  rewrite journal_message_append in Hm by done.
  apply bind_Ok in Hm as ([[[ok j] fs] script1] & Ha & [= <- <-]).
  destruct (append_logged_spec path _ _ _ _ _ _ _ _ _ Hfd Hfs Ha) as (k & Hk & Hfs' & Hfd' & _ & Ht & Hf).
  cbn in Hh. assert (h = held s /\ a = applied s) as [-> ->] by (destruct ok; by injection Hnote as <- <-).
  rewrite Hord in Hfs'.
  assert (log_from 1 (history s) ++ record_of (1 + Z.of_nat (length (history s))) (logged_of m)
          = log_from 1 (history s ++ [logged_of m])) as Elog.
  { rewrite log_from_app. cbn [log_from]. by rewrite app_nil_r. }
  destruct ok; (split; [exact Hfd'|]); cbn [p_phase proc].
  - destruct (Ht eq_refl) as [-> Hord'].
    rewrite take_ge in Hfs' by (rewrite record_of_length; lia).
    split; cbn [proc p_fs p_journal]; [rewrite Hfs', Elog; reflexivity|].
    change (history (mkTrio _ _ _ _ _ _)) with (history s).
    rewrite Hord', Hord, u64_small, length_app by range. cbn. lia.
  - destruct (decide (k = kRecordSize)) as [->|Hlt].
    + exists (held s), []. rewrite Hh. split; [by right|].
      rewrite take_ge in Hfs' by (rewrite record_of_length; lia).
      split; [|by left]. rewrite app_nil_r. cbn [proc p_fs]. rewrite Hfs', Elog. reflexivity.
    + exists [], (take k (record_of (1 + Z.of_nat (length (history s))) (logged_of m))).
      split; [by left|]. unfold history in *. cbn. rewrite app_nil_r. split; [done|].
      right. eexists _, k. split; [lia|done].
Qed.

Lemma sync_keeps_fd script j ok j' script' :
  sync script j = Ok (ok, j', script') -> fd_ j' = fd_ j /\ next_ordinal_ j' = next_ordinal_ j.
Proof.
  unfold sync. destruct (fd_ j) eqn:E; [|by intros [= <- <- <-]].
  destruct script as [|[]]; [done|..]; intros [= <- <- <-]; done.
Qed.

Lemma drain_state s failed p script script' env h a :
  p_phase (proc s) = Draining failed -> journal_state s ->
  drain script env (proc s) failed = Ok (p, script') ->
  note (Draining failed) (p_phase p) (held s) (applied s) = (h, a) ->
  journal_state (mkTrio p (fed s) h a (seen_trades s) (seen_reports s)).
Proof.
  intros Hph [Hfd Hj] Hdr Hn. rewrite Hph in Hj.
  unfold drain in Hdr. apply bind_Ok in Hdr as ([[f j] script1] & Hsync & [= <- <-]).
  cbn in Hn. injection Hn as <- <-.
  assert (fd_ j = Some path) as Hfd'.
  { case_match; [|by injection Hsync as <- <- <-].
    apply bind_Ok in Hsync as ([[ok j1] script2] & (E & _)%sync_keeps_fd & [= <- <- <-]). congruence. }
  split; [exact Hfd'|]. cbn. unfold history in *. cbn. destruct failed; [exact Hj|].
  destruct Hj as [Hfs _]. exists [], []. cbn. rewrite !app_nil_r. split; [by left|]. split; [done|by left].
Qed.
(** Steps that leave the journal alone. *)
Lemma same_journal s p f h sd rp :
  journal_state s -> p_journal p = p_journal (proc s) -> p_fs p = p_fs (proc s) ->
  (match p_phase (proc s), p_phase p with
   | (Polling | Missed), (Polling | Missed | Popped _ | Draining false) => True
   | Publishing _ _ _, (Publishing _ _ _ | Polling) => True
   | ph, ph' => ph = ph' /\ h = held s
   end) ->
  journal_state (mkTrio p f h (applied s) sd rp).
Proof.
  unfold journal_state, clean_log, history. cbn. intros [Hfd Hj] -> -> Hph. split; [done|].
  destruct (p_phase (proc s)) as [| | | | |[]|], (p_phase p) as [| | | | |[]|]; try done;
    destruct Hph as [? ->]; by simplify_eq.
Qed.

Lemma poll_journal env p p' :
  poll bits env p = Ok p' ->
  p_journal p' = p_journal p /\ p_fs p' = p_fs p
  /\ match p_phase p' with Missed | Popped _ | Draining false => True | _ => False end.
Proof.
  unfold poll. destruct (g_stop env); [by intros [= <-]|].
  by intros ([[m|] q] & _ & [= <-])%bind_Ok.
Qed.

Lemma publish_journal p trades total report :
  let p' := publish bits p trades total report in
  p_journal p' = p_journal p /\ p_fs p' = p_fs p
  /\ match p_phase p' with Polling | Publishing _ _ _ => True | _ => False end.
Proof. destruct trades; cbn; by destruct (try_push _ _ _) as [[] q]. Qed.

Lemma engine_turn_journal s script env p script' h a :
  holds_message (p_phase (proc s)) (held s) -> journal_state s ->
  1 + Z.of_nat (length (history s)) + 1 < 2 ^ 64 ->
  next_step bits script env (proc s) = Ok (p, script') ->
  note (p_phase (proc s)) (p_phase p) (held s) (applied s) = (h, a) ->
  journal_state (mkTrio p (fed s) h a (seen_trades s) (seen_reports s)).
Proof.
  intros Hh Hj Hn. unfold next_step.
  destruct (p_phase (proc s)) as [| |m|m|trades total report|failed|code] eqn:Hph.
  - intros (p' & (H1 & H2 & H3)%poll_journal & [= -> <-])%bind_Ok Hnote.
    assert (a = applied s) as -> by (by destruct (p_phase p); injection Hnote as <- <-).
    apply same_journal; rewrite ?Hph; try done. by destruct (p_phase p) as [| | | | |[]|].
  - intros [= <- <-] Hnote. injection Hnote as <- <-.
    apply same_journal; rewrite ?Hph; try done.
    unfold idle_check, at_phase. cbn [p_phase]. by destruct (_ && _ && _).
  - intros Hm Hnote. by eapply journal_message_state.
  - intros (p' & Hp & [= -> <-])%bind_Ok Hnote. injection Hnote as <- <-.
    apply apply_message_inv in Hp as (e & trades & report & -> & _).
    destruct Hj as [Hfd Hc]. rewrite Hph in Hc. split; [done|]. cbn.
    unfold clean_log, history in *. cbn. by rewrite fmap_app, app_assoc.
  - intros [= <- <-] Hnote. injection Hnote as <- <-.
    destruct (publish_journal (proc s) trades total report) as (H1 & H2 & H3).
    apply same_journal; rewrite ?Hph; try done. by destruct (p_phase (publish _ _ _ _ _)).
  - intros Hd Hnote. by eapply drain_state.
  - intros [= <- <-] Hnote. rewrite Hph in Hnote. injection Hnote as <- <-.
    apply same_journal; rewrite ?Hph; done.
Qed.

Lemma trio_step_journal s s' :
  delivery bits p0 s -> journal_state s -> 2 + Z.of_nat (length old + length (fed s)) < 2 ^ 64 ->
  trio_step bits s s' -> journal_state s'.
Proof.
  intros (ts & rs & oq & tq & rq & []) Hj Hn
    [script env p script' h a Hs Hnote|m q Hq r|r|t q Hq r|x q Hq r|producer viewer r].
  - eapply engine_turn_journal; try done. unfold history. rewrite dl_fed0, !length_app in Hn.
    rewrite length_app, length_fmap. lia.
  - apply same_journal; try done. cbn. by destruct (p_phase (proc s)).
  - apply same_journal; try done. cbn. by destruct (p_phase (proc s)).
  - apply same_journal; try done. cbn. by destruct (p_phase (proc s)).
  - apply same_journal; try done. cbn. by destruct (p_phase (proc s)).
  - apply same_journal; try done. cbn. by destruct (p_phase (proc s)).
Qed.

Lemma fed_grows s s' : trio_step bits s s' -> (length (fed s) <= length (fed s'))%nat.
Proof. intros []; cbn; rewrite ?length_app; lia. Qed.

Hypothesis Hstarted : started bits limits old p0.
Hypothesis Hopen : fd_ (p_journal p0) = Some path.

Lemma trio_journal s :
  trio_reachable bits p0 s -> 2 + Z.of_nat (length old + length (fed s)) < 2 ^ 64 -> journal_state s.
Proof using Hbits Hstarted Hopen.
  induction 1 as [|s s' Hr IH Hs]; intros Hn.
  - destruct Hstarted as [Hph _ _ Hj _ _]. split; [done|]. cbn. rewrite Hph.
    unfold clean_log, history. cbn. rewrite app_nil_r. by apply Hj.
  - pose proof (fed_grows _ _ Hs). eapply trio_step_journal; [|apply IH; lia| |exact Hs]; [|lia].
    by eapply trio_delivers.
Qed.
Lemma engine_is_history s :
  trio_reachable bits p0 s ->
  exists ts rs, run (MatchingEngine_new limits) [] (command_of <$> history s) = Ok (p_engine (proc s), ts, rs).
Proof using Hbits Hstarted.
  intros Hr. destruct (trio_delivers bits Hbits _ _ _ _ Hstarted Hr) as (ts & rs & oq & tq & rq & []).
  destruct Hstarted as [_ (ts0 & rs0 & Hold) _ _ _ _].
  unfold history. rewrite fmap_app, run_app, Hold. cbn [mbind result_bind].
  rewrite run_out, <- list_fmap_compose. change (command_of ∘ logged_of) with engine_command.
  rewrite dl_run0. by eexists _, _.
Qed.

(** Every logged command is answered by one report. *)
Lemma logged_reports cs : forall e e' ts rs,
  run e [] (command_of <$> cs) = Ok (e', ts, rs) -> length cs = length rs.
Proof.
  induction cs as [|c cs IH]; intros e e' ts rs; cbn [fmap list_fmap run]; [by intros [= _ _ <-]|].
  intros ([[e1 ts1] rs1] & Ha & ([[e2 ts2] rs2] & Hrun & [= <- <- <-])%bind_Ok)%bind_Ok.
  rewrite run_out in Hrun. destruct (run e1 [] _) as [[[e3 ts3] rs3]|] eqn:E; [|done].
  cbn in Hrun. simplify_eq. apply IH in E. rewrite length_app, <- E. cbn. f_equal.
  destruct c; cbn in Ha; apply bind_Ok in Ha as (x & _ & Hx); by destruct x as [[] ?] || destruct x as [];
    simplify_eq.
Qed.

Lemma torn_stops n tail : torn n tail -> exists why, stops_at n tail = Some why /\ (tail = [] -> why = None).
Proof.
  intros [->|(c & k & Hk & ->)]; [by exists None|].
  exists (if (k =? 0)%nat then None else Some "truncated journal record"%string).
  split; [by apply stops_at_torn; [apply record_of_length|]|].
  intros E%(f_equal length). rewrite length_take, record_of_length in E. destruct k; [done|].
  cbn in E. unfold kRecordSize in *. lia.
Qed.

(** What is on disk, whatever the process was doing. *)
Lemma disk_state s :
  holds_message (p_phase (proc s)) (held s) -> journal_state s ->
  exists extra tail, (extra = [] \/ extra = held s)
    /\ p_fs (proc s) !! path = Some (log_from 1 (history s ++ (logged_of <$> extra)) ++ tail)
    /\ torn (1 + Z.of_nat (length (history s ++ (logged_of <$> extra)))) tail
    /\ match p_phase (proc s) with
       | Draining true | Exited _ => True
       | _ => tail = []
       end.
Proof.
  intros Hh [_ Hj]. destruct (p_phase (proc s)) as [| |m|m| |[]|];
    try (destruct Hj as (extra & tail & ? & ? & ?); by exists extra, tail);
    destruct Hj as [Hfs _].
  4: exists [m], []; cbn in Hh; rewrite Hh, app_nil_r; cbn; split_and!; [by right|done|by left|done].
  all: exists [], []; cbn; rewrite !app_nil_r; split_and!; [by left|done|by left|done].
Qed.

End recovery.

(** * Starting the process *)

Section starting.
Context (bits : nat).

Lemma initial_started limits old args e ts rs j fs (replayed : JournalReplayResult) size now :
  args_risk_limits args = limits ->
  run (MatchingEngine_new limits) [] (command_of <$> old) = Ok (e, ts, rs) ->
  counters_in_range replayed -> is_u64 (canceled_orders_ e) ->
  (forall path, fd_ j = Some path ->
     fs !! path = Some (log_from 1 old) /\ next_ordinal_ j = 1 + Z.of_nat (length old)) ->
  started bits limits old
    (mkProcess args e j fs (initial_region bits e replayed size now) Polling).
Proof.
  intros _ Hrun (H1 & H2 & H3 & H4) Hc Hj. split; cbn; try done; [by exists ts, rs|].
  apply Forall_forall. intros x Hx.
  repeat (apply elem_of_cons in Hx as [->|Hx]); try done; [apply u64_range|by apply elem_of_nil in Hx].
Qed.

(** The cancel counter is a [uint64_t]. *)
Lemma market_canceled_range c m :
  is_u64 (m_canceled m) -> is_u64 (m_canceled (market_apply m c).1.1).
Proof.
  intros Hm. destruct c as [order|i|l|on]; cbn [market_apply]; [| |done|done].
  - unfold market_process. case_bool_decide; [|done].
    unfold market_execute. by destruct (pt_match _ _ _ _) as [[tr q] mk].
  - unfold market_cancel. destruct (list_find _ _) as [[]|]; [destruct (i =? 0)|]; cbn;
      done || apply u64_range.
Qed.

Lemma market_run_canceled cs : forall m,
  is_u64 (m_canceled m) -> is_u64 (m_canceled (market_run m cs).1.1).
Proof.
  induction cs as [|c cs IH]; intros m Hm; [done|]. cbn [market_run].
  pose proof (market_canceled_range c m Hm) as Hc. destruct (market_apply m c) as [[m1 ts1] rs1].
  specialize (IH m1 Hc). by destruct (market_run m1 cs) as [[]].
Qed.

Lemma run_canceled limits cs e ts rs :
  RiskLimits.in_range limits -> Forall logged_in_range cs -> Z.of_nat (length cs) <= max_resting ->
  run (MatchingEngine_new limits) [] (command_of <$> cs) = Ok (e, ts, rs) -> is_u64 (canceled_orders_ e).
Proof.
  intros Hl Hf Hn Hrun. change (canceled_orders_ e) with (m_canceled (abs e)).
  assert (Forall command_in_range (command_of <$> cs)) as Hf'.
  { rewrite Forall_fmap. eapply Forall_impl; [exact Hf|]. by intros []. }
  pose proof (run_ok (command_of <$> cs) 0 _ [] (session_new limits Hl) ltac:(rewrite length_fmap; lia) Hf') as H.
  pose proof (market_run_canceled (command_of <$> cs) (abs (MatchingEngine_new limits))) as Hc.
  destruct (market_run _ _) as [[m ts'] rs']. destruct H as (e' & Hr & _ & <-).
  rewrite Hr in Hrun. simplify_eq. apply Hc. by cbn.
Qed.

Lemma tallied_in_range r r' cs ts rs : tallied r r' cs ts rs -> counters_in_range r'.
Proof. intros [_ E1 E2 E3 E4 _]. unfold counters_in_range. rewrite E1, E2, E3, E4. by split_and!; apply u64_range. Qed.

(** A fresh start truncates the journal. *)
Lemma startup_fresh args fs mapped size now k script :
  RiskLimits.in_range (args_risk_limits args) -> recover args = false -> journal_path args <> ""%string ->
  mapped = true ->
  exists p, startup bits (Transfer k :: script) fs args mapped size now
            = Ok (Running p, <[journal_path args := []]> fs, script)
    /\ started bits (args_risk_limits args) [] p /\ fd_ (p_journal p) = Some (journal_path args).
Proof.
  intros Hl Hrec Hpath ->. unfold startup. rewrite Hrec. cbn [mbind result_bind andb].
  rewrite bool_decide_false by done. unfold journal_open. cbn. eexists. split; [done|]. split; [|done].
  eapply initial_started; [done|done|done|done|]. intros path [= <-]. cbn. by rewrite lookup_insert_eq.
Qed.

(** Restart.  Started with [--recover] on the journal an earlier process left, the
    process rebuilds that process's engine, appends after its last record, and
    publishes the counts of the replay. *)
Theorem startup_resumes args fs old size now k script :
  RiskLimits.in_range (args_risk_limits args) -> recover args = true -> journal_path args <> ""%string ->
  fs !! journal_path args = Some (log_from 1 old) -> Forall logged_in_range old ->
  Z.of_nat (length old) <= max_resting ->
  smooth script -> (2 + 2 * (kRecordSize * S (length old)) <= transfers script)%nat ->
  exists p script', startup bits (Transfer k :: script) fs args true size now = Ok (Running p, fs, script')
    /\ started bits (args_risk_limits args) old p
    /\ fd_ (p_journal p) = Some (journal_path args)
    /\ SharedHeader.processed_commands (header (p_region p)) = Z.of_nat (length old)
    /\ SharedHeader.trades_generated (header (p_region p)) = tradeCount (p_engine p)
    /\ SharedHeader.state (header (p_region p)) = READY.
Proof.
  intros Hl Hrec Hpath Hfs Hold Hn Hs Ht.
  destruct (logged_run _ old Hl Hold Hn) as (e & ts & rs & Hrun).
  destruct (replay_log script fs (journal_path args) (MatchingEngine_new (args_risk_limits args)) old [] None
              e ts rs k) as (r & script1 & Htal & Hrep & Hlater);
    [by rewrite app_nil_r|done|by apply smooth_steady|lia|unfold max_resting in Hn; lia|done|done|].
  pose proof (later_Forall _ _ _ _ Hlater Hs) as Hs1. destruct Hlater as [_ Ht1].
  destruct script1 as [|call script1]; [cbn [transfers] in Ht1; lia|]. apply Forall_cons in Hs1 as [Hcall Hs1].
  destruct call as [k'| |]; [|done..]. cbn [transfers] in Ht1.
  destruct (reopen_log fs (journal_path args) old 0 (LogCancel 0) EventJournal_new
              (if sync_journal args then FDATASYNC_EACH_RECORD else BUFFERED) script1 k')
    as (j & script2 & Hopen & Hj); [done|unfold kRecordSize; lia|by rewrite take_0, app_nil_r|done|lia|].
  cbn in Hj.
  eexists _, script2. split.
  { unfold startup. rewrite Hrec, Hrep. cbn [mbind result_bind andb finish replay_ok negb replay_done].
    rewrite bool_decide_false by done. rewrite Hopen. cbn [Nat.eqb mbind result_bind negb orb]. reflexivity. }
  split_and!; [|by rewrite Hj| |done|done].
  - eapply initial_started; [done|exact Hrun| |by eapply run_canceled|].
    + exact (tallied_in_range _ _ _ _ _ Htal).
    + intros path. rewrite Hj. cbn. intros [= <-]. split; [done|lia].
  - cbn. rewrite (tally_records _ _ _ _ _ Htal). cbn. apply u64_small. unfold max_resting in Hn. range.
Qed.
End starting.

(** * A concrete run *)

(** An ask, a bid that hits it, a cancel that the full disk refuses after 20 bytes;
    rings of four slots. *)
Module Desk.
Inductive Action : Type :=
| Turn (script : list Sys)
| Feed (m : OrderMsg)
| TakeTrade
| TakeReport.

Definition quiet : Env := mkEnv false 0 0 false.

Definition act (s : Trio) (a : Action) : option Trio :=
  let r := p_region (proc s) in
  match a with
  | Turn script =>
    match next_step 2 script quiet (proc s) with
    | Ok (p, _) =>
      let '(h, ap) := note (p_phase (proc s)) (p_phase p) (held s) (applied s) in
      Some (mkTrio p (fed s) h ap (seen_trades s) (seen_reports s))
    | Fault _ => None
    end
  | Feed m =>
    match try_push 2 (order_queue r) m with
    | (true, q) =>
      Some (mkTrio (with_queues (proc s) (mkRegion (header r) q (trade_queue r) (report_queue r)))
              (fed s ++ [m]) (held s) (applied s) (seen_trades s) (seen_reports s))
    | (false, _) => None
    end
  | TakeTrade =>
    match try_pop 2 (trade_queue r) with
    | Ok (Some t, q) =>
      Some (mkTrio (with_queues (proc s) (mkRegion (header r) (order_queue r) q (report_queue r)))
              (fed s) (held s) (applied s) (seen_trades s ++ [t]) (seen_reports s))
    | _ => None
    end
  | TakeReport =>
    match try_pop 2 (report_queue r) with
    | Ok (Some x, q) =>
      Some (mkTrio (with_queues (proc s) (mkRegion (header r) (order_queue r) (trade_queue r) q))
              (fed s) (held s) (applied s) (seen_trades s) (seen_reports s ++ [x]))
    | _ => None
    end
  end.

Lemma desk_act_step s a s' : act s a = Some s' -> trio_step 2 s s'.
Proof.
  destruct a as [script|m| |]; cbn [act].
  - destruct (next_step _ _ _ _) as [[p script']|] eqn:E; [|done].
    destruct (note _ _ _ _) as [h ap] eqn:En. intros [= <-]. by eapply engine_turn.
  - destruct (try_push _ _ _) as [[] q] eqn:E; [|done]. intros [= <-]. by apply feed_push.
  - destruct (try_pop _ _) as [[[t|] q]|] eqn:E; [|done..]. intros [= <-]. by apply viewer_trade.
  - destruct (try_pop _ _) as [[[t|] q]|] eqn:E; [|done..]. intros [= <-]. by apply viewer_report.
Qed.

Definition args : Args := mkArgs "/tmp/shm" 2000 "j" false false RiskLimits.default.
Definition begun : Process :=
  match startup 2 [Transfer 0] ∅ args true 4096 7 with
  | Ok (Running p, _, _) => p
  | _ => mkProcess args (MatchingEngine_new RiskLimits.default) EventJournal_new ∅ (SharedRegion_new 2) Polling
  end.

Lemma begun_started : started 2 RiskLimits.default [] begun /\ fd_ (p_journal begun) = Some "j"%string.
Proof.
  destruct (startup_fresh 2 args ∅ true 4096 7 0 []) as (p & E & Hst & Hfd);
    [evaluate|done|done|done|].
  unfold begun. rewrite E. by split.
Qed.

Definition write : list Sys := [Transfer 48].
Definition order (i : Z) (sd : Side) : OrderMsg := mkMsg MSG_NEW_ORDER (Scenario.limit i sd 101 10).
Definition actions : list Action :=
  [Feed (order 1 SELL); Feed (order 2 BUY); Turn []; Turn write; Turn []; Turn [];
   Turn []; Turn write; Turn []; TakeReport; Turn []; Turn []; TakeTrade;
   Feed (mkMsg MSG_CANCEL_ORDER (Order.with_id 1 Order.default)); Turn [];
   Turn [Transfer 20; Fail "No space left on device"]].
Definition ended : Trio := played act (mkTrio begun [] [] [] [] []) actions.

Lemma ended_reachable : trio_reachable 2 begun ended.
Proof.
  unfold ended. apply played_preserves; [|constructor]. intros s a s' Hs Ha%desk_act_step. by eapply trio_next.
Qed.
End Desk.

Lemma process_delivers_exactly_once_witness :
  fed Desk.ended = applied Desk.ended ++ held Desk.ended
  /\ length (applied Desk.ended) = 2%nat /\ Trade.quantity <$> seen_trades Desk.ended = [10].
Proof.
  destruct (process_delivers_exactly_once 2 ltac:(lia) RiskLimits.default [] Desk.begun Desk.ended
    (proj1 Desk.begun_started) Desk.ended_reachable) as (ts & rs & oq & tq & rq & H).
  destruct H as (_ & _ & _ & _ & Hf & _).
  split; [|split; vm_compute; reflexivity].
  assert (length (fed Desk.ended) = length (applied Desk.ended ++ held Desk.ended)) as Hlen
    by (vm_compute; reflexivity).
  rewrite Hf in Hlen. rewrite app_assoc, length_app in Hlen.
  assert (oq = []) as -> by (apply nil_length_inv; lia). by rewrite Hf, app_nil_r.
Defined.


Lemma startup_resumes_witness :
  exists p script', startup 2 (Transfer 0 :: replicate 500 (Transfer 47))
      {[ "j"%string := log_from 1 JournalScenario.commands ]}
      (mkArgs "/tmp/shm" 2000 "j" true true RiskLimits.default) true 4096 7
    = Ok (Running p, {[ "j"%string := log_from 1 JournalScenario.commands ]}, script')
    /\ SharedHeader.processed_commands (header (p_region p)) = 3.
Proof.
  destruct (startup_resumes 2 (mkArgs "/tmp/shm" 2000 "j" true true RiskLimits.default)
    {[ "j"%string := log_from 1 JournalScenario.commands ]} JournalScenario.commands 4096 7 0
    (replicate 500 (Transfer 47)) ltac:(evaluate) eq_refl ltac:(done) ltac:(apply lookup_singleton_eq)
    ltac:(evaluate) ltac:(evaluate) ltac:(evaluate) ltac:(evaluate)) as (p & script' & E & _ & _ & H & _).
  exists p, script'. by split.
Defined.

(** The sentinel for an empty ask side is a price an order can have: after one
    accepted sell of one unit at [INT64_MAX] the header reads as if there were no ask. *)
Theorem published_ask_ambiguous :
  exists e ts rs, run (MatchingEngine_new RiskLimits.default) []
      [Submit (Scenario.limit 1 SELL INT64_MAX 1)] = Ok (e, ts, rs)
    /\ ExecutionReport.status <$> rs = [RESTING]
    /\ bestAsk (book_ e) = Some INT64_MAX
    /\ SharedHeader.best_ask (header (publishBook e (SharedRegion_new 2))) = SharedHeader.kNoAsk.
Proof.
  destruct (run (MatchingEngine_new RiskLimits.default) [] [Submit (Scenario.limit 1 SELL INT64_MAX 1)])
    as [[[e ts] rs]|f] eqn:E; [|vm_compute in E; discriminate E].
  exists e, ts, rs. split; [reflexivity|]. vm_compute in E. injection E as <- <- <-. done.
Qed.
