(* ===== verification/Generators.v ===== *)
(** Where the drivers get their orders: [SyntheticOrderGenerator] and
    [RealDataOrderGenerator] of [feed_handler.cpp], [generateOrder] of
    [partitioned_matching_main.cpp].

    The engine [std::mt19937_64] and the distributions are an interface, [Random]: a
    state, and a draw that stays within its bounds.  [double] is IEEE binary64 with
    round-to-nearest-even, without contraction. *)

From Stdlib Require Import SpecFloat.
From stdpp Require Import strings.
From S2P Require Import Prelude.
From S2P Require Import Doubles.
From S2P Require Import OrderTypes.
From S2P Require Import MatchingEngine.
From S2P Require Import BookProps.

#[local] Open Scope Z_scope.

(** * Randomness *)

(** The result types the distributions are instantiated with. *)
Inductive IntType : Type := int_t | int64_type | uint32_type | size_type.

(** [uniform_int_distribution<T>(lo, hi)] and [bernoulli_distribution(0.5)] applied to
    an engine in some state. *)
Class Random (Rng : Type) := {
  seeded : Z -> Rng;
  uniform : IntType -> Z -> Z -> Rng -> Z * Rng;
  coin : Rng -> bool * Rng;
  uniform_range t lo hi rng : lo <= hi -> lo <= (uniform t lo hi rng).1 <= hi
}.

(** The bounds out of order are undefined behaviour. *)
Definition draw `{Random Rng} (t : IntType) (lo hi : Z) (rng : Rng) : result (Z * Rng) :=
  if hi <? lo then Fault UndefinedBehaviour else Ok (uniform t lo hi rng).

Lemma draw_ok `{Random Rng} t lo hi rng :
  lo <= hi -> exists v rng', draw t lo hi rng = Ok (v, rng') /\ lo <= v <= hi.
Proof.
  intros Hb. unfold draw. destruct (Z.ltb_spec hi lo); [lia|].
  pose proof (uniform_range t lo hi rng Hb). destruct (uniform t lo hi rng) as [v rng']. by exists v, rng'.
Qed.

Lemma draw_inv `{Random Rng} t lo hi rng v rng' : draw t lo hi rng = Ok (v, rng') -> lo <= v <= hi.
Proof.
  unfold draw. destruct (Z.ltb_spec hi lo); [done|]. pose proof (uniform_range t lo hi rng ltac:(lia)).
  by intros [= E]; rewrite E in *.
Qed.

(** * Orders *)

Definition limit_order (id : Z) (side : Side) (price quantity : Z) : Order.t :=
  Order.mk id side LIMIT GTC OrderFlags.NONE price quantity 0.

(** The advanced mix. *)
Definition with_policy (policy : Z) (order : Order.t) : Order.t :=
  let set ty tif flags price :=
    Order.mk (Order.id order) (Order.side order) ty tif flags price (Order.quantity order)
      (Order.sequence order) in
  if policy <? 5 then set MARKET IOC (Order.flags order) 0
  else if policy <? 15 then set (Order.type order) IOC (Order.flags order) (Order.price order)
  else if policy <? 20 then set (Order.type order) FOK (Order.flags order) (Order.price order)
  else if policy <? 25
  then set (Order.type order) (Order.time_in_force order) OrderFlags.POST_ONLY (Order.price order)
  else order.

(** Side, price, quantity and, for the advanced mix, policy, drawn in this order. *)
Definition draw_order `{Random Rng} (min_price max_price max_quantity : Z) (advanced : bool) (id : Z)
    (rng : Rng) : result (Order.t * Rng) :=
  '(side, rng) ← draw int_t 0 1 rng;
  '(price, rng) ← draw int64_type min_price max_price rng;
  '(quantity, rng) ← draw uint32_type 1 max_quantity rng;
  let order := limit_order id (if side =? 0 then BUY else SELL) price quantity in
  if advanced then '(policy, rng) ← draw int_t 0 99 rng; Ok (with_policy policy order, rng)
  else Ok (order, rng).

Record SyntheticOrderGenerator (Rng : Type) : Type := mkSynthetic { syn_rng : Rng; syn_advanced : bool }.
Arguments mkSynthetic {Rng} _ _.
Arguments syn_rng {Rng} _.
Arguments syn_advanced {Rng} _.

Definition SyntheticOrderGenerator_new `{Random Rng} (seed : Z) (advanced : bool) : SyntheticOrderGenerator Rng :=
  mkSynthetic (seeded seed) advanced.

Definition synthetic_next `{Random Rng} (id : Z) (g : SyntheticOrderGenerator Rng) :
    result (Order.t * SyntheticOrderGenerator Rng) :=
  '(order, rng) ← draw_order 9900 10100 500 (syn_advanced g) id (syn_rng g);
  Ok (order, mkSynthetic rng (syn_advanced g)).

Definition generateOrder `{Random Rng} (id : Z) (rng : Rng) (advanced : bool) : result (Order.t * Rng) :=
  draw_order 9950 10050 250 advanced id rng.

(** * Daily bars *)

Record DailyBar : Type := mkBar {
  bar_date : string;
  bar_open : double;
  bar_high : double;
  bar_low : double;
  bar_close : double;
  bar_volume : Z
}.

Record RealDataOrderGenerator (Rng : Type) : Type := mkRealData {
  bars_ : list DailyBar;
  orders_per_day_ : Z;
  real_rng : Rng
}.
Arguments mkRealData {Rng} _ _ _.
Arguments bars_ {Rng} _.
Arguments orders_per_day_ {Rng} _.
Arguments real_rng {Rng} _.

Definition totalOrders {Rng} (g : RealDataOrderGenerator Rng) : Z :=
  u64 (Z.of_nat (length (bars_ g)) * orders_per_day_ g).

Definition dayFor {Rng} (id : Z) (g : RealDataOrderGenerator Rng) : result DailyBar :=
  if orders_per_day_ g =? 0 then Fault UndefinedBehaviour
  else
    let day_index := u64 (id - 1) / orders_per_day_ g in
    defined (bars_ g !! Z.to_nat (Z.min day_index (u64 (Z.of_nat (length (bars_ g)) - 1)))).

(** [static_cast<int64_t>(price * 100.0 + 0.5)]. *)
Definition ticks (price : double) : result Z :=
  int64_of_double (double_add (double_mul price (double_of 100 0)) (double_of 1 (-1))).

(** [std::min(1.0, volume / 100'000'000.0)], and the largest quantity drawn. *)
Definition volume_weight (volume : Z) : double :=
  let w := double_div (double_of volume 0) (double_of 100000000 0) in
  if SFltb w (double_of 1 0) then w else double_of 1 0.
Definition quantity_cap (volume : Z) : result Z :=
  uint32_of_double (double_add (double_of 50 0) (double_mul (volume_weight volume) (double_of 450 0))).

Definition real_next `{Random Rng} (id : Z) (g : RealDataOrderGenerator Rng) :
    result (Order.t * RealDataOrderGenerator Rng) :=
  bar ← dayFor id g;
  low_ticks ← ticks (bar_low bar);
  high_ticks ← ticks (bar_high bar);
  let lo := Z.min low_ticks high_ticks in
  let hi := Z.max low_ticks high_ticks in
  cap ← quantity_cap (bar_volume bar);
  '(order, rng) ← draw_order lo hi cap false id (real_rng g);
  Ok (order, mkRealData (bars_ g) (orders_per_day_ g) rng).

(** * What the generators promise *)

(** An order of the program's types that the engine's static checks accept, whose
    price, if it has one, is between [lo] and [hi] and whose quantity is at most [cap]. *)
Record quoted (lo hi cap : Z) (id : Z) (o : Order.t) : Prop := {
  quoted_id : Order.id o = id;
  quoted_range : Order.in_range o;
  quoted_valid : well_formed o;
  quoted_price : Order.type o = LIMIT -> lo <= Order.price o <= hi;
  quoted_quantity : 1 <= Order.quantity o <= cap
}.

Lemma limit_order_quoted lo hi cap id side price quantity :
  0 < lo -> hi < 2 ^ 63 -> cap < 2 ^ 32 -> 0 < id < 2 ^ 64 -> lo <= price <= hi -> 1 <= quantity <= cap ->
  quoted lo hi cap id (limit_order id (if side =? 0 then BUY else SELL) price quantity).
Proof.
  intros Hlo Hhi Hcap Hid Hp Hq. set (sd := if side =? 0 then BUY else SELL).
  assert (sd = BUY \/ sd = SELL) as Hsd by (unfold sd; case_match; auto).
  split; cbn; try done; (split; cbn); try done; try range; try tauto.
  destruct Hsd as [-> | ->]; done.
Qed.

Lemma with_policy_quoted lo hi cap id policy order :
  quoted lo hi cap id order -> Order.type order = LIMIT -> Order.time_in_force order = GTC ->
  Order.flags order = OrderFlags.NONE -> quoted lo hi cap id (with_policy policy order).
Proof.
  intros [Hid [] [] Hp Hq] Hty Htif Hfl. unfold with_policy.
  repeat case_match; split; cbn; try done; (split; cbn); rewrite ?Hty, ?Htif, ?Hfl in *; try done; try tauto.
Qed.

(** Every draw is one the static checks accept. *)
Lemma draw_order_ok `{Random Rng} lo hi cap advanced id (rng : Rng) :
  0 < lo <= hi -> hi < 2 ^ 63 -> 1 <= cap < 2 ^ 32 -> 0 < id < 2 ^ 64 ->
  exists order rng', draw_order lo hi cap advanced id rng = Ok (order, rng') /\ quoted lo hi cap id order.
Proof.
  intros Hlo Hhi Hcap Hid. unfold draw_order.
  destruct (draw_ok int_t 0 1 rng) as (side & r1 & -> & _); [lia|].
  destruct (draw_ok int64_type lo hi r1) as (price & r2 & E2 & Hp); [lia|].
  destruct (draw_ok uint32_type 1 cap r2) as (quantity & r3 & E3 & Hq); [lia|].
  cbn [mbind result_bind]. rewrite E2. cbn [mbind result_bind]. rewrite E3. cbn [mbind result_bind].
  pose proof (limit_order_quoted lo hi cap id side price quantity) as Hl. destruct advanced.
  - destruct (draw_ok int_t 0 99 r3) as (policy & r4 & -> & _); [lia|]. eexists _, _. split; [done|].
    apply with_policy_quoted; [apply Hl; lia|done..].
  - eexists _, _. split; [done|apply Hl; lia].
Qed.

Lemma synthetic_next_ok `{Random Rng} id (g : SyntheticOrderGenerator Rng) :
  0 < id < 2 ^ 64 ->
  exists order g', synthetic_next id g = Ok (order, g') /\ quoted 9900 10100 500 id order
    /\ syn_advanced g' = syn_advanced g.
Proof.
  intros Hid. unfold synthetic_next.
  destruct (draw_order_ok 9900 10100 500 (syn_advanced g) id (syn_rng g)) as (order & rng & -> & Ho); [lia..|].
  by eexists _, _.
Qed.

Lemma generateOrder_ok `{Random Rng} id (rng : Rng) advanced :
  0 < id < 2 ^ 64 ->
  exists order rng', generateOrder id rng advanced = Ok (order, rng') /\ quoted 9950 10050 250 id order.
Proof. intros Hid. apply draw_order_ok; lia. Qed.

(** What [next] needs of a day: prices whose tick values are positive [int64_t]s. *)
Definition usable_bar (bar : DailyBar) (lo hi cap : Z) : Prop :=
  exists low high, ticks (bar_low bar) = Ok low /\ ticks (bar_high bar) = Ok high
    /\ lo = Z.min low high /\ hi = Z.max low high /\ 0 < lo
    /\ quantity_cap (bar_volume bar) = Ok cap /\ 1 <= cap.

(** The guarantee of the real-data mode: order [id] belongs to its day and its price
    is within that day's range. *)
Lemma real_next_ok `{Random Rng} id (g : RealDataOrderGenerator Rng) bar lo hi cap :
  0 < id < 2 ^ 64 -> dayFor id g = Ok bar -> usable_bar bar lo hi cap ->
  exists order g', real_next id g = Ok (order, g') /\ quoted lo hi cap id order
    /\ bars_ g' = bars_ g /\ orders_per_day_ g' = orders_per_day_ g.
Proof.
  intros Hid Hday (low & high & Hl & Hh & -> & -> & Hpos & Hc & Hcap). unfold real_next.
  rewrite Hday. cbn [mbind result_bind]. rewrite Hl. cbn [mbind result_bind]. rewrite Hh. cbn [mbind result_bind].
  rewrite Hc. cbn [mbind result_bind].
  apply int64_of_double_range in Hl. apply int64_of_double_range in Hh. apply uint32_of_double_range in Hc.
  destruct (draw_order_ok (Z.min low high) (Z.max low high) cap false id (real_rng g)) as (order & rng & -> & Ho);
    [lia|range|range|lia|]. by eexists _, _.
Qed.

(** Days are used in order, [orders_per_day] orders each. *)
Lemma dayFor_day {Rng} (g : RealDataOrderGenerator Rng) day k :
  (day < length (bars_ g))%nat -> 0 <= k < orders_per_day_ g ->
  Z.of_nat (length (bars_ g)) * orders_per_day_ g < 2 ^ 64 ->
  dayFor (1 + Z.of_nat day * orders_per_day_ g + k) g = defined (bars_ g !! day).
Proof.
  intros Hday Hk Hn. unfold dayFor. rewrite (proj2 (Z.eqb_neq _ _)) by lia.
  replace (1 + Z.of_nat day * orders_per_day_ g + k - 1) with (k + Z.of_nat day * orders_per_day_ g) by lia.
  rewrite (u64_small (k + _)) by (split; nia). rewrite Z.div_add, Z.div_small by lia.
  rewrite (u64_small (_ - 1)) by (split; nia). do 2 f_equal. lia.
Qed.

(** An engine for the concrete runs: linear congruential. *)
#[export] Instance congruential : Random Z.
Proof.
  refine {| seeded s := s;
            uniform _ lo hi rng :=
              (lo + (rng / 2 ^ 32) mod (hi - lo + 1), u64 (rng * 6364136223846793005 + 1442695040888963407));
            coin rng := (Z.odd (rng / 2 ^ 32), u64 (rng * 6364136223846793005 + 1442695040888963407)) |}.
  intros _ lo hi rng Hb. cbn. pose proof (Z.mod_pos_bound (rng / 2 ^ 32) (hi - lo + 1) ltac:(lia)). lia.
Defined.
