(* ===== verification/CsvReader.v ===== *)
(** [csv_reader.hpp]: the daily bars of a CSV file, with [std::getline] on a stream that
    remembers its end and failure bits, [std::stod] and [std::stoull]. *)

From Stdlib Require Import SpecFloat.
From stdpp Require Import strings.
From S2P Require Import Prelude.
From S2P Require Import Doubles.
From S2P Require Import Arguments.
From S2P Require Import Generators.

#[local] Open Scope Z_scope.

(** * Exceptions *)

Inductive Exn : Type := InvalidArgument | OutOfRange.
Inductive thrown (A : Type) : Type :=
| Return (a : A)
| Throw (e : Exn).
Arguments Return {A} a.
Arguments Throw {A} e.

#[export] Instance thrown_ret : MRet thrown := fun A a => Return a.
#[export] Instance thrown_bind : MBind thrown := fun A B k m =>
  match m with Return a => k a | Throw e => Throw e end.

(** * Numbers *)

(** The double nearest to [a / b]; whether [errno] becomes [ERANGE]: the value is too
    large, or its rounding is inexact and below the least normal number. *)
Definition nearest (s : bool) (a b : Z) : double :=
  if a =? 0 then S754_zero s
  else
    let '(q, e, l) := SFdiv_core_binary 53 1024 a 0 b 0 in
    binary_round_aux 53 1024 s q e l.
Definition represents (d : double) (a b : Z) : bool :=
  match d with
  | S754_zero _ => a =? 0
  | S754_finite _ m e => if 0 <=? e then Z.pos m * 2 ^ e * b =? a else Z.pos m * b =? a * 2 ^ (- e)
  | _ => false
  end.
Definition erange (d : double) (a b : Z) : bool :=
  match d with
  | S754_infinity _ => true
  | _ => (a * 2 ^ 1076 <? b * (2 ^ 54 - 1)) && negb (represents d a b)
  end.
Definition rounded (s : bool) (a b : Z) : double * bool :=
  let d := nearest s a b in (d, erange d a b).
(** [m * base ^ e]. *)
Definition scaled (s : bool) (base m e : Z) : double * bool :=
  if 0 <=? e then rounded s (m * base ^ e) 1 else rounded s m (base ^ (- e)).

Definition lower (c : Ascii.ascii) : Z :=
  if (65 <=? char_code c) && (char_code c <=? 90) then char_code c + 32 else char_code c.
(** What follows [word] (in lower case), in any case. *)
Fixpoint after_word (word : list Z) (s : string) : option string :=
  match word, s with
  | [], _ => Some s
  | w :: word, String c rest => if lower c =? w then after_word word rest else None
  | _, EmptyString => None
  end.

Definition hex_value (c : Ascii.ascii) : option Z :=
  if is_digit c then Some (digit_value c)
  else if (97 <=? lower c) && (lower c <=? 102) then Some (lower c - 87)
  else None.
Fixpoint read_hex (acc : Z) (s : string) : nat * Z * string :=
  match s with
  | String c rest =>
    match hex_value c with
    | Some v => let '(n, v, r) := read_hex (acc * 16 + v) rest in (S n, v, r)
    | None => (0%nat, acc, s)
    end
  | EmptyString => (0%nat, acc, s)
  end.

(** Digits with at most one point: how many there are, how many after the point, their
    value, and the rest. *)
Definition read_fraction (read : Z -> string -> nat * Z * string) (s : string) : nat * nat * Z * string :=
  let '(n, v, r) := read 0 s in
  match after_word [46] r with
  | Some r' => let '(k, w, r'') := read v r' in
               if (n + k =? 0)%nat then (0%nat, 0%nat, 0, s) else ((n + k)%nat, k, w, r'')
  | None => (n, 0%nat, v, r)
  end.
(** An exponent after [mark] (in lower case), zero if there is none. *)
Definition read_exponent (mark : Z) (s : string) : Z * string :=
  match after_word [mark] s with
  | Some r =>
    let '(minus, r) := read_sign r in
    let '(n, v, r) := read_digits 0 r in
    match n with O => (0, s) | S _ => (if (minus : bool) then - v else v, r) end
  | None => (0, s)
  end.

Fixpoint skip_word (s : string) : string :=
  match s with
  | String c rest =>
    if is_digit c || ((97 <=? lower c) && (lower c <=? 122)) || (char_code c =? 95) then skip_word rest else s
  | EmptyString => s
  end.
(** A sequence in parentheses after [nan]. *)
Definition after_nan (s : string) : string :=
  match after_word [40] s with
  | Some r => default s (after_word [41] (skip_word r))
  | None => s
  end.

Definition strtod_hex (s : bool) (r : string) : option (double * bool * string) :=
  r ← after_word [48; 120] r;
  let '(n, k, m, r) := read_fraction read_hex r in
  match n with
  | O => None
  | S _ => let '(e, r) := read_exponent 112 r in Some (scaled s 2 m (e - 4 * Z.of_nat k), r)
  end.
Definition strtod_decimal (s : bool) (r : string) : option (double * bool * string) :=
  let '(n, k, m, r) := read_fraction read_digits r in
  match n with
  | O => None
  | S _ => let '(e, r) := read_exponent 101 r in Some (scaled s 10 m (e - Z.of_nat k), r)
  end.

(** The value, whether it is out of range, and the end of the number; [None] when no
    conversion is performed. *)
Definition strtod (value : string) : option (double * bool * string) :=
  let '(minus, r) := read_sign (skip_spaces value) in
  match after_word [105; 110; 102; 105; 110; 105; 116; 121] r with
  | Some rest => Some (S754_infinity minus, false, rest)
  | None =>
  match after_word [105; 110; 102] r with
  | Some rest => Some (S754_infinity minus, false, rest)
  | None =>
  match after_word [110; 97; 110] r with
  | Some rest => Some (S754_nan, false, after_nan rest)
  | None =>
  match strtod_hex minus r with
  | Some x => Some x
  | None => strtod_decimal minus r
  end end end end.

Definition stod (value : string) : thrown double :=
  match strtod value with
  | None => Throw InvalidArgument
  | Some (x, range, _) => if range : bool then Throw OutOfRange else Return x
  end.
Definition stoull (value : string) : thrown Z :=
  match strto value with
  | None => Throw InvalidArgument
  | Some (minus, v, _) =>
    if UINT64_MAX <? v then Throw OutOfRange else Return (if (minus : bool) then u64 (- v) else v)
  end.

(** * Streams *)

Record Stream : Type := mkStream { left : string; eofbit : bool; failbit : bool }.
Definition stream_of (s : string) : Stream := mkStream s false false.

(** What is before the first [delim], and what follows it. *)
Fixpoint split_at (delim : Ascii.ascii) (s : string) : string * option string :=
  match s with
  | EmptyString => (""%string, None)
  | String c rest =>
    if bool_decide (c = delim) then (""%string, Some rest)
    else let '(a, b) := split_at delim rest in (String c a, b)
  end.

(** [std::getline(stream, target, delim)]: a stream that is not good leaves the target
    as it was. *)
Definition getline (delim : Ascii.ascii) (s : Stream) (target : string) : string * Stream :=
  if eofbit s || failbit s then (target, mkStream (left s) (eofbit s) true)
  else
    let '(field, rest) := split_at delim (left s) in
    (field, match rest with
            | Some rest => mkStream rest false false
            | None => mkStream "" true (bool_decide (field = ""%string))
            end).

Definition comma : Ascii.ascii := Ascii.ascii_of_nat 44.
Definition newline : Ascii.ascii := Ascii.ascii_of_nat 10.

(** The next field into [field], and its value. *)
Definition next_double (ss : Stream) (field : string) : thrown (double * string * Stream) :=
  let '(field, ss) := getline comma ss field in
  x ← stod field;
  Return (x, field, ss).

(** The body of the loop on a line that is not empty. *)
Definition parse_bar (line : string) : thrown DailyBar :=
  let '(date, ss) := getline comma (stream_of line) "" in
  '(open, field, ss) ← next_double ss "";
  '(high, field, ss) ← next_double ss field;
  '(low, field, ss) ← next_double ss field;
  '(close, field, ss) ← next_double ss field;
  let '(field, ss) := getline comma ss field in
  volume ← stoull field;
  Return (mkBar date open high low close volume).

(** The loop; [fuel] bounds the number of lines. *)
Fixpoint load_loop (fuel : nat) (f : Stream) (line : string) (bars : list DailyBar) :
    result (thrown (list DailyBar)) :=
  match fuel with
  | O => Fault OutOfFuel
  | S fuel =>
    let '(line, f) := getline newline f line in
    if failbit f then Ok (Return bars)
    else if bool_decide (line = ""%string) then load_loop fuel f line bars
    else
      match parse_bar line with
      | Return bar => load_loop fuel f line (bars ++ [bar])
      | Throw e => Ok (Throw e)
      end
  end.

(** [None] is a file that cannot be opened. *)
Definition loadDailyBars (file : option string) : result (thrown (list DailyBar)) :=
  match file with
  | None => Ok (Return [])
  | Some contents =>
    let '(line, f) := getline newline (stream_of contents) "" in
    load_loop (String.length contents + 2) f line []
  end.
