(* ===== verification/CsvProps.v ===== *)
(** What [loadDailyBars] reads: the rows of the file in order, or the first exception. *)

From stdpp Require Import strings.
From S2P Require Import Prelude.
From S2P Require Import Doubles.
From S2P Require Import Arguments.
From S2P Require Import Generators.
From S2P Require Import CsvReader.

#[local] Open Scope Z_scope.

(** * Files *)

Fixpoint lacks (d : Ascii.ascii) (s : string) : bool :=
  match s with String c s => negb (bool_decide (c = d)) && lacks d s | EmptyString => true end.

(** Lines separated by newlines, with or without one at the end. *)
Fixpoint file_text (lines : list string) (final : bool) : string :=
  match lines with
  | [] => ""
  | [line] => line +:+ (if final then String newline "" else "")
  | line :: lines => line +:+ String newline (file_text lines final)
  end.

Record Row : Type := mkRow {
  row_date : string; row_open : string; row_high : string; row_low : string; row_close : string;
  row_volume : string; row_more : option string
}.
Definition row_text (r : Row) : string :=
  row_date r +:+ String comma (row_open r +:+ String comma (row_high r +:+ String comma (row_low r +:+ String comma
    (row_close r +:+ String comma (row_volume r +:+
      match row_more r with Some more => String comma more | None => "" end))))).
(** A blank line is [None]. *)
Definition line_text (r : option Row) : string := match r with Some r => row_text r | None => "" end.

Record row_ok (r : Row) : Prop := {
  ro_fields : Forall (fun s => lacks comma s = true)
    [row_date r; row_open r; row_high r; row_low r; row_close r; row_volume r];
  ro_line : lacks newline (row_text r) = true
}.

(** The reference: every field by itself, from left to right. *)
Definition bar_of (r : Row) : thrown DailyBar :=
  open ← stod (row_open r);
  high ← stod (row_high r);
  low ← stod (row_low r);
  close ← stod (row_close r);
  volume ← stoull (row_volume r);
  Return (mkBar (row_date r) open high low close volume).

(** * Streams *)

Lemma append_cons c a b : String c a +:+ b = String c (a +:+ b).
Proof. done. Qed.

Lemma split_at_delim d a b : lacks d a = true -> split_at d (a +:+ String d b) = (a, Some b).
Proof.
  induction a as [|c a IH].
  - intros _. change ("" +:+ String d b) with (String d b). cbn [split_at]. by rewrite bool_decide_eq_true_2.
  - rewrite append_cons. cbn [split_at lacks]. intros [Hc%negb_true_iff Ha]%andb_true_iff. by rewrite Hc, IH.
Qed.

Lemma split_at_end d a : lacks d a = true -> split_at d a = (a, None).
Proof. induction a as [|c a IH]; cbn [split_at String.append lacks]; [done|]. intros [Hc%negb_true_iff Ha]%andb_true_iff. by rewrite Hc, IH. Qed.

Lemma getline_delim d a b t : lacks d a = true -> getline d (stream_of (a +:+ String d b)) t = (a, stream_of b).
Proof. intros Ha. unfold getline. cbn [stream_of eofbit failbit left orb]. by rewrite split_at_delim. Qed.

Lemma getline_end d a t :
  lacks d a = true -> getline d (stream_of a) t = (a, mkStream "" true (bool_decide (a = ""%string))).
Proof. intros Ha. unfold getline. cbn [stream_of eofbit failbit left orb]. by rewrite split_at_end. Qed.

Lemma getline_eof d fail t : getline d (mkStream "" true fail) t = (t, mkStream "" true true).
Proof. done. Qed.

Lemma append_nil_r s : s +:+ "" = s.
Proof. induction s as [|c s IH]; [done|]. by rewrite append_cons, IH. Qed.

Lemma lacks_append c a b : lacks c (a +:+ b) = lacks c a && lacks c b.
Proof. induction a as [|x a IH]; [done|]. rewrite append_cons. cbn [lacks]. by rewrite IH, andb_assoc. Qed.

Lemma lacks_text c ds r : is_digit c = false -> Forall is_digit ds -> lacks c (text ds r) = lacks c r.
Proof.
  intros Hc. induction 1 as [|x ds Hx _ IH]; [done|]. cbn [text lacks]. rewrite IH.
  rewrite bool_decide_eq_false_2; [done|]. intros ->. by rewrite Hc in Hx.
Qed.

(** * Rows *)

Lemma parse_row r : row_ok r -> parse_bar (row_text r) = bar_of r.
Proof.
  intros [Hf _]. rewrite !Forall_cons in Hf. destruct Hf as (Hd & Ho & Hh & Hl & Hc & Hv & _).
  unfold parse_bar, row_text, bar_of, next_double. rewrite getline_delim by done.
  rewrite getline_delim by done. destruct (stod (row_open r)); [|done]. cbn [mbind thrown_bind].
  rewrite getline_delim by done. destruct (stod (row_high r)); [|done]. cbn [mbind thrown_bind].
  rewrite getline_delim by done. destruct (stod (row_low r)); [|done]. cbn [mbind thrown_bind].
  rewrite getline_delim by done. destruct (stod (row_close r)); [|done]. cbn [mbind thrown_bind].
  destruct (row_more r) as [more|]; [by rewrite getline_delim by done|].
  rewrite append_nil_r. by rewrite getline_end by done.
Qed.

(** * The loop *)

Definition prepend (bars : list DailyBar) (r : thrown (list DailyBar)) : thrown (list DailyBar) :=
  match r with Return l => Return (bars ++ l) | Throw e => Throw e end.
Definition bars_of_lines (lines : list string) : thrown (list DailyBar) :=
  mapM parse_bar (filter (fun line => line <> ""%string) lines).

Lemma bars_of_line line lines bars :
  match parse_bar line with
  | Return bar => Ok (prepend (bars ++ [bar]) (bars_of_lines lines))
  | Throw e => Ok (Throw e)
  end = Ok (prepend bars (bar ← parse_bar line; l ← bars_of_lines lines; Return (bar :: l))).
Proof.
  destruct (parse_bar line) as [bar|]; [|done]. cbn. destruct (bars_of_lines lines); [|done].
  cbn. by rewrite <- app_assoc.
Qed.

Lemma bars_of_lines_cons line lines :
  bars_of_lines (line :: lines)
  = if bool_decide (line = ""%string) then bars_of_lines lines
    else bar ← parse_bar line; l ← bars_of_lines lines; Return (bar :: l).
Proof.
  unfold bars_of_lines. rewrite filter_cons. case_bool_decide as E.
  - by rewrite decide_False by (by intros []).
  - by rewrite decide_True by done.
Qed.

Lemma load_loop_eof fuel fail line bars : load_loop (S fuel) (mkStream "" true fail) line bars = Ok (Return bars).
Proof. done. Qed.

Lemma load_lines final lines : Forall (fun l => lacks newline l = true) lines -> forall fuel line bars,
  (length lines < fuel)%nat ->
  load_loop (S fuel) (stream_of (file_text lines final)) line bars = Ok (prepend bars (bars_of_lines lines)).
Proof.
  induction 1 as [|l lines Hl Hls IH]; intros fuel line bars Hfuel.
  { cbn. by rewrite app_nil_r. }
  rewrite bars_of_lines_cons. destruct fuel as [|fuel]; [lia|]. cbn [length] in Hfuel.
  assert (forall f, getline newline (stream_of (file_text (l :: lines) final)) line = (l, f) -> failbit f = false ->
    (forall bars, load_loop (S fuel) f l bars = Ok (prepend bars (bars_of_lines lines))) ->
    load_loop (S (S fuel)) (stream_of (file_text (l :: lines) final)) line bars
    = Ok (prepend bars (if bool_decide (l = ""%string) then bars_of_lines lines
                        else bar ← parse_bar l; l0 ← bars_of_lines lines; Return (bar :: l0)))) as Hstep.
  { intros f Hg Hf Hrest. change (S (S fuel)) with (S (S fuel)). cbn [load_loop] in *. rewrite Hg, Hf.
    case_bool_decide; [apply Hrest|]. rewrite <- bars_of_line. destruct (parse_bar l); [apply Hrest|done]. }
  destruct lines as [|l2 lines].
  - destruct final; cbn [file_text].
    + apply (Hstep (stream_of "")); [by apply getline_delim|done|]. intros bars'. apply (IH fuel). lia.
    + cbn [file_text] in Hstep. rewrite append_nil_r in *. destruct (decide (l = ""%string)) as [->|Hne].
      * cbn. rewrite !(bool_decide_eq_true_2 (""%string = ""%string)) by done. cbn. by rewrite app_nil_r.
      * apply (Hstep (mkStream "" true false)); [rewrite getline_end by done; by rewrite bool_decide_eq_false_2|done|].
        intros bars'. rewrite load_loop_eof. cbn. by rewrite app_nil_r.
  - apply (Hstep (stream_of (file_text (l2 :: lines) final))); [by apply getline_delim|done|].
    intros bars'. apply IH. cbn in *. lia.
Qed.

Lemma length_append a b : String.length (a +:+ b) = (String.length a + String.length b)%nat.
Proof. induction a as [|c a IH]; [done|]. rewrite append_cons. cbn. by rewrite IH. Qed.

Lemma file_text_length lines final : (length lines <= S (String.length (file_text lines final)))%nat.
Proof.
  induction lines as [|l lines IH]; [cbn; lia|]. destruct lines as [|l2 lines]; [cbn; lia|].
  change (file_text (l :: l2 :: lines) final) with (l +:+ String newline (file_text (l2 :: lines) final)).
  rewrite length_append. cbn [String.length length] in *. lia.
Qed.

Lemma load_file header lines final :
  lacks newline header = true -> Forall (fun l => lacks newline l = true) lines ->
  loadDailyBars (Some (file_text (header :: lines) final)) = Ok (bars_of_lines lines).
Proof.
  intros Hh Hl. unfold loadDailyBars.
  assert (forall r, prepend [] r = r) as Hp by (by intros []).
  destruct lines as [|l lines].
  - destruct final; cbn [file_text]; [by rewrite getline_delim, Nat.add_comm by done|].
    rewrite append_nil_r, getline_end, Nat.add_comm by done. apply load_loop_eof.
  - pose proof (file_text_length (l :: lines) final) as Hlen.
    change (file_text (header :: l :: lines) final) with (header +:+ String newline (file_text (l :: lines) final)).
    rewrite getline_delim, length_append by done. cbn [String.length].
    replace (String.length header + S (String.length (file_text (l :: lines) final)) + 2)%nat
      with (S (String.length header + String.length (file_text (l :: lines) final) + 2))%nat by lia.
    rewrite load_lines by (done || lia). by rewrite Hp.
Qed.

Lemma bars_of_rows rows :
  Forall row_ok (omap id rows) -> bars_of_lines (line_text <$> rows) = mapM bar_of (omap id rows).
Proof.
  induction rows as [|[r|] rows IH]; [done|..].
  - cbn [omap list_omap id]. intros [Hr Hrs]%Forall_cons. rewrite fmap_cons, bars_of_lines_cons. cbn [line_text].
    rewrite bool_decide_eq_false_2 by (unfold row_text; by destruct (row_date r)).
    rewrite parse_row by done. cbn. by rewrite IH.
  - intros Hrs. rewrite fmap_cons, bars_of_lines_cons. cbn. by apply IH.
Qed.

Lemma csv_load header rows final :
  lacks newline header = true -> Forall row_ok (omap id rows) ->
  loadDailyBars (Some (file_text (header :: (line_text <$> rows)) final)) = Ok (mapM bar_of (omap id rows)).
Proof.
  intros Hh Hr. rewrite load_file; [by rewrite bars_of_rows|done|].
  clear Hh header final. induction rows as [|[r|] rows IH]; [constructor|..]; cbn [omap list_omap id] in Hr.
  - apply Forall_cons in Hr as [Hr Hrs]. rewrite fmap_cons. constructor; [by apply Hr|by apply IH].
  - rewrite fmap_cons. constructor; [done|by apply IH].
Qed.

(** Every text is one of lines. *)
Lemma text_of_lines s : exists line lines final,
  s = file_text (line :: lines) final /\ Forall (fun l => lacks newline l = true) (line :: lines).
Proof.
  induction s as [|c s (line & lines & final & -> & Hl)]; [exists ""%string, [], false; by repeat constructor|].
  destruct (decide (c = newline)) as [->|Hne].
  - exists ""%string, (line :: lines), final. split; [done|]. by constructor.
  - exists (String c line), lines, final. split; [by destruct lines|]. apply Forall_cons in Hl as [Hl Hls].
    constructor; [|done]. cbn [lacks]. by rewrite bool_decide_eq_false_2.
Qed.

(** C25. The CSV reader reads its rows.  For every file that consists of a header and of
    rows of at least six fields - with blank lines anywhere, more columns, and with or
    without a newline at the end - the reader returns the bars of the rows in order,
    each field converted by itself, or throws what the first field that is no number
    throws.  On any file at all the loop ends. *)
Theorem csv_reads_rows :
  (forall header rows final, lacks newline header = true -> Forall row_ok (omap id rows) ->
     loadDailyBars (Some (file_text (header :: (line_text <$> rows)) final)) = Ok (mapM bar_of (omap id rows)))
  /\ (forall file, exists r, loadDailyBars file = Ok r).
Proof.
  split; [intros; by apply csv_load|]. intros [s|]; [|by eexists].
  destruct (text_of_lines s) as (line & lines & final & -> & [Hl Hls]%Forall_cons). rewrite load_file by done. by eexists.
Qed.

(** A row that ends early is not refused: [std::getline] on the exhausted stream leaves
    [field] as it is, so the last value there is stands for the missing ones. *)
Lemma short_row_repeats :
  parse_bar "2015-02-17,127.5" = Return (mkBar "2015-02-17" (double_of 255 (-1)) (double_of 255 (-1)) (double_of 255 (-1))
                                           (double_of 255 (-1)) 127).
Proof. by vm_compute. Qed.

Lemma csv_reads_rows_witness :
  exists bars, loadDailyBars (Some (file_text ["Date,Open"; "d,1,2,3,4,5"; ""; "e,1,2,3,4,6,7"]%string true)) = Ok (Return bars)
    /\ bar_volume <$> bars = [5; 6].
Proof.
  pose proof (proj1 csv_reads_rows "Date,Open"%string
    [Some (mkRow "d" "1" "2" "3" "4" "5" None); None; Some (mkRow "e" "1" "2" "3" "4" "6" (Some "7"))]%string true eq_refl) as H.
  cbn [omap list_omap id] in H. eexists. split; [etransitivity; [apply H|by vm_compute]|done].
  repeat constructor.
Defined.
