(* ===== verification/Printing.v ===== *)
(** Text output: decimal numbers as [printf] and [std::to_string] write them, and
    formats.  A call of [printf] is a list of [Piece]s, the literal parts of its format
    and its arguments in order; [render] is the text.  What a well delimited format
    prints can be read back. *)

From stdpp Require Import strings.
From Stdlib Require Import SpecFloat.
From S2P Require Import Prelude.
From S2P Require Import Doubles.
From S2P Require Import Arguments.
From S2P Require Import CommandLine.
From S2P Require Import CsvReader.
From S2P Require Import CsvProps.

#[local] Open Scope Z_scope.

(** * Numbers *)

Definition digit_char (d : Z) : Ascii.ascii := Ascii.ascii_of_nat (Z.to_nat (48 + d)).

(** The digits of [z] before [rest]; the fuel bounds their number. *)
Fixpoint digits (fuel : nat) (z : Z) (rest : string) : string :=
  match fuel with
  | O => rest
  | S fuel =>
    let rest := String (digit_char (z mod 10)) rest in
    if z <? 10 then rest else digits fuel (z / 10) rest
  end.

(** [%llu], [%u], [%zu].  Dividing by ten more than halves the number. *)
Definition print_unsigned (z : Z) : string := digits (S (Z.to_nat (Z.log2 z))) z "".
(** [%lld], [std::to_string] of an [int64_t]. *)
Definition print_signed (z : Z) : string :=
  if z <? 0 then String (Ascii.ascii_of_nat 45) (print_unsigned (- z)) else print_unsigned z.

(** [snprintf] into a buffer of [size] characters, the last of which is the end mark. *)
Fixpoint cut (n : nat) (s : string) : string :=
  match n, s with
  | S n, String c s => String c (cut n s)
  | _, _ => ""%string
  end.

(** [printable] of [partitioned_matching_main.cpp]. *)
Definition printable (value : option Z) (size : nat) : string :=
  match value with None => "-"%string | Some v => cut (size - 1) (print_signed v) end.

Lemma digit_char_ok d : 0 <= d < 10 -> is_digit (digit_char d) /\ digit_value (digit_char d) = d.
Proof.
  intros Hd. assert (char_code (digit_char d) = 48 + d) as Hc.
  { unfold char_code, digit_char. rewrite Ascii.nat_ascii_embedding by lia. lia. }
  unfold is_digit, digit_value. rewrite Hc. split; [|lia].
  apply Is_true_true_2, andb_true_iff. lia.
Qed.

Lemma text_app ds es rest : text (ds ++ es) rest = text ds (text es rest).
Proof. induction ds as [|c ds IH]; [done|]. cbn. by rewrite IH. Qed.

Lemma text_append ds a b : text ds a +:+ b = text ds (a +:+ b).
Proof. induction ds as [|c ds IH]; [done|]. cbn [text]. by rewrite append_cons, IH. Qed.

Lemma text_length ds : String.length (text ds "") = length ds.
Proof. induction ds as [|c ds IH]; [done|]. cbn. by rewrite IH. Qed.

Lemma decimal_snoc acc ds c : decimal acc (ds ++ [c]) = decimal acc ds * 10 + digit_value c.
Proof. unfold decimal. by rewrite foldl_app. Qed.

Lemma digits_step fuel z rest :
  digits (S fuel) z rest = (if z <? 10 then String (digit_char (z mod 10)) rest
                            else digits fuel (z / 10) (String (digit_char (z mod 10)) rest)).
Proof. done. Qed.

Lemma digits_spec fuel : forall z rest,
  0 <= z -> z < 2 ^ Z.of_nat (S fuel) ->
  exists ds, digits (S fuel) z rest = text ds rest /\ Forall is_digit ds /\ ds <> [] /\ decimal 0 ds = z
    /\ forall n, (1 <= n)%nat -> z < 10 ^ Z.of_nat n -> (length ds <= n)%nat.
Proof.
  induction fuel as [|fuel IH]; intros z rest Hz Hf; rewrite digits_step.
  all: destruct (digit_char_ok (z mod 10) ltac:(apply Z.mod_pos_bound; lia)) as [Hd Hv].
  all: destruct (Z.ltb_spec z 10) as [Hlt|Hge].
  1,3: exists [digit_char (z mod 10)]; split_and!; [done|by constructor|done| |cbn; lia];
       unfold decimal; cbn [foldl]; rewrite Hv, Z.mod_small by lia; lia.
  - lia.
  - pose proof (Z.div_lt_upper_bound z 10 (2 ^ Z.of_nat (S fuel)) ltac:(lia)) as Hq.
    rewrite Nat2Z.inj_succ, Z.pow_succ_r in Hf by lia.
    destruct (IH (z / 10) (String (digit_char (z mod 10)) rest)) as (ds & -> & Hds & Hne & Hdec & Hlen).
    { apply Z.div_pos; lia. } { apply Hq. lia. }
    exists (ds ++ [digit_char (z mod 10)]). split_and!.
    + by rewrite text_app.
    + apply Forall_app_2; [done|by constructor].
    + by destruct ds.
    + rewrite decimal_snoc, Hdec, Hv. pose proof (Z.div_mod z 10). lia.
    + intros n Hn Hz10. rewrite length_app. cbn. destruct n as [|[|n]]; [lia|cbn in Hz10; lia|].
      assert (length ds <= S n)%nat; [|lia]. apply Hlen; [lia|]. apply Z.div_lt_upper_bound; [lia|].
      rewrite (Nat2Z.inj_succ (S n)), Z.pow_succ_r in Hz10 by lia. lia.
Qed.

Lemma print_unsigned_spec z :
  0 <= z ->
  exists ds, print_unsigned z = text ds "" /\ Forall is_digit ds /\ ds <> [] /\ decimal 0 ds = z
    /\ forall n, (1 <= n)%nat -> z < 10 ^ Z.of_nat n -> (length ds <= n)%nat.
Proof.
  intros Hz. apply digits_spec; [done|]. rewrite Nat2Z.inj_succ, Z2Nat.id by apply Z.log2_nonneg.
  destruct (Z.eq_dec z 0) as [->|]; [cbn; lia|]. apply Z.log2_spec. lia.
Qed.

(** What is printed is the numeral of the number. *)
Lemma print_unsigned_numeral z : 0 <= z -> numeral (print_unsigned z) false z.
Proof.
  intros (ds & -> & Hds & Hne & Hdec & _)%print_unsigned_spec. split. exists [], [], ds. split_and!; try done. by left.
Qed.

Lemma print_signed_numeral z : exists minus v, numeral (print_signed z) minus v /\ z = (if minus then - v else v).
Proof.
  unfold print_signed. destruct (Z.ltb_spec z 0).
  - destruct (print_unsigned_spec (- z)) as (ds & -> & Hds & Hne & Hdec & _); [lia|].
    exists true, (- z). split; [|lia]. split. by exists [], minus_sign, ds.
  - exists false, z. split; [|done]. by apply print_unsigned_numeral.
Qed.

Lemma parse_print_signed z : is_i64 z -> parseI64 (print_signed z) = Some z.
Proof.
  intros Hz. destruct (print_signed_numeral z) as (minus & v & Hn & E).
  apply (number_parsing_exact (print_signed z) z). exists minus, v. by split_and!.
Qed.

Lemma parse_print_unsigned z : is_u64 z -> parseU64_unsigned (print_unsigned z) = Some z.
Proof.
  intros Hz. pose proof (print_unsigned_numeral z ltac:(range)) as Hn%strto_numeral.
  destruct (print_unsigned_spec z) as (ds & Hp & Hds & Hne & _); [range|]. rewrite Hp in *.
  destruct ds as [|c ds]; [done|]. apply Forall_cons in Hds as [Hc _].
  unfold parseU64_unsigned, strtoull. rewrite Hn. cbn. destruct (Z.ltb_spec UINT64_MAX z); [unfold UINT64_MAX in *; range|].
  cbn. by rewrite (proj1 (proj2 (digit_not_sign c Hc))).
Qed.

Lemma cut_short n s : (String.length s <= n)%nat -> cut n s = s.
Proof. revert n. induction s as [|c s IH]; intros [|n]; cbn; try done; [lia|]. intros H. rewrite IH by lia. done. Qed.

Lemma print_signed_length z : is_i64 z -> (String.length (print_signed z) <= 20)%nat.
Proof.
  intros Hz. unfold print_signed. destruct (Z.ltb_spec z 0).
  - destruct (print_unsigned_spec (- z)) as (ds & -> & _ & _ & _ & Hlen); [lia|].
    cbn. rewrite text_length. specialize (Hlen 19%nat ltac:(lia)). cbn in Hlen. lia || (specialize (Hlen ltac:(range)); lia).
  - destruct (print_unsigned_spec z) as (ds & -> & _ & _ & _ & Hlen); [lia|].
    rewrite text_length. specialize (Hlen 20%nat ltac:(lia)). cbn in Hlen. lia || (specialize (Hlen ltac:(range)); lia).
Qed.

(** A printed price reads back.  [printable] writes an [int64_t], or a dash for an
    absent price, into a buffer of 32 characters: the number always fits, and
    [parseI64] of the text gives the price, and nothing for the dash. *)
Theorem printable_round_trip value :
  (forall v, value = Some v -> is_i64 v) ->
  parseI64 (printable value 32) = value /\ (String.length (printable value 32) < 32)%nat.
Proof.
  intros Hv. destruct value as [v|]; [|by split; [|cbn; lia]]. specialize (Hv v eq_refl).
  pose proof (print_signed_length v Hv). unfold printable. rewrite cut_short by lia.
  split; [by apply parse_print_signed|lia].
Qed.

Lemma printable_round_trip_witness :
  printable (Some (- 2 ^ 63)) 32 = "-9223372036854775808"%string
  /\ parseI64 (printable (Some (- 2 ^ 63)) 32) = Some (- 2 ^ 63).
Proof.
  split; [vm_compute; reflexivity|].
  refine (proj1 (printable_round_trip (Some (- 2 ^ 63)) _)). intros v [= <-]. range.
Defined.

(** * Fixed-point numbers *)

(** [n / d] rounded to the nearest integer, ties to even. *)
Definition round_even (n d : Z) : Z :=
  let q := n / d in
  let r := 2 * (n mod d) in
  if (r <? d) || ((r =? d) && Z.even q) then q else q + 1.

(** The last [k] digits of [z], with leading zeros, before [rest]. *)
Fixpoint low_digits (k : nat) (z : Z) (rest : string) : string :=
  match k with O => rest | S k => low_digits k (z / 10) (String (digit_char (z mod 10)) rest) end.

(** [z] units of the [k]-th decimal place. *)
Definition print_places (k : nat) (z : Z) : string :=
  print_unsigned (z / 10 ^ Z.of_nat k)
  +:+ match k with O => ""%string | _ => String (Ascii.ascii_of_nat 46) (low_digits k z "") end.

(** [m * 2 ^ e] in units of the [k]-th decimal place. *)
Definition places (k : nat) (m : positive) (e : Z) : Z :=
  if 0 <=? e then Z.pos m * 2 ^ e * 10 ^ Z.of_nat k else round_even (Z.pos m * 10 ^ Z.of_nat k) (2 ^ (- e)).

(** [%.<k>f]: the nearest decimal, as the library prints it. *)
Definition print_fixed (k : nat) (d : double) : string :=
  let signed (s : bool) (t : string) := if s then String (Ascii.ascii_of_nat 45) t else t in
  match d with
  | S754_zero s => signed s (print_places k 0)
  | S754_infinity s => signed s "inf"
  | S754_nan => "nan"
  | S754_finite s m e => signed s (print_places k (places k m e))
  end.

Lemma round_even_nearest n d : 0 < d -> Z.abs (2 * (round_even n d * d - n)) <= d.
Proof.
  intros Hd. unfold round_even. pose proof (Z.div_mod n d ltac:(lia)) as E. pose proof (Z.mod_pos_bound n d Hd).
  destruct (Z.ltb_spec (2 * (n mod d)) d); cbn [orb]; [nia|].
  destruct (Z.eqb_spec (2 * (n mod d)) d); cbn [andb]; [destruct (Z.even _); nia|nia].
Qed.

(** The printed number is within half a unit of its last place. *)
Theorem print_fixed_nearest k m e :
  let unit := 10 ^ Z.of_nat k in
  if 0 <=? e then places k m e = Z.pos m * 2 ^ e * unit
  else Z.abs (2 * (places k m e * 2 ^ (- e) - Z.pos m * unit)) <= 2 ^ (- e).
Proof.
  cbn zeta. unfold places. destruct (Z.leb_spec 0 e); [done|]. apply round_even_nearest, Z.pow_pos_nonneg; lia.
Qed.

(** The digits after the point are as many as asked for, and with those before it make
    up the number. *)
Lemma low_digits_spec k : forall z rest, 0 <= z ->
  exists ds, low_digits k z rest = text ds rest /\ length ds = k /\ Forall is_digit ds
    /\ forall acc, decimal acc ds = acc * 10 ^ Z.of_nat k + z mod 10 ^ Z.of_nat k.
Proof.
  induction k as [|k IH]; intros z rest Hz; cbn [low_digits].
  - exists []. split_and!; try done. intros acc. cbn. rewrite Z.mod_1_r. lia.
  - destruct (digit_char_ok (z mod 10) ltac:(apply Z.mod_pos_bound; lia)) as [Hd Hv].
    destruct (IH (z / 10) (String (digit_char (z mod 10)) rest)) as (ds & -> & Hl & Hds & Hdec); [apply Z.div_pos; lia|].
    exists (ds ++ [digit_char (z mod 10)]). split_and!.
    + by rewrite text_app.
    + rewrite length_app, Hl. cbn. lia.
    + by apply Forall_app_2; [|constructor].
    + intros acc. rewrite decimal_snoc, Hdec, Hv, Nat2Z.inj_succ, Z.pow_succ_r by lia.
      assert (0 < 10 ^ Z.of_nat k) by (apply Z.pow_pos_nonneg; lia). rewrite (Z.rem_mul_r z 10) by lia. lia.
Qed.

(** * Formats *)

(** A literal part of a format, and [%d] of any type, [%s], [%-<width>s], [%<width>s] with
    their arguments. *)
Inductive Piece : Type :=
| Lit (s : string)
| Num (z : Z)
| Word (w : string)
| Padded (width : nat) (w : string)
| Aligned (width : nat) (w : string).

Fixpoint spaces (n : nat) : string :=
  match n with O => ""%string | S n => String (Ascii.ascii_of_nat 32) (spaces n) end.

Definition render_piece (p : Piece) : string :=
  match p with
  | Lit s => s
  | Num z => print_signed z
  | Word w => w
  | Padded width w => w +:+ spaces (width - String.length w)
  | Aligned width w => spaces (width - String.length w) +:+ w
  end.
Definition render (l : list Piece) : string := foldr (fun p s => render_piece p +:+ s) ""%string l.

(** The format of a call: its pieces without the arguments. *)
Inductive Directive : Type := Literal (s : string) | Decimal | Str | StrLeft (width : nat) | StrRight (width : nat).
Definition directive (p : Piece) : Directive :=
  match p with
  | Lit s => Literal s
  | Num _ => Decimal
  | Word _ => Str
  | Padded width _ => StrLeft width
  | Aligned width _ => StrRight width
  end.

(** After a number comes a character that is not a digit, after a string one that it
    does not contain; a string with spaces before it does not start with one. *)
Fixpoint delimited (l : list Piece) : bool :=
  match l with
  | [] => true
  | p :: rest =>
    match p, rest with
    | Lit _, _ => true
    | Num _, Lit (String c _) :: _ => negb (is_digit c)
    | Word w, Lit (String c _) :: _ => lacks c w
    | Padded _ w, Lit (String c _) :: _ => bool_decide (c = Ascii.ascii_of_nat 32) && lacks c w
    | Aligned _ w, Lit (String c _) :: _ => match w with String a _ => negb (is_space a) | EmptyString => false end && lacks c w
    | _, _ => false
    end && delimited rest
  end.

Lemma append_assoc a b c : (a +:+ b) +:+ c = a +:+ (b +:+ c).
Proof. induction a as [|x a IH]; [done|]. by rewrite !append_cons, IH. Qed.

Lemma spaces_shift n s : spaces n +:+ String (Ascii.ascii_of_nat 32) s = String (Ascii.ascii_of_nat 32) (spaces n +:+ s).
Proof. induction n as [|n IH]; [done|]. cbn [spaces]. by rewrite !append_cons, IH. Qed.

(** Reading a number off the front of a text. *)
Definition read_number (s : string) : Z * string :=
  let '(minus, s) := read_sign s in
  let '(_, v, rest) := read_digits 0 s in
  (if (minus : bool) then - v else v, rest).

Lemma read_digits_until ds c s : forall acc, Forall is_digit ds -> is_digit c = false ->
  read_digits acc (text ds (String c s)) = (length ds, decimal acc ds, String c s).
Proof.
  induction ds as [|d ds IH]; intros acc Hds Hc; cbn; [by rewrite Hc|]. apply Forall_cons in Hds as [Hd Hds].
  rewrite (Is_true_true_1 _ Hd), IH by done. done.
Qed.

Lemma read_number_print z c s : is_digit c = false -> read_number (print_signed z +:+ String c s) = (z, String c s).
Proof.
  intros Hc. unfold read_number, print_signed. destruct (Z.ltb_spec z 0).
  - destruct (print_unsigned_spec (- z)) as (ds & -> & Hds & _ & Hdec & _); [lia|].
    rewrite append_cons, text_append. cbn [read_sign]. cbn [String.append]. change (_ =? 45) with true. cbv iota.
    change ("" +:+ String c s) with (String c s). rewrite read_digits_until by done. f_equal. lia.
  - destruct (print_unsigned_spec z) as (ds & -> & Hds & Hne & Hdec & _); [lia|].
    rewrite text_append. change ("" +:+ String c s) with (String c s). destruct ds as [|d ds]; [done|].
    pose proof Hds as [Hd _]%Forall_cons. destruct (digit_not_sign d Hd) as (_ & H1 & H2).
    cbn [text read_sign]. rewrite H1, H2. change (String d (text ds (String c s))) with (text (d :: ds) (String c s)).
    rewrite read_digits_until by done. by f_equal.
Qed.

Lemma append_inj a x y : a +:+ x = a +:+ y -> x = y.
Proof. induction a as [|c a IH]; [done|]. rewrite !append_cons. intros [= H]. by apply IH. Qed.

Lemma word_until c w w' x y :
  lacks c w = true -> lacks c w' = true -> w +:+ String c x = w' +:+ String c y -> w = w' /\ x = y.
Proof. intros Hw Hw' E. apply (f_equal (split_at c)) in E. rewrite !split_at_delim in E by done. by injection E. Qed.

Lemma skip_aligned n w x :
  match w with String a _ => negb (is_space a) | EmptyString => false end = true ->
  skip_spaces (spaces n +:+ (w +:+ x)) = w +:+ x.
Proof.
  destruct w as [|a w]; [done|]. intros Ha%negb_true_iff. induction n as [|n IH]; [|exact IH].
  change (spaces 0 +:+ (String a w +:+ x)) with (String a (w +:+ x)). cbn [skip_spaces]. by rewrite Ha.
Qed.

(** What follows a piece that needs a delimiter starts with one. *)
Lemma render_lit c s l t : render (Lit (String c s) :: l) +:+ t = String c (s +:+ (render l +:+ t)).
Proof. unfold render. cbn [foldr render_piece]. by rewrite append_assoc, append_cons. Qed.

Lemma render_cons p l t : render (p :: l) +:+ t = render_piece p +:+ (render l +:+ t).
Proof. unfold render. cbn [foldr]. apply append_assoc. Qed.

(** Two calls with the same well delimited format that print the same text, whatever
    is printed after them, have the same arguments. *)
Lemma render_readable l : forall l' s t,
  directive <$> l = directive <$> l' -> delimited l = true -> delimited l' = true ->
  render l +:+ s = render l' +:+ t -> l = l' /\ s = t.
Proof.
  induction l as [|p l IH]; intros l' s t Hf Hd Hd' E; destruct l' as [|p' l']; try done.
  rewrite !fmap_cons in Hf. injection Hf as Hp Hf. cbn [delimited] in Hd, Hd'.
  apply andb_true_iff in Hd as [Hp1 Hd], Hd' as [Hp2 Hd'].
  assert (render_piece p = render_piece p' /\ p = p' -> p :: l = p' :: l' /\ s = t) as Hgo.
  { intros [E1 E2]. rewrite !render_cons, E1 in E. apply append_inj in E. apply IH in E as [-> ->]; try done. by rewrite E2. }
  destruct p as [a|z|w|n w|n w], p' as [a'|z'|w'|n' w'|n' w']; try done; cbn in Hp; [injection Hp as <-; by apply Hgo| | | |].
  all: destruct l as [|[[|c a]| | | |] l]; try done; destruct l' as [|[[|c' a']| | | |] l']; try done.
  all: rewrite !fmap_cons in Hf; cbn [directive] in Hf; injection Hf as <- <- Hf; apply Hgo;
    rewrite !(render_cons _ (_ :: _)), !render_lit in E; cbn [render_piece] in E.
  - apply negb_true_iff in Hp1. apply (f_equal read_number) in E. rewrite !read_number_print in E by done.
    injection E as -> _. done.
  - apply word_until in E as [-> _]; done.
  - injection Hp as <-. apply andb_true_iff in Hp1 as [->%bool_decide_eq_true Hw], Hp2 as [_ Hw'].
    rewrite !append_assoc, !spaces_shift in E. apply word_until in E as [-> _]; done.
  - injection Hp as <-. apply andb_true_iff in Hp1 as [Hs Hw], Hp2 as [Hs' Hw']. rewrite !append_assoc in E.
    apply (f_equal skip_spaces) in E. rewrite !skip_aligned in E by done. apply word_until in E as [-> _]; done.
Qed.

(** A price, or a dash. *)
Definition price_word (price : option Z) : string := match price with Some v => print_signed v | None => "-" end.

Lemma print_signed_inj : Inj (=) (=) print_signed.
Proof.
  intros a b E. pose proof (read_number_print a (Ascii.ascii_of_nat 32) "" eq_refl) as Ha.
  rewrite E, read_number_print in Ha by done. by injection Ha.
Qed.

Lemma price_word_inj : Inj (=) (=) price_word.
Proof.
  assert (forall v, print_signed v <> "-"%string) as Hd.
  { intros v E. destruct (print_signed_numeral v) as (minus & m & Hn%strto_numeral & _). by rewrite E in Hn. }
  intros [a|] [b|]; cbn; try done; [by intros ->%print_signed_inj| |]; intros E; by apply Hd in E || by apply eq_sym, Hd in E.
Qed.

Lemma price_word_lacks c price : is_digit c = false -> c <> Ascii.ascii_of_nat 45 -> lacks c (price_word price) = true.
Proof.
  intros Hc Hm. assert (forall z, 0 <= z -> lacks c (print_unsigned z) = true) as Hu.
  { intros z (ds & -> & Hds & _)%print_unsigned_spec. by rewrite lacks_text. }
  destruct price as [v|]; cbn [price_word lacks]; [unfold print_signed; destruct (Z.ltb_spec v 0)|]; cbn [lacks];
    rewrite ?bool_decide_eq_false_2 by (intros E; by apply Hm); rewrite ?Hu by lia; done.
Qed.
