(* ===== verification/Connection.v ===== *)
(** How [feed_handler.cpp] and [market_viewer.cpp] attach to the engine's region:
    retry [region.open], wait for [READY], check the protocol. *)

From S2P Require Import Prelude.
From S2P Require Import EngineProcess.

#[local] Open Scope Z_scope.

Inductive Connection : Type :=
| Opening (attempt : Z)
| Waiting
| Connected
| TimedOut
| Mismatch.

#[export] Instance Connection_eq_dec : EqDecision Connection.
Proof. solve_decision. Defined.

Section connection.
(** [sizeof(SharedRegion)]. *)
Context (region_bytes : Z).

Definition protocol_matches (h : SharedHeader.t) : bool :=
  (SharedHeader.magic h =? kSharedMemoryMagic) && (SharedHeader.version h =? kSharedMemoryVersion)
  && (SharedHeader.region_size h =? region_bytes).

(** One attempt, or one look at the header; [opened] is what [region.open] returned. *)
Definition connect (opened : bool) (h : SharedHeader.t) (c : Connection) : Connection :=
  match c with
  | Opening attempt =>
    if opened then Waiting else if 200 <? attempt then TimedOut else Opening (attempt + 1)
  | Waiting =>
    if negb (SharedHeader.state h =? READY) then Waiting
    else if protocol_matches h then Connected else Mismatch
  | done => done
  end.

(** The header [startup] publishes, whatever happened to its flags, counters and
    heartbeats since. *)
Definition greets (h : SharedHeader.t) : Prop :=
  SharedHeader.state h = READY /\ protocol_matches h = true.

Lemma initial_greets bits e replayed now : greets (header (initial_region bits e replayed region_bytes now)).
Proof. split; [done|]. unfold protocol_matches. cbn. by rewrite Z.eqb_refl. Qed.

(** The open is tried 202 times, then given up. *)
Lemma connect_times_out h n :
  Nat.iter n (connect false h) (Opening 0) = (if (n <=? 201)%nat then Opening (Z.of_nat n) else TimedOut).
Proof.
  induction n as [|n IH]; [done|]. rewrite Nat.iter_succ, IH.
  destruct (Nat.leb_spec n 201), (Nat.leb_spec (S n) 201); cbn [connect]; try lia; try done.
  - destruct (Z.ltb_spec 200 (Z.of_nat n)); [lia|]. f_equal. lia.
  - destruct (Z.ltb_spec 200 (Z.of_nat n)); [done|lia].
Qed.

(** Once the file opens, the engine's header lets the client in. *)
Lemma connect_succeeds h attempt : greets h -> connect true h (connect true h (Opening attempt)) = Connected.
Proof. intros [Hs Hp]. cbn. by rewrite Hs, Hp. Qed.
End connection.
