(* ===== verification/FeedHandler.v ===== *)
(** [feed_handler.cpp]: the command line, and the process that generates orders and
    pushes them, with the cancels between them, into the order ring. *)

From stdpp Require Import strings.
From S2P Require Import Prelude.
From S2P Require Import Arguments.
From S2P Require Import OrderTypes.
From S2P Require Import Spsc.
From S2P Require Import EngineProcess.
From S2P Require Import Connection.
From S2P Require Import Generators.

#[local] Open Scope Z_scope.

(** * Arguments *)

Record FeedArgs : Type := mkFeedArgs {
  num_orders : Z;
  seed : Z;
  feed_path : string;
  real_data : bool;
  advanced_orders : bool;
  cancel_every : Z;
  data_file : string;
  orders_per_day : Z
}.

Definition FeedArgs_default : FeedArgs :=
  mkFeedArgs 10000 42 "/tmp/lob_shared_memory.dat" false false 0 "../data/AAPL.csv" 40.

Definition feed_plain (flag : string) (a : FeedArgs) : option (Parsed FeedArgs) :=
  let set real advanced :=
    Some (Parsed_args (mkFeedArgs (num_orders a) (seed a) (feed_path a) real advanced (cancel_every a)
                         (data_file a) (orders_per_day a))) in
  if bool_decide (flag = "--real-data"%string) then set true (advanced_orders a)
  else if bool_decide (flag = "--advanced-orders"%string) then set (real_data a) true
  else None.

Definition feed_valued (flag : string) : option (string -> FeedArgs -> option FeedArgs) :=
  if bool_decide (flag = "--orders"%string) then Some (fun value a =>
    n ← parseU64_unsigned value;
    Some (mkFeedArgs n (seed a) (feed_path a) (real_data a) (advanced_orders a) (cancel_every a)
            (data_file a) (orders_per_day a)))
  else if bool_decide (flag = "--seed"%string) then Some (fun value a =>
    n ← parseU64_unsigned value;
    Some (mkFeedArgs (num_orders a) n (feed_path a) (real_data a) (advanced_orders a) (cancel_every a)
            (data_file a) (orders_per_day a)))
  else if bool_decide (flag = "--path"%string) then Some (fun value a =>
    Some (mkFeedArgs (num_orders a) (seed a) value (real_data a) (advanced_orders a) (cancel_every a)
            (data_file a) (orders_per_day a)))
  else if bool_decide (flag = "--cancel-every"%string) then Some (fun value a =>
    n ← parseU64_unsigned value;
    Some (mkFeedArgs (num_orders a) (seed a) (feed_path a) (real_data a) (advanced_orders a) n
            (data_file a) (orders_per_day a)))
  else if bool_decide (flag = "--data-file"%string) then Some (fun value a =>
    Some (mkFeedArgs (num_orders a) (seed a) (feed_path a) (real_data a) (advanced_orders a) (cancel_every a)
            value (orders_per_day a)))
  else if bool_decide (flag = "--orders-per-day"%string) then Some (fun value a =>
    n ← parseU64_unsigned value;
    Some (mkFeedArgs (num_orders a) (seed a) (feed_path a) (real_data a) (advanced_orders a) (cancel_every a)
            (data_file a) n))
  else None.

Definition feed_parseArgs (argv : list string) : Parsed FeedArgs :=
  match parse_flags feed_plain feed_valued (fun _ _ => Exit 1) argv FeedArgs_default with
  | Parsed_args a =>
    if real_data a && advanced_orders a then Exit 1
    else if orders_per_day a =? 0 then Exit 1
    else Parsed_args a
  | Exit code => Exit code
  end.

(** * The process *)

Section feed.
Context `{Random Rng}.

Inductive Generator : Type :=
| Synthetic (g : SyntheticOrderGenerator Rng)
| RealData (g : RealDataOrderGenerator Rng).

Definition generator_next (id : Z) (g : Generator) : result (Order.t * Generator) :=
  match g with
  | Synthetic g => '(order, g) ← synthetic_next id g; Ok (order, Synthetic g)
  | RealData g => '(order, g) ← real_next id g; Ok (order, RealData g)
  end.

(** The ring capacity, [sizeof(SharedRegion)], the arguments, and what
    [loadDailyBars] returned. *)
Context (bits : nat) (region_bytes : Z) (args : FeedArgs) (bars : list DailyBar).

(** The generator and how many orders it gives; real-data mode without data fails. *)
Definition feed_source : option (Generator * Z) :=
  if real_data args then
    match bars with
    | [] => None
    | _ => let g := mkRealData bars (orders_per_day args) (seeded (seed args)) in
           Some (RealData g, totalOrders g)
    end
  else Some (Synthetic (SyntheticOrderGenerator_new (seed args) (advanced_orders args)), num_orders args).

Inductive FeedPhase : Type :=
| FeedConnecting (c : Connection)
| Generating (g : Generator) (total id : Z)
| PushingOrder (g : Generator) (total id : Z) (m : OrderMsg)
| PushingCancel (g : Generator) (total id : Z) (m : OrderMsg)
| Closing
| FeedExited (code : Z).

Record Feed : Type := mkFeed { orders_pushed : Z; cancels_pushed : Z; feed_phase : FeedPhase }.
Definition Feed_new : Feed := mkFeed 0 0 (FeedConnecting (Opening 0)).

Definition cancel_due (pushed : Z) : bool :=
  (0 <? cancel_every args) && (pushed mod cancel_every args =? 0).
Definition cancel_message (pushed : Z) : OrderMsg :=
  mkMsg MSG_CANCEL_ORDER (Order.with_id (Z.max 1 (u64 (pushed - cancel_every args / 2))) Order.default).

Definition with_orders (r : SharedRegion) (q : SPSCQueue) : SharedRegion :=
  mkRegion (header r) q (trade_queue r) (report_queue r).
Definition producer_beat (now : Z) : SharedRegion -> SharedRegion :=
  with_header (SharedHeader.with_producer_heartbeat now).

(** The handshake, then the choice of the generator. *)
Definition feed_connect (opened : bool) (now : Z) (c : Connection) (r : SharedRegion) :
    FeedPhase * SharedRegion :=
  match connect region_bytes opened (header r) c with
  | Connected =>
    (match feed_source with Some (g, total) => Generating g total 1 | None => FeedExited 1 end,
     producer_beat now r)
  | TimedOut | Mismatch => (FeedExited 1, r)
  | c => (FeedConnecting c, r)
  end.

(** [sendOrder] is cut at its two pushes; a push to a full ring is tried again. *)
Definition feed_step (opened : bool) (now : Z) (f : Feed) (r : SharedRegion) :
    result (Feed * SharedRegion) :=
  match feed_phase f with
  | FeedConnecting c =>
    let '(phase, r) := feed_connect opened now c r in
    Ok (mkFeed (orders_pushed f) (cancels_pushed f) phase, r)
  | Generating g total id =>
    if id <=? total then
      '(order, g) ← generator_next id g;
      Ok (mkFeed (orders_pushed f) (cancels_pushed f)
            (PushingOrder g total id (mkMsg MSG_NEW_ORDER order)), r)
    else Ok (mkFeed (orders_pushed f) (cancels_pushed f) Closing, r)
  | PushingOrder g total id m =>
    match try_push bits (order_queue r) m with
    | (false, q) => Ok (f, with_orders r q)
    | (true, q) =>
      let pushed := u64 (orders_pushed f + 1) in
      let r := with_orders r q in
      let r := if Z.land pushed 0xFFF =? 0 then producer_beat now r else r in
      Ok (mkFeed pushed (cancels_pushed f)
            (if cancel_due pushed then PushingCancel g total id (cancel_message pushed)
             else Generating g total (u64 (id + 1))), r)
    end
  | PushingCancel g total id m =>
    match try_push bits (order_queue r) m with
    | (false, q) => Ok (f, with_orders r q)
    | (true, q) =>
      Ok (mkFeed (orders_pushed f) (u64 (cancels_pushed f + 1)) (Generating g total (u64 (id + 1))),
          with_orders r q)
    end
  | Closing =>
    Ok (mkFeed (orders_pushed f) (cancels_pushed f) (FeedExited 0),
        with_header (fun h => SharedHeader.with_flags (SharedHeader.state h) 1 (SharedHeader.engine_done h)
                                (SharedHeader.with_producer_heartbeat now h)) r)
  | FeedExited _ => Ok (f, r)
  end.

(** * What it sends *)

(** The messages from order [id] on, for [n] orders. *)
Definition order_messages (id : Z) (order : Order.t) : list OrderMsg :=
  mkMsg MSG_NEW_ORDER order :: if cancel_due id then [cancel_message id] else [].

Fixpoint feed_plan (n : nat) (id : Z) (g : Generator) : result (list OrderMsg) :=
  match n with
  | O => Ok []
  | S n =>
    '(order, g) ← generator_next id g;
    rest ← feed_plan n (id + 1) g;
    Ok (order_messages id order ++ rest)
  end.
End feed.
