(* ===== verification/FeedProps.v ===== *)
(** What the feed sends, and that its process sends exactly that. *)

From stdpp Require Import strings.
From S2P Require Import Prelude.
From S2P Require Import Arguments.
From S2P Require Import OrderTypes.
From S2P Require Import BookProps.
From S2P Require Import Spsc.
From S2P Require Import EngineProcess.
From S2P Require Import Connection.
From S2P Require Import Generators.
From S2P Require Import FeedHandler.

#[local] Open Scope Z_scope.

(** * The arguments *)

Record feed_args_ok (a : FeedArgs) : Prop := {
  fa_orders : is_u64 (num_orders a);
  fa_seed : is_u64 (seed a);
  fa_cancel : is_u64 (cancel_every a);
  fa_per_day : is_u64 (orders_per_day a)
}.

Lemma feed_parseArgs_ok argv a :
  feed_parseArgs argv = Parsed_args a -> feed_args_ok a /\ orders_per_day a <> 0.
Proof.
  unfold feed_parseArgs. destruct (parse_flags _ _ _ _ _) as [a0|] eqn:E; [|done].
  assert (feed_args_ok a0) as Ha.
  { revert E. apply parse_flags_ok; [| |done|by split].
    - intros flag b b' [] . unfold feed_plain. repeat case_bool_decide; try done; by intros [= <-].
    - intros flag set value b b' []. unfold feed_valued.
      repeat case_bool_decide; try done; intros [= <-] Hs;
        first [apply bind_Some in Hs as (n & Hn%parseU64_unsigned_range & [= <-]) | injection Hs as <-]; by split. }
  destruct (_ && _); [done|]. destruct (Z.eqb_spec (orders_per_day a0) 0); [done|]. by intros [= <-].
Qed.

(** * The messages *)

Definition message_in_range (m : OrderMsg) : Prop := is_u32 (msg_type m) /\ Order.in_range (msg_order m).

(** A cancel names an order sent before it. *)
Definition names_sent (before : list OrderMsg) (m : OrderMsg) : Prop :=
  exists o, o ∈ before /\ is_new_order o = true /\ Order.id (msg_order o) = Order.id (msg_order m).
Fixpoint cancels_follow (before ms : list OrderMsg) : Prop :=
  match ms with
  | [] => True
  | m :: ms => (is_new_order m = false -> names_sent before m) /\ cancels_follow (before ++ [m]) ms
  end.

Section plan.
Context `{Random Rng} (args : FeedArgs).

(** The generator can give [n] orders from [id] on, each satisfying [P]. *)
Fixpoint supplies (P : Z -> Order.t -> Prop) (n : nat) (id : Z) (g : Generator (Rng := Rng)) : Prop :=
  match n with
  | O => True
  | S n => exists order g', generator_next id g = Ok (order, g') /\ P id order /\ supplies P n (id + 1) g'
  end.

Definition new_ids (ms : list OrderMsg) : list Z :=
  (fun m => Order.id (msg_order m)) <$> filter (fun m => is_new_order m = true) ms.

Lemma cancel_target id :
  feed_args_ok args -> 1 <= id < 2 ^ 64 ->
  let target := Order.id (msg_order (cancel_message args id)) in 1 <= target < 2 ^ 64 /\ (cancel_due args id = true -> target <= id).
Proof.
  intros [_ _ Hc _] Hid target. unfold target, cancel_message, cancel_due. cbn.
  pose proof (u64_range (id - cancel_every args / 2)) as Hr.
  split; [range|]. rewrite andb_true_iff, Z.ltb_lt, Z.eqb_eq. intros [Hpos Hmod].
  assert (cancel_every args <= id).
  { apply Z.divide_pos_le; [lia|]. apply Z.mod_divide; [lia|done]. }
  pose proof (Z.div_pos (cancel_every args) 2 ltac:(lia) ltac:(lia)).
  pose proof (Z.div_le_upper_bound (cancel_every args) 2 (cancel_every args) ltac:(lia) ltac:(lia)).
  rewrite u64_small by range. lia.
Qed.

Lemma cancel_message_in_range id :
  feed_args_ok args -> 1 <= id < 2 ^ 64 -> message_in_range (cancel_message args id).
Proof. intros Ha Hid. pose proof (cancel_target id Ha Hid) as [Ht _]. cbn in Ht. split; [done|]. split; cbn; done || range. Qed.

Lemma cancels_follow_app before l1 l2 :
  cancels_follow before l1 -> cancels_follow (before ++ l1) l2 -> cancels_follow before (l1 ++ l2).
Proof.
  revert before. induction l1 as [|m l1 IH]; intros before; cbn; [by rewrite app_nil_r|].
  intros [Hm H1] H2. split; [done|]. apply IH; [done|]. by rewrite <- app_assoc.
Qed.

(** Every earlier order is among the messages already sent. *)
Definition sent_up_to (id : Z) (before : list OrderMsg) : Prop :=
  forall k, 1 <= k < id ->
    exists o, o ∈ before /\ is_new_order o = true /\ Order.id (msg_order o) = k.

Lemma order_messages_ok id order before :
  feed_args_ok args -> 1 <= id < 2 ^ 64 -> Order.in_range order -> Order.id order = id ->
  sent_up_to id before ->
  let ms := order_messages args id order in
  Forall message_in_range ms /\ new_ids ms = [id] /\ cancels_follow before ms /\ sent_up_to (id + 1) (before ++ ms).
Proof.
  intros Ha Hid Ho Hoid Hb ms.
  assert (sent_up_to (id + 1) (before ++ [mkMsg MSG_NEW_ORDER order])) as Hsent.
  { intros k Hk. destruct (decide (k = id)) as [->|].
    - exists (mkMsg MSG_NEW_ORDER order). split_and!; [set_solver|done|done].
    - destruct (Hb k) as (o & Ho' & Hn & Hk'); [lia|]. exists o. split_and!; [set_solver|done|done]. }
  assert (message_in_range (mkMsg MSG_NEW_ORDER order)) as Hm by (by split).
  pose proof (cancel_message_in_range id Ha Hid). pose proof (cancel_target id Ha Hid) as [Ht Hle].
  unfold ms, order_messages. destruct (cancel_due args id) eqn:Ed; cbn in *.
  - split; [by rewrite !Forall_cons|]. split; [by rewrite <- Hoid|]. split_and!; try done.
    + intros _. apply Hsent. specialize (Hle eq_refl). cbn. lia.
    + intros k (o & Ho' & ?)%Hsent. exists o. set_solver.
  - split_and!; [by rewrite Forall_singleton|by rewrite <- Hoid|done|done|done].
Qed.

(** The plan of a generator that can supply it. *)
Lemma feed_plan_ok (P : Z -> Order.t -> Prop) n :
  feed_args_ok args -> (forall id o, P id o -> Order.id o = id /\ Order.in_range o) ->
  forall id g before, 1 <= id -> id + Z.of_nat n <= 2 ^ 64 -> supplies P n id g -> sent_up_to id before ->
  exists ms, feed_plan args n id g = Ok ms /\ Forall message_in_range ms
    /\ new_ids ms = seqZ id (Z.of_nat n) /\ cancels_follow before ms
    /\ Forall (fun m => is_new_order m = true -> P (Order.id (msg_order m)) (msg_order m)) ms.
Proof.
  intros Ha HP. induction n as [|n IH]; intros id g before Hid Hn Hs Hb; cbn [feed_plan].
  { exists []. by split_and!. }
  destruct Hs as (order & g' & -> & Ho & Hs). destruct (HP _ _ Ho) as [Hoid Hr].
  destruct (order_messages_ok id order before Ha ltac:(lia) Hr Hoid Hb) as (H1 & H2 & H3 & H4).
  destruct (IH (id + 1) g' _ ltac:(lia) ltac:(lia) Hs H4) as (ms & E & Hms & Hids & Hc & HP').
  cbn [mbind result_bind]. rewrite E. cbn [mbind result_bind]. eexists. split; [done|].
  split_and!.
  - by apply Forall_app.
  - unfold new_ids in *. rewrite filter_app, fmap_app, H2, Hids.
    replace (Z.of_nat (S n)) with (1 + Z.of_nat n) by lia. by rewrite seqZ_app by lia.
  - by apply cancels_follow_app.
  - apply Forall_app. split; [|done]. unfold order_messages.
    constructor; [intros _; cbn; by rewrite Hoid|]. destruct (cancel_due _ _); by repeat constructor.
Qed.

(** ** The generators *)

Context (bars : list DailyBar).

Definition usable_day (bar : DailyBar) : Prop := exists lo hi cap, usable_bar bar lo hi cap.

(** The order with this id in the configured mode: from the synthetic band, or from
    the range of its own trading day. *)
Definition planned (id : Z) (o : Order.t) : Prop :=
  if real_data args then
    exists bar lo hi cap, bars !! Z.to_nat ((id - 1) / orders_per_day args) = Some bar
      /\ usable_bar bar lo hi cap /\ quoted lo hi cap id o
  else quoted 9900 10100 500 id o.

Lemma planned_typed id o : planned id o -> Order.id o = id /\ Order.in_range o /\ well_formed o.
Proof.
  unfold planned. destruct (real_data args); [intros (? & ? & ? & ? & _ & _ & [])|intros []]; done.
Qed.

Lemma synthetic_supplies n : forall id (g : SyntheticOrderGenerator Rng),
  1 <= id -> id + Z.of_nat n <= 2 ^ 64 -> supplies (quoted 9900 10100 500) n id (Synthetic g).
Proof.
  induction n as [|n IH]; intros id g Hid Hn; cbn [supplies generator_next]; [done|].
  destruct (synthetic_next_ok id g) as (order & g' & -> & Ho & _); [lia|]. cbn.
  exists order, (Synthetic g'). split_and!; [done|done|apply IH; lia].
Qed.

Lemma real_supplies n : forall id (g : RealDataOrderGenerator Rng),
  1 <= id -> bars_ g = bars -> orders_per_day_ g = orders_per_day args -> 0 < orders_per_day args ->
  Forall usable_day bars -> real_data args = true ->
  id - 1 + Z.of_nat n <= Z.of_nat (length bars) * orders_per_day args < 2 ^ 64 ->
  supplies planned n id (RealData g).
Proof.
  induction n as [|n IH]; intros id g Hid Hb Ho Hpos Hu Hr Hn; cbn [supplies generator_next]; [done|].
  set (day := Z.to_nat ((id - 1) / orders_per_day args)).
  pose proof (Z.div_mod (id - 1) (orders_per_day args) ltac:(lia)) as Hdm.
  pose proof (Z.mod_pos_bound (id - 1) (orders_per_day args) ltac:(lia)) as Hmod.
  assert (0 <= (id - 1) / orders_per_day args < Z.of_nat (length bars)) as Hday.
  { split; [apply Z.div_pos; lia|apply Z.div_lt_upper_bound; lia]. }
  destruct (lookup_lt_is_Some_2 bars day) as [bar Hbar]; [lia|].
  destruct (Forall_lookup_1 _ _ _ _ Hu Hbar) as (lo & hi & cap & Hbar').
  destruct (real_next_ok id g bar lo hi cap) as (order & g' & -> & Hq & Hb' & Ho'); [lia| |done|].
  { replace id with (1 + Z.of_nat day * orders_per_day_ g + (id - 1) mod orders_per_day args) by lia.
    rewrite dayFor_day by (rewrite ?Hb, ?Ho; lia). by rewrite Hb, Hbar. }
  exists order, (RealData g'). split; [done|]. split.
  - unfold planned. rewrite Hr. by exists bar, lo, hi, cap.
  - apply IH; try done; try congruence; lia.
Qed.

(** Real-data mode needs days with positive prices, and few enough of them. *)
Definition data_ok : Prop :=
  real_data args = true ->
  Forall usable_day bars /\ Z.of_nat (length bars) * orders_per_day args < 2 ^ 64 - 1.

Lemma source_supplies g total :
  feed_args_ok args -> orders_per_day args <> 0 -> data_ok ->
  feed_source args bars = Some (g, total) -> total < 2 ^ 64 - 1 ->
  0 <= total /\ supplies planned (Z.to_nat total) 1 g.
Proof.
  intros Ha Hd Hdata. unfold feed_source, planned, data_ok in *. destruct (real_data args) eqn:Hr.
  - destruct bars as [|bar bars'] eqn:Hb; [done|]. rewrite <- Hb in *. intros [= <- <-] _.
    destruct (Hdata eq_refl) as [Hu Hn]. destruct Ha as [_ _ _ Hopd]. unfold is_u64 in Hopd.
    unfold totalOrders. cbn [bars_ orders_per_day_]. rewrite u64_small by (split; nia). split; [nia|].
    pose proof (real_supplies (Z.to_nat (Z.of_nat (length bars) * orders_per_day args)) 1
      (mkRealData bars (orders_per_day args) (seeded (seed args)))) as H'.
    unfold planned in H'. rewrite Hr in H'. apply H'; try done; unfold is_u64 in *; nia.
  - intros [= <- <-] Hn. destruct Ha as [Hord _ _ _]. split; [unfold is_u64 in Hord; lia|].
    apply synthetic_supplies; unfold is_u64 in *; lia.
Qed.
End plan.

Lemma source_plan `{Random Rng} args bars g total :
  feed_args_ok args -> orders_per_day args <> 0 -> data_ok args bars ->
  feed_source args bars = Some (g, total) -> total < 2 ^ 64 - 1 ->
  0 <= total /\ exists ms, feed_plan args (Z.to_nat total) 1 g = Ok ms
    /\ Forall message_in_range ms /\ new_ids ms = seqZ 1 total /\ cancels_follow [] ms
    /\ Forall (fun m => is_new_order m = true ->
         planned args bars (Order.id (msg_order m)) (msg_order m)) ms.
Proof.
  intros Ha Hd Hdata Hsrc Hn.
  destruct (source_supplies args bars g total Ha Hd Hdata Hsrc Hn) as [Ht Hs].
  destruct (feed_plan_ok args (planned args bars) (Z.to_nat total)) with (id := 1) (g := g) (before := @nil OrderMsg)
    as (ms & E & H1 & H2 & H3 & H4); [done| |lia|lia|done|by intros k Hk; lia|].
  { intros id o (? & ? & _)%planned_typed. done. }
  split; [done|]. exists ms. by rewrite Z2Nat.id in H2 by lia.
Qed.


(** * The process sends the plan *)

Section process.
Context `{Random Rng} (bits : nat) (region_bytes : Z) (args : FeedArgs) (bars : list DailyBar).

(** What a step does to the region, and the message it put in, if any. *)
Inductive feed_effect (r : SharedRegion) : list OrderMsg -> SharedRegion -> Prop :=
| effect_none : feed_effect r [] r
| effect_beat now : feed_effect r [] (producer_beat now r)
| effect_push m q : try_push bits (order_queue r) m = (true, q) -> feed_effect r [m] (with_orders r q)
| effect_push_beat m q now :
    try_push bits (order_queue r) m = (true, q) -> feed_effect r [m] (producer_beat now (with_orders r q))
| effect_done now :
    feed_effect r [] (with_header (fun h => SharedHeader.with_flags (SharedHeader.state h) 1
                        (SharedHeader.engine_done h) (SharedHeader.with_producer_heartbeat now h)) r).

(** [ms] is the plan of the configured source. *)
Definition plan_is (ms : list OrderMsg) : Prop :=
  forall g total, feed_source args bars = Some (g, total) ->
    0 <= total < 2 ^ 64 - 1 /\ feed_plan args (Z.to_nat total) 1 g = Ok ms.

Definition feed_sent (f : Feed (Rng := Rng)) (sent ms : list OrderMsg) : Prop :=
  match feed_phase f with
  | FeedConnecting _ => sent = [] /\ orders_pushed f = 0
  | Generating g total id => 1 <= id <= total + 1 /\ total < 2 ^ 64 - 1 /\ orders_pushed f = id - 1
    /\ exists rest, feed_plan args (Z.to_nat (total - id + 1)) id g = Ok rest /\ sent ++ rest = ms
  | PushingOrder g total id m => 1 <= id <= total /\ total < 2 ^ 64 - 1 /\ orders_pushed f = id - 1
    /\ exists order rest, m = mkMsg MSG_NEW_ORDER order
       /\ feed_plan args (Z.to_nat (total - id)) (id + 1) g = Ok rest
       /\ sent ++ order_messages args id order ++ rest = ms
  | PushingCancel g total id m => 1 <= id <= total /\ total < 2 ^ 64 - 1 /\ orders_pushed f = id
    /\ exists rest, feed_plan args (Z.to_nat (total - id)) (id + 1) g = Ok rest /\ sent ++ m :: rest = ms
  | Closing => sent = ms
  | FeedExited code => (code = 0 /\ sent = ms) \/ (code = 1 /\ sent = [])
  end.

Lemma failed_push r m q : try_push bits (order_queue r) m = (false, q) -> with_orders r q = r.
Proof. unfold try_push. case_match; [|done]. intros [= <-]. by destruct r. Qed.

Lemma feed_connect_sent opened now c r ph r' n k ms :
  plan_is ms -> feed_connect region_bytes args bars opened now c r = (ph, r') ->
  n = 0 -> feed_effect r [] r' /\ feed_sent (mkFeed n k ph) [] ms.
Proof.
  intros Hms Hc ->. unfold feed_connect in Hc. unfold feed_sent. cbn [feed_phase orders_pushed].
  destruct (connect _ _ _ _) in Hc; injection Hc as <- <-; (split; [constructor|auto]).
  destruct (feed_source args bars) as [[g total]|] eqn:Es; [|by right].
  destruct (Hms g total Es) as [Ht Hp]. split_and!; try lia. exists ms.
  by replace (total - 1 + 1) with total by lia.
Qed.

Lemma feed_step_sends opened now f r f' r' sent ms :
  plan_is ms -> feed_sent f sent ms -> feed_step bits region_bytes args bars opened now f r = Ok (f', r') ->
  exists pushed, feed_effect r pushed r' /\ feed_sent f' (sent ++ pushed) ms.
Proof.
  intros Hms Hf. unfold feed_step, feed_sent in Hf |- *.
  destruct (feed_phase f) as [c|g total id|g total id m|g total id m| |code] eqn:Hph.
  - destruct Hf as [-> Hn]. destruct (feed_connect _ _ _ _ _ _ _) as [ph r1] eqn:Ec. intros [= <- <-].
    exists []. eapply (feed_connect_sent _ _ _ _ _ _ _ (cancels_pushed f)) in Ec as [He Hs]; [|done|exact Hn]. by split.
  - destruct Hf as (Hid & Ht & Hn & rest & Hp & Hrest).
    destruct (Z.leb_spec id total).
    + intros ([order g'] & Hg & [= <- <-])%bind_Ok. exists []. split; [constructor|]. rewrite app_nil_r. cbn.
      replace (Z.to_nat (total - id + 1)) with (S (Z.to_nat (total - id))) in Hp by lia. cbn [feed_plan] in Hp.
      rewrite Hg in Hp. cbn [mbind result_bind] in Hp. apply bind_Ok in Hp as (rest' & Hp' & [= <-]).
      split_and!; try lia. by exists order, rest'.
    + intros [= <- <-]. exists []. split; [constructor|]. cbn.
      replace (Z.to_nat (total - id + 1)) with O in Hp by lia. by injection Hp as <-.
  - destruct Hf as (Hid & Ht & Hn & order & rest & -> & Hp & Hrest).
    destruct (try_push _ _ _) as [[] q] eqn:Hq; intros [= <- <-].
    + rewrite Hn, Z.sub_add, u64_small by range.
      exists [mkMsg MSG_NEW_ORDER order]. split; [case_match; by constructor|].
      unfold order_messages in Hrest. destruct (cancel_due args id); cbn [feed_phase orders_pushed].
      * split_and!; try lia. exists rest. split; [done|]. by rewrite <- app_assoc.
      * rewrite u64_small by range. split_and!; try lia. exists rest. rewrite <- app_assoc. split; [|done].
        by replace (total - (id + 1) + 1) with (total - id) by lia.
    + rewrite (failed_push _ _ _ Hq). exists []. split; [constructor|]. rewrite app_nil_r, Hph.
      split_and!; try lia. by exists order, rest.
  - destruct Hf as (Hid & Ht & Hn & rest & Hp & Hrest).
    destruct (try_push _ _ _) as [[] q] eqn:Hq; intros [= <- <-].
    + exists [m]. split; [by constructor|]. cbn. rewrite u64_small by range. split_and!; try lia.
      exists rest. rewrite <- app_assoc. split; [|done].
      by replace (total - (id + 1) + 1) with (total - id) by lia.
    + rewrite (failed_push _ _ _ Hq). exists []. split; [constructor|]. rewrite app_nil_r, Hph.
      split_and!; try lia. by exists rest.
  - intros [= <- <-]. exists []. split; [constructor|]. rewrite app_nil_r. by left.
  - intros [= <- <-]. exists []. split; [constructor|]. by rewrite app_nil_r, Hph.
Qed.

(** The process does not fault. *)
Lemma feed_step_total opened now f r sent ms :
  feed_sent f sent ms -> exists f' r', feed_step bits region_bytes args bars opened now f r = Ok (f', r').
Proof.
  unfold feed_sent, feed_step. destruct (feed_phase f) as [c|g total id|g total id m|g total id m| |code].
  - intros _. destruct (feed_connect _ _ _ _ _ _ _). by eexists _, _.
  - intros (Hid & Ht & Hn & rest & Hp & _). destruct (Z.leb_spec id total); [|by eexists _, _].
    replace (Z.to_nat (total - id + 1)) with (S (Z.to_nat (total - id))) in Hp by lia. cbn [feed_plan] in Hp.
    apply bind_Ok in Hp as ([order g'] & -> & _). by eexists _, _.
  - intros _. destruct (try_push _ _ _) as [[] q]; by eexists _, _.
  - intros _. destruct (try_push _ _ _) as [[] q]; by eexists _, _.
  - by eexists _, _.
  - by eexists _, _.
Qed.
End process.
