(* ===== verification/CsvPrices.v ===== *)
(** From the text of a CSV file to the prices of orders: the reader, [ticks] and the
    generator together. *)

From Stdlib Require Import SpecFloat Reals Lra.
From stdpp Require Import strings.
From S2P Require Import Prelude.
From S2P Require Import Doubles.
From S2P Require Import DoubleBounds.
From S2P Require Import Arguments.
From S2P Require Import OrderTypes.
From S2P Require Import EngineProcess.
From S2P Require Import Generators.
From S2P Require Import CsvReader.
From S2P Require Import CsvProps.
From S2P Require Import FeedHandler.
From S2P Require Import FeedProps.

#[local] Open Scope Z_scope.

(** * Prices as text *)

Definition dot : Ascii.ascii := Ascii.ascii_of_nat 46.

(** Digits, and digits after a point if there are any. *)
Record Price : Type := mkPrice { whole : list Ascii.ascii; frac : list Ascii.ascii }.
Definition price_text (p : Price) : string :=
  text (whole p) (match frac p with [] => "" | ds => String dot (text ds "") end).
Definition price_num (p : Price) : Z := decimal 0 (whole p ++ frac p).
Definition price_den (p : Price) : Z := 10 ^ Z.of_nat (length (frac p)).

(** Between a cent and a thousand million. *)
Record price_ok (p : Price) : Prop := {
  pr_whole : Forall is_digit (whole p);
  pr_some : whole p <> [];
  pr_frac : Forall is_digit (frac p);
  pr_low : price_den p <= 100 * price_num p;
  pr_high : price_num p <= 10 ^ 9 * price_den p
}.

Lemma price_den_pos p : 0 < price_den p.
Proof. apply Z.pow_pos_nonneg; lia. Qed.

Definition starts_without_digit (r : string) : Prop :=
  match r with String c _ => is_digit c = false | EmptyString => True end.

Lemma read_digits_rest ds r : forall acc, Forall is_digit ds -> starts_without_digit r ->
  read_digits acc (text ds r) = (length ds, decimal acc ds, r).
Proof.
  intros acc Hds Hr. revert acc. induction Hds as [|c ds Hc _ IH]; intros acc; cbn [text read_digits].
  - destruct r as [|c r]; [done|]. cbn. cbn in Hr. by rewrite Hr.
  - rewrite (Is_true_true_1 _ Hc), IH. done.
Qed.

Lemma decimal_app acc ds es : decimal acc (ds ++ es) = decimal (decimal acc ds) es.
Proof. apply foldl_app. Qed.

Lemma lower_digit c : is_digit c -> lower c = char_code c /\ 48 <= char_code c <= 57.
Proof. unfold is_digit, lower. intros H%Is_true_true_1. case_match; lia. Qed.

Lemma not_a_word c s w ws : is_digit c -> (w < 48 \/ 57 < w) -> after_word (w :: ws) (String c s) = None.
Proof. intros [Hl Hc]%lower_digit Hw. cbn. rewrite Hl. by rewrite (proj2 (Z.eqb_neq _ _)) by lia. Qed.

Lemma strtod_price p :
  price_ok p -> strtod (price_text p) = Some (scaled false 10 (price_num p) (- Z.of_nat (length (frac p))), ""%string).
Proof.
  intros [Hw Hs Hf _ _]. unfold strtod, price_text, price_num.
  set (r := match frac p with [] => ""%string | ds => String dot (text ds "") end).
  destruct (whole p) as [|c ds] eqn:Ew; [done|]. pose proof Hw as [Hc Hds]%Forall_cons.
  destruct (digit_not_sign c Hc) as (Hc1 & Hc2 & Hc3). cbn [text skip_spaces]. rewrite Hc1. cbn [read_sign].
  rewrite Hc2, Hc3, !not_a_word by (done || lia).
  assert (strtod_hex false (String c (text ds r)) = None) as ->.
  { unfold strtod_hex. cbn [after_word]. destruct (lower c =? 48); [|done].
    destruct ds as [|c2 ds]; cbn [text].
    - unfold r. by destruct (frac p).
    - apply Forall_cons in Hds as [Hc4 _]. destruct (lower_digit c2 Hc4) as [E ?].
      rewrite E, (proj2 (Z.eqb_neq _ _)) by lia. done. }
  unfold strtod_decimal, read_fraction. change (String c (text ds r)) with (text (c :: ds) r).
  rewrite read_digits_rest; [|done|unfold r; by destruct (frac p)].
  unfold r. destruct (frac p) as [|f fs] eqn:Ef; cbn [after_word].
  - by rewrite app_nil_r.
  - change (lower dot =? 46) with true. cbn iota. rewrite read_digits_rest by done.
    rewrite <- decimal_app. done.
Qed.

(** * Their doubles *)

(** A ratio in the range of prices. *)
Definition priced (a b : Z) : Prop := 0 < b /\ b <= 100 * a /\ a <= 10 ^ 9 * b.

Lemma log2_ratio a b : priced a b -> -7 <= Z.log2 a - Z.log2 b <= 30.
Proof.
  intros (Hb & Hlo & Hhi). assert (0 < a) by lia. pose proof (Z.log2_nonneg a). pose proof (Z.log2_nonneg b).
  pose proof (Z.log2_le_mono b (a * 2 ^ 7) ltac:(lia)) as Hab. rewrite Z.log2_mul_pow2 in Hab by lia.
  pose proof (Z.log2_le_mono a (b * 2 ^ 30) ltac:(lia)) as Hba. rewrite Z.log2_mul_pow2 in Hba by lia. lia.
Qed.

Lemma nearest_close a b :
  priced a b -> exists v, holds (nearest false a b) v /\ near (bp (-51)) v (IZR a / IZR b).
Proof.
  intros Hp. pose proof (log2_ratio a b Hp). destruct Hp as (Hb & Hlo & Hhi). unfold nearest.
  rewrite (proj2 (Z.eqb_neq a 0)) by lia. pose proof (core_close a 0 b 0 ltac:(lia) Hb ltac:(lia) ltac:(lia)) as Hc.
  destruct (SFdiv_core_binary _ _ _ _ _ _) as [[q e] l]. destruct Hc as (v & Hv & Hc). exists v. split; [done|].
  change (bp 0) with 1%R in Hc. by rewrite !Rmult_1_r in Hc.
Qed.

Lemma in_range_ratio a b : priced a b -> erange (nearest false a b) a b = false.
Proof.
  intros Hp. destruct (nearest_close a b Hp) as (v & (m & e & -> & _) & _). destruct Hp as (Hb & Hlo & Hhi).
  unfold erange. rewrite (proj2 (Z.ltb_ge _ _)); [done|]. lia.
Qed.

Definition price_value (p : Price) : R := IZR (price_num p) / IZR (price_den p).

Lemma stod_price p :
  price_ok p -> exists x v, stod (price_text p) = Return x /\ holds x v /\ near (bp (-51)) v (price_value p).
Proof.
  intros Hp. assert (priced (price_num p) (price_den p)) as Hr.
  { split; [apply price_den_pos|]. split; apply Hp. }
  destruct (nearest_close _ _ Hr) as (v & Hv & Hc). exists (nearest false (price_num p) (price_den p)), v.
  split; [|done]. unfold stod. rewrite strtod_price by done.
  assert (scaled false 10 (price_num p) (- Z.of_nat (length (frac p)))
          = (nearest false (price_num p) (price_den p), false)) as ->; [|done].
  unfold scaled, rounded. rewrite Z.opp_involutive. fold (price_den p).
  destruct (Z.leb_spec 0 (- Z.of_nat (length (frac p)))) as [Hz|_].
  - assert (length (frac p) = 0%nat) as E by lia.
    assert (price_den p = 1) as Hd by (unfold price_den; by rewrite E).
    rewrite E, Z.mul_1_r. rewrite Hd in Hr |- *. by rewrite in_range_ratio.
  - by rewrite in_range_ratio.
Qed.

Lemma price_value_bounds p : price_ok p -> (1 / 100 <= price_value p <= 1000000000)%R.
Proof.
  intros Hp. unfold price_value. pose proof (price_den_pos p) as Hd%IZR_lt.
  pose proof (IZR_le _ _ (pr_low p Hp)) as H1. pose proof (IZR_le _ _ (pr_high p Hp)) as H2. rewrite mult_IZR in H1, H2.
  split.
  - apply (Rmult_le_reg_r (IZR (price_den p))); [done|]. unfold Rdiv. rewrite (Rmult_assoc (IZR (price_num p))), Rinv_l by lra. lra.
  - apply (Rmult_le_reg_r (IZR (price_den p))); [done|]. unfold Rdiv. rewrite (Rmult_assoc (IZR (price_num p))), Rinv_l by lra.
    change (10 ^ 9)%Z with 1000000000%Z in H2. lra.
Qed.

(** * Ticks *)

Section ticks.
#[local] Open Scope R_scope.

Lemma hundred : holds (double_of 100 0) 100.
Proof.
  exists 7036874417766400%positive, (-46)%Z. split; [done|]. split; [lia|]. assert (bp (-46) = / 70368744177664) by (by apply (bp_inverse 46)). lra.
Qed.
Lemma half : holds (double_of 1 (-1)) (1 / 2).
Proof.
  exists 4503599627370496%positive, (-53)%Z. split; [done|]. split; [lia|]. assert (bp (-53) = / 9007199254740992) by (by apply (bp_inverse 53)). lra.
Qed.

Lemma ticks_near x v p :
  holds x v -> near (bp (-51)) v p -> 1 / 100 <= p <= 1000000000 ->
  exists t, ticks x = Ok t /\ (0 < t)%Z /\ - (501 / 1000) <= IZR t - 100 * p <= 501 / 1000.
Proof.
  intros Hx Hc%(close_bounds 51) Hp; [|done]. change (2 ^ 51)%Z with 2251799813685248%Z in Hc.
  assert (/ 1048576 <= v <= 1099511627776) as [_ Hv]%in_box by lra.
  assert (/ 1048576 <= 100 <= 1099511627776) as [_ H100]%in_box by lra.
  destruct (mul_close _ _ _ _ Hx hundred Hv H100) as (y & Hy & Hcy%(close_bounds 53)); [|done].
  change (2 ^ 53)%Z with 9007199254740992%Z in Hcy.
  assert (/ 1048576 <= y <= 1099511627776) as [Hyb _]%in_box by lra.
  assert (/ 1048576 <= 1 / 2 <= 1099511627776) as [Hhb _]%in_box by lra.
  destruct (add_close _ _ _ _ Hy half Hyb Hhb) as (z & Hz & Hcz%(close_bounds 53)); [|done].
  change (2 ^ 53)%Z with 9007199254740992%Z in Hcz.
  destruct (truncate_floor _ _ Hz) as (t & Ht & Hfl & Hpos).
  { rewrite bp_nonneg by lia. change (2 ^ 50)%Z with 1125899906842624%Z. lra. }
  assert (-1 < IZR t - 100 * p < 1) as Hnear by lra. exists t. unfold ticks, int64_of_double.
  rewrite Ht. cbn [defined mbind result_bind].
  assert (0 < t)%Z by (apply lt_IZR; lra).
  assert (t < 2 ^ 62)%Z by (apply lt_IZR; change (2 ^ 62)%Z with 4611686018427387904%Z; lra).
  rewrite bool_decide_eq_true_2 by range. split; [done|]. split; [done|]. lra.
Qed.

(** * Quantities *)

Lemma holds_one : holds one 1.
Proof.
  exists 4503599627370496%positive, (-52)%Z. split; [done|]. split; [lia|].
  assert (bp (-52) = / 4503599627370496) by (by apply (bp_inverse 52)). lra.
Qed.
Lemma hundred_million : holds (double_of 100000000 0) 100000000.
Proof.
  exists 6710886400000000%positive, (-26)%Z. split; [done|]. split; [lia|].
  assert (bp (-26) = / 67108864) by (by apply (bp_inverse 26)). lra.
Qed.
Lemma fifty : holds (double_of 50 0) 50.
Proof.
  exists 7036874417766400%positive, (-47)%Z. split; [done|]. split; [lia|].
  assert (bp (-47) = / 140737488355328) by (by apply (bp_inverse 47)). lra.
Qed.
Lemma four_fifty : holds (double_of 450 0) 450.
Proof.
  exists 7916483719987200%positive, (-44)%Z. split; [done|]. split; [lia|].
  assert (bp (-44) = / 17592186044416) by (by apply (bp_inverse 44)). lra.
Qed.

Lemma volume_weight_ok volume :
  (0 < volume < 2 ^ 64)%Z -> exists w, holds (volume_weight volume) w /\ 1 / 200000000 <= w <= 1.
Proof.
  intros Hv. destruct (double_of_close volume Hv) as (v & Hd & Hc%(close_bounds 53)); [|done].
  change (2 ^ 53)%Z with 9007199254740992%Z in Hc.
  assert (1 <= IZR volume <= 18446744073709551616) as Hvol by (split; apply IZR_le; lia).
  assert (bp (-20) = / 1048576) by (by apply (bp_inverse 20)). assert (bp 65 = 36893488147419103232) by (by apply bp_nonneg).
  pose proof (bp_le (-300) (-20) ltac:(lia)). pose proof (bp_le 65 300 ltac:(lia)).
  destruct (div_close _ _ _ _ Hd hundred_million) as (w & Hw & Hcw%(close_bounds 51)); [lra|lra| |done].
  change (2 ^ 51)%Z with 2251799813685248%Z in Hcw. unfold volume_weight. fold one.
  destruct (SFltb _ one) eqn:E; [|exists 1; split; [apply holds_one|lra]].
  exists w. split; [done|]. pose proof (below_one _ _ Hw E). lra.
Qed.

Lemma quantity_cap_ok volume : is_u64 volume -> exists cap, quantity_cap volume = Ok cap /\ (1 <= cap <= 501)%Z.
Proof.
  intros Hv. destruct (decide (volume = 0%Z)) as [->|Hne]; [exists 50%Z; split; [by vm_compute|lia]|].
  destruct (volume_weight_ok volume) as (w & Hw & Hwb); [unfold is_u64 in Hv; lia|].
  assert (bp (-20) = / 1048576) by (by apply (bp_inverse 20)). assert (bp (-40) = / 1099511627776) by (by apply (bp_inverse 40)).
  assert (bp 40 = 1099511627776) by (by apply bp_nonneg).
  pose proof (bp_le (-300) (-40) ltac:(lia)). pose proof (bp_le 40 300 ltac:(lia)).
  destruct (mul_close _ _ _ _ Hw four_fifty) as (u & Hu & Hcu%(close_bounds 53)); [lra|lra| |done].
  change (2 ^ 53)%Z with 9007199254740992%Z in Hcu.
  destruct (add_close _ _ _ _ fifty Hu) as (s & Hs & Hcs%(close_bounds 53)); [lra|lra| |done].
  change (2 ^ 53)%Z with 9007199254740992%Z in Hcs.
  destruct (truncate_floor _ _ Hs) as (t & Ht & Hfl & Hpos).
  { rewrite bp_nonneg by lia. change (2 ^ 50)%Z with 1125899906842624%Z. lra. }
  exists t. assert (0 < t < 502)%Z by (split; apply lt_IZR; lra).
  split; [|lia]. unfold quantity_cap, uint32_of_double. rewrite Ht. cbn [defined mbind result_bind].
  by rewrite bool_decide_eq_true_2 by range.
Qed.
End ticks.

(** * Days *)

Record Day : Type := mkDay {
  day_date : string; day_open : Price; day_high : Price; day_low : Price; day_close : Price;
  day_volume : list Ascii.ascii; day_more : option string
}.
Definition day_row (d : Day) : Row :=
  mkRow (day_date d) (price_text (day_open d)) (price_text (day_high d)) (price_text (day_low d))
    (price_text (day_close d)) (text (day_volume d) "") (day_more d).

Record day_ok (d : Day) : Prop := {
  dy_date : lacks comma (day_date d) = true /\ lacks newline (day_date d) = true;
  dy_open : price_ok (day_open d);
  dy_high : price_ok (day_high d);
  dy_low : price_ok (day_low d);
  dy_close : price_ok (day_close d);
  dy_volume : Forall is_digit (day_volume d) /\ day_volume d <> [] /\ decimal 0 (day_volume d) <= UINT64_MAX;
  dy_more : match day_more d with Some more => lacks newline more = true | None => True end
}.

(** The prices of a day's orders: from its low to its high, to the nearest tick. *)
Definition in_day (d : Day) (price : Z) : Prop :=
  (100 * Rmin (price_value (day_low d)) (price_value (day_high d)) - 501 / 1000 <= IZR price
   <= 100 * Rmax (price_value (day_low d)) (price_value (day_high d)) + 501 / 1000)%R.

Lemma lacks_price c p : price_ok p -> is_digit c = false -> c <> dot -> lacks c (price_text p) = true.
Proof.
  intros [Hw _ Hf _ _] Hc Hd. unfold price_text. rewrite lacks_text by done. destruct (frac p) as [|x ds] eqn:E; [done|].
  cbn [lacks]. rewrite lacks_text by done. rewrite bool_decide_eq_false_2; [done|congruence].
Qed.

Lemma lacks_field c x a b : c <> x -> lacks c a = true -> lacks c b = true -> lacks c (a +:+ String x b) = true.
Proof.
  intros Hc Ha Hb. rewrite lacks_append, Ha. cbn [lacks andb]. rewrite bool_decide_eq_false_2 by congruence. by rewrite Hb.
Qed.

Lemma day_row_ok d : day_ok d -> row_ok (day_row d).
Proof.
  intros [[Hd1 Hd2] Ho Hh Hl Hc (Hv & _ & _) Hm]. split.
  - cbn. repeat constructor; try done; try (by apply lacks_price). by rewrite lacks_text.
  - unfold row_text. cbn. do 5 (apply lacks_field; [done|done || by apply lacks_price|]).
    destruct (day_more d); [apply lacks_field; [done| |done]|rewrite append_nil_r]; by rewrite lacks_text.
Qed.

(** What the reader and [ticks] make of a day. *)
Lemma day_bar d :
  day_ok d -> exists bar lo hi cap, bar_of (day_row d) = Return bar /\ usable_bar bar lo hi cap
    /\ forall price, lo <= price <= hi -> in_day d price.
Proof.
  intros [_ Ho Hh Hl Hc (Hv & Hne & Hmax) _].
  destruct (stod_price _ Ho) as (xo & _ & Eo & _). destruct (stod_price _ Hc) as (xc & _ & Ec & _).
  destruct (stod_price _ Hh) as (xh & vh & Eh & Hvh & Hch). destruct (stod_price _ Hl) as (xl & vl & El & Hvl & Hcl).
  destruct (ticks_near _ _ _ Hvh Hch (price_value_bounds _ Hh)) as (th & Eth & Hth & Hnh).
  destruct (ticks_near _ _ _ Hvl Hcl (price_value_bounds _ Hl)) as (tl & Etl & Htl & Hnl).
  pose proof (decimal_nonneg (day_volume d) 0 ltac:(lia) Hv) as Hpos.
  destruct (quantity_cap_ok (decimal 0 (day_volume d))) as (cap & Ecap & Hcap); [unfold UINT64_MAX in Hmax; range|].
  assert (stoull (text (day_volume d) "") = Return (decimal 0 (day_volume d))) as Ev.
  { unfold stoull. assert (strto (text (day_volume d) "") = Some (false, decimal 0 (day_volume d), ""%string)) as ->.
    { apply strto_numeral. split. exists [], [], (day_volume d). split_and!; try done. by left. }
    by rewrite (proj2 (Z.ltb_ge _ _)) by lia. }
  exists (mkBar (day_date d) xo xh xl xc (decimal 0 (day_volume d))), (Z.min tl th), (Z.max tl th), cap.
  split; [unfold bar_of; cbn; by rewrite Eo, Eh, El, Ec, Ev|]. split.
  - exists tl, th. cbn. split_and!; (done || lia).
  - intros price [Hlo Hhi]. unfold in_day. set (l := price_value (day_low d)) in *. set (h := price_value (day_high d)) in *.
    pose proof (Rmin_l l h). pose proof (Rmin_r l h). pose proof (Rmax_l l h). pose proof (Rmax_r l h).
    apply IZR_le in Hlo, Hhi. destruct (Z.min_spec tl th) as [[_ E1]|[_ E1]], (Z.max_spec tl th) as [[_ E2]|[_ E2]];
      rewrite E1, E2 in *; lra.
Qed.

Lemma days_bars days :
  Forall day_ok days -> exists bars, mapM bar_of (day_row <$> days) = Return bars
    /\ Forall2 (fun d bar => exists lo hi cap, usable_bar bar lo hi cap /\ forall price, lo <= price <= hi -> in_day d price)
         days bars.
Proof.
  induction 1 as [|d days Hd _ (bars & Eb & Hb)]; [by exists []|].
  destruct (day_bar d Hd) as (bar & lo & hi & cap & E & Hu & Hin). exists (bar :: bars).
  rewrite fmap_cons. cbn [mapM]. rewrite E. cbn [mbind thrown_bind]. rewrite Eb. split; [done|].
  constructor; [by exists lo, hi, cap|done].
Qed.

Lemma usable_unique bar lo hi cap lo' hi' cap' :
  usable_bar bar lo hi cap -> usable_bar bar lo' hi' cap' -> lo = lo' /\ hi = hi'.
Proof.
  intros (l & h & El & Eh & -> & -> & _) (l' & h' & El' & Eh' & -> & -> & _).
  rewrite El in El'. rewrite Eh in Eh'. by injection El' as ->; injection Eh' as ->.
Qed.


(** The first two days of the data file. *)
Module Sample.
Definition digits : string -> list Ascii.ascii := String.list_ascii_of_string.
Definition price (w f : string) : Price := mkPrice (digits w) (digits f).
Definition days : list Day :=
  [mkDay "2015-02-17" (price "127" "489998") (price "128" "880005") (price "126" "919998") (price "127" "830002")
     (digits "63152400") (Some "122.905254,106.7410523"%string);
   mkDay "2015-02-18" (price "127" "629997") (price "128" "779999") (price "127" "449997") (price "128" "720001")
     (digits "44891700") None].
Definition argv : list string := ["--real-data"; "--orders-per-day"; "3"]%string.

Lemma days_ok : Forall day_ok days.
Proof.
  repeat constructor; cbn; try done; vm_compute; congruence.
Qed.
End Sample.

