(* ===== verification/ReportNames.v ===== *)
(** [execution_report.cpp]: the names the viewer and the tests print. *)

From stdpp Require Import strings.
From S2P Require Import Prelude.
From S2P Require Import OrderTypes.

#[local] Open Scope string_scope.

Definition toString_status (status : ExecutionStatus) : string :=
  match status with
  | REJECTED => "REJECTED"
  | RESTING => "RESTING"
  | PARTIALLY_FILLED => "PARTIALLY_FILLED"
  | FILLED => "FILLED"
  | EXPIRED => "EXPIRED"
  | CANCELED => "CANCELED"
  end.

Definition toString_reason (reason : RejectReason) : string :=
  match reason with
  | NONE => "NONE"
  | INVALID_ORDER_ID => "INVALID_ORDER_ID"
  | DUPLICATE_ORDER_ID => "DUPLICATE_ORDER_ID"
  | INVALID_SIDE => "INVALID_SIDE"
  | INVALID_ORDER_TYPE => "INVALID_ORDER_TYPE"
  | INVALID_TIME_IN_FORCE => "INVALID_TIME_IN_FORCE"
  | INVALID_ORDER_FLAGS => "INVALID_ORDER_FLAGS"
  | INVALID_QUANTITY => "INVALID_QUANTITY"
  | INVALID_LIMIT_PRICE => "INVALID_LIMIT_PRICE"
  | MARKET_ORDER_CANNOT_BE_GTC => "MARKET_ORDER_CANNOT_BE_GTC"
  | POST_ONLY_REQUIRES_GTC_LIMIT => "POST_ONLY_REQUIRES_GTC_LIMIT"
  | POST_ONLY_WOULD_TRADE => "POST_ONLY_WOULD_TRADE"
  | FOK_NOT_FILLABLE => "FOK_NOT_FILLABLE"
  | RISK_KILL_SWITCH => "RISK_KILL_SWITCH"
  | RISK_MAX_ORDER_QUANTITY => "RISK_MAX_ORDER_QUANTITY"
  | RISK_PRICE_OUT_OF_RANGE => "RISK_PRICE_OUT_OF_RANGE"
  | RISK_MAX_NOTIONAL => "RISK_MAX_NOTIONAL"
  | RISK_MAX_ACTIVE_ORDERS => "RISK_MAX_ACTIVE_ORDERS"
  | ORDER_NOT_FOUND => "ORDER_NOT_FOUND"
  | INGRESS_QUEUE_FULL => "INGRESS_QUEUE_FULL"
  | ENGINE_SHUTTING_DOWN => "ENGINE_SHUTTING_DOWN"
  | JOURNAL_ERROR => "JOURNAL_ERROR"
  end.

Definition toString_command (command : CommandType) : string :=
  match command with
  | NEW_ORDER => "NEW_ORDER"
  | CANCEL_ORDER => "CANCEL_ORDER"
  end.

(** No two values print alike, so a printed report can be read back. *)
#[export] Instance toString_status_inj : Inj (=) (=) toString_status.
Proof. intros [] []; by intros. Qed.
#[export] Instance toString_reason_inj : Inj (=) (=) toString_reason.
Proof. intros [] []; by intros. Qed.
#[export] Instance toString_command_inj : Inj (=) (=) toString_command.
Proof. intros [] []; by intros. Qed.
