(* ===== verification/MarketViewer.v ===== *)
(** [market_viewer.cpp]: drain the trade and the report ring until the engine is
    done and both are empty.  [viewer_step] is cut at every access to the shared
    region; [Line]s are what is printed (their text is in ProgramOutput). *)

From stdpp Require Import strings.
From S2P Require Import Prelude.
From S2P Require Import Arguments.
From S2P Require Import OrderTypes.
From S2P Require Import ReportNames.
From S2P Require Import Spsc.
From S2P Require Import EngineProcess.
From S2P Require Import Connection.

#[local] Open Scope Z_scope.

Record ViewerArgs : Type := mkViewerArgs { viewer_path : string; quiet : bool }.
Definition ViewerArgs_default : ViewerArgs := mkViewerArgs "/tmp/lob_shared_memory.dat" false.

Definition viewer_plain (flag : string) (a : ViewerArgs) : option (Parsed ViewerArgs) :=
  if bool_decide (flag = "--quiet"%string) then Some (Parsed_args (mkViewerArgs (viewer_path a) true)) else None.
Definition viewer_valued (flag : string) : option (string -> ViewerArgs -> option ViewerArgs) :=
  if bool_decide (flag = "--path"%string) then Some (fun value a => Some (mkViewerArgs value (quiet a))) else None.
(** [--path] without a value is an unknown argument, too: exit code 1. *)
Definition viewer_parseArgs (argv : list string) : Parsed ViewerArgs :=
  parse_flags viewer_plain viewer_valued (fun _ _ => Exit 1) argv ViewerArgs_default.

Inductive Line : Type :=
| TradeLine (trade : Trade.t)
| ReportLine (sequence : Z) (command : string) (order_id : Z) (status reason : string)
    (requested executed remaining trade_count : Z)
| BookLine (bid ask spread : option Z) (processed accepted rejected trades sequence : Z)
    (order_size trade_size report_size engine_age_ms : Z)
| SummaryLine (reports rejected trades : Z).

Definition report_line (r : ExecutionReport.t) : Line :=
  ReportLine (ExecutionReport.sequence r) (toString_command (ExecutionReport.command r))
    (ExecutionReport.order_id r) (toString_status (ExecutionReport.status r))
    (toString_reason (ExecutionReport.reject_reason r)) (ExecutionReport.requested_quantity r)
    (ExecutionReport.executed_quantity r) (ExecutionReport.remaining_quantity r)
    (ExecutionReport.trade_count r).

(** [got] is [got_any]. *)
Inductive ViewerPhase : Type :=
| ViewerConnecting (c : Connection)
| TakingTrades (got : bool)
| TakingReports (got : bool)
| ReadingBid (got : bool)
| ReadingAsk (got : bool) (bid : Z)
| PrintingBook (got : bool) (bid ask : Z)
| CheckingDone
| CheckingTrades
| CheckingReports
| ViewerClosing
| ViewerExited (code : Z).

Record Viewer : Type := mkViewer {
  trades_seen : Z;
  reports_seen : Z;
  rejected_seen : Z;
  printed : list Line;
  viewer_phase : ViewerPhase
}.
Definition Viewer_new : Viewer := mkViewer 0 0 0 [] (ViewerConnecting (Opening 0)).

(** What a step observes: whether [region.open] succeeded, whether the book line is
    due, the clock. *)
Record ViewerEnv : Type := mkViewerEnv { open_ok : bool; book_due : bool; viewer_now : Z }.

Section viewer.
Context (bits : nat) (region_bytes : Z) (args : ViewerArgs).

Definition viewer_goes (v : Viewer) (ph : ViewerPhase) : Viewer :=
  mkViewer (trades_seen v) (reports_seen v) (rejected_seen v) (printed v) ph.
Definition show (line : Line) (lines : list Line) : list Line :=
  if quiet args then lines else lines ++ [line].
Definition viewer_beat (now : Z) : SharedRegion -> SharedRegion :=
  with_header (SharedHeader.with_viewer_heartbeat now).

Definition take_trade (v : Viewer) (r : SharedRegion) (got : bool) : result (Viewer * SharedRegion) :=
  '(out, q) ← try_pop bits (trade_queue r);
  let r := mkRegion (header r) (order_queue r) q (report_queue r) in
  Ok (match out with
      | Some trade => mkViewer (u64 (trades_seen v + 1)) (reports_seen v) (rejected_seen v)
                        (show (TradeLine trade) (printed v)) (TakingTrades true)
      | None => viewer_goes v (TakingReports got)
      end, r).

Definition take_report (v : Viewer) (r : SharedRegion) (got : bool) : result (Viewer * SharedRegion) :=
  '(out, q) ← try_pop bits (report_queue r);
  let r := mkRegion (header r) (order_queue r) (trade_queue r) q in
  Ok (match out with
      | Some report =>
        mkViewer (trades_seen v) (u64 (reports_seen v + 1))
          (if ExecutionReport.accepted report then rejected_seen v else u64 (rejected_seen v + 1))
          (show (report_line report) (printed v)) (TakingReports true)
      | None => viewer_goes v (ReadingBid got)
      end, r).

(** The end of an iteration. *)
Definition iteration_done (got : bool) : ViewerPhase := if got then TakingTrades false else CheckingDone.

(** The book line; [ask - bid] is signed arithmetic. *)
Definition print_book (v : Viewer) (r : SharedRegion) (now : Z) (got : bool) (bid ask : Z) : result Viewer :=
  let h := header r in
  let has_bid := negb (bid =? SharedHeader.kNoBid) in
  let has_ask := negb (ask =? SharedHeader.kNoAsk) in
  spread ← (if has_bid && has_ask then s ← i64 (ask - bid); Ok (Some s) else Ok None);
  let heartbeat := SharedHeader.engine_heartbeat_ns h in
  let age := if heartbeat <=? now then (now - heartbeat) / 1000000 else 0 in
  Ok (mkViewer (trades_seen v) (reports_seen v) (rejected_seen v)
        (printed v ++ [BookLine (if has_bid then Some bid else None) (if has_ask then Some ask else None) spread
           (SharedHeader.processed_commands h) (SharedHeader.accepted_commands h)
           (SharedHeader.rejected_commands h) (SharedHeader.trades_generated h) (SharedHeader.last_sequence h)
           (spsc_size (order_queue r)) (spsc_size (trade_queue r)) (spsc_size (report_queue r)) age])
        (iteration_done got)).

Definition viewer_connect (env : ViewerEnv) (c : Connection) (r : SharedRegion) : ViewerPhase * SharedRegion :=
  match connect region_bytes (open_ok env) (header r) c with
  | Connected => (TakingTrades false, viewer_beat (viewer_now env) r)
  | TimedOut | Mismatch => (ViewerExited 1, r)
  | c => (ViewerConnecting c, r)
  end.

Definition viewer_step (env : ViewerEnv) (v : Viewer) (r : SharedRegion) : result (Viewer * SharedRegion) :=
  let h := header r in
  match viewer_phase v with
  | ViewerConnecting c => let '(ph, r) := viewer_connect env c r in Ok (viewer_goes v ph, r)
  | TakingTrades got => take_trade v r got
  | TakingReports got => take_report v r got
  | ReadingBid got =>
    if book_due env
    then Ok (viewer_goes v (ReadingAsk got (SharedHeader.best_bid h)), viewer_beat (viewer_now env) r)
    else Ok (viewer_goes v (iteration_done got), r)
  | ReadingAsk got bid => Ok (viewer_goes v (PrintingBook got bid (SharedHeader.best_ask h)), r)
  | PrintingBook got bid ask => v ← print_book v r (viewer_now env) got bid ask; Ok (v, r)
  | CheckingDone =>
    Ok (viewer_goes v (if negb (SharedHeader.engine_done h =? 0) then CheckingTrades else TakingTrades false), r)
  | CheckingTrades =>
    Ok (viewer_goes v (if spsc_empty (trade_queue r) then CheckingReports else TakingTrades false), r)
  | CheckingReports =>
    Ok (viewer_goes v (if spsc_empty (report_queue r) then ViewerClosing else TakingTrades false), r)
  | ViewerClosing =>
    Ok (mkViewer (trades_seen v) (reports_seen v) (rejected_seen v)
          (printed v ++ [SummaryLine (reports_seen v) (rejected_seen v) (trades_seen v)]) (ViewerExited 0),
        viewer_beat (viewer_now env) r)
  | ViewerExited _ => Ok (v, r)
  end.
End viewer.
