(* ===== verification/Pipeline.v ===== *)
(** The three programs together: [feed_handler], [matching_engine_main] and
    [market_viewer] on one shared region, in any interleaving of their steps. *)

From stdpp Require Import strings.
From S2P Require Import Prelude.
From S2P Require Import OrderTypes.
From S2P Require Import Risk.
From S2P Require Import MatchingEngine.
From S2P Require Import Session.
From S2P Require Import Journal.
From S2P Require Import JournalCodec.
From S2P Require Import JournalReplay.
From S2P Require Import Spsc.
From S2P Require Import EngineProcess.
From S2P Require Import EngineProcessProps.
From S2P Require Import Generators.
From S2P Require Import Connection.
From S2P Require Import FeedHandler.
From S2P Require Import FeedProps.
From S2P Require Import ReportNames.
From S2P Require Import MarketViewer.

#[local] Open Scope Z_scope.

(** * The viewer's account *)

Definition trade_lines (ls : list Line) : list Trade.t :=
  omap (fun l => match l with TradeLine t => Some t | _ => None end) ls.
Definition is_report_line (l : Line) : bool := match l with ReportLine _ _ _ _ _ _ _ _ _ => true | _ => false end.
Definition report_lines (ls : list Line) : list Line := filter (fun l => is_report_line l = true) ls.

(** The counters and the screen agree with what was taken out of the rings. *)
Record viewer_saw (args : ViewerArgs) (v : Viewer) (ts : list Trade.t) (rs : list ExecutionReport.t) : Prop := {
  saw_trades : trades_seen v = u64 (Z.of_nat (length ts));
  saw_reports : reports_seen v = u64 (Z.of_nat (length rs));
  saw_rejected : rejected_seen v = u64 (count_reports (negb ∘ ExecutionReport.accepted) rs);
  saw_printed_trades : trade_lines (printed v) = if quiet args then [] else ts;
  saw_printed_reports : report_lines (printed v) = if quiet args then [] else report_line <$> rs
}.

Section viewing.
Context (bits : nat) (region_bytes : Z) (args : ViewerArgs).

Inductive viewer_effect (r : SharedRegion) :
    list Trade.t -> list ExecutionReport.t -> SharedRegion -> Prop :=
| saw_nothing : viewer_effect r [] [] r
| saw_beat now : viewer_effect r [] [] (viewer_beat now r)
| saw_trade t q : try_pop bits (trade_queue r) = Ok (Some t, q) ->
    viewer_effect r [t] [] (mkRegion (header r) (order_queue r) q (report_queue r))
| saw_report x q : try_pop bits (report_queue r) = Ok (Some x, q) ->
    viewer_effect r [] [x] (mkRegion (header r) (order_queue r) (trade_queue r) q).

Lemma empty_pop {T} (q q' : SPSCQueue (T := T)) : try_pop bits q = Ok (None, q') -> q' = q.
Proof.
  unfold try_pop. case_match; [by intros [= <-]|].
  intros (x & _ & Hx)%bind_Ok. discriminate Hx.
Qed.

Lemma saw_line v ph line ts rs :
  (match line with TradeLine _ | ReportLine _ _ _ _ _ _ _ _ _ => False | _ => True end) ->
  viewer_saw args v ts rs ->
  viewer_saw args (mkViewer (trades_seen v) (reports_seen v) (rejected_seen v) (printed v ++ [line]) ph) ts rs.
Proof.
  intros Hl []. split; cbn; try done; unfold trade_lines, report_lines in *.
  - rewrite omap_app. destruct line; cbn; done || by rewrite app_nil_r.
  - rewrite filter_app. destruct line; cbn; done || by rewrite app_nil_r.
Qed.

Lemma saw_goes v ph ts rs : viewer_saw args v ts rs -> viewer_saw args (viewer_goes v ph) ts rs.
Proof. by intros []. Qed.

Lemma take_trade_sees v r got v' r' ts rs :
  viewer_saw args v ts rs -> take_trade bits args v r got = Ok (v', r') ->
  exists ts', viewer_effect r ts' [] r' /\ viewer_saw args v' (ts ++ ts') rs.
Proof.
  intros Hv ([out q] & Hq & [= <- <-])%bind_Ok. destruct out as [t|].
  - exists [t]. split; [by constructor|]. destruct Hv. split; cbn; try done.
    + by rewrite saw_trades0, u64_add_l, length_app, Nat2Z.inj_add.
    + unfold show. destruct (quiet args); [done|]. unfold trade_lines in *. by rewrite omap_app, saw_printed_trades0.
    + unfold show. destruct (quiet args); [done|]. unfold report_lines in *. by rewrite filter_app, saw_printed_reports0, app_nil_r.
  - apply empty_pop in Hq as ->. exists []. rewrite app_nil_r. split; [|by apply saw_goes].
    destruct r; constructor.
Qed.

Lemma take_report_sees v r got v' r' ts rs :
  viewer_saw args v ts rs -> take_report bits args v r got = Ok (v', r') ->
  exists rs', viewer_effect r [] rs' r' /\ viewer_saw args v' ts (rs ++ rs').
Proof.
  intros Hv ([out q] & Hq & [= <- <-])%bind_Ok. destruct out as [x|].
  - exists [x]. split; [by constructor|]. destruct Hv. split; cbn; try done.
    + by rewrite saw_reports0, u64_add_l, length_app, Nat2Z.inj_add.
    + rewrite count_reports_snoc. unfold compose. destruct (ExecutionReport.accepted x); cbn; [by rewrite Z.add_0_r|].
      by rewrite saw_rejected0, u64_add_l.
    + unfold show. destruct (quiet args); [done|]. unfold trade_lines in *. by rewrite omap_app, saw_printed_trades0, app_nil_r.
    + unfold show. destruct (quiet args); [done|]. unfold report_lines in *.
      by rewrite filter_app, saw_printed_reports0, fmap_app.
  - apply empty_pop in Hq as ->. exists []. rewrite app_nil_r. split; [|by apply saw_goes].
    destruct r; constructor.
Qed.

Lemma viewer_step_sees env v r v' r' ts rs :
  viewer_saw args v ts rs -> viewer_step bits region_bytes args env v r = Ok (v', r') ->
  exists ts' rs', viewer_effect r ts' rs' r' /\ viewer_saw args v' (ts ++ ts') (rs ++ rs').
Proof.
  intros Hv. pose proof (fun ph => saw_goes v ph _ _ Hv) as Hgo.
  assert (forall v1 r1, viewer_saw args v1 ts rs -> viewer_effect r [] [] r1 ->
    exists ts' rs', viewer_effect r ts' rs' r1 /\ viewer_saw args v1 (ts ++ ts') (rs ++ rs')) as Hidle.
  { intros v1 r1 H1 H2. exists [], []. by rewrite !app_nil_r. }
  unfold viewer_step. destruct (viewer_phase v) as [c|got|got|got|got bid|got bid ask| | | | |code].
  - unfold viewer_connect. destruct (connect _ _ _ _); intros [= <- <-]; apply Hidle; (apply Hgo || constructor).
  - intros (ts' & He & Hs)%(take_trade_sees _ _ _ _ _ _ _ Hv). exists ts', []. by rewrite app_nil_r.
  - intros (rs' & He & Hs)%(take_report_sees _ _ _ _ _ _ _ Hv). exists [], rs'. by rewrite app_nil_r.
  - case_match; intros [= <- <-]; apply Hidle; (apply Hgo || constructor).
  - intros [= <- <-]. apply Hidle; (apply Hgo || constructor).
  - intros (v1 & Hp & [= <- <-])%bind_Ok. apply Hidle; [|constructor].
    unfold print_book in Hp. apply bind_Ok in Hp as (s & _ & [= <-]). by apply saw_line.
  - intros [= <- <-]. apply Hidle; (apply Hgo || constructor).
  - intros [= <- <-]. apply Hidle; (apply Hgo || constructor).
  - intros [= <- <-]. apply Hidle; (apply Hgo || constructor).
  - intros [= <- <-]. apply Hidle; [|constructor]. by apply saw_line.
  - intros [= <- <-]. apply Hidle; [done|constructor].
Qed.
End viewing.

(** * The composed system *)

Section pipeline.
Context `{Random Rng} (bits : nat) (region_bytes : Z) (fargs : FeedArgs) (bars : list DailyBar)
  (vargs : ViewerArgs).

Record Pipeline : Type := mkPipeline {
  pl_proc : Process;
  pl_feed : Feed (Rng := Rng);
  pl_viewer : Viewer
}.

(** The feed and the viewer start with the engine already in its loop; each of the
    three then takes its steps whenever it is scheduled. *)
Definition Pipeline_new (p : Process) : Pipeline := mkPipeline p Feed_new Viewer_new.

Inductive pipeline_step (s : Pipeline) : Pipeline -> Prop :=
| engine_moves script env p script' :
    next_step bits script env (pl_proc s) = Ok (p, script') ->
    pipeline_step s (mkPipeline p (pl_feed s) (pl_viewer s))
| feed_moves opened now f r :
    feed_step bits region_bytes fargs bars opened now (pl_feed s) (p_region (pl_proc s)) = Ok (f, r) ->
    pipeline_step s (mkPipeline (with_queues (pl_proc s) r) f (pl_viewer s))
| viewer_moves env v r :
    viewer_step bits region_bytes vargs env (pl_viewer s) (p_region (pl_proc s)) = Ok (v, r) ->
    pipeline_step s (mkPipeline (with_queues (pl_proc s) r) (pl_feed s) v).

Inductive pipeline_reachable (p : Process) : Pipeline -> Prop :=
| pipeline_start : pipeline_reachable p (Pipeline_new p)
| pipeline_next s s' : pipeline_reachable p s -> pipeline_step s s' -> pipeline_reachable p s'.

Definition exited (p : Process) : Prop := exists code, p_phase p = Exited code.

(** What the viewer's position tells about the engine. *)
Definition viewer_knows (ph : ViewerPhase) (p : Process) : Prop :=
  let r := p_region p in
  match ph with
  | CheckingTrades => exited p
  | CheckingReports => exited p /\ spsc_empty (trade_queue r) = true
  | ViewerClosing | ViewerExited 0 =>
    exited p /\ spsc_empty (trade_queue r) = true /\ spsc_empty (report_queue r) = true
  | _ => True
  end.

Definition done_means_exited (p : Process) : Prop :=
  SharedHeader.engine_done (header (p_region p)) <> 0 -> exited p.

Definition feed_finished (f : Feed (Rng := Rng)) : Prop := feed_phase f = FeedExited 0.

(** The composed system is the abstract trio of the engine process, fed by the plan
    and watched by the viewer. *)
Record simulated (p0 : Process) (ms : list OrderMsg) (s : Pipeline) (t : Trio) : Prop := {
  sim_proc : proc t = pl_proc s;
  sim_reachable : trio_reachable bits p0 t;
  sim_feed : feed_sent fargs (pl_feed s) (fed t) ms;
  sim_viewer : viewer_saw vargs (pl_viewer s) (seen_trades t) (seen_reports t);
  sim_done : done_means_exited (pl_proc s);
  sim_knows : viewer_knows (viewer_phase (pl_viewer s)) (pl_proc s)
}.

Lemma Trio_eta t : mkTrio (proc t) (fed t) (held t) (applied t) (seen_trades t) (seen_reports t) = t.
Proof. by destruct t. Qed.
Lemma with_queues_same p : with_queues p (p_region p) = p.
Proof. by destruct p. Qed.
(** A step of the feed is at most two of the trio. *)
Lemma feed_effect_trio p0 t pushed r :
  trio_reachable bits p0 t -> feed_effect bits (p_region (proc t)) pushed r ->
  trio_reachable bits p0 (mkTrio (with_queues (proc t) r) (fed t ++ pushed) (held t) (applied t)
                            (seen_trades t) (seen_reports t)).
Proof.
  intros Ht He. assert (forall t' now, trio_reachable bits p0 t' ->
    trio_reachable bits p0 (mkTrio (with_queues (proc t') (producer_beat now (p_region (proc t')))) (fed t') (held t')
      (applied t') (seen_trades t') (seen_reports t'))) as Hbeat.
  { intros t' now Ht'. eapply trio_next; [exact Ht'|]. apply (peer_heartbeat bits t'). }
  destruct He as [|now|m q Hq|m q now Hq|now].
  - by rewrite app_nil_r, with_queues_same, Trio_eta.
  - rewrite app_nil_r. by apply Hbeat.
  - eapply trio_next; [exact Ht|]. by apply (feed_push bits t m q).
  - exact (Hbeat _ now (trio_next _ _ _ _ Ht (feed_push bits t m q Hq))).
  - rewrite app_nil_r. exact (trio_next _ _ _ _ (Hbeat t now Ht) (feed_done bits _)).
Qed.

Lemma viewer_effect_trio p0 t ts rs r :
  trio_reachable bits p0 t -> viewer_effect bits (p_region (proc t)) ts rs r ->
  trio_reachable bits p0 (mkTrio (with_queues (proc t) r) (fed t) (held t) (applied t)
                            (seen_trades t ++ ts) (seen_reports t ++ rs)).
Proof.
  intros Ht He. destruct He as [|now|x q Hq|x q Hq]; rewrite ?app_nil_r.
  - by rewrite with_queues_same, Trio_eta.
  - eapply trio_next; [exact Ht|]. apply (peer_heartbeat bits t).
  - eapply trio_next; [exact Ht|]. by apply (viewer_trade bits t).
  - eapply trio_next; [exact Ht|]. by apply (viewer_report bits t).
Qed.

(** ** The handshake between the engine's exit and the viewer's *)

Lemma engine_step_done script env p p' script' :
  done_means_exited p -> next_step bits script env p = Ok (p', script') -> done_means_exited p'.
Proof.
  unfold done_means_exited, exited, next_step. intros Hd.
  destruct (p_phase p) as [| |m|m|trades total report|failed|code] eqn:Hph.
  - intros (q & Hq & [= <- <-])%bind_Ok. unfold poll in Hq. destruct (g_stop env); [injection Hq as <-; cbn|].
    { intros [? ?]%Hd. congruence. }
    apply bind_Ok in Hq as ([o q1] & _ & [= <-]). destruct (heartbeat_due env); intros [? ?]%Hd; congruence.
  - intros [= <- <-]. cbn. intros [? ?]%Hd. congruence.
  - intros (_ & Hr & _)%journal_message_inv. rewrite Hr. intros [? ?]%Hd. congruence.
  - intros (q & (e & ts & rep & -> & _)%apply_message_inv & [= <- <-])%bind_Ok. cbn. intros [? ?]%Hd. congruence.
  - intros [= <- <-]. unfold publish. destruct trades; destruct (try_push _ _ _) as [[] q]; cbn;
      intros [? ?]%Hd; congruence.
  - intros (_ & (code & Hc & _) & _)%drain_inv _. by exists code.
  - intros [= <- <-]. rewrite Hph. by eexists.
Qed.

Lemma engine_step_knows script env p p' script' ph :
  viewer_knows ph p -> next_step bits script env p = Ok (p', script') -> viewer_knows ph p'.
Proof.
  intros Hk Hs. assert (exited p -> p' = p) as Hstay.
  { intros [code Hc]. unfold next_step in Hs. rewrite Hc in Hs. by injection Hs as <- _. }
  destruct ph as [| | | | | | | | | |code]; cbn in *; try done.
  - by rewrite (Hstay Hk).
  - by rewrite (Hstay (proj1 Hk)).
  - by rewrite (Hstay (proj1 Hk)).
  - destruct code; [|done..]. by rewrite (Hstay (proj1 Hk)).
Qed.

(** The feed touches neither [engine_done] nor the rings the viewer reads. *)
Lemma feed_effect_knows p pushed r ph :
  feed_effect bits (p_region p) pushed r ->
  (viewer_knows ph p -> viewer_knows ph (with_queues p r))
  /\ (done_means_exited p -> done_means_exited (with_queues p r)).
Proof. by intros []. Qed.

Lemma viewer_effect_done p ts rs r :
  viewer_effect bits (p_region p) ts rs r -> done_means_exited p -> done_means_exited (with_queues p r).
Proof. by intros []. Qed.

Lemma viewer_step_knows env v r v' p :
  done_means_exited p -> viewer_knows (viewer_phase v) p ->
  viewer_step bits region_bytes vargs env v (p_region p) = Ok (v', r) ->
  viewer_knows (viewer_phase v') (with_queues p r).
Proof.
  intros Hd Hk. unfold viewer_step. destruct (viewer_phase v) as [c|got|got|got|got bid|got bid ask| | | | |code] eqn:Hv.
  - unfold viewer_connect. destruct (connect _ _ _ _); by intros [= <- <-].
  - unfold take_trade. intros ([[] q] & _ & [= <- <-])%bind_Ok; done.
  - unfold take_report. intros ([[] q] & _ & [= <- <-])%bind_Ok; done.
  - destruct (book_due env), got; by intros [= <- <-].
  - by intros [= <- <-].
  - intros (v1 & Hp & [= <- <-])%bind_Ok. unfold print_book in Hp. apply bind_Ok in Hp as (sp & _ & [= <-]).
    by destruct got.
  - intros [= <- <-]. cbn. destruct (Z.eqb_spec (SharedHeader.engine_done (header (p_region p))) 0); [done|].
    by apply Hd.
  - intros [= <- <-]. cbn. destruct (spsc_empty _) eqn:E; [|done]. by split.
  - intros [= <- <-]. cbn. destruct (spsc_empty (report_queue _)) eqn:E; [|done]. cbn in *. tauto.
  - intros [= <- <-]. done.
  - intros [= <- <-]. by rewrite Hv.
Qed.

(** Every state of the three programs is one of the trio. *)
Lemma pipeline_simulated p0 ms s :
  plan_is fargs bars ms -> SharedHeader.engine_done (header (p_region p0)) = 0 ->
  pipeline_reachable p0 s -> exists t, simulated p0 ms s t.
Proof.
  intros Hms H0 Hr. induction Hr as [|s s' _ [t Ht] Hs].
  { exists (mkTrio p0 [] [] [] [] []). split; [done|apply trio_start|by split|by destruct (quiet vargs) eqn:E; split; cbn; rewrite ?E|by intros ?|done]. }
  destruct Ht as [Ep Hreach Hf Hv Hd Hk].
  destruct Hs as [script env p script' Hn|opened now f r Hn|env v r Hn].
  - destruct (note (p_phase (proc t)) (p_phase p) (held t) (applied t)) as [h a] eqn:En.
    exists (mkTrio p (fed t) h a (seen_trades t) (seen_reports t)). split; try done.
    + eapply trio_next; [exact Hreach|]. eapply engine_turn; [rewrite Ep; exact Hn|done].
    + by eapply engine_step_done.
    + by eapply engine_step_knows.
  - destruct (feed_step_sends _ _ _ _ _ _ _ _ _ _ _ _ Hms Hf Hn) as (pushed & He & Hf').
    destruct (feed_effect_knows _ _ _ (viewer_phase (pl_viewer s)) He) as [H1 H2].
    rewrite <- Ep in He. pose proof (feed_effect_trio _ _ _ _ Hreach He) as Ht'. rewrite Ep in Ht'.
    exact (ex_intro _ _ (Build_simulated p0 ms (mkPipeline _ _ _) _ eq_refl Ht' Hf' Hv (H2 Hd) (H1 Hk))).
  - destruct (viewer_step_sees _ _ _ _ _ _ _ _ _ _ Hv Hn) as (ts' & rs' & He & Hv').
    pose proof (viewer_effect_done _ _ _ _ He Hd) as Hd'. pose proof (viewer_step_knows _ _ _ _ _ Hd Hk Hn) as Hk'.
    rewrite <- Ep in He. pose proof (viewer_effect_trio _ _ _ _ _ Hreach He) as Ht'. rewrite Ep in Ht'.
    exact (ex_intro _ _ (Build_simulated p0 ms (mkPipeline _ _ _) _ eq_refl Ht' Hf Hv' Hd' Hk')).
Qed.
End pipeline.
