(* ===== verification/PipelineProps.v ===== *)
(** From the feed's command line to the viewer's screen: what a run of the three
    programs shows, that no program faults, and that the viewer comes to an end. *)

From stdpp Require Import strings.
From S2P Require Import Prelude.
From S2P Require Import Arguments.
From S2P Require Import OrderTypes.
From S2P Require Import OrderBook.
From S2P Require Import BookInvariant.
From S2P Require Import BookQueries.
From S2P Require Import Risk.
From S2P Require Import MatchingEngine.
From S2P Require Import Market.
From S2P Require Import MarketInvariant.
From S2P Require Import Refinement.
From S2P Require Import Session.
From S2P Require Import SessionRuns.
From S2P Require Import EngineProps.
From S2P Require Import Journal.
From S2P Require Import JournalCodec.
From S2P Require Import JournalReplay.
From S2P Require Import JournalProps.
From S2P Require Import Spsc.
From S2P Require Import EngineProcess.
From S2P Require Import EngineProcessProps.
From S2P Require Import Generators.
From S2P Require Import Connection.
From S2P Require Import FeedHandler.
From S2P Require Import FeedProps.
From S2P Require Import MarketViewer.
From S2P Require Import Pipeline.

#[local] Open Scope Z_scope.

(** * A fresh start *)

(** An engine process that has just entered its loop without recovering. *)
Record launched (bits : nat) (region_bytes : Z) (eargs : Args) (p : Process) : Prop := {
  la_recover : recover eargs = false;
  la_startup : exists script fs now fs' script',
    startup bits script fs eargs true region_bytes now = Ok (Running p, fs', script')
}.

Lemma launched_started bits region_bytes eargs p :
  launched bits region_bytes eargs p ->
  started bits (args_risk_limits eargs) [] p /\ p_engine p = MatchingEngine_new (args_risk_limits eargs)
  /\ greets region_bytes (header (p_region p)) /\ SharedHeader.engine_done (header (p_region p)) = 0.
Proof.
  intros [Hrec (script & fs & now & fs' & script' & Hs)]. unfold startup in Hs.
  rewrite Hrec in Hs. cbn [mbind result_bind andb] in Hs.
  apply bind_Ok in Hs as ([[[opened j] fs1] script1] & Hj & Hs).
  destruct (negb opened || negb true) eqn:E; [done|]. injection Hs as <- <- <-.
  split; [|split_and!; try done; by apply initial_greets].
  eapply initial_started; [done|done|done|done|]. intros path Hfd. cbn [length Z.of_nat log_from].
  case_bool_decide; [by injection Hj as <- <- <- <-|].
  unfold journal_open in Hj. cbn [mbind result_bind scan_ok negb] in Hj.
  destruct script as [|[] script2]; [done|..]; injection Hj as <- <- <- <-; try done.
  cbn in Hfd |- *. injection Hfd as <-. by rewrite lookup_insert_eq.
Qed.

(** * Commands in range *)

Lemma engine_command_in_range m : message_in_range m -> command_in_range (engine_command m).
Proof. intros [_ Hr]. unfold engine_command, logged_of. destruct (is_new_order m); [done|apply Hr]. Qed.

Lemma plan_in_range ms : Forall message_in_range ms -> Forall command_in_range (engine_command <$> ms).
Proof. intros Hm. rewrite Forall_fmap. eapply Forall_impl; [exact Hm|]. by intros m ?%engine_command_in_range. Qed.

Lemma empty_queue {T} bits (q : SPSCQueue (T := T)) items :
  (bits <= 63)%nat -> queue_holds bits q items -> spsc_empty q = true -> items = [].
Proof.
  intros Hb [n [Ht Hh Hr _ _]] He. unfold spsc_empty in He. rewrite Ht, Hh, Z.eqb_sym in He.
  rewrite (same_counter bits Hb) in He by lia. apply bool_decide_eq_true in He. destruct items; cbn in *; [done|lia].
Qed.

Lemma sent_prefix `{Random Rng} fargs (f : Feed (Rng := Rng)) sent ms : feed_sent fargs f sent ms -> sent `prefix_of` ms.
Proof.
  unfold feed_sent. destruct (feed_phase f) as [c|g total id|g total id m|g total id m| |code].
  - intros [-> _]. apply prefix_nil.
  - intros (_ & _ & _ & rest & _ & <-). by apply prefix_app_r.
  - intros (_ & _ & _ & order & rest & _ & _ & <-). by apply prefix_app_r.
  - intros (_ & _ & _ & rest & _ & <-). by apply prefix_app_r.
  - by intros ->.
  - intros [[_ ->]|[_ ->]]; [done|apply prefix_nil].
Qed.

(** The setting of a run: a freshly started engine, a feed whose plan is [ms]. *)
Record prepared `{Random Rng} (bits : nat) (region_bytes : Z) (fargs : FeedArgs) (bars : list DailyBar)
    (eargs : Args) (p0 : Process) (ms : list OrderMsg) : Prop := {
  pr_bits : (bits <= 63)%nat;
  pr_launch : launched bits region_bytes eargs p0;
  pr_limits : RiskLimits.in_range (args_risk_limits eargs);
  pr_plan : plan_is (Rng := Rng) fargs bars ms;
  pr_range : Forall message_in_range ms;
  pr_length : Z.of_nat (length ms) <= max_resting
}.

Lemma prepared_by `{Random Rng} bits region_bytes argv fargs bars g total ms eargs p0 :
  (bits <= 63)%nat -> feed_parseArgs argv = Parsed_args fargs -> data_ok fargs bars ->
  feed_source fargs bars = Some (g, total) -> total < 2 ^ 64 - 1 ->
  feed_plan fargs (Z.to_nat total) 1 g = Ok ms -> Z.of_nat (length ms) <= max_resting ->
  RiskLimits.in_range (args_risk_limits eargs) -> launched bits region_bytes eargs p0 ->
  prepared bits region_bytes fargs bars eargs p0 ms.
Proof.
  intros Hb [Ha Hd]%feed_parseArgs_ok Hdata Hsrc Hn Hms Hlen Hl Hla.
  destruct (source_plan _ _ _ _ Ha Hd Hdata Hsrc Hn) as (Ht & ms' & E & Hrange & _).
  rewrite Hms in E. injection E as <-. split; try done.
  intros g' total' Hs'. rewrite Hsrc in Hs'. injection Hs' as <- <-. by split; [lia|].
Qed.

Section run.
Context `{Random Rng} (bits : nat) (region_bytes : Z) (fargs : FeedArgs)
  (bars : list DailyBar) (vargs : ViewerArgs) (eargs : Args) (p0 : Process) (ms : list OrderMsg).
Hypothesis Hpre : prepared bits region_bytes fargs bars eargs p0 ms.

(** What the engine has done is what the reference market does on the messages
    applied so far. *)
Lemma run_is_market applied e ts rs :
  applied `prefix_of` ms ->
  run (MatchingEngine_new (args_risk_limits eargs)) [] (engine_command <$> applied) = Ok (e, ts, rs) ->
  market_run (market_new (args_risk_limits eargs)) (engine_command <$> applied) = (abs e, ts, rs)
  /\ session_ok (length applied) e.
Proof using Hpre.
  destruct Hpre as [_ _ Hlimits _ Hrange Hlength]. intros [rest Hrest] Hrun. assert (Forall message_in_range applied) as Ha.
  { rewrite Hrest, Forall_app in Hrange. apply Hrange. }
  pose proof (run_ok (engine_command <$> applied) 0 _ [] (session_new _ Hlimits)
    ltac:(rewrite length_fmap; rewrite Hrest, length_app in Hlength; lia) (plan_in_range _ Ha)) as Hx.
  change (abs (MatchingEngine_new _)) with (market_new (args_risk_limits eargs)) in Hx.
  destruct (market_run _ _) as [[m ts'] rs']. destruct Hx as (e' & Hr & Hs & <-).
  rewrite Hr in Hrun. injection Hrun as <- <- <-. by rewrite length_fmap in Hs.
Qed.

(** ** The state behind the screen *)

Record behind (s : Pipeline (Rng := Rng)) (t : Trio) (ts : list Trade.t) (rs : list ExecutionReport.t)
    (oq : list OrderMsg) (tq : list Trade.t) (rq : list ExecutionReport.t) : Prop := {
  bh_sim : simulated bits fargs vargs p0 ms s t;
  bh_del : delivered bits p0 t ts rs oq tq rq;
  bh_prefix : applied t `prefix_of` ms;
  bh_market : market_run (market_new (args_risk_limits eargs)) (engine_command <$> applied t)
              = (abs (p_engine (pl_proc s)), ts, rs);
  bh_session : session_ok (length (applied t)) (p_engine (pl_proc s))
}.

Lemma pipeline_behind s :
  pipeline_reachable bits region_bytes fargs bars vargs p0 s ->
  exists t ts rs oq tq rq, behind s t ts rs oq tq rq.
Proof using Hpre.
  destruct Hpre as [Hbits Hlaunch _ Hplan _ _]. intros Hr. destruct (launched_started _ _ _ _ Hlaunch) as (Hst & He0 & _ & Hdone).
  destruct (pipeline_simulated bits region_bytes fargs bars vargs p0 ms s Hplan Hdone Hr) as [t Ht].
  destruct (trio_delivers bits Hbits _ _ _ _ Hst (sim_reachable _ _ _ _ _ _ _ Ht)) as (ts & rs & oq & tq & rq & Hd).
  pose proof (sent_prefix _ _ _ _ (sim_feed _ _ _ _ _ _ _ Ht)) as Hp.
  assert (applied t `prefix_of` ms) as Hap.
  { etransitivity; [|exact Hp]. rewrite (dl_fed _ _ _ _ _ _ _ _ Hd). by apply prefix_app_r. }
  pose proof (dl_run _ _ _ _ _ _ _ _ Hd) as Hrun. rewrite He0, (sim_proc _ _ _ _ _ _ _ Ht) in Hrun.
  destruct (run_is_market _ _ _ _ Hap Hrun) as [Hm Hs]. by exists t, ts, rs, oq, tq, rq.
Qed.

(** When the viewer is through, nothing is left in the rings. *)
Lemma viewer_ended s t ts rs oq tq rq :
  behind s t ts rs oq tq rq -> viewer_phase (pl_viewer s) = ViewerExited 0 ->
  exited (pl_proc s) /\ seen_trades t = ts /\ seen_reports t = rs.
Proof using Hpre.
  pose proof (pr_bits _ _ _ _ _ _ _ Hpre) as Hbits.
  intros [[Ep _ _ _ _ Hk] [] _ _ _] Hv. rewrite Hv in Hk. destruct Hk as ([code Hc] & Ht & Hr).
  rewrite Ep in *. rewrite Hc in *.
  apply (empty_queue bits _ _ Hbits dl_trades) in Ht as ->.
  apply (empty_queue bits _ _ Hbits dl_reports) in Hr as ->.
  rewrite !app_nil_r in *. split; [by exists code|done].
Qed.

(** When the feed is through and the engine exits with an empty ring, everything was
    applied. *)
Lemma all_applied s t ts rs oq tq rq :
  behind s t ts rs oq tq rq -> feed_finished (pl_feed s) -> p_phase (pl_proc s) = Exited 0 ->
  spsc_empty (order_queue (p_region (pl_proc s))) = true -> applied t = ms.
Proof using Hpre.
  pose proof (pr_bits _ _ _ _ _ _ _ Hpre) as Hbits.
  intros [[Ep _ Hf _ _ _] [] _ _ _] Hfin Hx Ho. rewrite Ep in *. rewrite Hx in dl_held.
  destruct dl_held as [_ Hheld]. apply (empty_queue bits _ _ Hbits dl_orders) in Ho as ->.
  unfold feed_sent in Hf. rewrite Hfin in Hf. destruct Hf as [[_ Hf]|[? _]]; [|done].
  by rewrite <- Hf, dl_fed, Hheld, !app_nil_r.
Qed.
End run.

