(* ===== verification/ViewerProps.v ===== *)
(** None of the three programs ever faults, and the viewer comes to an end once the
    engine has. *)

From stdpp Require Import strings.
From S2P Require Import Prelude.
From S2P Require Import Arguments.
From S2P Require Import OrderTypes.
From S2P Require Import OrderBook.
From S2P Require Import BookInvariant.
From S2P Require Import BookOps.
From S2P Require Import BookQueries.
From S2P Require Import Risk.
From S2P Require Import MatchingEngine.
From S2P Require Import Market.
From S2P Require Import MarketInvariant.
From S2P Require Import Refinement.
From S2P Require Import Session.
From S2P Require Import Journal.
From S2P Require Import JournalReplay.
From S2P Require Import Spsc.
From S2P Require Import EngineProcess.
From S2P Require Import EngineProcessProps.
From S2P Require Import Generators.
From S2P Require Import Connection.
From S2P Require Import FeedHandler.
From S2P Require Import FeedProps.
From S2P Require Import MarketViewer.
From S2P Require Import Pipeline.
From S2P Require Import PipelineProps.

#[local] Open Scope Z_scope.

(** * The published quotes *)

Definition sane_bid (bid : Z) : Prop := bid = SharedHeader.kNoBid \/ 0 < bid < 2 ^ 63.
Definition sane_ask (ask : Z) : Prop := ask = SharedHeader.kNoAsk \/ 0 < ask < 2 ^ 63.
Definition sane_quotes (h : SharedHeader.t) : Prop :=
  sane_bid (SharedHeader.best_bid h) /\ sane_ask (SharedHeader.best_ask h).

Lemma engine_quotes e h : engine_ok e -> shows_book h e -> sane_quotes h.
Proof.
  intros [Hb _] (Hbid & Hask & _). unfold sane_quotes, sane_bid, sane_ask.
  rewrite Hbid, Hask, bestBid_spec, bestAsk_spec by done. split.
  - destruct (orders_on (book_ e) BUY) as [|x xs] eqn:Ex; cbn; [by left|right].
    destruct (orders_on_resting _ BUY x Hb eq_refl) as [_ _ _ _ _ ?]; [rewrite Ex; set_solver|done].
  - destruct (orders_on (book_ e) SELL) as [|x xs] eqn:Ex; cbn; [by left|right].
    destruct (orders_on_resting _ SELL x Hb eq_refl) as [_ _ _ _ _ ?]; [rewrite Ex; set_solver|done].
Qed.

(** The bid the viewer has read may be older than the ask. *)
Definition sane_view (ph : ViewerPhase) : Prop :=
  match ph with
  | ReadingAsk _ bid => sane_bid bid
  | PrintingBook _ bid ask => sane_bid bid /\ sane_ask ask
  | _ => True
  end.

Definition same_quotes (h h' : SharedHeader.t) : Prop :=
  SharedHeader.best_bid h' = SharedHeader.best_bid h /\ SharedHeader.best_ask h' = SharedHeader.best_ask h.

(** The engine changes the quotes only to publish its book. *)
Lemma engine_step_quotes bits script env p p' script' :
  next_step bits script env p = Ok (p', script') ->
  same_quotes (header (p_region p)) (header (p_region p')) \/ shows_book (header (p_region p')) (p_engine p').
Proof.
  unfold next_step. destruct (p_phase p) as [| |m|m|trades total report|failed|code].
  - intros (q & Hq & [= <- <-])%bind_Ok. left. unfold poll in Hq. destruct (g_stop env); [by injection Hq as <-|].
    apply bind_Ok in Hq as ([o q1] & _ & [= <-]). by destruct (heartbeat_due env).
  - intros [= <- <-]. by left.
  - intros (_ & Hr & _)%journal_message_inv. left. by rewrite Hr.
  - intros (q & (e & ts & rep & -> & _)%apply_message_inv & [= <- <-])%bind_Ok. by left.
  - intros [= <- <-]. unfold publish. destruct trades; destruct (try_push _ _ _) as [[] q]; by (left + right).
  - intros (_ & _ & Hr)%drain_inv. left. by rewrite Hr.
  - intros [= <- <-]. by left.
Qed.

Lemma print_book_defined v r now got bid ask :
  sane_bid bid -> sane_ask ask -> exists v', print_book v r now got bid ask = Ok v'.
Proof.
  intros Hb Ha. unfold print_book.
  destruct (Z.eqb_spec bid SharedHeader.kNoBid) as [|Hbid], (Z.eqb_spec ask SharedHeader.kNoAsk) as [|Hask];
    cbn [negb andb mbind result_bind]; try by eexists.
  destruct Hb as [?|Hb]; [done|]. destruct Ha as [?|Ha]; [done|].
  rewrite i64_ok by range. by eexists.
Qed.

(** * Rings *)

Section rings.
Context {T : Type} (bits : nat) (Hbits : (bits <= 63)%nat) (q : SPSCQueue (T := T)) (items : list T).
Hypothesis Hq : queue_holds bits q items.

Lemma holds_size : spsc_size q = Z.of_nat (length items).
Proof using Hbits Hq. destruct Hq as [n Hn]. by eapply rep_size. Qed.

Lemma pop_defined : exists o q', try_pop bits q = Ok (o, q').
Proof using Hbits Hq. destruct (queue_pop_total bits Hbits _ _ Hq) as [q' E]. by eexists _, _. Qed.

Lemma pop_size o q' :
  try_pop bits q = Ok (o, q') ->
  match o with Some _ => spsc_size q = 1 + spsc_size q' | None => spsc_size q = 0 /\ q' = q end.
Proof using Hbits Hq.
  intros Hp. destruct (queue_pop_total bits Hbits _ _ Hq) as [q1 E]. rewrite Hp in E. injection E as -> <-.
  destruct (queue_pop bits Hbits _ _ _ _ Hq Hp) as (items' & Hi & [n' Hn']).
  rewrite holds_size. destruct items as [|x rest]; cbn in *; [by apply empty_pop in Hp as ->|].
  injection Hi as ->. rewrite (rep_size bits Hbits _ _ _ Hn'). lia.
Qed.

Lemma empty_size : spsc_empty q = true <-> spsc_size q = 0.
Proof using Hbits Hq.
  rewrite holds_size. split.
  - intros He. by rewrite (empty_queue bits q items Hbits Hq He).
  - intros Hs. destruct items; [|done]. destruct Hq as [n [Ht Hh _ _ _]].
    unfold spsc_empty. rewrite Ht, Hh. cbn. rewrite Nat.add_0_r. apply Z.eqb_refl.
Qed.
End rings.

(** * Every reachable state *)

Section watching.
Context `{Random Rng} (bits : nat) (region_bytes : Z) (fargs : FeedArgs)
  (bars : list DailyBar) (vargs : ViewerArgs) (eargs : Args) (p0 : Process) (ms : list OrderMsg).
Hypothesis Hpre : prepared bits region_bytes fargs bars eargs p0 ms.

Abbreviation reachable := (pipeline_reachable (Rng := Rng) bits region_bytes fargs bars vargs p0).

Definition exited_means_done (p : Process) : Prop :=
  exited p -> SharedHeader.engine_done (header (p_region p)) <> 0.

Record orderly (s : Pipeline (Rng := Rng)) : Prop := {
  ord_quotes : sane_quotes (header (p_region (pl_proc s)));
  ord_view : sane_view (viewer_phase (pl_viewer s));
  ord_done : exited_means_done (pl_proc s)
}.

Lemma engine_step_signals script env p p' script' :
  exited_means_done p -> next_step bits script env p = Ok (p', script') -> exited_means_done p'.
Proof using.
  unfold exited_means_done, exited. intros Hd Hs [code Hc]. unfold next_step in Hs.
  destruct (p_phase p) as [| |m|m|trades total report|failed|code'] eqn:Hph.
  - apply bind_Ok in Hs as (q & Hq & [= <- <-]). exfalso. unfold poll in Hq.
    destruct (g_stop env); [by injection Hq as <-|]. by apply bind_Ok in Hq as ([[] q1] & _ & [= <-]).
  - injection Hs as <- <-. cbn in Hc. by destruct (_ && _ && _) in Hc.
  - apply journal_message_inv in Hs as (_ & _ & [E|E]); congruence.
  - apply bind_Ok in Hs as (q & (e & ts & rep & -> & _)%apply_message_inv & [= <- <-]). done.
  - injection Hs as <- <-. unfold publish in Hc. destruct trades; destruct (try_push _ _ _) as [[] q]; done.
  - apply drain_inv in Hs as (_ & _ & ->). done.
  - injection Hs as <- <-. apply Hd. by exists code'.
Qed.

Lemma viewer_step_view env v r v' r' :
  sane_quotes (header r) -> sane_view (viewer_phase v) ->
  viewer_step bits region_bytes vargs env v r = Ok (v', r') -> sane_view (viewer_phase v').
Proof using.
  intros [Hb Ha] Hv. unfold viewer_step. destruct (viewer_phase v) as [c|got|got|got|got bid|got bid ask| | | | |code] eqn:E.
  - unfold viewer_connect. destruct (connect _ _ _ _); by intros [= <- <-].
  - unfold take_trade. by intros ([[] q] & _ & [= <- <-])%bind_Ok.
  - unfold take_report. by intros ([[] q] & _ & [= <- <-])%bind_Ok.
  - destruct (book_due env), got; by intros [= <- <-].
  - intros [= <- <-]. by split.
  - intros (v1 & Hp & [= <- <-])%bind_Ok. unfold print_book in Hp. apply bind_Ok in Hp as (sp & _ & [= <-]).
    by destruct got.
  - intros [= <- <-]. cbn. by case_match.
  - intros [= <- <-]. cbn. by case_match.
  - intros [= <- <-]. cbn. by case_match.
  - by intros [= <- <-].
  - intros [= <- <-]. by rewrite E.
Qed.

Lemma pipeline_orderly s : reachable s -> orderly s.
Proof using Hpre.
  induction 1 as [|s s' Hr [Hq Hv Hd] Hs].
  - destruct (launched_started _ _ _ _ (pr_launch _ _ _ _ _ _ _ Hpre)) as ([Hph _ _ _ Hbook _] & He & _ & _).
    split; [|done|by intros [code Hc]; cbn in Hc; rewrite Hph in Hc].
    change (sane_quotes (header (p_region p0))).
    apply (engine_quotes (p_engine p0)); [|rewrite Hbook; by split_and!].
    rewrite He. apply session_new, (pr_limits _ _ _ _ _ _ _ Hpre).
  - destruct (pipeline_behind _ _ _ _ vargs _ _ _ Hpre s' (pipeline_next _ _ _ _ _ _ _ _ Hr Hs))
      as (t & ts & rs & oq & tq & rq & Hb).
    pose proof (session_engine _ _ (bh_session _ _ _ _ _ _ _ _ _ _ _ _ _ Hb)) as He.
    destruct (pipeline_behind _ _ _ _ vargs _ _ _ Hpre s Hr) as (t0 & ? & ? & ? & ? & ? & [[_ _ Hf Hw _ _] _ _ _ _]).
    destruct Hs as [script env p script' Hn|opened now f r Hn|env v r Hn].
    + split; [|done|by eapply engine_step_signals]. cbn in *.
      destruct (engine_step_quotes _ _ _ _ _ _ Hn) as [[E1 E2]|Hsh]; [|by eapply engine_quotes].
      unfold sane_quotes. by rewrite E1, E2.
    + destruct (feed_step_sends _ _ _ _ _ _ _ _ _ _ _ _ (pr_plan _ _ _ _ _ _ _ Hpre) Hf Hn) as (pushed & Hef & _).
      by split; cbn; destruct Hef.
    + destruct (viewer_step_sees _ _ _ _ _ _ _ _ _ _ Hw Hn) as (? & ? & Hef & _).
      split; cbn; [by destruct Hef|by eapply viewer_step_view|by destruct Hef].
Qed.

(** ** No faults *)

Lemma viewer_defined s env :
  reachable s -> exists v r, viewer_step bits region_bytes vargs env (pl_viewer s) (p_region (pl_proc s)) = Ok (v, r).
Proof using Hpre.
  intros Hr. pose proof (pr_bits _ _ _ _ _ _ _ Hpre) as Hbits.
  destruct (pipeline_orderly s Hr) as [_ Hv _].
  destruct (pipeline_behind _ _ _ _ vargs _ _ _ Hpre s Hr) as (t & ts & rs & oq & tq & rq & [[Ep _ _ _ _ _] [] _ _ _]).
  rewrite Ep in *. unfold viewer_step.
  destruct (viewer_phase (pl_viewer s)) as [c|got|got|got|got bid|got bid ask| | | | |code]; try by eexists _, _.
  - destruct (viewer_connect _ _ _ _). by eexists _, _.
  - unfold take_trade. destruct (pop_defined bits Hbits _ _ dl_trades) as (o & q & ->). by eexists _, _.
  - unfold take_report. destruct (pop_defined bits Hbits _ _ dl_reports) as (o & q & ->). by eexists _, _.
  - destruct (book_due env); by eexists _, _.
  - destruct Hv as [Hb Ha]. destruct (print_book_defined (pl_viewer s) (p_region (pl_proc s)) (viewer_now env) got bid ask Hb Ha)
      as [v ->]. by eexists _, _.
Qed.

(** A fault can only be that the list of system-call answers is too short. *)
Definition only_script {A} (m : result A) : Prop := match m with Ok _ => True | Fault f => f = OutOfFuel end.

Lemma only_script_bind {A B} (m : result A) (k : A -> result B) :
  only_script m -> (forall a, m = Ok a -> only_script (k a)) -> only_script (m ≫= k).
Proof using. destruct m; cbn; auto. Qed.

Lemma writeAll_script script : forall contents data written, only_script (writeAll script contents data written).
Proof using.
  induction script as [|[] script IH]; intros contents data written; cbn; repeat case_match; try done; apply IH.
Qed.

Lemma sync_script script j : only_script (sync script j).
Proof using. unfold sync. repeat case_match; done. Qed.

Lemma append_script script fs j ty order : only_script (appendRecord script fs j ty order).
Proof using.
  unfold appendRecord. destruct (fd_ j); [|done]. apply only_script_bind; [apply writeAll_script|].
  intros [[contents error] script1] _. destruct error; [done|]. cbn [durability_]. destruct (durability_ j); [done|].
  apply only_script_bind; [apply sync_script|]. by intros [[]].
Qed.

Lemma apply_message_defined s t m ts rs oq tq rq :
  behind bits fargs vargs eargs p0 ms s t ts rs oq tq rq -> p_phase (pl_proc s) = Journaled m ->
  exists p, apply_message (pl_proc s) m = Ok p.
Proof using Hpre.
  intros [[Ep _ Hf _ _ _] [] Hap _ Hses] Hph. rewrite Ep, Hph in dl_held. cbn in dl_held.
  apply sent_prefix in Hf as [rest Hrest]. rewrite dl_fed, dl_held in Hrest.
  destruct Hpre as [_ _ _ _ Hrange Hlen]. rewrite Hrest in Hrange, Hlen. rewrite !length_app in Hlen. cbn in Hlen.
  rewrite !Forall_app, Forall_singleton in Hrange. destruct Hrange as [[_ [Hm _]] _].
  pose proof (apply_command_ok _ _ [] (engine_command m) Hses ltac:(lia) (engine_command_in_range m Hm)) as Hx.
  unfold apply_message. destruct (market_apply _ _) as [[m' tr] reports]. destruct Hx as (e' & Hx & _).
  unfold engine_command, logged_of in Hx. destruct (is_new_order m); cbn [command_of apply_command] in Hx.
  - apply bind_Ok in Hx as ([[e out] report] & -> & _). by eexists.
  - apply bind_Ok in Hx as ([e report] & -> & _). by eexists.
Qed.

Lemma engine_defined s script env : reachable s -> only_script (next_step bits script env (pl_proc s)).
Proof using Hpre.
  intros Hr. pose proof (pr_bits _ _ _ _ _ _ _ Hpre) as Hbits.
  destruct (pipeline_behind _ _ _ _ vargs _ _ _ Hpre s Hr) as (t & ts & rs & oq & tq & rq & Hb).
  unfold next_step. destruct (p_phase (pl_proc s)) as [| |m|m|trades total report|failed|code] eqn:Hph; try done.
  - apply only_script_bind; [|done]. unfold poll. destruct (g_stop env); [done|].
    set (r := if heartbeat_due env then _ else _).
    assert (order_queue r = order_queue (p_region (pl_proc s))) as -> by (unfold r; by destruct (heartbeat_due env)).
    destruct Hb as [[Ep _ _ _ _ _] [] _ _ _]. rewrite Ep in dl_orders.
    by destruct (pop_defined bits Hbits _ _ dl_orders) as (o & q & ->).
  - unfold journal_message. destruct (isOpen _); [|done]. cbn [negb]. apply only_script_bind; [|by intros [[[]]]].
    destruct (is_new_order m); apply append_script.
  - destruct (apply_message_defined _ _ _ _ _ _ _ _ Hb Hph) as [p ->]. done.
  - unfold drain. apply only_script_bind; [|by intros [[]]]. destruct (_ && _); [|done].
    apply only_script_bind; [apply sync_script|]. by intros [[]].
Qed.

(** ** The end of the viewer *)

Definition attached (ph : ViewerPhase) : Prop :=
  match ph with ViewerConnecting _ => False | ViewerExited code => code = 0 | _ => True end.

(** How many of its own steps the viewer can still take, with [nt] trades and [nr]
    reports in the rings of an engine that has exited.  An iteration that found
    something is followed by another; one that runs past items that came in late
    finds the rings not empty at its end. *)
Definition steps_left (ph : ViewerPhase) (nt nr : Z) : Z :=
  let again (got : bool) (late : bool) := if got then 5 else if late then 12 else 0 in
  let late := 0 <? nt + nr in
  20 * (nt + nr) +
  match ph with
  | ViewerConnecting _ | ViewerExited _ => 0
  | TakingTrades got => 10 + again got false
  | TakingReports got => 9 + again got ((nr =? 0) && (0 <? nt))
  | ReadingBid got => 8 + again got late
  | ReadingAsk got _ => 7 + again got late
  | PrintingBook got _ _ => 6 + again got late
  | CheckingDone => 5 + again false late
  | CheckingTrades => 4 + again false late
  | CheckingReports => 3 + again false late
  | ViewerClosing => 1
  end.

Definition left_for (v : Viewer) (r : SharedRegion) : Z :=
  steps_left (viewer_phase v) (spsc_size (trade_queue r)) (spsc_size (report_queue r)).

Ltac tidy := cbn [viewer_beat with_header viewer_phase viewer_goes trade_queue report_queue header iteration_done negb] in *.
Ltac count :=
  repeat match goal with |- context [if ?b then _ else _] => destruct b eqn:? end; lia.

Lemma viewer_progress s env v r :
  reachable s -> exited (pl_proc s) -> attached (viewer_phase (pl_viewer s)) ->
  viewer_step bits region_bytes vargs env (pl_viewer s) (p_region (pl_proc s)) = Ok (v, r) ->
  attached (viewer_phase v)
  /\ (viewer_phase v = ViewerExited 0 \/ left_for v r < left_for (pl_viewer s) (p_region (pl_proc s))).
Proof using Hpre.
  intros Hr Hx Hat. pose proof (pr_bits _ _ _ _ _ _ _ Hpre) as Hbits.
  pose proof (ord_done _ (pipeline_orderly s Hr) Hx) as Hdone.
  destruct (pipeline_behind _ _ _ _ vargs _ _ _ Hpre s Hr) as (t & ts & rs & oq & tq & rq & [[Ep _ _ _ _ _] [] _ _ _]).
  rewrite Ep in *. pose proof (holds_size bits Hbits _ _ dl_trades) as Ht. pose proof (holds_size bits Hbits _ _ dl_reports) as Hrr.
  pose proof (empty_size bits Hbits _ _ dl_trades) as Het. pose proof (empty_size bits Hbits _ _ dl_reports) as Her.
  unfold viewer_step, left_for, steps_left.
  destruct (viewer_phase (pl_viewer s)) as [c|got|got|got|got bid|got bid ask| | | | |code] eqn:Hph; [done|..].
  - unfold take_trade. intros ([o q] & Hq & [= <- <-])%bind_Ok. pose proof (pop_size bits Hbits _ _ dl_trades _ _ Hq) as Hp.
    destruct o; tidy; (split; [done|right]); [|destruct Hp as [Hp ->]]; destruct got; count.
  - unfold take_report. intros ([o q] & Hq & [= <- <-])%bind_Ok. pose proof (pop_size bits Hbits _ _ dl_reports _ _ Hq) as Hp.
    destruct o; tidy; (split; [done|right]); [|destruct Hp as [Hp ->]]; destruct got; count.
  - destruct (book_due env), got; intros [= <- <-]; tidy; (split; [done|right]); count.
  - intros [= <- <-]; tidy; (split; [done|right]); count.
  - intros (v1 & Hp & [= <- <-])%bind_Ok. unfold print_book in Hp. apply bind_Ok in Hp as (sp & _ & [= <-]).
    destruct got; tidy; (split; [done|right]); count.
  - intros [= <- <-]. rewrite (proj2 (Z.eqb_neq _ _) Hdone). tidy. split; [done|right]. count.
  - intros [= <- <-]. destruct (spsc_empty (trade_queue _)); tidy; (split; [done|right]); count.
  - intros [= <- <-]. destruct (spsc_empty (report_queue _)); tidy; (split; [done|right]); count.
  - intros [= <- <-]. tidy. split; [done|by left].
  - intros [= <- <-]. rewrite Hph. cbn in Hat. rewrite Hat. by split; [|left].
Qed.

(** The viewer running on its own. *)
Fixpoint viewer_run (envs : list ViewerEnv) (v : Viewer) (r : SharedRegion) : result (Viewer * SharedRegion) :=
  match envs with
  | [] => Ok (v, r)
  | env :: envs => '(v, r) ← viewer_step bits region_bytes vargs env v r; viewer_run envs v r
  end.

Lemma steps_left_nonneg v r : 0 <= spsc_size (trade_queue r) -> 0 <= spsc_size (report_queue r) -> 0 <= left_for v r.
Proof using. intros H1 H2. unfold left_for, steps_left. destruct (viewer_phase v); count. Qed.

Lemma viewer_runs_out envs : forall s,
  reachable s -> exited (pl_proc s) -> attached (viewer_phase (pl_viewer s)) ->
  viewer_phase (pl_viewer s) = ViewerExited 0
  \/ left_for (pl_viewer s) (p_region (pl_proc s)) < Z.of_nat (length envs) ->
  exists v r, viewer_run envs (pl_viewer s) (p_region (pl_proc s)) = Ok (v, r) /\ viewer_phase v = ViewerExited 0
    /\ reachable (mkPipeline (with_queues (pl_proc s) r) (pl_feed s) v).
Proof using Hpre.
  induction envs as [|env envs IH]; intros s Hr Hx Hat Hn; cbn [viewer_run].
  - exists (pl_viewer s), (p_region (pl_proc s)). rewrite with_queues_same. split; [done|].
    destruct s as [p f v]. split; [|done]. destruct Hn as [|Hn]; [done|]. cbn in Hn |- *.
    pose proof (steps_left_nonneg v (p_region p)). unfold spsc_size in *.
    pose proof (u64_range (head_ (trade_queue (p_region p)) - tail_ (trade_queue (p_region p)))).
    pose proof (u64_range (head_ (report_queue (p_region p)) - tail_ (report_queue (p_region p)))).
    unfold is_u64 in *. lia.
  - destruct (viewer_defined s env Hr) as (v & r & Hs). rewrite Hs. cbn [mbind result_bind].
    destruct (viewer_progress s env v r Hr Hx Hat Hs) as [Hat' Hlt].
    destruct (IH (mkPipeline (with_queues (pl_proc s) r) (pl_feed s) v)) as (v' & r' & Hrun & Hend & Hr');
      [eapply pipeline_next; [exact Hr|by eapply viewer_moves]|exact Hx|exact Hat'| |by exists v', r'].
    destruct Hlt as [Hlt|Hlt]; [by left|]. destruct Hn as [Hn|Hn]; [left|right; cbn in *; lia].
    unfold viewer_step in Hs. rewrite Hn in Hs. by injection Hs as <- <-.
Qed.
End watching.


