(* ===== verification/PipelineRuns.v ===== *)
(** Concrete runs of the three programs, and the one schedule that goes wrong. *)

From stdpp Require Import strings.
From S2P Require Import Prelude.
From S2P Require Import Arguments.
From S2P Require Import OrderTypes.
From S2P Require Import Risk.
From S2P Require Import MatchingEngine.
From S2P Require Import Market.
From S2P Require Import Refinement.
From S2P Require Import Session.
From S2P Require Import EngineProps.
From S2P Require Import Journal.
From S2P Require Import Spsc.
From S2P Require Import EngineProcess.
From S2P Require Import EngineProcessProps.
From S2P Require Import Generators.
From S2P Require Import Connection.
From S2P Require Import FeedHandler.
From S2P Require Import FeedProps.
From S2P Require Import MarketViewer.
From S2P Require Import Pipeline.
From S2P Require Import PipelineProps.
From S2P Require Import ViewerProps.

#[local] Open Scope Z_scope.

Module Trading.
(** Four orders, a cancel after every second one, rings of four slots. *)
Definition argv : list string := ["--orders"; "4"; "--cancel-every"; "2"; "--advanced-orders"; "--seed"; "13"]%string.
Definition fargs : FeedArgs := mkFeedArgs 4 13 "/tmp/lob_shared_memory.dat" false true 2 "../data/AAPL.csv" 40.
Definition eargs : Args := mkArgs "/tmp/lob_shared_memory.dat" 2000 "" false false RiskLimits.default.
Definition vargs : ViewerArgs := mkViewerArgs "/tmp/lob_shared_memory.dat" false.
Definition bytes : Z := 4096.

Definition begun : Process :=
  match startup 2 [] ∅ eargs true bytes 7 with
  | Ok (Running p, _, _) => p
  | _ => mkProcess eargs (MatchingEngine_new RiskLimits.default) EventJournal_new ∅ (SharedRegion_new 2) Polling
  end.

Lemma begun_launched : launched 2 bytes eargs begun.
Proof. split; [done|]. by exists [], ∅, 7, ∅, []. Qed.

Definition plan : list OrderMsg :=
  match feed_source (Rng := Z) fargs [] with
  | Some (g, total) => match feed_plan fargs (Z.to_nat total) 1 g with Ok ms => ms | Fault _ => [] end
  | None => []
  end.

Inductive Action : Type := EngineTurn (idle : Z) | FeedTurn | ViewerTurn.

Definition act (s : Pipeline (Rng := Z)) (a : Action) : option (Pipeline (Rng := Z)) :=
  let r := p_region (pl_proc s) in
  match a with
  | EngineTurn idle =>
    match next_step 2 [] (mkEnv false idle 0 false) (pl_proc s) with
    | Ok (p, _) => Some (mkPipeline p (pl_feed s) (pl_viewer s))
    | Fault _ => None
    end
  | FeedTurn =>
    match feed_step 2 bytes fargs [] true 0 (pl_feed s) r with
    | Ok (f, r) => Some (mkPipeline (with_queues (pl_proc s) r) f (pl_viewer s))
    | Fault _ => None
    end
  | ViewerTurn =>
    match viewer_step 2 bytes vargs (mkViewerEnv true true 0) (pl_viewer s) r with
    | Ok (v, r) => Some (mkPipeline (with_queues (pl_proc s) r) (pl_feed s) v)
    | Fault _ => None
    end
  end.

Lemma trading_act_step s a s' : act s a = Some s' -> pipeline_step 2 bytes fargs [] vargs s s'.
Proof.
  destruct a as [idle| |]; cbn [act].
  - destruct (next_step _ _ _ _) as [[p script]|] eqn:E; [|done]. intros [= <-]. by eapply engine_moves.
  - destruct (feed_step _ _ _ _ _ _ _ _) as [[f r]|] eqn:E; [|done]. intros [= <-]. by eapply feed_moves.
  - destruct (viewer_step _ _ _ _ _ _) as [[v r]|] eqn:E; [|done]. intros [= <-]. by eapply viewer_moves.
Qed.

Lemma trading_reachable script :
  pipeline_reachable 2 bytes fargs [] vargs begun (played act (Pipeline_new begun) script).
Proof.
  apply played_preserves; [|constructor]. intros s a s' Hs Ha%trading_act_step. by eapply pipeline_next.
Qed.

(** The programs take turns until all have exited. *)
Definition round : list Action := [FeedTurn; EngineTurn 5000; ViewerTurn].
Definition ended : Pipeline (Rng := Z) := played act (Pipeline_new begun) (concat (replicate 80 round)).

(** The feed sends up to its last message, the engine drains the ring and finds it
    empty; the feed sends the last message and finishes; the engine goes on to its
    idle test. *)
Definition drain_rings : list Action := concat (replicate 25 [EngineTurn 0; ViewerTurn]).
Definition interrupted : list Action :=
  replicate 7 FeedTurn ++ drain_rings ++ replicate 4 FeedTurn ++ drain_rings ++ [EngineTurn 0]
  ++ replicate 3 FeedTurn ++ [EngineTurn 5000; EngineTurn 5000].
(** The engine exits before the viewer has taken the last reports. *)
Definition unwatched : Pipeline (Rng := Z) :=
  played act (Pipeline_new begun)
    (replicate 7 FeedTurn ++ drain_rings ++ replicate 7 FeedTurn ++ replicate 30 (EngineTurn 5000)).
Definition stranded : Pipeline (Rng := Z) := played act (Pipeline_new begun) interrupted.
End Trading.





(** C38. The idle exit can strand a message.  The engine tests [producer_done] after its
    failed pop, not before: if the feed pushes its last message and finishes between
    the two, and the engine has been idle for long enough, the engine exits with code
    0 and [engine_done] set while a command is still in the ring. *)
Theorem engine_exit_can_strand_message :
  exists s, pipeline_reachable 2 Trading.bytes Trading.fargs [] Trading.vargs Trading.begun s
    /\ feed_finished (pl_feed s) /\ p_phase (pl_proc s) = Exited 0
    /\ spsc_size (order_queue (p_region (pl_proc s))) = 1.
Proof.
  exists Trading.stranded. split; [apply Trading.trading_reachable|]. by vm_compute.
Qed.
