(* ===== verification/FuzzTarget.v ===== *)
(** [fuzz_matching_engine.cpp]: bytes decoded into engine commands, with the audit
    after every one. *)

From S2P Require Import Prelude.
From S2P Require Import OrderTypes.
From S2P Require Import OrderBook.
From S2P Require Import BookQueries.
From S2P Require Import Risk.
From S2P Require Import MatchingEngine.
From S2P Require Import Market.
From S2P Require Import Refinement.
From S2P Require Import Session.
From S2P Require Import EngineProps.

#[local] Open Scope Z_scope.

(** [data[offset + i]] for [i] below [n], least significant byte first. *)
Fixpoint read_bytes (data : list Z) (offset i n : nat) (value : Z) : result Z :=
  match n with
  | O => Ok value
  | S n =>
    byte ← defined (data !! (offset + i)%nat);
    read_bytes data offset (S i) n (Z.lor value (Z.shiftl byte (8 * Z.of_nat i)))
  end.
Definition fuzz_readU64 (data : list Z) (offset : nat) : result Z := read_bytes data offset 0 8 0.
Definition fuzz_readU32 (data : list Z) (offset : nat) : result Z := read_bytes data offset 0 4 0.

Definition kCommandBytes : nat := 24.
Definition kMaxCommands : nat := 2048.

Definition fuzz_order (data : list Z) (command : nat) (id : Z) : result Order.t :=
  b9 ← defined (data !! (command + 9)%nat);
  b10 ← defined (data !! (command + 10)%nat);
  b11 ← defined (data !! (command + 11)%nat);
  b12 ← defined (data !! (command + 12)%nat);
  raw_price ← fuzz_readU64 data (command + 13);
  let price := Z.land raw_price 0x7FFFFFFF in
  price ← (if negb (Z.land b9 0x80 =? 0) then i64 (- price) else Ok price);
  quantity ← fuzz_readU32 data (command + 20);
  Ok (Order.mk id (side_of_byte (Z.land b9 0x03)) (type_of_byte (Z.land b10 0x03))
        (tif_of_byte (Z.land b11 0x03)) (Z.land b12 0x07) price quantity 0).

(** One iteration; [std::abort] is a fault. *)
Definition fuzz_command (data : list Z) (i : nat) (engine : MatchingEngine) : result MatchingEngine :=
  let command := (i * kCommandBytes)%nat in
  opcode ← defined (data !! command);
  id ← fuzz_readU64 data (command + 1);
  engine ←
    (if Z.land opcode 0x07 =? 0 then '(engine, _) ← cancel engine id; Ok engine
     else
       order ← fuzz_order data command id;
       '(engine, _, _) ← processOrder engine order [];
       Ok engine);
  ok ← checkInvariants (book_ engine);
  _ ← assert ok;
  Ok engine.

Fixpoint fuzz_loop (data : list Z) (i n : nat) (engine : MatchingEngine) : result MatchingEngine :=
  match n with
  | O => Ok engine
  | S n => engine ← fuzz_command data i engine; fuzz_loop data (S i) n engine
  end.

Definition LLVMFuzzerTestOneInput (data : list Z) : result Z :=
  let commands := Nat.min (length data / kCommandBytes) kMaxCommands in
  _ ← fuzz_loop data 0 commands (MatchingEngine_new RiskLimits.default);
  Ok 0.

(** * No input aborts *)

Section decoding.
Context (data : list Z).
Hypothesis Hbytes : Forall is_u8 data.

Lemma byte_defined i : (i < length data)%nat -> exists b, defined (data !! i) = Ok b /\ is_u8 b.
Proof using Hbytes.
  intros Hi. destruct (lookup_lt_is_Some_2 data i Hi) as [b Hb]. exists b. rewrite Hb.
  split; [done|]. by eapply Forall_lookup_1.
Qed.

Lemma lor_byte_range value byte i :
  0 <= value < 2 ^ (8 * Z.of_nat i) -> is_u8 byte ->
  0 <= Z.lor value (Z.shiftl byte (8 * Z.of_nat i)) < 2 ^ (8 * Z.of_nat (S i)).
Proof using.
  intros Hv Hb. assert (0 <= Z.shiftl byte (8 * Z.of_nat i) < 2 ^ (8 * Z.of_nat (S i))) as Hs.
  { rewrite Z.shiftl_mul_pow2 by lia. replace (8 * Z.of_nat (S i)) with (8 + 8 * Z.of_nat i) by lia.
    rewrite Z.pow_add_r by lia. unfold is_u8 in Hb. nia. }
  apply lor_range; [lia| |done]. split; [lia|].
  eapply Z.lt_le_trans; [apply Hv|]. apply Z.pow_le_mono_r; lia.
Qed.

Lemma read_bytes_defined n : forall i offset value,
  (offset + i + n <= length data)%nat -> 0 <= value < 2 ^ (8 * Z.of_nat i) ->
  exists v, read_bytes data offset i n value = Ok v /\ 0 <= v < 2 ^ (8 * Z.of_nat (i + n)).
Proof using Hbytes.
  induction n as [|n IH]; intros i offset value Hn Hv; cbn [read_bytes].
  - exists value. by rewrite Nat.add_0_r.
  - destruct (byte_defined (offset + i)) as (b & -> & Hb); [lia|]. cbn [mbind result_bind].
    destruct (IH (S i) offset (Z.lor value (Z.shiftl b (8 * Z.of_nat i)))) as (v & -> & Hv');
      [lia|by apply lor_byte_range|]. exists v. by rewrite <- Nat.add_succ_comm.
Qed.

Lemma mask_range a n : 0 <= n -> 0 <= Z.land a (Z.ones n) < 2 ^ n.
Proof using. intros Hn. rewrite Z.land_ones by done. apply Z.mod_pos_bound. by apply Z.pow_pos_nonneg. Qed.

Lemma fuzz_order_defined command id :
  (command + kCommandBytes <= length data)%nat -> is_u64 id ->
  exists order, fuzz_order data command id = Ok order /\ Order.in_range order.
Proof using Hbytes.
  unfold kCommandBytes. intros Hc Hid. unfold fuzz_order.
  destruct (byte_defined (command + 9)) as (b9 & -> & _); [lia|].
  destruct (byte_defined (command + 10)) as (b10 & -> & _); [lia|].
  destruct (byte_defined (command + 11)) as (b11 & -> & _); [lia|].
  destruct (byte_defined (command + 12)) as (b12 & -> & _); [lia|].
  destruct (read_bytes_defined 8 0 (command + 13) 0) as (raw & Hraw & _); [lia|by cbn|].
  destruct (read_bytes_defined 4 0 (command + 20) 0) as (quantity & Hq & Hqr); [lia|by cbn|].
  unfold fuzz_readU64, fuzz_readU32. cbn [mbind result_bind]. rewrite Hraw. cbn [mbind result_bind].
  pose proof (mask_range raw 31 ltac:(lia)) as Hp. change (Z.ones 31) with 0x7FFFFFFF in Hp.
  pose proof (mask_range b9 2 ltac:(lia)) as H9. pose proof (mask_range b10 2 ltac:(lia)) as H10.
  pose proof (mask_range b11 2 ltac:(lia)) as H11. change (Z.ones 2) with 3 in *.
  pose proof (mask_range b12 3 ltac:(lia)) as H12. change (Z.ones 3) with 7 in *.
  set (price := if negb (Z.land b9 0x80 =? 0) then - Z.land raw 0x7FFFFFFF else Z.land raw 0x7FFFFFFF).
  assert ((if negb (Z.land b9 0x80 =? 0) then i64 (- Z.land raw 0x7FFFFFFF) else Ok (Z.land raw 0x7FFFFFFF))
          = Ok price /\ is_i64 price) as [-> Hprice].
  { unfold price. destruct (negb _); [rewrite i64_ok by range|]; split; done || range. }
  cbn [mbind result_bind]. rewrite Hq. cbn [mbind result_bind]. eexists. split; [done|].
  split; cbn [Order.id Order.side Order.type Order.time_in_force Order.flags Order.price Order.quantity Order.sequence];
    try done; try range.
  - unfold side_of_byte. decode_byte.
  - unfold type_of_byte. decode_byte.
  - unfold tif_of_byte. decode_byte.
Qed.

Lemma fuzz_command_ok n i e :
  (i * kCommandBytes + kCommandBytes <= length data)%nat -> session_ok n e -> Z.of_nat (S n) <= max_resting ->
  exists e', fuzz_command data i e = Ok e' /\ session_ok (S n) e'.
Proof using Hbytes.
  intros Hi Hs Hn. unfold fuzz_command.
  destruct (byte_defined (i * kCommandBytes)) as (opcode & -> & _); [unfold kCommandBytes in *; lia|].
  destruct (read_bytes_defined 8 0 (i * kCommandBytes + 1) 0) as (id & Hid & Hr); [unfold kCommandBytes in *; lia|by cbn|].
  unfold fuzz_readU64 at 1. cbn [mbind result_bind]. rewrite Hid. cbn [mbind result_bind].
  assert (exists c, command_in_range c /\ forall e1 ts rs, apply_command e [] c = Ok (e1, ts, rs) ->
    (if Z.land opcode 7 =? 0 then '(engine, _) ← cancel e id; Ok engine
     else order ← fuzz_order data (i * kCommandBytes) id; '(engine, _, _) ← processOrder e order []; Ok engine)
    = Ok e1) as (c & Hc & Hstep).
  { destruct (_ =? 0).
    - exists (Cancel id). split; [done|]. intros e1 ts rs. cbn. by intros ([e2 r] & -> & [= <- _ _])%bind_Ok.
    - destruct (fuzz_order_defined (i * kCommandBytes) id Hi Hr) as (order & -> & Ho). exists (Submit order).
      split; [done|]. intros e1 ts rs. cbn. by intros ([[e2 out] r] & -> & [= <- _ _])%bind_Ok. }
  pose proof (apply_command_ok n e [] c Hs ltac:(lia) Hc) as Hx.
  destruct (market_apply _ _) as [[m ts] rs]. destruct Hx as (e' & Ha & Hs' & _).
  rewrite (Hstep _ _ _ Ha). cbn [mbind result_bind]. rewrite (session_audit (S n) e' Hs' ltac:(lia)). by exists e'.
Qed.

Lemma fuzz_loop_ok n : forall i e,
  ((i + n) * kCommandBytes <= length data)%nat -> session_ok i e -> Z.of_nat (i + n) <= max_resting ->
  exists e', fuzz_loop data i n e = Ok e' /\ session_ok (i + n) e'.
Proof using Hbytes.
  induction n as [|n IH]; intros i e Hi Hs Hn; cbn [fuzz_loop].
  - exists e. by rewrite Nat.add_0_r.
  - destruct (fuzz_command_ok i i e) as (e1 & -> & Hs1); [unfold kCommandBytes in *; lia|done|lia|].
    cbn [mbind result_bind]. rewrite <- Nat.add_succ_comm in *. by apply IH.
Qed.
End decoding.

(** C13. No input breaks the engine.  Whatever bytes the fuzzer supplies, the target
    decodes them within bounds, no command faults, the audit after every command
    holds, and the target returns 0. *)
Theorem fuzz_target_never_aborts data :
  Forall is_u8 data -> LLVMFuzzerTestOneInput data = Ok 0.
Proof.
  intros Hb. unfold LLVMFuzzerTestOneInput.
  set (n := Nat.min (length data / kCommandBytes) kMaxCommands).
  destruct (fuzz_loop_ok data Hb n 0 (MatchingEngine_new RiskLimits.default)) as (e & -> & _); [| | |done].
  - assert (n <= length data / kCommandBytes)%nat by (unfold n; lia).
    pose proof (Nat.Div0.mul_div_le (length data) kCommandBytes). unfold kCommandBytes in *. lia.
  - apply session_new. by apply (bool_decide_unpack _).
  - unfold n, kMaxCommands, max_resting. lia.
Qed.

Lemma fuzz_target_never_aborts_witness :
  LLVMFuzzerTestOneInput (concat (replicate 3 ([1; 5; 0; 0; 0; 0; 0; 0; 0; 1; 0; 0; 0; 101; 0; 0; 0; 0; 0; 0; 10; 0; 0; 0]))) = Ok 0.
Proof. apply fuzz_target_never_aborts. evaluate. Defined.
