(* ===== verification/ReplayTool.v ===== *)
(** [journal_replay_main.cpp]: validate a journal, replay it into a fresh engine and
    print the recovered book.  The file can hold anything at all. *)

From stdpp Require Import strings.
From S2P Require Import Prelude.
From S2P Require Import Arguments.
From S2P Require Import OrderTypes.
From S2P Require Import OrderBook.
From S2P Require Import BookQueries.
From S2P Require Import BookCheck.
From S2P Require Import Risk.
From S2P Require Import MatchingEngine.
From S2P Require Import Market.
From S2P Require Import Refinement.
From S2P Require Import Session.
From S2P Require Import EngineProps.
From S2P Require Import Journal.
From S2P Require Import JournalCodec.
From S2P Require Import JournalReplay.
From S2P Require Import JournalProps.
From S2P Require Import EngineProcess.
From S2P Require Import CommandLine.

#[local] Open Scope Z_scope.

(** * Arguments *)

Record ReplayArgs : Type := mkReplayArgs {
  replay_journal_path : string;
  replay_depth : Z;
  replay_limits : RiskLimits.t
}.
Definition ReplayArgs_default : ReplayArgs := mkReplayArgs "" 10 RiskLimits.default.

(** [parseU64] is that of [feed_handler.cpp], [parseI64] that of
    [matching_engine_main.cpp]. *)
Definition replay_parseU64 : string -> option Z := parseU64_unsigned.
Definition replay_parseI64 : string -> option Z := parseI64.

Definition replay_plain (flag : string) (a : ReplayArgs) : option (Parsed ReplayArgs) :=
  if bool_decide (flag = "--help"%string) then Some (Exit 0) else None.

Definition replay_with (f : RiskLimits.t -> RiskLimits.t) (a : ReplayArgs) : ReplayArgs :=
  mkReplayArgs (replay_journal_path a) (replay_depth a) (f (replay_limits a)).

Definition replay_valued (flag : string) : option (string -> ReplayArgs -> option ReplayArgs) :=
  if bool_decide (flag = "--journal"%string) then
    Some (fun value a => Some (mkReplayArgs value (replay_depth a) (replay_limits a)))
  else if bool_decide (flag = "--depth"%string) then Some (fun value a =>
    v ← replay_parseU64 value; Some (mkReplayArgs (replay_journal_path a) v (replay_limits a)))
  else if bool_decide (flag = "--max-order-qty"%string) then Some (fun value a =>
    v ← replay_parseU64 value;
    if UINT32_MAX <? v then None
    else Some (replay_with (fun l => RiskLimits.mk v (RiskLimits.min_limit_price l) (RiskLimits.max_limit_price l)
                 (RiskLimits.max_order_notional l) (RiskLimits.max_active_orders l)) a))
  else if bool_decide (flag = "--min-price"%string) then Some (fun value a =>
    v ← replay_parseI64 value;
    Some (replay_with (fun l => RiskLimits.mk (RiskLimits.max_order_quantity l) v (RiskLimits.max_limit_price l)
            (RiskLimits.max_order_notional l) (RiskLimits.max_active_orders l)) a))
  else if bool_decide (flag = "--max-price"%string) then Some (fun value a =>
    v ← replay_parseI64 value;
    Some (replay_with (fun l => RiskLimits.mk (RiskLimits.max_order_quantity l) (RiskLimits.min_limit_price l) v
            (RiskLimits.max_order_notional l) (RiskLimits.max_active_orders l)) a))
  else if bool_decide (flag = "--max-notional"%string) then Some (fun value a =>
    v ← replay_parseU64 value;
    Some (replay_with (fun l => RiskLimits.mk (RiskLimits.max_order_quantity l) (RiskLimits.min_limit_price l)
            (RiskLimits.max_limit_price l) v (RiskLimits.max_active_orders l)) a))
  else if bool_decide (flag = "--max-active-orders"%string) then Some (fun value a =>
    v ← replay_parseU64 value;
    Some (replay_with (fun l => RiskLimits.mk (RiskLimits.max_order_quantity l) (RiskLimits.min_limit_price l)
            (RiskLimits.max_limit_price l) (RiskLimits.max_order_notional l) v) a))
  else None.

(** A lone path is the journal, once. *)
Definition replay_other (flag : string) (a : ReplayArgs) : Parsed ReplayArgs :=
  if negb (bool_decide (flag = ""%string)) && negb (starts_with_minus flag)
     && bool_decide (replay_journal_path a = ""%string)
  then Parsed_args (mkReplayArgs flag (replay_depth a) (replay_limits a))
  else Exit 1.

Definition replay_parseArgs (argv : list string) : Parsed ReplayArgs :=
  match parse_flags replay_plain replay_valued replay_other argv ReplayArgs_default with
  | Parsed_args a =>
    if bool_decide (replay_journal_path a = ""%string) then Exit 1
    else if RiskLimits.max_limit_price (replay_limits a) <? RiskLimits.min_limit_price (replay_limits a) then Exit 1
    else Parsed_args a
  | Exit code => Exit code
  end.

(** * [main] *)

(** What is printed after a successful replay. *)
Record ReplayOutput : Type := mkReplayOutput {
  out_result : JournalReplayResult;
  out_sequence : Z;
  out_active_orders : Z;
  out_bid : option Z;
  out_ask : option Z;
  out_spread : option Z;
  out_invariants : bool;
  out_bids : list LevelSnapshot;
  out_asks : list LevelSnapshot
}.

Definition replay_main (script : list Sys) (fs : FileSystem) (args : ReplayArgs) :
    result (Z * option ReplayOutput * JournalReplayResult) :=
  '(engine, res, _) ← replay script fs (replay_journal_path args) (MatchingEngine_new (replay_limits args));
  if negb (replay_ok res) then Ok (1, None, res)
  else
    let b := book_ engine in
    let bid := bestBid b in
    let ask := bestAsk b in
    spread ← (match bid, ask with
              | Some bid, Some ask => s ← i64 (ask - bid); Ok (Some s)
              | _, _ => Ok None
              end);
    invariants ← checkInvariants b;
    Ok (if (invariants : bool) then 0 else 2,
        Some (mkReplayOutput res (sequence_ engine) (orderCount b) bid ask spread invariants
                (topLevels b BUY (replay_depth args)) (topLevels b SELL (replay_depth args))), res).

(** * Any bytes *)

Definition all_bytes (l : list Z) : Prop := Forall is_u8 l.

Lemma store_at_bytes offset data bytes : all_bytes data -> all_bytes bytes -> all_bytes (store_at offset data bytes).
Proof. unfold all_bytes. intros Hd Hb. unfold store_at. rewrite !Forall_app. split_and!; [by apply Forall_take|done|by apply Forall_drop]. Qed.

(** Reading a record from any file returns, as long as there are calls left for the
    rest of the file. *)
Lemma readRecord_any file script : all_bytes file -> forall pos bytes rb,
  all_bytes bytes -> length bytes = kRecordSize -> (rb <= kRecordSize)%nat -> (pos <= length file)%nat ->
  (length file - pos < transfers script)%nat ->
  exists kind err bytes' pos' script',
    readRecord script file pos bytes rb = Ok (kind, err, bytes', pos', script')
    /\ all_bytes bytes' /\ length bytes' = kRecordSize
    /\ (kind = FULL -> pos' = (pos + (kRecordSize - rb))%nat /\ (pos' <= length file)%nat
                       /\ (length file - pos' < transfers script')%nat).
Proof.
  intros Hfile. induction script as [|call script IH]; intros pos bytes rb Hb Hlen Hrb Hpos Ht; cbn [readRecord].
  { cbn in Ht. lia. }
  destruct (Nat.leb_spec (length bytes) rb).
  { eexists _, _, _, _, _. split; [done|]. split_and!; try done. intros _. split_and!; [lia|lia|done]. }
  destruct call as [n| |e]; cbn [transfers] in Ht.
  - set (k := Nat.min (S n) (Nat.min (length bytes - rb) (length file - pos))).
    destruct (Nat.eqb_spec k 0) as [Hk|Hk].
    { eexists _, _, _, _, _. split; [done|]. split_and!; try done. by destruct (_ =? 0)%nat. }
    assert (length (take k (drop pos file)) = k) as Hlk by (rewrite length_take, length_drop; lia).
    destruct (IH (pos + k)%nat (store_at rb (take k (drop pos file)) bytes) (rb + k)%nat)
      as (kind & err & bytes' & pos' & script' & H1 & H2 & H3 & H4).
    { apply store_at_bytes; [by apply Forall_take, Forall_drop|done]. }
    { rewrite store_at_length; [done|rewrite Hlk; lia]. }
    { lia. } { lia. } { lia. }
    eexists _, _, _, _, _. split; [exact H1|]. split_and!; [done|done|].
    intros (-> & Hp & Ht')%H4. split_and!; [lia|lia|lia].
  - by apply IH.
  - eexists _, _, _, _, _. by split.
Qed.

Lemma field_range (bytes : list Z) (offset : nat) (w : Z) (trunc : Z -> Z) n :
  0 <= w -> (forall z, 0 <= trunc z < 2 ^ w) -> forall m acc, 0 <= acc < 2 ^ w ->
  0 <= foldl (fun value i => Z.lor value (trunc (Z.shiftl (bytes !!! (offset + i)%nat) (8 * Z.of_nat i)))) acc (seq m n) < 2 ^ w.
Proof.
  intros Hw Htr. induction n as [|n IH]; intros m acc Hacc; cbn [seq foldl]; [done|].
  apply IH. by apply lor_range.
Qed.

Lemma getU64_range bytes offset : is_u64 (getU64 bytes offset).
Proof. apply (field_range bytes offset 64 u64 8); [lia|apply u64_range|lia]. Qed.
Lemma getU32_range bytes offset : is_u32 (getU32 bytes offset).
Proof. apply (field_range bytes offset 32 u32 4); [lia|apply u32_range|lia]. Qed.

Lemma byte_total bytes (i : nat) : all_bytes bytes -> (i < length bytes)%nat -> is_u8 (bytes !!! i).
Proof.
  intros Hb Hi. destruct (lookup_lt_is_Some_2 bytes i Hi) as [b E].
  rewrite (list_lookup_total_correct _ _ _ E). by eapply Forall_lookup_1.
Qed.

(** Whatever a record holds, it decodes to an order of the program's types. *)
Lemma decodeOrder_range bytes : all_bytes bytes -> length bytes = kRecordSize -> Order.in_range (decodeOrder bytes).
Proof.
  intros Hb Hlen. assert (forall i, (i < 48)%nat -> is_u8 (bytes !!! i)) as Hi.
  { intros i Hi. apply byte_total; [done|]. by rewrite Hlen. }
  pose proof (getU64_range bytes 16). pose proof (getU64_range bytes 28) as H28. pose proof (getU32_range bytes 36).
  split; cbn [decodeOrder Order.id Order.side Order.type Order.time_in_force Order.flags Order.price
    Order.quantity Order.sequence]; try done.
  - specialize (Hi 24%nat ltac:(lia)). unfold side_of_byte. decode_byte.
  - specialize (Hi 25%nat ltac:(lia)). unfold type_of_byte. decode_byte.
  - specialize (Hi 26%nat ltac:(lia)). unfold tif_of_byte. decode_byte.
  - apply Hi. lia.
  - unfold i64_of_bits. destruct (Z.ltb_spec (getU64 bytes 28) (2 ^ 63)); range.
Qed.

Lemma replay_record_any bytes n expected e r :
  all_bytes bytes -> length bytes = kRecordSize -> session_ok n e -> Z.of_nat n < max_resting ->
  exists e' r', replay_record bytes e expected r = Ok (e', r') /\ session_ok (S n) e'.
Proof.
  intros Hb Hlen Hs Hn. unfold replay_record. destruct (_ =? _).
  - pose proof (apply_command_ok n e [] (Submit (decodeOrder bytes)) Hs Hn (decodeOrder_range _ Hb Hlen)) as Hx.
    destruct (market_apply _ _) as [[m ts] rs]. destruct Hx as (e' & Ha & Hs' & _).
    cbn [apply_command] in Ha. apply bind_Ok in Ha as ([[e1 out] report] & -> & [= -> _ _]). by eexists _, _.
  - pose proof (apply_command_ok n e [] (Cancel (getU64 bytes 16)) Hs Hn (getU64_range _ _)) as Hx.
    destruct (market_apply _ _) as [[m ts] rs]. destruct Hx as (e' & Ha & Hs' & _).
    cbn [apply_command] in Ha. apply bind_Ok in Ha as ([e1 report] & -> & [= -> _ _]). by eexists _, _.
Qed.

(** The loop of [replay] terminates on any file, and leaves a sound engine. *)
Lemma replay_loop_any file : all_bytes file -> Z.of_nat (length file) <= max_resting ->
  forall fuel script pos bytes expected n e r,
  all_bytes bytes -> length bytes = kRecordSize -> (n <= pos <= length file)%nat ->
  (length file - pos < transfers script)%nat -> (length file - pos < fuel)%nat -> session_ok n e ->
  exists e' r' script' n', replay_loop fuel script file pos bytes expected e r = Ok (e', r', script')
    /\ session_ok n' e' /\ Z.of_nat n' <= max_resting.
Proof.
  intros Hfile Hmax. induction fuel as [|fuel IH]; intros script pos bytes expected n e r Hb Hlen Hpos Ht Hf Hs; [lia|].
  cbn [replay_loop].
  destruct (readRecord_any file script Hfile pos bytes 0 Hb Hlen ltac:(lia) ltac:(lia) Ht)
    as (kind & err & bytes' & pos' & script' & -> & Hb' & Hlen' & Hfull).
  cbn [mbind result_bind]. destruct kind; try (eexists _, _, _, n; split; [done|split; [done|lia]]).
  destruct (Hfull eq_refl) as (-> & Hp & Ht'). unfold kRecordSize in *.
  destruct (validateRecord bytes' expected); [eexists _, _, _, n; split; [done|split; [done|lia]]|].
  destruct (replay_record_any bytes' n expected e r Hb' Hlen' Hs ltac:(lia)) as (e1 & r1 & -> & Hs1).
  cbn [mbind result_bind]. eapply IH; [done|done| |done| |exact Hs1]; lia.
Qed.

Lemma zero_record_bytes : all_bytes zero_record.
Proof. apply (bool_decide_unpack _). by vm_compute. Qed.

(** A journal is read to its end or to its first defect; there is a sound engine
    either way. *)
Lemma replay_any script fs path limits :
  RiskLimits.in_range limits ->
  (forall file, fs !! path = Some file ->
     all_bytes file /\ Z.of_nat (length file) <= max_resting /\ (S (length file) < transfers script)%nat) ->
  script <> [] ->
  exists e r script' n, replay script fs path (MatchingEngine_new limits) = Ok (e, r, script')
    /\ session_ok n e /\ Z.of_nat n <= max_resting.
Proof.
  intros Hl Hfile Hne. pose proof (session_new limits Hl) as Hs. unfold replay.
  destruct script as [|call script]; [done|]. assert (Z.of_nat 0 <= max_resting) as H0 by (unfold max_resting; lia).
  destruct call; destruct (fs !! path) as [file|] eqn:Ef; try (eexists _, _, _, 0%nat; by split_and!).
  destruct (Hfile file eq_refl) as (Hb & Hn & Ht). cbn [transfers] in Ht.
  eapply replay_loop_any; [done|done|apply zero_record_bytes|done| | | |exact Hs]; unfold scan_fuel; lia.
Qed.

Lemma replay_parseArgs_ok argv a :
  replay_parseArgs argv = Parsed_args a ->
  RiskLimits.in_range (replay_limits a) /\ replay_journal_path a <> ""%string.
Proof.
  unfold replay_parseArgs. destruct (parse_flags _ _ _ _ _) as [a0|] eqn:E; [|done].
  assert (RiskLimits.in_range (replay_limits a0)) as Ha.
  { revert E. apply (parse_flags_ok _ _ _ (fun a => RiskLimits.in_range (replay_limits a)));
      [| | |by apply (bool_decide_unpack _)].
    - intros flag b b' _. unfold replay_plain. by case_bool_decide.
    - intros flag set value b b' []. unfold replay_valued.
      repeat case_bool_decide; try done; intros [= <-] Hs; try (by injection Hs as <-);
        apply bind_Some in Hs as (v & Hv & Hs); first [apply parseU64_unsigned_range in Hv | apply parseI64_range in Hv];
        try (destruct (Z.ltb_spec UINT32_MAX v); [done|]); injection Hs as <-; split; try done.
      cbn. unfold UINT32_MAX in *. range.
    - intros flag b b' Hb. unfold replay_other. case_match; [|done]. by intros [= <-]. }
  case_bool_decide; [done|]. case_match; [done|]. by intros [= <-].
Qed.


