(* ===== verification/IngressDriver.v ===== *)
(** [stats()] of the partitioned engine, and producer threads that enqueue their orders:
    what the drivers [partitioned_matching_main.cpp] and [benchmark_partitioned.cpp] share.

    A [Driver] is the engine with its threads and, per producer, the orders it has still
    to enqueue.  Every run of it ends with all orders processed. *)

From S2P Require Import Prelude.
From S2P Require Import OrderTypes.
From S2P Require Import OrderBook.
From S2P Require Import BookQueries.
From S2P Require Import Risk.
From S2P Require Import MatchingEngine.
From S2P Require Import Session.
From S2P Require Import EngineProps.
From S2P Require Import Symbols.
From S2P Require Import LatencyHistogram.
From S2P Require Import Mpmc.
From S2P Require Import Partitioned.
From S2P Require Import PartitionedProps.

#[local] Open Scope Z_scope.

(** * [stats] *)

Record PartitionedEngineStats : Type := mkStats {
  st_submitted : Z;
  st_processed : Z;
  st_accepted : Z;
  st_rejected : Z;
  st_trades : Z;
  st_pending : Z;
  st_max_queue_high_watermark : Z;
  st_latency : result LatencySnapshot
}.

(** The snapshot of the histogram is shown not to fault below. *)
Definition partitioned_stats (p : PartitionedEngine) : PartitionedEngineStats :=
  mkStats (submitted_ p) (processed_ p) (accepted_ p) (rejected_ p) (trades_ p) (pending_ p)
    (foldl (fun m sh => Z.max m (highWatermark (shard_queue sh))) 0 (shards_ p)) (histogram_snapshot (latency_ p)).

(** Commands a producer has in its queue but not yet counted as submitted. *)
Definition unsettled (ps : list (Command * bool * Stage)) : Z :=
  sum (fun x => match x.2 with Pushed true => 1 | _ => 0 end) ps.

Definition count_results (f : ExecutionReport.t -> bool) (l : list (Command * PartitionedCommandResult)) : Z :=
  sum (fun x => if f (res_report x.2) then 1 else 0) l.

(** What the counters count. *)
Record counted (s : System) : Prop := {
  ct_submitted : submitted_ (engine s) = u64 (Z.of_nat (length (entered s)) - unsettled (producers s));
  ct_processed : processed_ (engine s) = u64 (Z.of_nat (length (accounted s)));
  ct_accepted : accepted_ (engine s) = u64 (count_results ExecutionReport.accepted (accounted s));
  ct_rejected : rejected_ (engine s) = u64 (count_results (negb ∘ ExecutionReport.accepted) (accounted s));
  ct_trades : trades_ (engine s) = u64 (sum (fun x => Z.of_nat (length (res_trades x.2))) (accounted s));
  ct_latency : exists samples, latency_ (engine s) = record_all samples /\ Forall is_u64 samples
    /\ length samples = length (accounted s)
}.

Lemma close_shard_counters p i :
  submitted_ (close_shard p i) = submitted_ p /\ processed_ (close_shard p i) = processed_ p
  /\ accepted_ (close_shard p i) = accepted_ p /\ rejected_ (close_shard p i) = rejected_ p
  /\ trades_ (close_shard p i) = trades_ p /\ latency_ (close_shard p i) = latency_ p.
Proof. unfold close_shard. by case_match. Qed.

Lemma unsettled_move l1 x y l2 : unsettled (l1 ++ y :: l2) = unsettled (l1 ++ x :: l2) + unsettled [y] - unsettled [x].
Proof. unfold unsettled. autorewrite with sums. lia. Qed.

Lemma account_counted s c r now ws :
  counted s -> is_i64 (now - cmd_enqueued_at c) ->
  counted (mkSystem (account (engine s) c r now) (producers s) ws (entered s) (served s) (accounted s ++ [(c, r)])).
Proof.
  intros [] Hnow. split; cbn; rewrite ?ct_submitted0, ?ct_processed0, ?ct_accepted0, ?ct_rejected0, ?ct_trades0;
    rewrite ?u64_add_l; unfold count_results; autorewrite with sums; rewrite ?length_app; cbn; try done.
  - f_equal. lia.
  - destruct (ExecutionReport.accepted _); rewrite ?u64_add_l; f_equal; lia.
  - unfold compose. destruct (ExecutionReport.accepted _); cbn; rewrite ?u64_add_l; f_equal; lia.
  - f_equal. lia.
  - destruct ct_latency0 as (xs & -> & Hxs & Hl). eexists (xs ++ [_]). rewrite record_all_snoc. split; [done|].
    split; [|rewrite length_app; cbn; lia]. apply Forall_app_2; [done|]. constructor; [|done].
    destruct (Z.ltb_spec (now - cmd_enqueued_at c) 0); range.
Qed.

Lemma unsettled_refused c blocking : unsettled (refused_call c blocking) = 0.
Proof. unfold refused_call. by case_match. Qed.

Lemma unsettled_pushed c blocking ok : unsettled [(c, blocking, Pushed ok)] = if ok then 1 else 0.
Proof. by destruct ok. Qed.

(** A client leaves the stage it is in, for the stages of [l]. *)
Lemma unsettled_leave l1 x l l2 :
  unsettled (l1 ++ l ++ l2) = unsettled (l1 ++ x :: l2) + unsettled l - unsettled [x].
Proof. unfold unsettled. autorewrite with sums. lia. Qed.

Lemma moves_counted s s' : counted s -> moves s s' -> counted s'.
Proof.
  intros Hc Hs. destruct Hs as [l1 c b l2 E|l1 c b l2 p pushed E Hp|l1 c b pushed l2 E|l1 c b k l2 E _|i c p _ Hp
    |i c r p _ Hp|i c r now _ Hnow].
  - destruct Hc. split; cbn; try done. rewrite ct_submitted0, E. do 2 f_equal.
    rewrite (unsettled_move l1 (c, b, Checked)). unfold unsettled. autorewrite with sums. cbn. lia.
  - apply queue_push_inv in Hp as (sh & q & _ & -> & _). destruct Hc. split; cbn; try done.
    rewrite ct_submitted0, E. f_equal. rewrite (unsettled_move l1 (c, b, Counted) (c, b, Pushed pushed)).
    unfold unsettled. destruct pushed; autorewrite with sums; rewrite ?length_app; cbn; lia.
  - destruct Hc. split; cbn; [|by destruct pushed..]. rewrite (unsettled_leave l1 (c, b, Pushed pushed)), <- E.
    rewrite unsettled_pushed.
    destruct pushed; cbn; rewrite ct_submitted0, ?u64_add_l, ?unsettled_refused; f_equal; [change (unsettled []) with 0|]; lia.
  - destruct Hc. split; cbn; try done. rewrite ct_submitted0, E. do 2 f_equal.
    pose proof (unsettled_leave l1 (c, b, Refused) [] l2) as H. cbn [app] in H. rewrite H. change (unsettled [_]) with 0.
    change (unsettled []) with 0. lia.
  - apply worker_take_inv in Hp as (sh & q & _ & -> & _). by destruct Hc.
  - apply worker_serve_inv in Hp as (sh & e & _ & _ & ->). by destruct Hc.
  - by apply account_counted.
Qed.

Lemma pstep_counted s s' : counted s -> pstep s s' -> counted s'.
Proof.
  intros Hc Hs. destruct Hs as [c b _|c b _|s' Hs|_|i _].
  - by destruct Hc.
  - destruct Hc. split; cbn; try done. rewrite ct_submitted0. do 2 f_equal.
    pose proof (unsettled_refused c b). unfold unsettled in *. autorewrite with sums. lia.
  - by eapply moves_counted.
  - by destruct Hc.
  - destruct (close_shard_counters (engine s) i) as (H1 & H2 & H3 & H4 & H5 & H6). destruct Hc.
    split; cbn; by rewrite ?H1, ?H2, ?H3, ?H4, ?H5, ?H6.
Qed.

Lemma preachable_counted n capacity depth limits p s :
  PartitionedEngine_new n capacity limits depth = Some p -> preachable p s -> counted s.
Proof.
  intros Hp. induction 1; [|by eapply pstep_counted].
  unfold PartitionedEngine_new in Hp. case_match; [done|]. apply bind_Some in Hp as (q & _ & [= <-]). split; try done. by exists [].
Qed.

(** * The run *)

Record Driver : Type := mkDriver {
  d_sys : System;
  d_todo : list (list (Symbol * Order.t));
  d_failed : bool
}.

Definition refused (ps : list (Command * bool * Stage)) : bool :=
  existsb (fun x => match x.2 with Pushed false => true | _ => false end) ps.

(** A producer thread starts its next [enqueue]; a thread inside [enqueue] or a
    worker goes on.  [shutdown] comes after the validation. *)
Inductive driver_step (d : Driver) : Driver -> Prop :=
| driver_issue k symbol order rest now :
    d_todo d !! k = Some ((symbol, order) :: rest) -> accepting_ (engine (d_sys d)) = true ->
    let s := d_sys d in
    driver_step d (mkDriver (mkSystem (engine s) ((new_command symbol order None now, true, Checked) :: producers s)
                               (workers s) (entered s) (served s) (accounted s))
                     (<[k := rest]> (d_todo d)) (d_failed d))
| driver_turned_away k symbol order rest :
    d_todo d !! k = Some ((symbol, order) :: rest) -> accepting_ (engine (d_sys d)) = false ->
    driver_step d (mkDriver (d_sys d) (<[k := []]> (d_todo d)) true)
| driver_thread s :
    moves (d_sys d) s ->
    driver_step d (mkDriver s (d_todo d) (d_failed d || refused (producers s))).

Inductive driver_reachable (p : PartitionedEngine) (plans : list (list (Symbol * Order.t))) : Driver -> Prop :=
| driver_start : driver_reachable p plans (mkDriver (mkSystem p [] ∅ [] [] []) plans false)
| driver_next d d' : driver_reachable p plans d -> driver_step d d' -> driver_reachable p plans d'.

(** ** Every order enters its queue *)

Definition ask_of (c : Command) : Symbol * Order.t := (cmd_symbol c, cmd_order c).
Definition in_flight (ps : list (Command * bool * Stage)) : list (Symbol * Order.t) :=
  omap (fun x => match x.2 with Checked | Counted => Some (ask_of x.1.1) | _ => None end) ps.
Definition queues_open (p : PartitionedEngine) : Prop :=
  Forall (fun sh => closed_ (shard_queue sh) = false /\ 0 < capacity_ (shard_queue sh)) (shards_ p).

Record driver_ok (plans : list (list (Symbol * Order.t))) (d : Driver) : Prop := {
  dr_accepting : accepting_ (engine (d_sys d)) = true;
  dr_open : queues_open (engine (d_sys d));
  dr_producers : Forall (fun x : Command * bool * Stage =>
    x.1.2 = true /\ x.2 <> Pushed false /\ x.2 <> Refused /\ cmd_type x.1.1 = NEW_ORDER) (producers (d_sys d));
  dr_entered : Forall (fun c => cmd_type c = NEW_ORDER) (entered (d_sys d));
  dr_failed : d_failed d = false;
  dr_all : (ask_of <$> entered (d_sys d)) ++ in_flight (producers (d_sys d)) ++ concat (d_todo d) ≡ₚ concat plans
}.

Lemma open_insert p i sh :
  queues_open p -> closed_ (shard_queue sh) = false -> 0 < capacity_ (shard_queue sh) ->
  queues_open (with_shards p (<[i := sh]> (shards_ p))).
Proof. intros Ho Hsh Hcap. unfold queues_open in *. cbn. by apply Forall_insert. Qed.

Lemma push_open p c ok p' :
  queues_open p -> queue_push p c true = Ok (Some (ok, p')) -> ok = true /\ queues_open p'.
Proof.
  intros Ho. unfold queue_push. intros (sh & Hsh & Hp)%bind_Ok. destruct (shards_ p !! _) as [sh'|] eqn:E; [|done].
  injection Hsh as ->. injection Hp as ([ok' q] & Hq & [= -> <-])%bind_Some.
  destruct (Forall_lookup_1 _ _ _ _ Ho E) as [Hopen Hcap].
  pose proof (push_cases (shard_queue sh) c) as Hc. rewrite Hq in Hc. destruct ok.
  - destruct Hc as (Hc & _ & ->). split; [done|]. by apply open_insert.
  - destruct Hc as [Hc _]. congruence.
Qed.

Lemma concat_insert_perm {A} (l : list (list A)) k x rest :
  l !! k = Some (x :: rest) -> concat l ≡ₚ x :: concat (<[k := rest]> l).
Proof.
  revert k. induction l as [|a l IH]; intros k; [done|]. destruct k as [|k]; cbn; [by intros [= ->]|].
  intros Hk. rewrite (IH k Hk). symmetry. apply Permutation_middle.
Qed.

Lemma concat_nil {A} (l : list (list A)) : Forall (eq []) l -> concat l = [].
Proof. induction 1 as [|x l <- _ IH]; [done|exact IH]. Qed.

Lemma no_refusal ps :
  Forall (fun x : Command * bool * Stage => x.1.2 = true /\ x.2 <> Pushed false /\ x.2 <> Refused /\ cmd_type x.1.1 = NEW_ORDER) ps ->
  refused ps = false.
Proof.
  intros Hf. apply not_true_iff_false. unfold refused. rewrite existsb_exists. intros (x & Hx & Hst).
  rewrite Forall_forall in Hf. destruct (Hf x) as (_ & Hn & _); [by apply list_elem_of_In|].
  by destruct x as [[c b] [| |[]|]].
Qed.

Lemma take_open p i c p' : queues_open p -> worker_take p i = Ok (Some (c, p')) -> queues_open p'.
Proof.
  intros Ho. unfold worker_take. intros (sh & Hsh & Hp)%bind_Ok. destruct (shards_ p !! i) as [sh'|] eqn:E; [|done].
  injection Hsh as ->. pose proof (pop_cases (shard_queue sh)) as Hc.
  destruct (pop _) as [[[x|] q]|]; [|done..]. injection Hp as <- <-. destruct Hc as [_ ->].
  by destruct (Forall_lookup_1 _ _ _ _ Ho E); apply open_insert.
Qed.

Lemma serve_open p i c r p' : queues_open p -> worker_serve p i c = Ok (r, p') -> queues_open p'.
Proof.
  intros Ho (sh & e & Hsh & _ & ->)%worker_serve_inv. by destruct (Forall_lookup_1 _ _ _ _ Ho Hsh); apply open_insert.
Qed.

Lemma in_flight_middle l1 x l2 : in_flight (l1 ++ x :: l2) ≡ₚ in_flight [x] ++ in_flight (l1 ++ l2).
Proof.
  unfold in_flight. rewrite !omap_app. cbn [omap list_omap]. destruct (match x.2 with Checked | Counted => _ | _ => _ end).
  - cbn. symmetry. apply Permutation_middle.
  - done.
Qed.

Lemma moves_accepting s s' : moves s s' -> accepting_ (engine s') = accepting_ (engine s).
Proof.
  destruct 1 as [|l1 c b l2 p pushed E Hq|l1 c b []| |i c p _ Hq|i c r p _ Hq|]; try done; cbn.
  - by apply queue_push_inv in Hq as (sh & q & _ & -> & _).
  - by apply worker_take_inv in Hq as (sh & q & _ & -> & _).
  - by apply worker_serve_inv in Hq as (sh & e & _ & _ & ->).
Qed.

Lemma thread_ok plans d s :
  driver_ok plans d -> moves (d_sys d) s -> driver_ok plans (mkDriver s (d_todo d) false).
Proof.
  intros [Ha Ho Hp He Hf Hall] Hs. pose proof (moves_accepting _ _ Hs) as Hacc. rewrite Ha in Hacc.
  destruct Hs as [l1 c b l2 E|l1 c b l2 p pushed E Hq|l1 c b pushed l2 E|l1 c b k l2 E _|i c p _ Hq|i c r p _ Hq
    |i c r now _ _]; try (rewrite E, Forall_app, Forall_cons in Hp; destruct Hp as (Hp1 & (Hb & Hn & Hr & Ht) & Hp2)).
  - split; cbn; try done; [rewrite Forall_app, Forall_cons; by split_and!|].
    rewrite <- Hall, E, !in_flight_middle. done.
  - cbn in Hb. subst b. destruct (push_open _ _ _ _ Ho Hq) as [-> Ho'].
    split; cbn; try done; [rewrite Forall_app, Forall_cons; by split_and!|by rewrite Forall_app, Forall_singleton|].
    rewrite <- Hall, E, !in_flight_middle, fmap_app, <- app_assoc. done.
  - cbn in Hn. destruct pushed; [|done]. split; cbn; try done; [by rewrite Forall_app|].
    rewrite <- Hall, E, in_flight_middle. done.
  - done.
  - split; cbn; try done. by eapply take_open.
  - split; cbn; try done. by eapply serve_open.
  - by split.
Qed.

Lemma driver_step_ok plans d d' : driver_ok plans d -> driver_step d d' -> driver_ok plans d'.
Proof.
  intros Hd Hs. destruct Hs as [k symbol order rest now Hk _|k symbol order rest Hk Ha|s Hs].
  - destruct Hd as [Ha Ho Hp He Hf Hall]. split; cbn; try done; [by constructor|].
    rewrite <- Hall, (concat_insert_perm _ _ _ _ Hk). apply Permutation_app_head, (Permutation_middle (in_flight _)).
  - destruct Hd. congruence.
  - pose proof (thread_ok _ _ _ Hd Hs) as Hok.
    pose proof (no_refusal _ (dr_producers _ _ Hok)) as Hn. cbn in Hn. by rewrite (dr_failed _ _ Hd), Hn.
Qed.

Lemma driver_preachable p plans d : driver_reachable p plans d -> preachable p (d_sys d).
Proof.
  induction 1 as [|d d' _ IH Hs]; [constructor|]. destruct Hs as [k symbol order rest now Hk Ha| |s Hs]; cbn.
  - eapply preachable_step; [exact IH|]. by apply check_accepting.
  - exact IH.
  - by eapply preachable_step, thread_moves.
Qed.

Lemma driver_reachable_ok n capacity limits depth p plans d :
  PartitionedEngine_new n capacity limits depth = Some p -> 0 <= capacity -> driver_reachable p plans d -> driver_ok plans d.
Proof.
  intros Hp Hcap. induction 1 as [|d d' _ IH Hs]; [|by eapply driver_step_ok].
  unfold PartitionedEngine_new in Hp. case_match; [done|].
  apply bind_Some in Hp as (q & Hq & [= <-]). unfold MPMCQueue_new in Hq.
  destruct (Z.eqb_spec capacity 0); [done|]. injection Hq as <-.
  split; cbn; try done. apply Forall_replicate. split; [done|cbn; lia].
Qed.

Lemma entered_in_range plans d :
  driver_ok plans d -> Forall (fun x => Order.in_range x.2) (concat plans) ->
  Forall (fun c => command_in_range (as_engine_command c)) (entered (d_sys d)).
Proof.
  intros Hd Hp. rewrite <- (dr_all _ _ Hd), Forall_app, Forall_fmap in Hp. destruct Hp as [Hp _].
  pose proof (dr_entered _ _ Hd) as Ht. rewrite Forall_forall in Hp, Ht |- *.
  intros c Hc. unfold as_engine_command. rewrite (Ht c Hc). apply (Hp c Hc).
Qed.

Lemma served_at_most n capacity limits depth p s :
  PartitionedEngine_new n capacity limits depth = Some p -> preachable p s ->
  (length (served s) <= length (entered s))%nat.
Proof.
  intros Hp Hs. pose proof (preachable_ok _ _ _ _ _ _ Hp Hs) as Hok.
  rewrite <- (length_fmap fst (served s)). apply (class_total_le (shard_of n)).
  intros i. rewrite (sys_fifo _ _ _ Hok), !length_app. lia.
Qed.

Lemma accepted_or_rejected l :
  count_results ExecutionReport.accepted l + count_results (negb ∘ ExecutionReport.accepted) l = Z.of_nat (length l).
Proof.
  unfold count_results. induction l as [|x l IH]; [done|]. autorewrite with sums. cbn [length]. unfold compose in *.
  destruct (ExecutionReport.accepted (res_report x.2)); cbn; lia.
Qed.

(** * Every run comes to its end *)

(** What is still to be done: per order not yet issued, per producer inside [enqueue],
    per queued command and per command in a worker's hands. *)
Definition stage_weight (st : Stage) : Z := 
  match st with Checked => 8 | Counted => 7 | Pushed _ => 2 | Refused => 1 end.
Definition hand_weight (h : Hand) : Z := match h with Took _ => 2 | Served _ _ => 1 end.
Definition queued_weight (p : PartitionedEngine) : Z :=
  sum (fun sh => 3 * mpmc_size (shard_queue sh)) (shards_ p).
Definition hands_weight (ws : gmap nat Hand) : Z := sum (fun x => hand_weight x.2) (map_to_list ws).
Definition system_weight (s : System) : Z :=
  sum (fun x => stage_weight x.2) (producers s) + queued_weight (engine s) + hands_weight (workers s).
Definition driver_weight (d : Driver) : Z :=
  9 * Z.of_nat (length (concat (d_todo d))) + system_weight (d_sys d).

Lemma hands_insert ws i h : ws !! i = None -> hands_weight (<[i := h]> ws) = hands_weight ws + hand_weight h.
Proof.
  intros Hi. unfold hands_weight. rewrite (sum_perm _ _ _ (map_to_list_insert ws i h Hi)), sum_cons. cbn. lia.
Qed.

Lemma hands_delete ws i h : ws !! i = Some h -> hands_weight (delete i ws) = hands_weight ws - hand_weight h.
Proof.
  intros Hi. rewrite <- (insert_delete_id ws i h Hi) at 2. rewrite hands_insert by apply lookup_delete_eq. lia.
Qed.

Lemma hands_update ws i h h' :
  ws !! i = Some h -> hands_weight (<[i := h']> ws) = hands_weight ws - hand_weight h + hand_weight h'.
Proof.
  intros Hi. rewrite <- insert_delete_eq, hands_insert by apply lookup_delete_eq. by rewrite (hands_delete _ _ h Hi).
Qed.

Lemma queued_insert p i sh sh' :
  shards_ p !! i = Some sh ->
  queued_weight (with_shards p (<[i := sh']> (shards_ p)))
  = queued_weight p - 3 * mpmc_size (shard_queue sh) + 3 * mpmc_size (shard_queue sh').
Proof. intros Hi. unfold queued_weight. cbn. by rewrite (sum_insert _ _ _ _ _ Hi). Qed.

(** Every step of a thread reduces it. *)
Lemma moves_weight s s' : moves s s' -> system_weight s' < system_weight s.
Proof.
  unfold system_weight.
  destruct 1 as [l1 c b l2 E|l1 c b l2 p pushed E Hq|l1 c b pushed l2 E|l1 c b k l2 E _|i c p Hw Hq|i c r p Hw Hq
    |i c r now Hw _]; cbn [producers engine workers] in *.
  - rewrite E. autorewrite with sums. unfold queued_weight. cbn. lia.
  - apply queue_push_inv in Hq as (sh & q & Hsh & -> & Hb). rewrite E, (queued_insert _ _ _ _ Hsh).
    unfold mpmc_size. cbn [shard_queue]. rewrite Hb, length_app. autorewrite with sums. destruct pushed; cbn; lia.
  - rewrite E. unfold refused_call, queued_weight.
    destruct pushed; [|destruct (cmd_completion c)]; autorewrite with sums; cbn; lia.
  - rewrite E. autorewrite with sums. unfold queued_weight. cbn. lia.
  - apply worker_take_inv in Hq as (sh & q & Hsh & -> & Hb). rewrite (queued_insert _ _ _ _ Hsh), hands_insert by done.
    unfold mpmc_size. cbn [shard_queue]. rewrite Hb. cbn [length hand_weight]. lia.
  - apply worker_serve_inv in Hq as (sh & e & Hsh & _ & ->).
    rewrite (queued_insert _ _ _ _ Hsh), (hands_update _ _ _ _ Hw). cbn [shard_queue hand_weight]. lia.
  - rewrite (hands_delete _ _ _ Hw). unfold queued_weight. cbn. lia.
Qed.

Lemma system_weight_nonneg s : 0 <= system_weight s.
Proof.
  unfold system_weight, queued_weight, hands_weight.
  assert (0 <= sum (fun x => stage_weight x.2) (producers s)).
  { apply sum_nonneg, Forall_true. intros [[c b] st]. by destruct st. }
  assert (0 <= sum (fun sh => 3 * mpmc_size (shard_queue sh)) (shards_ (engine s))).
  { apply sum_nonneg, Forall_true. intros sh. unfold mpmc_size. lia. }
  assert (0 <= sum (fun x => hand_weight x.2) (map_to_list (workers s))); [|lia].
  apply sum_nonneg, Forall_true. intros [i h]. by destruct h.
Qed.

Lemma driver_step_weight plans d d' :
  driver_ok plans d -> driver_step d d' -> driver_ok plans d' /\ driver_weight d' < driver_weight d.
Proof.
  intros Hd Hs. split; [by eapply driver_step_ok|]. pose proof (dr_accepting _ _ Hd) as Ha.
  destruct Hs as [k symbol order rest now Hk _|k symbol order rest Hk Hn|s Hs]; unfold driver_weight; cbn [d_todo d_sys].
  - apply concat_insert_perm, Permutation_length in Hk. subst s. cbn [length] in Hk. unfold system_weight.
    cbn [producers engine workers]. autorewrite with sums. cbn [snd stage_weight]. lia.
  - congruence.
  - pose proof (moves_weight _ _ Hs). lia.
Qed.

(** A worker with a command in its hands or in its queue goes on, alone. *)
Lemma worker_moves n capacity limits depth p s i :
  PartitionedEngine_new n capacity limits depth = Some p -> preachable p s -> 0 <= n -> RiskLimits.in_range limits ->
  Forall (fun c => command_in_range (as_engine_command c)) (entered s) ->
  Z.of_nat (length (entered s)) < max_resting -> (i < Z.to_nat n)%nat ->
  queued_at (engine s) i <> [] \/ workers s !! i <> None ->
  exists s', moves s s' /\ forall j, j <> i -> workers s' !! j = workers s !! j.
Proof.
  intros Hnew Hs Hn Hlimits Hrange Hlt Hi Hbusy. pose proof (preachable_ok _ _ _ _ _ _ Hnew Hs) as Hsys.
  destruct (workers s !! i) as [[c|c r]|] eqn:Hw.
  - pose proof (served_at_most _ _ _ _ _ _ Hnew Hs) as Hle.
    destruct (took_served _ _ _ _ _ _ Hnew Hs i c) as (r & p' & Hr); [done..|lia|done|].
    eexists. split; [by eapply serve_command|]. intros j Hj. by apply lookup_insert_ne.
  - eexists. split; [by eapply (account_command _ i c r (cmd_enqueued_at c)); [done|rewrite Z.sub_diag]|].
    intros j Hj. by apply lookup_delete_ne.
  - destruct Hbusy as [Hq|Hq]; [|done].
    destruct (lookup_lt_is_Some_2 (shards_ (engine s)) i) as [sh Hsh]; [by rewrite (sys_length _ _ _ Hsys)|].
    assert (exists c p', worker_take (engine s) i = Ok (Some (c, p'))) as (c & p' & Ht).
    { unfold worker_take, queued_at in *. rewrite Hsh in *. cbn in *. pose proof (pop_cases (shard_queue sh)) as Hc.
      destruct (pop (shard_queue sh)) as [[[x|] q]|]; [by eauto|by destruct Hc as (_ & ? & _)|by destruct Hc]. }
    eexists. split; [by eapply take_command|]. intros j Hj. by apply lookup_insert_ne.
Qed.

(** The run is over: every producer has returned and [waitUntilIdle] sees nothing pending. *)
Definition drained (d : Driver) : Prop :=
  Forall (eq []) (d_todo d) /\ producers (d_sys d) = [] /\ pending_ (engine (d_sys d)) = 0.

Section drain.
Context (n capacity depth : Z) (limits : RiskLimits.t) (p : PartitionedEngine) (plans : list (list (Symbol * Order.t))).
Hypothesis (Hnew : PartitionedEngine_new n capacity limits depth = Some p).
Hypothesis (Hn : 0 <= n) (Hcap : 0 <= capacity) (Hlimits : RiskLimits.in_range limits).
Hypothesis (Horders : Forall (fun x => Order.in_range x.2) (concat plans)).
Hypothesis (Hfew : Z.of_nat (length (concat plans)) < max_resting).

Definition thread_can_go (d : Driver) : Prop := exists s, moves (d_sys d) s.

Lemma entered_few d : driver_reachable p plans d -> Z.of_nat (length (entered (d_sys d))) < max_resting.
Proof using Hnew Hcap Hfew.
  intros Hd. pose proof (Permutation_length (dr_all _ _ (driver_reachable_ok _ _ _ _ _ _ _ Hnew Hcap Hd))) as Hl.
  rewrite !length_app, length_fmap in Hl. lia.
Qed.

(** A worker with a command in its hands or in its queue. *)
Lemma worker_goes d i :
  driver_reachable p plans d -> (i < Z.to_nat n)%nat ->
  queued_at (engine (d_sys d)) i <> [] \/ workers (d_sys d) !! i <> None -> thread_can_go d.
Proof using Hnew Hcap Hfew Hn Hlimits Horders.
  intros Hd Hi Hbusy. pose proof (driver_preachable _ _ _ Hd) as Hs. pose proof (entered_few d Hd) as Hlt.
  pose proof (driver_reachable_ok _ _ _ _ _ _ _ Hnew Hcap Hd) as Hok.
  destruct (worker_moves _ _ _ _ _ _ i Hnew Hs) as (s' & Hm & _); [done|done|by eapply entered_in_range|done..|].
  by exists s'.
Qed.

(** A producer goes on, unless its queue is full: then the worker of the queue does. *)
Lemma producer_goes d : driver_reachable p plans d -> producers (d_sys d) <> [] -> thread_can_go d.
Proof using Hnew Hcap Hfew Hn Hlimits Horders.
  intros Hd Hne. destruct (producers (d_sys d)) as [|[[c b] st] l] eqn:E; [done|].
  pose proof (driver_preachable _ _ _ Hd) as Hs. pose proof (preachable_ok _ _ _ _ _ _ Hnew Hs) as Hsys.
  pose proof (driver_reachable_ok _ _ _ _ _ _ _ Hnew Hcap Hd) as Hok. destruct st as [| |ok|].
  - eexists. by apply (count_command _ [] c b l).
  - destruct (shard_exists _ _ _ _ _ _ Hnew Hs (cmd_symbol c) Hn) as [sh Hsh].
    pose proof (dr_producers _ _ Hok) as Hp. rewrite E in Hp. apply Forall_cons in Hp as [(Hb & _) _]. cbn in Hb. subst b.
    destruct (Forall_lookup_1 _ _ _ _ (dr_open _ _ Hok) Hsh) as [Hopen Hpos].
    pose proof (push_cases (shard_queue sh) c) as Hc. destruct (push (shard_queue sh) c) as [[[] q]|] eqn:Hq.
    + assert (exists p', queue_push (engine (d_sys d)) c true = Ok (Some (true, p'))) as [p' Hp'].
      { unfold queue_push. rewrite (sys_count _ _ _ Hsys), Hsh. cbn. rewrite Hq. by eexists. }
      eexists. by apply (push_command _ [] c true l p' true).
    + destruct Hc. congruence.
    + apply (worker_goes d (shardIndex n (cmd_symbol c))); [done| |left].
      * apply lookup_lt_Some in Hsh. by rewrite (sys_length _ _ _ Hsys) in Hsh.
      * unfold queued_at. rewrite Hsh. cbn. destruct Hc as [_ Hc]. unfold mpmc_size in Hc.
        destruct (buffer_ (shard_queue sh)); [cbn in Hc; lia|done].
  - eexists. by apply (settle_command _ [] c b ok l).
  - pose proof (dr_producers _ _ Hok) as Hp. rewrite E in Hp. by apply Forall_cons in Hp as [(_ & _ & ? & _) _].
Qed.
(** With the producers gone, what is pending is with some worker. *)
Lemma pending_goes d :
  driver_reachable p plans d -> producers (d_sys d) = [] -> pending_ (engine (d_sys d)) <> 0 -> thread_can_go d.
Proof using Hnew Hcap Hfew Hn Hlimits Horders.
  intros Hd Hp Hne. pose proof (driver_preachable _ _ _ Hd) as Hs. pose proof (preachable_ok _ _ _ _ _ _ Hnew Hs) as Hsys.
  destruct (decide (Forall (fun i => queued_at (engine (d_sys d)) i = [] /\ workers (d_sys d) !! i = None)
    (seq 0 (Z.to_nat n)))) as [Hidle|Hbusy].
  - exfalso. apply Hne. rewrite (sys_pending _ _ _ Hsys), Hp. change (outside []) with 0.
    assert (length (entered (d_sys d)) = length (accounted (d_sys d)).*1) as ->;
      [|rewrite length_fmap; replace (_ + _ - _) with 0 by lia; done].
    apply Nat.le_antisymm; apply (class_total_le (shard_of n)); intros i; [|by eapply accounted_le].
    rewrite (entered_split _ _ _ _ _ _ Hnew Hs). destruct (decide (i < Z.to_nat n)%nat) as [Hi|Hi].
    + rewrite Forall_forall in Hidle. destruct (Hidle i) as [Hq Hw]; [apply elem_of_seq; lia|].
      unfold served_by, taken_by. rewrite Hw, Hq, !app_nil_r. done.
    + rewrite <- (entered_split _ _ _ _ _ _ Hnew Hs).
      assert (class (shard_of n) i (entered (d_sys d)) = []) as ->; [|cbn; lia].
      apply filter_none, Forall_true. intros c Hc. apply Hi. rewrite <- Hc. unfold shard_of.
      destruct (shard_exists _ _ _ _ _ _ Hnew Hs (cmd_symbol c) Hn) as [sh Hsh%lookup_lt_Some].
      by rewrite (sys_length _ _ _ Hsys) in Hsh.
  - apply not_Forall_Exists, Exists_exists in Hbusy as (i & Hi%elem_of_seq & Hb); [|intros i; exact _].
    apply (worker_goes d i); [done|lia|]. destruct (decide (queued_at (engine (d_sys d)) i = [])); [right; intros Hw; by apply Hb|by left].
Qed.

Lemma driver_progress d : driver_reachable p plans d -> drained d \/ exists d', driver_step d d'.
Proof using Hnew Hcap Hfew Hn Hlimits Horders.
  intros Hd. pose proof (driver_reachable_ok _ _ _ _ _ _ _ Hnew Hcap Hd) as Hok.
  assert (thread_can_go d -> exists d', driver_step d d') as Hgo.
  { intros (s & H). eexists. by apply driver_thread. }
  destruct (decide (Forall (eq []) (d_todo d))) as [Ht|Ht].
  - destruct (decide (producers (d_sys d) = [])) as [Hp|Hp]; [|right; by apply Hgo, producer_goes].
    destruct (decide (pending_ (engine (d_sys d)) = 0)) as [Hz|Hz]; [by left|right; by apply Hgo, pending_goes].
  - right. apply not_Forall_Exists, Exists_exists in Ht as (l & [k Hk]%list_elem_of_lookup & Hl); [|intros l; exact _].
    destruct l as [|[symbol order] rest]; [done|]. eexists.
    apply (driver_issue d k symbol order rest 0); [done|apply (dr_accepting _ _ Hok)].
Qed.

Lemma driver_drains :
  inevitably driver_step (fun d => drained d /\ driver_reachable p plans d) (mkDriver (mkSystem p [] ∅ [] [] []) plans false).
Proof using Hnew Hcap Hfew Hn Hlimits Horders.
  apply (inevitably_measure _ _ (driver_reachable p plans) (fun d => Z.to_nat (driver_weight d))).
  - intros d d' Hd Hs. split; [by eapply driver_next|].
    pose proof (driver_reachable_ok _ _ _ _ _ _ _ Hnew Hcap Hd) as Hok.
    destruct (driver_step_weight _ _ _ Hok Hs) as [_ Hw]. pose proof (system_weight_nonneg (d_sys d')).
    unfold driver_weight in *. lia.
  - intros d Hd. destruct (driver_progress d Hd) as [Hz|Hz]; [by left|by right].
  - constructor.
Qed.

(** What the validation at the end finds. *)
Record passes (total : Z) (d : Driver) : Prop := {
  ps_failed : d_failed d = false;
  ps_submitted : st_submitted (partitioned_stats (engine (d_sys d))) = total;
  ps_processed : st_processed (partitioned_stats (engine (d_sys d))) = total;
  ps_latency : total <> 0 -> exists latency, st_latency (partitioned_stats (engine (d_sys d))) = Ok latency
    /\ lat_count latency = total;
  ps_pending : st_pending (partitioned_stats (engine (d_sys d))) = 0;
  ps_answered : st_accepted (partitioned_stats (engine (d_sys d)))
    + st_rejected (partitioned_stats (engine (d_sys d))) = total;
  ps_entered : ask_of <$> entered (d_sys d) ≡ₚ concat plans;
  ps_snapshot symbol : exists snapshot, partitioned_snapshot (engine (d_sys d)) symbol = Ok snapshot;
  ps_valid symbol : partitioned_validate (engine (d_sys d)) symbol = Ok true
}.

Lemma drained_passes d :
  drained d -> driver_reachable p plans d -> passes (Z.of_nat (length (concat plans))) d.
Proof using Hnew Hcap Hfew Hn Hlimits Horders.
  intros (Htodo & Hprods & Hidle) Hd. pose proof (driver_preachable _ _ _ Hd) as Hs.
  pose proof (driver_reachable_ok _ _ _ _ _ _ _ Hnew Hcap Hd) as Hok.
  pose proof (dr_all _ _ Hok) as Hall. rewrite Hprods in Hall. cbn [in_flight omap list_omap app] in Hall.
  rewrite (concat_nil _ Htodo), app_nil_r in Hall. pose proof (Permutation_length Hall) as Hlen. rewrite length_fmap in Hlen.
  unfold max_resting in *. pose proof (idle_all_accounted _ _ _ _ _ _ Hnew Hs) as Hacc. rewrite Hprods in Hacc.
  specialize (Hacc ltac:(cbn; lia) Hidle). rewrite length_fmap in Hacc.
  pose proof (served_at_most _ _ _ _ _ _ Hnew Hs) as Hserved.
  pose proof (preachable_counted _ _ _ _ _ _ Hnew Hs) as [Hsub Hpro Hac Hrj _ (xs & Hlat & Hxs & Hl)].
  rewrite Hprods in Hsub. change (unsettled []) with 0 in Hsub. rewrite Z.sub_0_r, Hlen, u64_small in Hsub by range.
  rewrite <- Hacc, Hlen, u64_small in Hpro by range.
  pose proof (accepted_or_rejected (accounted (d_sys d))) as Hsum. rewrite <- Hacc, Hlen in Hsum.
  assert (forall f, 0 <= count_results f (accounted (d_sys d))) as Hpos.
  { intros f. apply sum_nonneg, Forall_true. intros x. by destruct (f _). }
  pose proof (Hpos ExecutionReport.accepted). pose proof (Hpos (negb ∘ ExecutionReport.accepted)).
  rewrite u64_small in Hac, Hrj by range. split; cbn; try done; try lia.
  - by destruct Hok.
  - intros Hne. rewrite Hlat. destruct (snapshot_ok xs Hxs) as (latency & -> & Hc & _); [lia|]. exists latency. split; [done|lia].
  - intros symbol. unfold partitioned_snapshot. rewrite (sys_count _ _ _ (preachable_ok _ _ _ _ _ _ Hnew Hs)).
    destruct (shard_exists _ _ _ _ _ _ Hnew Hs symbol Hn) as [sh ->]. cbn. by eexists.
  - intros symbol. apply (symbol_validates _ _ _ _ _ _ Hnew Hs symbol); try done; [by eapply entered_in_range|].
    unfold max_resting. lia.
Qed.
(** Then no thread has anything left to do. *)
Lemma drained_stuck d d' : drained d -> driver_reachable p plans d -> ~ driver_step d d'.
Proof using Hnew Hcap Hfew.
  intros (Htodo & Hprods & Hidle) Hd Hstep. pose proof (driver_preachable _ _ _ Hd) as Hs.
  destruct (driver_step_weight _ _ _ (driver_reachable_ok _ _ _ _ _ _ _ Hnew Hcap Hd) Hstep) as [_ Hw].
  pose proof (entered_few d Hd) as Hlt. unfold max_resting in Hlt.
  destruct (idle_means_drained _ _ _ _ _ _ Hnew Hs) as [He _]; [rewrite Hprods; cbn; lia|done|].
  assert (driver_weight d = 0) as H0; [|pose proof (system_weight_nonneg (d_sys d')); unfold driver_weight in *; lia].
  unfold driver_weight, system_weight. rewrite Hprods, (concat_nil _ Htodo).
  assert (workers (d_sys d) = ∅) as ->.
  { apply map_empty. intros i. destruct (He i) as (_ & Ht & Hv & _). unfold taken_by, served_by in *.
    by destruct (workers (d_sys d) !! i) as [[]|]. }
  assert (queued_weight (engine (d_sys d)) = 0) as ->; [|done].
  unfold queued_weight. apply sum_zero, Forall_lookup. intros i sh Hsh. destruct (He i) as (Hq & _).
  unfold queued_at in Hq. rewrite Hsh in Hq. cbn in Hq. unfold mpmc_size. by rewrite Hq.
Qed.
End drain.
