(* ===== verification/PartitionedFutures.v ===== *)
(** The futures of [submit] and [cancel] and the end of [shutdown], with every thread
    of the partitioned engine running: clients in any of the five ingress calls,
    the workers, and the thread that shuts the engine down.

    A promise is set by the worker that served its command or, by the client itself,
    with a rejection when [enqueueCommand] returned false; [set_value] on a promise
    that has its value throws.  [shutdown] closes the queues one after the other and
    joins the workers, each of which leaves its loop when [pop] returns false. *)

From S2P Require Import Prelude.
From S2P Require Import OrderTypes.
From S2P Require Import OrderBook.
From S2P Require Import BookQueries.
From S2P Require Import Risk.
From S2P Require Import MatchingEngine.
From S2P Require Import Market.
From S2P Require Import Refinement.
From S2P Require Import Session.
From S2P Require Import EngineProps.
From S2P Require Import Symbols.
From S2P Require Import Mpmc.
From S2P Require Import Partitioned.
From S2P Require Import PartitionedProps.
From S2P Require Import IngressDriver.

#[local] Open Scope Z_scope.

(** * The threads *)

(** Where [shutdown] is: the queues still to close, the workers still to join. *)
Inductive Shutdown : Type := NotCalled | Closing (queues : list nat) | Joining (threads : list nat) | Finished.

(** [w_calls]: the calls clients have still to make; [w_exited]: the workers whose loop
    has ended. *)
Record World : Type := mkWorld {
  w_sys : System;
  w_calls : list (Command * bool);
  w_shutdown : Shutdown;
  w_exited : list nat
}.

(** [pop] on the queue of shard [i] returns false. *)
Definition loop_ends (p : PartitionedEngine) (i : nat) : bool :=
  match shards_ p !! i with
  | Some sh => match pop (shard_queue sh) with Some (None, _) => true | _ => false end
  | None => false
  end.

Definition shard_indices (p : PartitionedEngine) : list nat := seq 0 (length (shards_ p)).

Definition with_engine (s : System) (p : PartitionedEngine) (ps : list (Command * bool * Stage)) : System :=
  mkSystem p ps (workers s) (entered s) (served s) (accounted s).

(** A client makes a call, a thread inside the engine goes on (a worker that has left
    its loop takes no command), a worker leaves its loop, [shutdown] goes on. *)
Inductive world_step (w : World) : World -> Prop :=
| call_starts l1 c blocking l2 :
    w_calls w = l1 ++ (c, blocking) :: l2 -> accepting_ (engine (w_sys w)) = true ->
    let s := w_sys w in
    world_step w (mkWorld (with_engine s (engine s) ((c, blocking, Checked) :: producers s)) (l1 ++ l2)
                    (w_shutdown w) (w_exited w))
| call_turned_away l1 c blocking l2 :
    w_calls w = l1 ++ (c, blocking) :: l2 -> accepting_ (engine (w_sys w)) = false ->
    let s := w_sys w in
    world_step w (mkWorld (with_engine s (engine s) (refused_call c blocking ++ producers s)) (l1 ++ l2)
                    (w_shutdown w) (w_exited w))
| thread_goes s :
    moves (w_sys w) s -> Forall (fun i => workers s !! i = None) (w_exited w) ->
    world_step w (mkWorld s (w_calls w) (w_shutdown w) (w_exited w))
| worker_exits i :
    i ∉ w_exited w -> workers (w_sys w) !! i = None -> loop_ends (engine (w_sys w)) i = true ->
    world_step w (mkWorld (w_sys w) (w_calls w) (w_shutdown w) (i :: w_exited w))
| shutdown_begins :
    accepting_ (engine (w_sys w)) = true ->
    let s := w_sys w in
    world_step w (mkWorld (with_engine s (with_accepting (engine s) false) (producers s)) (w_calls w)
                    (Closing (shard_indices (engine s))) (w_exited w))
| queue_closes i queues :
    w_shutdown w = Closing (i :: queues) ->
    let s := w_sys w in
    world_step w (mkWorld (with_engine s (close_shard (engine s) i) (producers s)) (w_calls w)
                    (Closing queues) (w_exited w))
| joining_begins :
    w_shutdown w = Closing [] ->
    world_step w (mkWorld (w_sys w) (w_calls w) (Joining (shard_indices (engine (w_sys w)))) (w_exited w))
| worker_joins i threads :
    w_shutdown w = Joining (i :: threads) -> i ∈ w_exited w ->
    world_step w (mkWorld (w_sys w) (w_calls w) (Joining threads) (w_exited w))
| shutdown_returns :
    w_shutdown w = Joining [] ->
    world_step w (mkWorld (w_sys w) (w_calls w) Finished (w_exited w)).

Definition world_new (p : PartitionedEngine) (calls : list (Command * bool)) : World :=
  mkWorld (mkSystem p [] ∅ [] [] []) calls NotCalled [].

Inductive world_reachable (p : PartitionedEngine) (calls : list (Command * bool)) : World -> Prop :=
| world_start : world_reachable p calls (world_new p calls)
| world_next w w' : world_reachable p calls w -> world_step w w' -> world_reachable p calls w'.

(** What [completeRejected] sets for a call. *)
Definition shutting_down (c : Command) : PartitionedCommandResult :=
  mkResult (ExecutionReport.mk (Order.id (cmd_order c)) 0 (cmd_type c) REJECTED ENGINE_SHUTTING_DOWN 0 0 0 0 0) [].

(** * Queues keep their state *)

(** What a thread does to a queue: it does not close it, nor put anything into a closed
    one. *)
Definition queue_kept (sh sh' : Shard) : Prop :=
  closed_ (shard_queue sh') = closed_ (shard_queue sh)
  /\ capacity_ (shard_queue sh') = capacity_ (shard_queue sh)
  /\ (closed_ (shard_queue sh) = true -> buffer_ (shard_queue sh) = [] -> buffer_ (shard_queue sh') = []).

Lemma queue_kept_same sh sh' : shard_queue sh' = shard_queue sh -> queue_kept sh sh'.
Proof. intros E. unfold queue_kept. by rewrite E. Qed.

Lemma kept_insert shs i sh sh' :
  shs !! i = Some sh -> queue_kept sh sh' -> Forall2 queue_kept shs (<[i := sh']> shs).
Proof.
  intros Hi Hk. rewrite <- (list_insert_id shs i sh Hi) at 1. apply Forall2_insert; [|done].
  apply Forall_Forall2_diag, Forall_true. intros sh0. by apply queue_kept_same.
Qed.

Lemma push_kept p c blocking ok p' :
  queue_push p c blocking = Ok (Some (ok, p')) -> Forall2 queue_kept (shards_ p) (shards_ p').
Proof.
  unfold queue_push. intros (sh & Hsh & H)%bind_Ok. destruct (shards_ p !! _) as [sh'|] eqn:E; [|done].
  injection Hsh as ->. injection H as ([ok' q] & Hq & [= -> <-])%bind_Some. apply (kept_insert _ _ _ _ E).
  destruct blocking.
  - pose proof (push_cases (shard_queue sh) c) as Hc. rewrite Hq in Hc. destruct ok.
    + destruct Hc as (Ho & _ & ->). split_and!; [done..|]. cbn. congruence.
    + destruct Hc as (_ & ->). by apply queue_kept_same.
  - injection Hq as Hq. unfold try_push in Hq. destruct (closed_ (shard_queue sh)) eqn:Ec; cbn in Hq.
    + injection Hq as <- <-. by apply queue_kept_same.
    + case_match; injection Hq as <- <-; [by apply queue_kept_same|]. split_and!; [done..|]. cbn. congruence.
Qed.

Lemma take_kept p i c p' :
  worker_take p i = Ok (Some (c, p')) -> Forall2 queue_kept (shards_ p) (shards_ p').
Proof.
  unfold worker_take. intros (sh & Hsh & H)%bind_Ok. destruct (shards_ p !! i) as [sh'|] eqn:E; [|done].
  injection Hsh as ->. pose proof (pop_cases (shard_queue sh)) as Hc. destruct (pop _) as [[[x|] q]|]; [|done..].
  injection H as <- <-. destruct Hc as ([rest Hb] & ->). apply (kept_insert _ _ _ _ E). split_and!; [done..|]. cbn.
  by rewrite Hb.
Qed.

Lemma moves_kept s s' : moves s s' -> Forall2 queue_kept (shards_ (engine s)) (shards_ (engine s')).
Proof.
  assert (forall shs, Forall2 queue_kept shs shs) as Hid.
  { intros shs. apply Forall_Forall2_diag, Forall_true. intros sh0. by apply queue_kept_same. }
  destruct 1 as [|l1 c b l2 p pushed E Hq|l1 c b []| |i c p _ Hq|i c r p _ Hq|]; cbn; try apply Hid.
  - by eapply push_kept.
  - by eapply take_kept.
  - apply worker_serve_inv in Hq as (sh & e & Hsh & _ & ->). by apply (kept_insert _ _ _ _ Hsh), queue_kept_same.
Qed.

Lemma close_shard_shards p i :
  shards_ (close_shard p i)
  = alter (fun sh => mkShard (close (shard_queue sh)) (shard_engines sh)) i (shards_ p).
Proof.
  unfold close_shard. destruct (shards_ p !! i) as [sh|] eqn:E; cbn.
  - symmetry. apply list_eq. intros j. destruct (decide (i = j)) as [<-|Hj].
    + rewrite list_lookup_alter_eq, E, list_lookup_insert_eq by (by eapply lookup_lt_Some). done.
    + by rewrite list_lookup_alter_ne, list_lookup_insert_ne.
  - symmetry. apply list_eq. intros j. destruct (decide (i = j)) as [<-|Hj].
    + by rewrite list_lookup_alter_eq, E.
    + by rewrite list_lookup_alter_ne.
Qed.

Lemma close_shard_lookup p i j sh' :
  shards_ (close_shard p i) !! j = Some sh' ->
  exists sh, shards_ p !! j = Some sh /\ capacity_ (shard_queue sh') = capacity_ (shard_queue sh)
    /\ buffer_ (shard_queue sh') = buffer_ (shard_queue sh)
    /\ (j = i \/ closed_ (shard_queue sh) = true -> closed_ (shard_queue sh') = true).
Proof.
  rewrite close_shard_shards. destruct (decide (i = j)) as [<-|Hj].
  - rewrite list_lookup_alter_eq. intros (sh & Hsh & ->)%fmap_Some. by exists sh.
  - rewrite list_lookup_alter_ne by done. intros Hsh. exists sh'. split_and!; try done. by intros [<-|?].
Qed.

(** * Shutting down *)

(** [shutdown] has closed the queues that are not in its list any more, and joins only
    workers that have left their loop; such a worker's queue is closed and empty. *)
Record shutting (w : World) : Prop := {
  sd_accepting : accepting_ (engine (w_sys w)) = match w_shutdown w with NotCalled => true | _ => false end;
  sd_capacity i sh : shards_ (engine (w_sys w)) !! i = Some sh -> 0 < capacity_ (shard_queue sh);
  sd_closed i sh : shards_ (engine (w_sys w)) !! i = Some sh ->
    match w_shutdown w with
    | NotCalled => True
    | Closing queues => i ∈ queues \/ closed_ (shard_queue sh) = true
    | _ => closed_ (shard_queue sh) = true
    end;
  sd_exited i : i ∈ w_exited w ->
    workers (w_sys w) !! i = None
    /\ exists sh, shards_ (engine (w_sys w)) !! i = Some sh /\ closed_ (shard_queue sh) = true
         /\ buffer_ (shard_queue sh) = [];
  sd_once : NoDup (w_exited w);
  sd_joined i : (i < length (shards_ (engine (w_sys w))))%nat ->
    match w_shutdown w with
    | Joining threads => i ∈ threads \/ i ∈ w_exited w
    | Finished => i ∈ w_exited w
    | _ => True
    end;
  sd_threads threads : w_shutdown w = Joining threads ->
    Forall (fun i => (i < length (shards_ (engine (w_sys w))))%nat) threads
}.

Lemma moves_shutting w s :
  shutting w -> moves (w_sys w) s -> Forall (fun i => workers s !! i = None) (w_exited w) ->
  shutting (mkWorld s (w_calls w) (w_shutdown w) (w_exited w)).
Proof.
  intros [Ha Hc Hcl He Ho Hj Ht] Hs Hout. pose proof (moves_kept _ _ Hs) as Hk. pose proof (Forall2_length _ _ _ Hk) as Hlen.
  assert (forall i sh', shards_ (engine s) !! i = Some sh' ->
    exists sh, shards_ (engine (w_sys w)) !! i = Some sh /\ queue_kept sh sh') as Hback.
  { intros i sh' Hsh. destruct (Forall2_lookup_r _ _ _ _ _ Hk Hsh) as (sh & ? & ?). by exists sh. }
  split; cbn.
  - by rewrite (moves_accepting _ _ Hs).
  - intros i sh' (sh & Hsh & _ & -> & _)%Hback. by eapply Hc.
  - intros i sh' (sh & Hsh & Hclosed & _)%Hback. specialize (Hcl i sh Hsh). by rewrite Hclosed.
  - intros i Hi. rewrite Forall_forall in Hout. split; [by apply Hout|]. destruct (He i Hi) as (_ & sh & Hsh & H1 & H2).
    destruct (Forall2_lookup_l _ _ _ _ _ Hk Hsh) as (sh' & Hsh' & H3 & _ & H4). exists sh'. rewrite H3. auto.
  - done.
  - by rewrite <- Hlen.
  - by rewrite <- Hlen.
Qed.

Lemma close_shutting w i queues :
  shutting w -> w_shutdown w = Closing (i :: queues) ->
  shutting (mkWorld (with_engine (w_sys w) (close_shard (engine (w_sys w)) i) (producers (w_sys w))) (w_calls w)
              (Closing queues) (w_exited w)).
Proof.
  intros [Ha Hc Hcl He Ho Hj Ht] E. rewrite E in *. split; cbn; try done.
  - unfold close_shard. by case_match.
  - intros j sh' (sh & Hsh & -> & _)%close_shard_lookup. by eapply Hc.
  - intros j sh' (sh & Hsh & _ & _ & Hclosed)%close_shard_lookup.
    destruct (Hcl j sh Hsh) as [[->|Hin]%elem_of_cons|H]; auto.
  - intros j Hin. destruct (He j Hin) as (Hw & sh & Hsh & H1 & H2). split; [done|].
    destruct (lookup_lt_is_Some_2 (shards_ (close_shard (engine (w_sys w)) i)) j) as [sh' Hsh'].
    { rewrite close_shard_shards, length_alter. by eapply lookup_lt_Some. }
    destruct (close_shard_lookup _ _ _ _ Hsh') as (sh0 & Hsh0 & _ & H3 & H4). simplify_eq. exists sh'.
    rewrite H3. auto.
Qed.

Lemma exit_shutting w i :
  shutting w -> i ∉ w_exited w -> workers (w_sys w) !! i = None -> loop_ends (engine (w_sys w)) i = true ->
  shutting (mkWorld (w_sys w) (w_calls w) (w_shutdown w) (i :: w_exited w)).
Proof.
  intros [Ha Hc Hcl He Ho Hj Ht] Hi Hw Hend. split; cbn; try done.
  - intros j [->|Hin]%elem_of_cons; [|by apply He]. split; [done|]. unfold loop_ends in Hend.
    destruct (shards_ (engine (w_sys w)) !! i) as [sh|]; [|done]. exists sh. pose proof (pop_cases (shard_queue sh)) as Hp.
    destruct (pop _) as [[[x|] q]|]; [done| |done]. by destruct Hp as (? & ? & _).
  - by constructor.
  - intros j Hlt. specialize (Hj j Hlt). destruct (w_shutdown w); rewrite ?elem_of_cons; intuition.
Qed.

Lemma world_step_shutting w w' : shutting w -> world_step w w' -> shutting w'.
Proof.
  intros Hw Hs. destruct Hs as [l1 c b l2 _ _|l1 c b l2 _ _|s Hs Hout|i Hi Hn Hend|Ha|i queues E|E|i threads E Hin|E].
  1,2: by destruct Hw.
  - by apply moves_shutting.
  - by apply exit_shutting.
  - destruct Hw as [Hacc Hc Hcl He Ho Hj Ht]. split; cbn; try done.
    intros i sh Hsh. left. apply elem_of_seq. split; [lia|]. by eapply lookup_lt_Some.
  - by apply close_shutting.
  - destruct Hw as [Hacc Hc Hcl He Ho Hj Ht]. rewrite E in *. split; cbn; try done.
    + intros i sh Hsh. by destruct (Hcl i sh Hsh) as [?%not_elem_of_nil|?].
    + intros i Hi. left. apply elem_of_seq. lia.
    + intros ? [= <-]. apply Forall_seq. lia.
  - destruct Hw as [Hacc Hc Hcl He Ho Hj Ht]. rewrite E in *. split; cbn; try done.
    + intros j Hlt. destruct (Hj j Hlt) as [[->|?]%elem_of_cons|?]; auto.
    + intros ? [= <-]. specialize (Ht _ eq_refl). by apply Forall_cons in Ht as [_ ?].
  - destruct Hw as [Hacc Hc Hcl He Ho Hj Ht]. rewrite E in *. split; cbn; try done.
    intros j Hlt. by destruct (Hj j Hlt) as [?%not_elem_of_nil|?].
Qed.

Lemma world_preachable p calls w : world_reachable p calls w -> shutting (world_new p calls) ->
  preachable p (w_sys w) /\ shutting w.
Proof.
  intros Hr H0. induction Hr as [|w w' _ [IH Hw] Hs]; [by split; [constructor|]|].
  split; [|by eapply world_step_shutting].
  destruct Hs as [l1 c b l2 _ Ha|l1 c b l2 _ Ha|s Hs _|i _ _ _|Ha|i queues E|E|i threads E _|E]; cbn; try exact IH;
    eapply preachable_step; try exact IH.
  - by apply check_accepting.
  - by apply turn_away.
  - by apply thread_moves.
  - by apply stop_accepting.
  - apply close_queue_of. subst s. by rewrite (sd_accepting _ Hw), E.
Qed.

Lemma shutting_new n capacity limits depth p calls :
  PartitionedEngine_new n capacity limits depth = Some p -> 0 <= capacity -> shutting (world_new p calls).
Proof.
  unfold PartitionedEngine_new. intros Hp Hcap. case_match; [done|]. apply bind_Some in Hp as (q & Hq & [= <-]).
  unfold MPMCQueue_new in Hq. destruct (Z.eqb_spec capacity 0); [done|]. injection Hq as <-.
  split; cbn; try done; try (by intros i ?%not_elem_of_nil); [|constructor].
  intros i sh [-> _]%lookup_replicate. cbn. lia.
Qed.

(** * Promises *)

(** The calls that have not entered a queue and whose client is still at work. *)
Definition waiting (ps : list (Command * bool * Stage)) : list Command :=
  omap (fun x => match x.2 with Pushed true => None | _ => Some x.1.1 end) ps.

Definition promised (cs : list Command) : list nat := omap cmd_completion cs.

Lemma waiting_app l1 l2 : waiting (l1 ++ l2) = waiting l1 ++ waiting l2.
Proof. apply omap_app. Qed.

Lemma waiting_middle l1 x l2 : waiting (l1 ++ x :: l2) ≡ₚ waiting [x] ++ waiting (l1 ++ l2).
Proof.
  rewrite !waiting_app. change (x :: l2) with ([x] ++ l2). rewrite waiting_app, !app_assoc.
  apply Permutation_app_tail, Permutation_app_comm.
Qed.

Lemma waiting_refused c blocking : waiting (refused_call c blocking) = if cmd_completion c then [c] else [].
Proof. unfold refused_call. by destruct (cmd_completion c). Qed.

Lemma promised_app l1 l2 : promised (l1 ++ l2) = promised l1 ++ promised l2.
Proof. apply omap_app. Qed.

#[local] Instance promised_proper : Proper ((≡ₚ) ==> (≡ₚ)) promised.
Proof. intros l k H. by apply omap_Permutation. Qed.

Lemma promised_in cs c k : c ∈ cs -> cmd_completion c = Some k -> k ∈ promised cs.
Proof. intros Hc Hk. apply list_elem_of_omap. by exists c. Qed.

(** With distinct promises, one command has each. *)
Lemma promised_inj cs c c' k :
  NoDup (promised cs) -> c ∈ cs -> c' ∈ cs -> cmd_completion c = Some k -> cmd_completion c' = Some k -> c = c'.
Proof.
  intros Hd Hc Hc' Hk Hk'. induction cs as [|x cs IH]; [by apply not_elem_of_nil in Hc|].
  unfold promised in Hd. cbn in Hd.
  apply elem_of_cons in Hc as [->|Hc], Hc' as [->|Hc']; [done| | |].
  - rewrite Hk in Hd. apply NoDup_cons in Hd as [Hd _]. by destruct (Hd (promised_in _ _ _ Hc' Hk')).
  - rewrite Hk' in Hd. apply NoDup_cons in Hd as [Hd _]. by destruct (Hd (promised_in _ _ _ Hc Hk)).
  - apply IH; try done. destruct (cmd_completion x); [by apply NoDup_cons in Hd as [_ ?]|done].
Qed.

(** Every call is still to be made, being made, in or past a queue, or was refused; the
    promises that have a value are those of the commands accounted for, each with its
    result, and those of the refused calls. *)
Record futures_ok (calls : list (Command * bool)) (gone : list Command) (w : World) : Prop := {
  fu_calls : (w_calls w).*1 ++ waiting (producers (w_sys w)) ++ entered (w_sys w) ++ gone ≡ₚ calls.*1;
  fu_values k r : completions (engine (w_sys w)) !! k = Some r <->
    (exists c, (c, r) ∈ accounted (w_sys w) /\ cmd_completion c = Some k)
    \/ (exists c, c ∈ gone /\ cmd_completion c = Some k /\ r = shutting_down c)
}.

Section futures.
Context (n capacity depth : Z) (limits : RiskLimits.t) (p : PartitionedEngine) (calls : list (Command * bool)).
Hypothesis (Hnew : PartitionedEngine_new n capacity limits depth = Some p).
Hypothesis (Hcap : 0 <= capacity) (Hdistinct : NoDup (promised calls.*1)).

Lemma accounted_entered s x : preachable p s -> x ∈ accounted s -> x.1 ∈ entered s.
Proof using Hnew.
  intros Hs Hx. assert (x.1 ∈ class (shard_of n) (shard_of n x.1) (entered s)) as [_ ?]%list_elem_of_filter; [|done].
  rewrite (entered_split _ _ _ _ _ _ Hnew Hs). apply elem_of_app. left. apply list_elem_of_filter. split; [done|].
  by apply list_elem_of_fmap_2.
Qed.

(** A promise whose command has not got to a queue has no value. *)
Lemma waiting_fresh gone w c k :
  futures_ok calls gone w -> preachable p (w_sys w) -> c ∈ (w_calls w).*1 ++ waiting (producers (w_sys w)) ->
  cmd_completion c = Some k -> completions (engine (w_sys w)) !! k = None.
Proof using Hnew Hdistinct.
  intros [Hc Hv] Hs Hin Hk. rewrite <- Hc, app_assoc in Hdistinct. rewrite promised_app in Hdistinct. apply NoDup_app in Hdistinct as (_ & Hd & _).
  specialize (Hd k (promised_in _ _ _ Hin Hk)). apply eq_None_not_Some.
  intros [r [(c' & Ha & Hk')|(c' & Ha & Hk' & _)]%Hv];
    apply Hd, (promised_in _ c'); try done; apply elem_of_app; [left|by right].
  by apply (accounted_entered _ (c', r)).
Qed.

(** Neither has one whose result a worker is about to set. *)
Lemma served_fresh gone w i c r k :
  futures_ok calls gone w -> preachable p (w_sys w) -> workers (w_sys w) !! i = Some (Served c r) ->
  cmd_completion c = Some k -> completions (engine (w_sys w)) !! k = None.
Proof using Hnew Hdistinct.
  intros [Hc Hv] Hs Hw Hk. pose proof (entered_split _ _ _ _ _ _ Hnew Hs i) as Hsplit.
  assert (served_by (w_sys w) i = [(c, r)]) as Hby by (unfold served_by; by rewrite Hw). rewrite Hby in Hsplit. cbn in Hsplit.
  assert (c ∈ class (shard_of n) i (entered (w_sys w))) as [Hi He]%list_elem_of_filter.
  { rewrite Hsplit. apply elem_of_app. right. by left. }
  rewrite <- Hc, !app_assoc in Hdistinct. rewrite promised_app in Hdistinct. apply NoDup_app in Hdistinct as (Hd1 & Hd & _).
  rewrite promised_app in Hd1. apply NoDup_app in Hd1 as (_ & _ & Hent).
  apply eq_None_not_Some. intros [r' [(c' & Ha & Hk')|(c' & Ha & Hk' & _)]%Hv].
  - pose proof (accounted_entered _ _ Hs Ha) as He'. cbn in He'.
    pose proof (promised_inj _ _ _ _ Hent He' He Hk' Hk) as ->.
    assert (NoDup (promised (class (shard_of n) i (entered (w_sys w))))) as Hcl.
    { rewrite <- (filter_app_complement (fun x => shard_of n x = i)), promised_app in Hent.
      by apply NoDup_app in Hent as [? _]. }
    rewrite Hsplit, promised_app in Hcl. apply NoDup_app in Hcl as (_ & Hcl & _).
    apply (Hcl k); [|cbn; rewrite Hk; by left]. apply (promised_in _ c); [|done]. apply list_elem_of_filter.
    split; [done|]. by apply (list_elem_of_fmap_2 fst _ (c, r')).
  - apply (Hd k); [|by apply (promised_in _ c')]. apply (promised_in _ c); [|done]. apply elem_of_app. by right.
Qed.

(** A refused call has not entered a queue. *)
Lemma gone_not_entered gone w c k :
  futures_ok calls gone w -> c ∈ gone -> cmd_completion c = Some k -> c ∉ entered (w_sys w).
Proof using Hdistinct.
  intros [Hc _] Hin Hk He. rewrite <- Hc, !app_assoc, promised_app in Hdistinct. apply NoDup_app in Hdistinct as (_ & Hd & _).
  apply (Hd k); [|by apply (promised_in _ c)]. apply (promised_in _ c); [|done]. apply elem_of_app. by right.
Qed.

(** Setting a promise that has no value. *)
Lemma set_value (m : gmap nat PartitionedCommandResult) k v k' r :
  m !! k = None -> <[k := v]> m !! k' = Some r <-> m !! k' = Some r \/ k' = k /\ r = v.
Proof.
  intros Hk. destruct (decide (k' = k)) as [->|Hne].
  - rewrite lookup_insert_eq. split; [intros [= ->]; auto|]. intros [?|[_ ->]]; congruence.
  - rewrite lookup_insert_ne by done. split; [auto|]. by intros [?|[? _]].
Qed.

(** A step that sets no promise. *)
Lemma same_values gone w w' :
  futures_ok calls gone w -> completions (engine (w_sys w')) = completions (engine (w_sys w)) ->
  accounted (w_sys w') = accounted (w_sys w) ->
  (w_calls w').*1 ++ waiting (producers (w_sys w')) ++ entered (w_sys w')
    ≡ₚ (w_calls w).*1 ++ waiting (producers (w_sys w)) ++ entered (w_sys w) ->
  futures_ok calls gone w'.
Proof using.
  intros [Hc Hv] Hm Ha Hp. split; [|intros k r; rewrite Hm, Ha; apply Hv].
  rewrite <- Hc, !app_assoc. apply Permutation_app_tail. by rewrite <- !app_assoc.
Qed.

(** A call without a promise that is refused. *)
Lemma refused_values gone w w' c :
  futures_ok calls gone w -> completions (engine (w_sys w')) = completions (engine (w_sys w)) ->
  accounted (w_sys w') = accounted (w_sys w) -> cmd_completion c = None -> entered (w_sys w') = entered (w_sys w) ->
  c :: (w_calls w').*1 ++ waiting (producers (w_sys w')) ≡ₚ (w_calls w).*1 ++ waiting (producers (w_sys w)) ->
  futures_ok calls (c :: gone) w'.
Proof using.
  intros [Hc Hv] Hm Ha Hk He Hp. split.
  - rewrite <- Hc, He, (app_assoc (w_calls w).*1), <- Hp, (app_assoc (w_calls w').*1), app_assoc.
    cbn. rewrite <- Permutation_middle. by rewrite <- app_assoc.
  - intros k r. rewrite Hm, Ha, Hv. split; (intros [?|(c' & Hin & H1 & H2)]; [by left|right]).
    + exists c'. by split_and!; [right|..].
    + apply elem_of_cons in Hin as [->|Hin]; [congruence|]. by exists c'.
Qed.

Lemma reject_futures gone w l1 c b k l2 :
  futures_ok calls gone w -> preachable p (w_sys w) -> producers (w_sys w) = l1 ++ (c, b, Refused) :: l2 ->
  cmd_completion c = Some k ->
  futures_ok calls (c :: gone) (mkWorld (with_engine (w_sys w)
    (completeRejected (engine (w_sys w)) k (Order.id (cmd_order c)) (cmd_type c) ENGINE_SHUTTING_DOWN) (l1 ++ l2))
    (w_calls w) (w_shutdown w) (w_exited w)).
Proof using Hnew Hdistinct.
  intros Hf Hs E Hk. assert (completions (engine (w_sys w)) !! k = None) as Hfresh.
  { eapply waiting_fresh; [done..| |exact Hk]. rewrite E, waiting_middle, !elem_of_app. right. left. by left. }
  destruct Hf as [Hc Hv]. split; cbn.
  - rewrite <- Hc, E, waiting_middle. cbn. rewrite <- !Permutation_middle. done.
  - intros k' r. rewrite set_value, Hv by done. split.
    + intros [[?|(c' & Hin & H)]|[-> ->]]; [by left|right..]; [exists c'|exists c]; split; [by right|done|by left|done].
    + intros [?|(c' & [->|Hin]%elem_of_cons & Hk' & ->)]; [by left; left| |].
      * right. split; [congruence|done].
      * left. right. by exists c'.
Qed.

Lemma account_futures gone w i c r now :
  futures_ok calls gone w -> preachable p (w_sys w) -> workers (w_sys w) !! i = Some (Served c r) ->
  futures_ok calls gone (mkWorld (mkSystem (account (engine (w_sys w)) c r now) (producers (w_sys w))
    (delete i (workers (w_sys w))) (entered (w_sys w)) (served (w_sys w)) (accounted (w_sys w) ++ [(c, r)]))
    (w_calls w) (w_shutdown w) (w_exited w)).
Proof using Hnew Hdistinct.
  intros Hf Hs Hw. assert (forall k, cmd_completion c = Some k -> completions (engine (w_sys w)) !! k = None) as Hfresh.
  { intros k Hk. by eapply served_fresh. }
  destruct Hf as [Hc Hv]. split; cbn; [done|]. intros k r'.
  assert ((exists c', (c', r') ∈ accounted (w_sys w) ++ [(c, r)] /\ cmd_completion c' = Some k)
    <-> (exists c', (c', r') ∈ accounted (w_sys w) /\ cmd_completion c' = Some k) \/ cmd_completion c = Some k /\ r' = r) as ->.
  { split.
    - intros (c' & [Hin|[= -> ->]%list_elem_of_singleton]%elem_of_app & Hk); [left; by exists c'|by right].
    - intros [(c' & Hin & Hk)|[Hk ->]]; [exists c'|exists c]; (split; [|done]); apply elem_of_app; [by left|right; by left]. }
  destruct (cmd_completion c) as [k0|] eqn:Ek.
  - rewrite set_value, Hv by (by apply Hfresh). intuition congruence.
  - rewrite Hv. intuition congruence.
Qed.
Lemma moves_futures gone w s :
  futures_ok calls gone w -> preachable p (w_sys w) -> moves (w_sys w) s ->
  exists gone', futures_ok calls gone' (mkWorld s (w_calls w) (w_shutdown w) (w_exited w)).
Proof using Hnew Hdistinct.
  intros Hf Hs Hm. destruct Hm as [l1 c b l2 E|l1 c b l2 p' pushed E Hq|l1 c b pushed l2 E|l1 c b k l2 E Hk|i c p' Hw Hq
    |i c r p' Hw Hq|i c r now Hw _].
  - exists gone. apply (same_values _ w); cbn; try done. by rewrite E, !waiting_middle.
  - exists gone. apply queue_push_inv in Hq as (sh & q & _ & -> & _). apply (same_values _ w); cbn; try done.
    rewrite E, !waiting_middle. destruct pushed; [|done]. cbn. apply Permutation_app_head.
    rewrite app_assoc. symmetry. apply (Permutation_app_comm [c]).
  - destruct pushed.
    + exists gone. apply (same_values _ w); cbn; try done. by rewrite E, !waiting_middle.
    + destruct (cmd_completion c) as [k|] eqn:Ek.
      * exists gone. apply (same_values _ w); cbn; try done.
        by rewrite E, !waiting_app, waiting_refused, Ek.
      * exists (c :: gone). apply (refused_values _ w); cbn; try done. rewrite E, (waiting_middle l1).
        unfold refused_call. rewrite Ek. cbn. apply Permutation_middle.
  - exists (c :: gone). by eapply reject_futures.
  - exists gone. apply worker_take_inv in Hq as (sh & q & _ & -> & _). by apply (same_values _ w).
  - exists gone. apply worker_serve_inv in Hq as (sh & e & _ & _ & ->). by apply (same_values _ w).
  - exists gone. by apply account_futures.
Qed.

Lemma step_futures gone w w' :
  futures_ok calls gone w -> preachable p (w_sys w) -> world_step w w' -> exists gone', futures_ok calls gone' w'.
Proof using Hnew Hdistinct.
  intros Hf Hs Hw. destruct Hw as [l1 c b l2 E _|l1 c b l2 E _|s Hm _|i _ _ _|_|i queues _|_|i threads _ _|_].
  - exists gone. apply (same_values _ w); cbn; try done. rewrite E, !fmap_app. cbn. rewrite <- !app_assoc.
    apply Permutation_app_head. cbn. rewrite <- Permutation_middle. done.
  - destruct (cmd_completion c) as [k|] eqn:Ek.
    + exists gone. apply (same_values _ w); cbn; try done. rewrite E, waiting_app, waiting_refused, Ek, !fmap_app.
      cbn. rewrite <- !app_assoc. apply Permutation_app_head. cbn. by rewrite <- Permutation_middle.
    + exists (c :: gone). apply (refused_values _ w); cbn; try done.
      rewrite E, waiting_app, waiting_refused, Ek, !fmap_app. cbn. by rewrite <- Permutation_middle.
  - by apply (moves_futures gone).
  - exists gone. by apply (same_values _ w).
  - exists gone. by apply (same_values _ w).
  - exists gone. apply (same_values _ w); try done. cbn. unfold close_shard. by case_match.
  - exists gone. by apply (same_values _ w).
  - exists gone. by apply (same_values _ w).
  - exists gone. by apply (same_values _ w).
Qed.

Lemma world_ok w :
  world_reachable p calls w -> preachable p (w_sys w) /\ shutting w /\ exists gone, futures_ok calls gone w.
Proof using Hnew Hcap Hdistinct.
  intros Hw. pose proof (shutting_new _ _ _ _ _ calls Hnew Hcap) as H0.
  destruct (world_preachable _ _ _ Hw H0) as [Hp Hsd]. split_and!; [done..|]. clear Hp Hsd.
  induction Hw as [|w w' Hr [gone IH] Hs]; [|by eapply step_futures; [|apply (world_preachable _ _ _ Hr H0)|]].
  exists []. split; cbn; [by rewrite !app_nil_r|]. intros k r. unfold PartitionedEngine_new in Hnew.
  case_match; [done|]. apply bind_Some in Hnew as (q & _ & [= <-]). cbn. rewrite lookup_empty.
  split; [done|]. by intros [(c & ?%not_elem_of_nil & _)|(c & ?%not_elem_of_nil & _)].
Qed.
End futures.

(** * Every run comes to its end *)

Definition shutdown_weight (shards : nat) (sd : Shutdown) : Z :=
  match sd with
  | NotCalled => 2 * Z.of_nat shards + 4
  | Closing queues => Z.of_nat (length queues) + Z.of_nat shards + 3
  | Joining threads => Z.of_nat (length threads) + 1
  | Finished => 0
  end.

(** What is still to be done: calls, commands in the engine, loops to leave, [shutdown]. *)
Definition world_weight (w : World) : Z :=
  let shards := length (shards_ (engine (w_sys w))) in
  9 * Z.of_nat (length (w_calls w)) + system_weight (w_sys w) + shutdown_weight shards (w_shutdown w)
  + (Z.of_nat shards - Z.of_nat (length (w_exited w))).

Lemma exited_few w : shutting w -> (length (w_exited w) <= length (shards_ (engine (w_sys w))))%nat.
Proof.
  intros [_ _ _ He Ho _ _]. rewrite <- (length_seq (length (shards_ (engine (w_sys w)))) 0).
  apply submseteq_length, NoDup_submseteq; [done|]. intros i Hi. destruct (He i Hi) as (_ & sh & Hsh & _).
  apply elem_of_seq. apply lookup_lt_Some in Hsh. lia.
Qed.

Lemma close_shard_weight p i : queued_weight (close_shard p i) = queued_weight p.
Proof.
  unfold close_shard. destruct (shards_ p !! i) as [sh|] eqn:E; [|done]. rewrite (queued_insert _ _ _ _ E).
  unfold mpmc_size. cbn. lia.
Qed.

Lemma refused_weight c blocking : sum (fun x => stage_weight x.2) (refused_call c blocking) <= 1.
Proof. unfold refused_call. by destruct (cmd_completion c). Qed.

Lemma world_step_weight w w' : shutting w -> world_step w w' -> world_weight w' < world_weight w.
Proof.
  intros Hw Hs. unfold world_weight.
  destruct Hs as [l1 c b l2 E _|l1 c b l2 E _|s' Hs _|i _ _ _|Ha|i queues E|E|i threads E _|E];
    try subst s; cbn zeta; cbn [w_sys w_calls w_shutdown w_exited length].
  - rewrite E, !length_app. unfold system_weight. cbn [engine with_engine producers workers length].
    autorewrite with sums. cbn [snd stage_weight]. lia.
  - rewrite E, !length_app. unfold system_weight. cbn [engine with_engine producers workers length].
    pose proof (refused_weight c b). autorewrite with sums. lia.
  - pose proof (moves_weight _ _ Hs). rewrite <- (Forall2_length _ _ _ (moves_kept _ _ Hs)). lia.
  - lia.
  - pose proof (sd_accepting _ Hw) as Hacc. rewrite Ha in Hacc. destruct (w_shutdown w); try done.
    unfold system_weight, shard_indices, queued_weight. cbn. rewrite length_seq. lia.
  - rewrite E. unfold system_weight. cbn [engine with_engine producers workers].
    rewrite close_shard_weight, close_shard_shards, length_alter. cbn. lia.
  - rewrite E. unfold shard_indices. cbn. rewrite length_seq. lia.
  - rewrite E. cbn. lia.
  - rewrite E. cbn. lia.
Qed.

Section ends.
Context (n capacity depth : Z) (limits : RiskLimits.t) (p : PartitionedEngine) (calls : list (Command * bool)).
Hypothesis (Hnew : PartitionedEngine_new n capacity limits depth = Some p).
Hypothesis (Hn : 0 <= n) (Hcap : 0 <= capacity) (Hlimits : RiskLimits.in_range limits).
Hypothesis (Hdistinct : NoDup (promised calls.*1)).
Hypothesis (Hrange : Forall (fun x => command_in_range (as_engine_command x.1)) calls).
Hypothesis (Hfew : Z.of_nat (length calls) < max_resting).

(** What entered the queues are calls of the clients. *)
Lemma entered_calls w :
  world_reachable p calls w ->
  Forall (fun c => command_in_range (as_engine_command c)) (entered (w_sys w))
  /\ Z.of_nat (length (entered (w_sys w))) < max_resting.
Proof using Hnew Hcap Hdistinct Hrange Hfew.
  intros Hw. destruct (world_ok _ _ _ _ _ _ Hnew Hcap Hdistinct w Hw) as (_ & _ & gone & Hc & _). split.
  - assert (Forall (fun c => command_in_range (as_engine_command c)) calls.*1) as Hr by (apply Forall_fmap; exact Hrange).
    rewrite <- Hc, !Forall_app in Hr. by destruct Hr as (_ & _ & ? & _).
  - apply Permutation_length in Hc. rewrite !length_app, !length_fmap in Hc. lia.
Qed.

(** A worker with something to do goes on: it has not left its loop. *)
Lemma world_worker_goes w i :
  world_reachable p calls w -> (i < Z.to_nat n)%nat ->
  queued_at (engine (w_sys w)) i <> [] \/ workers (w_sys w) !! i <> None -> exists w', world_step w w'.
Proof using Hnew Hn Hcap Hlimits Hdistinct Hrange Hfew.
  intros Hw Hi Hbusy. destruct (world_ok _ _ _ _ _ _ Hnew Hcap Hdistinct w Hw) as (Hs & Hsd & _).
  destruct (entered_calls w Hw) as [He Hl].
  destruct (worker_moves _ _ _ _ _ _ i Hnew Hs Hn Hlimits He Hl Hi Hbusy) as (s' & Hm & Hothers).
  eexists. apply (thread_goes w s' Hm). apply Forall_forall. intros j Hj.
  destruct (sd_exited _ Hsd j Hj) as (Hnone & sh & Hsh & _ & Hb).
  rewrite Hothers; [done|]. intros ->. destruct Hbusy as [Hq|]; [|done]. apply Hq. unfold queued_at. by rewrite Hsh.
Qed.

(** Only a call with a promise waits to reject it. *)
Lemma world_refused w :
  world_reachable p calls w -> Forall (fun x => x.2 = Refused -> cmd_completion x.1.1 <> None) (producers (w_sys w)).
Proof using.
  assert (forall c b, Forall (fun x : Command * bool * Stage => x.2 = Refused -> cmd_completion x.1.1 <> None)
    (refused_call c b)) as Hr.
  { intros c b. unfold refused_call. destruct (cmd_completion c) eqn:Ek; [|done]. constructor; [cbn; congruence|done]. }
  induction 1 as [|w w' _ IH Hs]; [done|].
  destruct Hs as [l1 c b l2 _ _|l1 c b l2 _ _|s' Hs _|i _ _ _|Ha|i queues _|_|i threads _ _|_]; try exact IH; cbn.
  - by constructor.
  - by apply Forall_app_2.
  - destruct Hs as [l1 c b l2 E|l1 c b l2 p' pushed E Hq|l1 c b pushed l2 E|l1 c b k l2 E Hk| | |]; try exact IH; cbn;
      rewrite E, Forall_app, Forall_cons in IH; destruct IH as (H1 & _ & H2);
      rewrite !Forall_app, ?Forall_cons; split_and!; try done.
    by destruct pushed.
Qed.
(** A client inside a call goes on, or its worker does. *)
Lemma world_producer_goes w :
  world_reachable p calls w -> producers (w_sys w) <> [] -> exists w', world_step w w'.
Proof using Hnew Hn Hcap Hlimits Hdistinct Hrange Hfew.
  intros Hw Hne. pose proof (world_refused w Hw) as Hprom. destruct (world_ok _ _ _ _ _ _ Hnew Hcap Hdistinct w Hw) as (Hs & Hsd & _).
  assert (forall s, moves (w_sys w) s -> workers s = workers (w_sys w) -> exists w', world_step w w') as Hgo.
  { intros s Hm Hsame. eexists. apply (thread_goes w s Hm). apply Forall_forall. intros j Hj. rewrite Hsame.
    by destruct (sd_exited _ Hsd j Hj). }
  pose proof (preachable_ok _ _ _ _ _ _ Hnew Hs) as Hsys.
  destruct (producers (w_sys w)) as [|[[c b] st] l] eqn:E; [done|]. destruct st as [| |ok|].
  - eapply Hgo; [by apply (count_command _ [] c b l)|done].
  - destruct (shard_exists _ _ _ _ _ _ Hnew Hs (cmd_symbol c) Hn) as [sh Hsh].
    destruct (queue_push (engine (w_sys w)) c b) as [[[ok p']|]|] eqn:Hq.
    + eapply Hgo; [by apply (push_command _ [] c b l p' ok)|done].
    + unfold queue_push in Hq. rewrite (sys_count _ _ _ Hsys), Hsh in Hq. cbn in Hq. destruct b; [|by destruct (try_push _ _)].
      pose proof (push_cases (shard_queue sh) c) as Hc. destruct (push _ _) as [[]|]; [done|]. destruct Hc as [_ Hfull].
      apply (world_worker_goes w (shardIndex n (cmd_symbol c))); [done| |left].
      * apply lookup_lt_Some in Hsh. by rewrite (sys_length _ _ _ Hsys) in Hsh.
      * pose proof (sd_capacity _ Hsd _ _ Hsh). unfold queued_at. rewrite Hsh. cbn. unfold mpmc_size in Hfull.
        destruct (buffer_ (shard_queue sh)); [cbn in Hfull; lia|done].
    + unfold queue_push in Hq. by rewrite (sys_count _ _ _ Hsys), Hsh in Hq.
  - eapply Hgo; [by apply (settle_command _ [] c b ok l)|done].
  - apply Forall_cons in Hprom as [Hc _]. destruct (cmd_completion c) as [k|] eqn:Ek; [|by destruct (Hc eq_refl)].
    eapply Hgo; [by apply (reject_command _ [] c b k l)|done].
Qed.

(** Nothing is left to do. *)
Record wound_up (w : World) : Prop := {
  wu_calls : w_calls w = [];
  wu_producers : producers (w_sys w) = [];
  wu_workers : workers (w_sys w) = ∅;
  wu_queues i : queued_at (engine (w_sys w)) i = [];
  wu_shutdown : w_shutdown w = Finished
}.

(** With every queue empty and every worker idle, [shutdown] goes on. *)
Lemma world_shutdown_goes w :
  shutting w -> (forall i, queued_at (engine (w_sys w)) i = [] /\ workers (w_sys w) !! i = None) ->
  w_shutdown w = Finished \/ exists w', world_step w w'.
Proof using.
  intros Hsd Hidle. pose proof (sd_accepting _ Hsd) as Ha. destruct (w_shutdown w) as [|[|i queues]|[|i threads]|] eqn:E;
    [right..|by left].
  - eexists. by apply shutdown_begins.
  - eexists. by apply joining_begins.
  - eexists. by eapply queue_closes.
  - eexists. by apply shutdown_returns.
  - destruct (decide (i ∈ w_exited w)) as [Hin|Hout]; [eexists; by eapply worker_joins|].
    pose proof (sd_threads _ Hsd _ E) as [Hi _]%Forall_cons.
    destruct (lookup_lt_is_Some_2 _ _ Hi) as [sh Hsh]. pose proof (sd_closed _ Hsd _ _ Hsh) as Hc. rewrite E in Hc.
    destruct (Hidle i) as [Hq Hnone]. eexists. apply (worker_exits w i Hout Hnone). unfold loop_ends, queued_at in *.
    rewrite Hsh in *. cbn in Hq. pose proof (pop_cases (shard_queue sh)) as Hp.
    destruct (pop _) as [[[x|] q]|]; [|done|]; destruct Hp as [Hp1 Hp2]; [destruct Hp1|]; congruence.
Qed.

(** A worker that holds a command is one of the shards'. *)
Lemma holding_shard w i : world_reachable p calls w -> workers (w_sys w) !! i <> None -> (i < Z.to_nat n)%nat.
Proof using Hnew Hn Hcap Hdistinct.
  intros Hw Hne. destruct (world_ok _ _ _ _ _ _ Hnew Hcap Hdistinct w Hw) as (Hs & _ & _).
  pose proof (preachable_ok _ _ _ _ _ _ Hnew Hs) as Hsys.
  assert (exists c, shard_of n c = i) as [c <-].
  { destruct (workers (w_sys w) !! i) as [[c|c r]|] eqn:E; [exists c|exists c|done].
    - eapply waiting_shard; [exact Hsys|]. unfold taken_by. rewrite E. by left.
    - eapply (result_shard _ _ _ _ c r Hsys). unfold served_by. rewrite E. by left. }
  destruct (shard_exists _ _ _ _ _ _ Hnew Hs (cmd_symbol c) Hn) as [sh Hsh%lookup_lt_Some].
  by rewrite (sys_length _ _ _ Hsys) in Hsh.
Qed.

Lemma world_progress w : world_reachable p calls w -> wound_up w \/ exists w', world_step w w'.
Proof using Hnew Hn Hcap Hlimits Hdistinct Hrange Hfew.
  intros Hw. destruct (world_ok _ _ _ _ _ _ Hnew Hcap Hdistinct w Hw) as (Hs & Hsd & _).
  pose proof (preachable_ok _ _ _ _ _ _ Hnew Hs) as Hsys.
  destruct (w_calls w) as [|[c b] l] eqn:Ec.
  2: { right. destruct (accepting_ (engine (w_sys w))) eqn:Ea; eexists;
       [by apply (call_starts w [] c b l)|by apply (call_turned_away w [] c b l)]. }
  destruct (decide (producers (w_sys w) = [])) as [Hp|Hp]; [|right; by apply world_producer_goes].
  destruct (decide (Forall (fun i => queued_at (engine (w_sys w)) i = [] /\ workers (w_sys w) !! i = None)
    (seq 0 (Z.to_nat n)))) as [Hidle|Hbusy].
  - assert (forall i, queued_at (engine (w_sys w)) i = [] /\ workers (w_sys w) !! i = None) as Hall.
    { intros i. rewrite Forall_forall in Hidle. destruct (decide (i < Z.to_nat n)%nat) as [Hi|Hi].
      - apply Hidle, elem_of_seq. lia.
      - split; [unfold queued_at; by rewrite lookup_ge_None_2 by (rewrite (sys_length _ _ _ Hsys); lia)|].
        apply dec_stable. intros Hne. by apply Hi, (holding_shard w). }
    destruct (world_shutdown_goes w Hsd Hall) as [Hf|Hgo]; [left|by right]. split; try done; [|apply Hall].
    apply map_empty. intros i. apply Hall.
  - apply not_Forall_Exists, Exists_exists in Hbusy as (i & Hi%elem_of_seq & Hb); [|intros i; exact _].
    right. apply (world_worker_goes w i); [done|lia|].
    destruct (decide (queued_at (engine (w_sys w)) i = [])); [right; intros Hnone; by apply Hb|by left].
Qed.

Lemma world_winds_up :
  inevitably world_step (fun w => wound_up w /\ world_reachable p calls w) (world_new p calls).
Proof using Hnew Hn Hcap Hlimits Hdistinct Hrange Hfew.
  apply (inevitably_measure _ _ (world_reachable p calls) (fun w => Z.to_nat (world_weight w))).
  - intros w w' Hw Hs. split; [by eapply world_next|].
    destruct (world_ok _ _ _ _ _ _ Hnew Hcap Hdistinct w' (world_next _ _ _ _ Hw Hs)) as (_ & Hsd' & _).
    destruct (world_ok _ _ _ _ _ _ Hnew Hcap Hdistinct w Hw) as (_ & Hsd & _).
    pose proof (world_step_weight _ _ Hsd Hs) as Hlt. pose proof (exited_few _ Hsd') as He.
    pose proof (system_weight_nonneg (w_sys w')) as H1.
    assert (0 <= world_weight w'); [|lia]. unfold world_weight. destruct (w_shutdown w'); cbn; lia.
  - intros w Hw. destruct (world_progress w Hw); [by left|by right].
  - constructor.
Qed.

(** C8. No promise is set twice.  Whatever the interleaving of clients, workers and
    [shutdown], when a worker is about to set the promise of the command it served, or
    a client the promise of its refused call, the promise has no value yet (a second
    [set_value] would throw inside the worker).  And a value that is set is that of one
    client's command: the result its engine gave, or the rejection with
    [ENGINE_SHUTTING_DOWN] of a command that never entered a queue. *)
Theorem promise_set_once w :
  world_reachable p calls w ->
  (forall i c r k, workers (w_sys w) !! i = Some (Served c r) -> cmd_completion c = Some k ->
     completions (engine (w_sys w)) !! k = None)
  /\ (forall c b k, (c, b, Refused) ∈ producers (w_sys w) -> cmd_completion c = Some k ->
     completions (engine (w_sys w)) !! k = None)
  /\ (forall k r, completions (engine (w_sys w)) !! k = Some r ->
     exists c, c ∈ calls.*1 /\ cmd_completion c = Some k
       /\ ((c, r) ∈ accounted (w_sys w) \/ (c ∉ entered (w_sys w) /\ r = shutting_down c))).
Proof using Hnew Hcap Hdistinct.
  intros Hw. destruct (world_ok _ _ _ _ _ _ Hnew Hcap Hdistinct w Hw) as (Hs & Hsd & gone & Hf). split_and!.
  - intros i c r k. by eapply served_fresh.
  - intros c b k Hin Hk. eapply waiting_fresh; [done..| |exact Hk]. apply elem_of_app. right.
    apply list_elem_of_omap. by exists (c, b, Refused).
  - intros k r Hk. apply (fu_values _ _ _ Hf) in Hk as [(c & Hin & Hk)|(c & Hin & Hk & ->)]; exists c.
    + split_and!; [|done|by left]. rewrite <- (fu_calls _ _ _ Hf), !elem_of_app. right. right. left.
      by apply (accounted_entered _ _ _ _ _ Hnew _ (c, r)).
    + split_and!; [rewrite <- (fu_calls _ _ _ Hf), !elem_of_app; auto|done|right; split; [|done]].
      by eapply gone_not_entered.
Qed.
(** Every command that entered has been served, when nothing is left to do. *)
Lemma wound_up_served w c :
  world_reachable p calls w -> wound_up w -> c ∈ entered (w_sys w) -> exists r, (c, r) ∈ accounted (w_sys w).
Proof using Hnew Hcap Hdistinct.
  intros Hw Hu Hc. destruct (world_ok _ _ _ _ _ _ Hnew Hcap Hdistinct w Hw) as (Hs & _ & _).
  assert (c ∈ class (shard_of n) (shard_of n c) (entered (w_sys w))) as Hin by (by apply list_elem_of_filter).
  rewrite (entered_split _ _ _ _ _ _ Hnew Hs) in Hin. unfold served_by, taken_by in Hin.
  rewrite (wu_workers _ Hu), lookup_empty, (wu_queues _ Hu), !app_nil_r in Hin.
  apply list_elem_of_filter in Hin as [_ ([c' r] & -> & Hin)%list_elem_of_fmap]. by exists r.
Qed.

Lemma accounted_served w c r :
  world_reachable p calls w -> (c, r) ∈ accounted (w_sys w) -> (c, r) ∈ served_for (cmd_symbol c) (served (w_sys w)).
Proof using Hnew Hcap Hdistinct.
  intros Hw Hin. destruct (world_ok _ _ _ _ _ _ Hnew Hcap Hdistinct w Hw) as (Hs & _ & _).
  apply list_elem_of_filter. split; [done|].
  assert ((c, r) ∈ class (fun x => shard_of n x.1) (shard_of n c) (served (w_sys w))) as [_ ?]%list_elem_of_filter; [|done].
  rewrite (sys_accounted _ _ _ (preachable_ok _ _ _ _ _ _ Hnew Hs)). apply elem_of_app. left.
  by apply list_elem_of_filter.
Qed.

Lemma future_resolved w c k :
  world_reachable p calls w -> wound_up w -> c ∈ calls.*1 -> cmd_completion c = Some k ->
  exists r, completions (engine (w_sys w)) !! k = Some r
    /\ ((c, r) ∈ served_for (cmd_symbol c) (served (w_sys w)) \/ c ∉ entered (w_sys w) /\ r = shutting_down c).
Proof using Hnew Hcap Hdistinct.
  intros Hw Hu Hc Hk. destruct (world_ok _ _ _ _ _ _ Hnew Hcap Hdistinct w Hw) as (Hs & _ & gone & Hf).
  rewrite <- (fu_calls _ _ _ Hf), (wu_calls _ Hu), (wu_producers _ Hu) in Hc. cbn in Hc. apply elem_of_app in Hc as [Hc|Hc].
  - destruct (wound_up_served w c Hw Hu Hc) as [r Hr]. exists r. split; [|left; by apply accounted_served].
    apply (fu_values _ _ _ Hf). left. by exists c.
  - exists (shutting_down c). split; [|right; split; [by eapply gone_not_entered|done]].
    apply (fu_values _ _ _ Hf). right. by exists c.
Qed.

(** C7. Every future becomes ready and [shutdown] returns.  Clients make any number of
    ingress calls (blocking or not, with or without a promise, promises distinct, orders
    well typed, fewer than 2^32), while workers serve and some thread calls [shutdown] at
    any moment.  Every run comes to its end (no deadlock, no thread left behind): every
    queue is drained, every worker has left its loop and been joined; every promise of
    [submit] and [cancel] has its value: the report and trades of its own command, among
    those the abstract price-time market gives when it runs the symbol's commands in the
    order they were served, or the rejection [ENGINE_SHUTTING_DOWN] of a command that
    never entered a queue. *)
Theorem every_future_resolves :
  inevitably world_step (fun w =>
    w_shutdown w = Finished /\ w_calls w = [] /\ producers (w_sys w) = [] /\ workers (w_sys w) = ∅
    /\ (forall i, queued_at (engine (w_sys w)) i = [])
    /\ (forall c k, c ∈ calls.*1 -> cmd_completion c = Some k ->
          exists r, completions (engine (w_sys w)) !! k = Some r
            /\ ((c, r) ∈ served_for (cmd_symbol c) (served (w_sys w))
                \/ c ∉ entered (w_sys w) /\ r = shutting_down c))
    /\ (forall symbol,
          let log := served_for symbol (served (w_sys w)) in
          market_run (market_new limits) (as_engine_command <$> log.*1)
          = (abs (engine_for n limits (w_sys w) symbol), log ≫= (fun x => res_trades x.2), res_report <$> log.*2)))
    (world_new p calls).
Proof using Hnew Hn Hcap Hlimits Hdistinct Hrange Hfew.
  eapply inevitably_weaken; [|exact world_winds_up]. cbn beta. intros w [Hu Hw].
  destruct (world_ok _ _ _ _ _ _ Hnew Hcap Hdistinct w Hw) as (Hs & _ & _). destruct (entered_calls w Hw) as [He Hl].
  pose proof (served_at_most _ _ _ _ _ _ Hnew Hs) as Hle.
  split_and!; [apply Hu..| |]; [intros c k; by apply future_resolved|].
  apply (partitioned_refines_markets _ _ _ _ _ _ Hnew Hs Hn Hlimits He). lia.
Qed.
End ends.

(** * Witnesses *)

Module Clients.
Definition offer : Command := new_command Floor.AAPL (Scenario.limit 1 SELL 100 10) (Some 0%nat) 5.

(** Two orders with futures, one without, and a cancel. *)
Definition calls : list (Command * bool) :=
  [(offer, true);
   (new_command Floor.MSFT (Scenario.limit 1 BUY 300 7) None 6, false);
   (new_command Floor.AAPL (Scenario.limit 2 BUY 100 4) (Some 1%nat) 7, true);
   (cancel_command Floor.AAPL 1 (Some 2%nat) 8, true)].

(** [shutdown] has just begun, and the first client is turned away. *)
Definition begun : World :=
  mkWorld (mkSystem (with_accepting Floor.open false) [] ∅ [] [] []) calls (Closing (shard_indices Floor.open)) [].
Definition late : World :=
  mkWorld (mkSystem (with_accepting Floor.open false) [(offer, true, Refused)] ∅ [] [] [])
    (drop 1 calls) (Closing (shard_indices Floor.open)) [].

Lemma late_reachable : world_reachable Floor.open calls late.
Proof.
  apply (world_next _ _ begun); [apply (world_next _ _ (world_new Floor.open calls)); [apply world_start|]|].
  - exact (shutdown_begins (world_new Floor.open calls) eq_refl).
  - exact (call_turned_away begun [] offer true (drop 1 calls) eq_refl eq_refl).
Qed.
End Clients.

Lemma promise_set_once_witness :
  completions (engine (w_sys Clients.late)) !! 0%nat = None
  /\ (Clients.offer, true, Refused) ∈ producers (w_sys Clients.late).
Proof.
  split; [|by left].
  refine (proj1 (proj2 (promise_set_once 2 8 200 RiskLimits.default Floor.open Clients.calls eq_refl ltac:(lia) _
    Clients.late Clients.late_reachable)) Clients.offer true 0%nat _ eq_refl); [|by left].
  evaluate.
Defined.

Lemma every_future_resolves_witness :
  inevitably world_step (fun w => forall c k, c ∈ Clients.calls.*1 -> cmd_completion c = Some k ->
    is_Some (completions (engine (w_sys w)) !! k)) (world_new Floor.open Clients.calls)
  /\ promised Clients.calls.*1 = [0; 1; 2]%nat.
Proof.
  split; [|reflexivity]. eapply inevitably_weaken; [|refine (every_future_resolves 2 8 200 RiskLimits.default Floor.open
    Clients.calls eq_refl ltac:(lia) ltac:(lia) ltac:(evaluate) _ _ _)].
  - intros w (_ & _ & _ & _ & _ & H & _) c k Hc Hk. destruct (H c k Hc Hk) as (r & Hr & _). by exists r.
  - evaluate.
  - evaluate.
  - vm_compute. reflexivity.
Defined.
