(* ===== verification/PartitionedMain.v ===== *)
(** [partitioned_matching_main.cpp]: random
    orders from several producer threads, and the validation at the end. *)

From stdpp Require Import strings.
From S2P Require Import Prelude.
From S2P Require Import Arguments.
From S2P Require Import OrderTypes.
From S2P Require Import OrderBook.
From S2P Require Import BookQueries.
From S2P Require Import Risk.
From S2P Require Import MatchingEngine.
From S2P Require Import Session.
From S2P Require Import EngineProps.
From S2P Require Import Symbols.
From S2P Require Import LatencyHistogram.
From S2P Require Import Mpmc.
From S2P Require Import Partitioned.
From S2P Require Import PartitionedProps.
From S2P Require Import Generators.
From S2P Require Import IngressDriver.


#[local] Open Scope Z_scope.

(** * Arguments *)

Record PartArgs : Type := mkPartArgs {
  part_producers : Z;
  part_shards : Z;
  part_orders : Z;
  part_capacity : Z;
  part_seed : Z;
  part_advanced : bool
}.
Definition PartArgs_default : PartArgs := mkPartArgs 4 4 100000 4096 42 false.

Definition part_plain (flag : string) (a : PartArgs) : option (Parsed PartArgs) :=
  if bool_decide (flag = "--advanced-orders"%string) then
    Some (Parsed_args (mkPartArgs (part_producers a) (part_shards a) (part_orders a) (part_capacity a) (part_seed a) true))
  else if bool_decide (flag = "--help"%string) then Some (Exit 0)
  else None.

(** [size_t] is as wide as [uint64_t]: [parseSize] never refuses what [parseU64] read. *)
(** [parseU64] is that of [feed_handler.cpp], word for word. *)
Definition part_parseU64 : string -> option Z := parseU64_unsigned.
(** [size_t] has 64 bits: the test never fails. *)
Definition parseSize (text : string) : option Z :=
  value ← part_parseU64 text;
  if UINT64_MAX <? value then None else Some value.

Lemma parseSize_u64 text : parseSize text = part_parseU64 text.
Proof.
  unfold parseSize. destruct (part_parseU64 text) as [v|] eqn:E; [|done]. cbn. apply parseU64_unsigned_range in E.
  destruct (Z.ltb_spec UINT64_MAX v); [unfold UINT64_MAX in *; range|done].
Qed.

Definition part_valued (flag : string) : option (string -> PartArgs -> option PartArgs) :=
  let set (f : Z -> PartArgs -> PartArgs) := Some (fun value a => v ← parseSize value; Some (f v a)) in
  if bool_decide (flag = "--producers"%string) then set (fun v a =>
    mkPartArgs v (part_shards a) (part_orders a) (part_capacity a) (part_seed a) (part_advanced a))
  else if bool_decide (flag = "--shards"%string) then set (fun v a =>
    mkPartArgs (part_producers a) v (part_orders a) (part_capacity a) (part_seed a) (part_advanced a))
  else if bool_decide (flag = "--orders-per-producer"%string) then set (fun v a =>
    mkPartArgs (part_producers a) (part_shards a) v (part_capacity a) (part_seed a) (part_advanced a))
  else if bool_decide (flag = "--queue-capacity"%string) then set (fun v a =>
    mkPartArgs (part_producers a) (part_shards a) (part_orders a) v (part_seed a) (part_advanced a))
  else if bool_decide (flag = "--seed"%string) then Some (fun value a =>
    v ← part_parseU64 value;
    Some (mkPartArgs (part_producers a) (part_shards a) (part_orders a) (part_capacity a) v (part_advanced a)))
  else None.

Definition part_parseArgs (argv : list string) : Parsed PartArgs :=
  match parse_flags part_plain part_valued (fun _ _ => Exit 1) argv PartArgs_default with
  | Parsed_args a =>
    if (part_producers a =? 0) || (part_orders a =? 0) || (part_capacity a =? 0) || (part_shards a =? 0)
       || negb (Z.land (part_shards a) (u64 (part_shards a - 1)) =? 0)
    then Exit 1
    else if UINT64_MAX / part_producers a <? part_orders a then Exit 1
    else Parsed_args a
  | Exit code => Exit code
  end.

Record part_args_ok (a : PartArgs) : Prop := {
  pa_producers : is_u64 (part_producers a);
  pa_shards : is_u64 (part_shards a);
  pa_orders : is_u64 (part_orders a);
  pa_capacity : is_u64 (part_capacity a);
  pa_seed : is_u64 (part_seed a)
}.

(** The arguments are ones the engine's constructor accepts, and the ids of all
    orders fit. *)
Lemma part_parseArgs_ok argv a :
  part_parseArgs argv = Parsed_args a ->
  part_args_ok a /\ 0 < part_producers a /\ 0 < part_orders a /\ part_producers a * part_orders a < 2 ^ 64
  /\ exists p, PartitionedEngine_new (part_shards a) (part_capacity a) RiskLimits.default 200 = Some p.
Proof.
  unfold part_parseArgs. destruct (parse_flags _ _ _ _ _) as [a0|] eqn:E; [|done].
  assert (part_args_ok a0) as Ha.
  { revert E. apply parse_flags_ok; [| |done|by split].
    - intros flag b b' []. unfold part_plain. repeat case_bool_decide; try done; by intros [= <-].
    - intros flag set value b b' []. unfold part_valued.
      repeat case_bool_decide; try done; intros [= <-] (v & Hv & [= <-])%bind_Some; rewrite ?parseSize_u64 in Hv;
        apply parseU64_unsigned_range in Hv; by split. }
  destruct (_ || _) eqn:Eo; [done|]. destruct (Z.ltb_spec (UINT64_MAX / part_producers a0) (part_orders a0)) as [|Hle]; [done|].
  intros [= <-]. destruct Ha as [Hp Hs Ho Hc Hsd]. split; [by split|].
  rewrite !orb_false_iff, !Z.eqb_neq, negb_false_iff, Z.eqb_eq in Eo. destruct Eo as ((((E1 & E2) & E3) & E4) & E5).
  unfold is_u64 in *. split_and!; [lia|lia| |].
  - assert (part_producers a0 * (UINT64_MAX / part_producers a0) <= UINT64_MAX) by (apply Z.mul_div_le; lia).
    unfold UINT64_MAX in *. nia.
  - unfold PartitionedEngine_new. rewrite u64_small in E5 by range.
    rewrite (proj2 (Z.eqb_neq _ _) E4), E5. cbn. unfold MPMCQueue_new.
    rewrite (proj2 (Z.eqb_neq _ _) E3). cbn. by eexists.
Qed.

(** * The producers *)

Definition symbol_named (text : list Z) : Symbol := symbol_of (Some text).
(** AAPL, MSFT, GOOG, AMZN, TSLA, NVDA, META, ORCL. *)
Definition main_symbols : list Symbol :=
  symbol_named <$> [[65; 65; 80; 76]; [77; 83; 70; 84]; [71; 79; 79; 71]; [65; 77; 90; 78];
                    [84; 83; 76; 65]; [78; 86; 68; 65]; [77; 69; 84; 65]; [79; 82; 67; 76]].

Section driver.
Context `{Random Rng} (args : PartArgs).

(** The orders of a producer from [id] on. *)
Fixpoint producer_plan (n : nat) (id : Z) (rng : Rng) : result (list (Symbol * Order.t)) :=
  match n with
  | O => Ok []
  | S n =>
    '(index, rng) ← draw size_type 0 (Z.of_nat (length main_symbols) - 1) rng;
    symbol ← defined (main_symbols !! Z.to_nat index);
    '(order, rng) ← generateOrder id rng (part_advanced args);
    rest ← producer_plan n (u64 (id + 1)) rng;
    Ok ((symbol, order) :: rest)
  end.

Definition producer_orders (producer_index : Z) : result (list (Symbol * Order.t)) :=
  producer_plan (Z.to_nat (part_orders args)) (u64 (producer_index * part_orders args + 1))
    (seeded (u64 (part_seed args + producer_index * 0x9E3779B97F4A7C15))).

Lemma producer_plan_ok n : forall id rng,
  1 <= id -> id + Z.of_nat n <= 2 ^ 64 ->
  exists l, producer_plan n id rng = Ok l /\ length l = n
    /\ Forall (fun x => x.1 ∈ main_symbols /\ Order.in_range x.2) l
    /\ (fun x => Order.id x.2) <$> l = seqZ id (Z.of_nat n).
Proof.
  induction n as [|n IH]; intros id rng Hid Hn; cbn [producer_plan]; [by exists []|].
  destruct (draw_ok size_type 0 (Z.of_nat (length main_symbols) - 1) rng) as (ix & r1 & -> & Hix); [cbn; lia|].
  cbn [mbind result_bind]. destruct (lookup_lt_is_Some_2 main_symbols (Z.to_nat ix)) as [symbol Hsym]; [lia|].
  rewrite Hsym. cbn [defined mbind result_bind].
  destruct (generateOrder_ok id r1 (part_advanced args)) as (order & r2 & -> & Hq); [lia|]. cbn [mbind result_bind].
  assert (exists l, producer_plan n (u64 (id + 1)) r2 = Ok l /\ length l = n
    /\ Forall (fun x => x.1 ∈ main_symbols /\ Order.in_range x.2) l
    /\ (fun x => Order.id x.2) <$> l = seqZ (id + 1) (Z.of_nat n)) as (l & -> & Hlen & Hl & Hids).
  { destruct n as [|n]; [by exists []|]. rewrite u64_small by range. apply IH; lia. }
  cbn [mbind result_bind]. eexists. split; [done|]. destruct Hq. split_and!; [by cbn; rewrite Hlen| |].
  - constructor; [|done]. split; [by eapply list_elem_of_lookup_2|done].
  - rewrite fmap_cons, Hids. cbn [snd]. rewrite quoted_id. replace (Z.of_nat (S n)) with (Z.succ (Z.of_nat n)) by lia.
    rewrite (seqZ_cons id) by lia. do 2 f_equal; lia.
Qed.

(** ** All producers *)

Fixpoint main_plans (count : nat) (producer_index : Z) : result (list (list (Symbol * Order.t))) :=
  match count with
  | O => Ok []
  | S count =>
    orders ← producer_orders producer_index;
    rest ← main_plans count (producer_index + 1);
    Ok (orders :: rest)
  end.

(** The ids of all producers are consecutive. *)
Lemma main_plans_ok count : part_args_ok args -> forall k,
  0 <= k -> (k + Z.of_nat count) * part_orders args < 2 ^ 64 ->
  exists plans, main_plans count k = Ok plans
    /\ Forall (fun x => x.1 ∈ main_symbols /\ Order.in_range x.2) (concat plans)
    /\ (fun x => Order.id x.2) <$> concat plans = seqZ (k * part_orders args + 1) (Z.of_nat count * part_orders args).
Proof.
  intros [_ _ Ho _ _]. unfold is_u64 in Ho. induction count as [|count IH]; intros k Hk Hn; cbn [main_plans].
  { by exists []. }
  unfold producer_orders at 1. rewrite (u64_small (k * _ + 1)) by (split; nia).
  destruct (producer_plan_ok (Z.to_nat (part_orders args)) (k * part_orders args + 1)
    (seeded (u64 (part_seed args + k * 0x9E3779B97F4A7C15)))) as (l & -> & Hlen & Hl & Hids); [nia|nia|].
  destruct (IH (k + 1)) as (plans & -> & Hp & Hids'); [lia|nia|]. cbn [mbind result_bind].
  eexists. split; [done|]. cbn [concat]. split; [by apply Forall_app|].
  rewrite fmap_app, Hids, Hids', Z2Nat.id by lia.
  replace (Z.of_nat (S count) * part_orders args) with (part_orders args + Z.of_nat count * part_orders args) by lia.
  rewrite seqZ_app by nia. f_equal. f_equal. lia.
Qed.

End driver.


(** [invariants_ok], as [main] computes it after [waitUntilIdle]. *)
Fixpoint validate_all (p : PartitionedEngine) (symbols : list Symbol) (ok : bool) : result bool :=
  match symbols with
  | [] => Ok ok
  | symbol :: symbols =>
    _ ← partitioned_snapshot p symbol;
    valid ← (if ok then partitioned_validate p symbol else Ok false);
    validate_all p symbols valid
  end.
Definition main_exit_code (total_orders : Z) (ingress_failed : bool) (p : PartitionedEngine) : result Z :=
  let stats := partitioned_stats p in
  let ok := negb ingress_failed && (st_submitted stats =? total_orders) && (st_processed stats =? total_orders)
            && (st_pending stats =? 0) in
  ok ← validate_all p main_symbols ok;
  Ok (if (ok : bool) then 0 else 2).

Lemma validate_all_true p symbols :
  (forall symbol, exists snapshot, partitioned_snapshot p symbol = Ok snapshot) ->
  (forall symbol, partitioned_validate p symbol = Ok true) -> validate_all p symbols true = Ok true.
Proof.
  intros Hs Hv. induction symbols as [|symbol symbols IH]; cbn [validate_all]; [done|].
  destruct (Hs symbol) as [snapshot ->]. rewrite Hv. done.
Qed.


