(* ===== verification/BenchmarkPartitioned.v ===== *)
(** [benchmark_partitioned.cpp]: one list of orders, dealt out to 1, 2, 4 and 8 producer
    threads in front of as many shards, each run validated.  The printed timings and
    percentiles are left out. *)

From stdpp Require Import strings.
From S2P Require Import Prelude.
From S2P Require Import Arguments.
From S2P Require Import OrderTypes.
From S2P Require Import Risk.
From S2P Require Import BookQueries.
From S2P Require Import Session.
From S2P Require Import Symbols.
From S2P Require Import Mpmc.
From S2P Require Import Partitioned.
From S2P Require Import PartitionedProps.
From S2P Require Import Generators.
From S2P Require Import IngressDriver.
From S2P Require Import PartitionedMain.

#[local] Open Scope Z_scope.

(** * Arguments *)

Record BenchArgs : Type := mkBenchArgs { ba_orders : Z; ba_capacity : Z; ba_seed : Z }.
Definition BenchArgs_default : BenchArgs := mkBenchArgs 500000 4096 12345.

Definition bench_plain (flag : string) (a : BenchArgs) : option (Parsed BenchArgs) :=
  if bool_decide (flag = "--help"%string) then Some (Exit 0) else None.

Definition bench_valued (flag : string) : option (string -> BenchArgs -> option BenchArgs) :=
  let set (f : Z -> BenchArgs -> BenchArgs) := Some (fun value a => v ← parseU64_unsigned value; Some (f v a)) in
  if bool_decide (flag = "--orders"%string) then set (fun v a => mkBenchArgs v (ba_capacity a) (ba_seed a))
  else if bool_decide (flag = "--queue-capacity"%string) then set (fun v a => mkBenchArgs (ba_orders a) v (ba_seed a))
  else if bool_decide (flag = "--seed"%string) then set (fun v a => mkBenchArgs (ba_orders a) (ba_capacity a) v)
  else None.

Definition bench_parseArgs (argv : list string) : Parsed BenchArgs :=
  match parse_flags bench_plain bench_valued (fun _ _ => Exit 1) argv BenchArgs_default with
  | Parsed_args a => if (ba_orders a =? 0) || (ba_capacity a =? 0) then Exit 1 else Parsed_args a
  | Exit code => Exit code
  end.

Lemma bench_parseArgs_ok argv a :
  bench_parseArgs argv = Parsed_args a -> 0 < ba_orders a < 2 ^ 64 /\ 0 < ba_capacity a < 2 ^ 64.
Proof.
  unfold bench_parseArgs. destruct (parse_flags _ _ _ _ _) as [b|] eqn:E; [|done].
  assert (is_u64 (ba_orders b) /\ is_u64 (ba_capacity b)) as [Ho Hc].
  { revert E. apply (parse_flags_ok _ _ _ (fun b => is_u64 (ba_orders b) /\ is_u64 (ba_capacity b))); [| |done|by split].
    - intros flag b1 b2 Hb. unfold bench_plain. by case_bool_decide.
    - intros flag set value b1 b2 []. unfold bench_valued.
      repeat case_bool_decide; try done; intros [= <-] (v & Hv%parseU64_unsigned_range & [= <-])%bind_Some; by split. }
  destruct (_ || _) eqn:Ez; [done|]. intros [= <-]. apply orb_false_iff in Ez as [E1%Z.eqb_neq E2%Z.eqb_neq].
  unfold is_u64 in *. lia.
Qed.

(** * The orders *)

Section inputs.
Context `{Random Rng}.

(** The loop of [generateInputs] from [i] on. *)
Fixpoint generate_from (n : nat) (i : Z) (rng : Rng) : result (list (Symbol * Order.t)) :=
  match n with
  | O => Ok []
  | S n =>
    '(order, rng) ← draw_order 9950 10050 200 false (u64 (i + 1)) rng;
    '(index, rng) ← draw size_type 0 (Z.of_nat (length main_symbols) - 1) rng;
    symbol ← defined (main_symbols !! Z.to_nat index);
    rest ← generate_from n (i + 1) rng;
    Ok ((symbol, order) :: rest)
  end.
Definition generateInputs (count seed : Z) : result (list (Symbol * Order.t)) :=
  generate_from (Z.to_nat count) 0 (seeded seed).

Lemma generate_from_ok n : forall i rng,
  0 <= i -> i + Z.of_nat n < 2 ^ 64 ->
  exists l, generate_from n i rng = Ok l /\ Forall (fun x => Order.in_range x.2) l
    /\ (fun x => Order.id x.2) <$> l = seqZ (i + 1) (Z.of_nat n).
Proof.
  induction n as [|n IH]; intros i rng Hi Hn; cbn [generate_from]; [by exists []|]. rewrite u64_small by range.
  destruct (draw_order_ok 9950 10050 200 false (i + 1) rng) as (order & r1 & -> & Hq); [lia..|]. cbn [mbind result_bind].
  destruct (draw_ok size_type 0 (Z.of_nat (length main_symbols) - 1) r1) as (ix & r2 & -> & Hix); [cbn; lia|].
  cbn [mbind result_bind]. destruct (lookup_lt_is_Some_2 main_symbols (Z.to_nat ix)) as [symbol Hsym]; [lia|].
  rewrite Hsym. destruct (IH (i + 1) r2) as (l & -> & Hl & Hids); [lia|lia|]. cbn [mbind result_bind defined].
  eexists. split; [done|]. destruct Hq. split; [by constructor|].
  rewrite fmap_cons, Hids. cbn [snd]. rewrite quoted_id, Nat2Z.inj_succ, (seqZ_cons (i + 1)) by lia.
  do 2 f_equal; lia.
Qed.
End inputs.

(** * Dealing them out *)

(** [for (i = producer; i < inputs.size(); i += producers)]: as many rounds as there are
    inputs are enough.  ([i] does not overflow: [inputs] fits in memory.) *)
Fixpoint stride {A} (rounds : nat) (inputs : list A) (i producers : nat) : list A :=
  match rounds, inputs !! i with
  | S rounds, Some x => x :: stride rounds inputs (i + producers) producers
  | _, _ => []
  end.
Definition producer_inputs {A} (inputs : list A) (producers producer : nat) : list A :=
  stride (length inputs) inputs producer producers.

Section stride.
Context {A : Type}.
Implicit Types (inputs : list A).

Lemma stride_beyond rounds inputs i producers : (length inputs <= i)%nat -> stride rounds inputs i producers = [].
Proof. intros Hi. destruct rounds; [done|]. cbn. by rewrite lookup_ge_None_2. Qed.

(** More rounds than there are inputs left change nothing. *)
Lemma stride_rounds producers inputs : (0 < producers)%nat -> forall r1 r2 i,
  (length inputs - i <= r1)%nat -> (length inputs - i <= r2)%nat -> stride r1 inputs i producers = stride r2 inputs i producers.
Proof.
  intros Hp. induction r1 as [|r1 IH]; intros [|r2] i H1 H2; cbn [stride]; try done.
  - by rewrite lookup_ge_None_2 by lia.
  - by rewrite lookup_ge_None_2 by lia.
  - case_match; [|done]. f_equal. apply IH; lia.
Qed.

Lemma stride_cons rounds x inputs i producers :
  stride rounds (x :: inputs) (S i) producers = stride rounds inputs i producers.
Proof.
  revert i. induction rounds as [|r IH]; intros i; [done|]. cbn [stride].
  change ((x :: inputs) !! S i) with (inputs !! i). destruct (inputs !! i); [|done]. f_equal. apply IH.
Qed.

Lemma producer_inputs_cons x inputs producers k :
  (0 < producers)%nat -> producer_inputs (x :: inputs) producers (S k) = producer_inputs inputs producers k.
Proof.
  intros Hp. unfold producer_inputs. rewrite stride_cons. cbn [length]. apply stride_rounds; lia.
Qed.

Lemma producer_inputs_first x inputs k :
  producer_inputs (x :: inputs) (S k) 0 = x :: producer_inputs inputs (S k) k.
Proof. unfold producer_inputs. cbn. f_equal. apply stride_cons. Qed.

(** Together the producers have every input once. *)
Lemma producers_share inputs producers :
  (0 < producers)%nat -> concat (producer_inputs inputs producers <$> seq 0 producers) ≡ₚ inputs.
Proof.
  destruct producers as [|k]; [lia|]. intros _. induction inputs as [|x inputs IH].
  - assert (forall l, concat (producer_inputs ([] : list A) (S k) <$> l) = []) as ->; [|done]. by induction l.
  - cbn [seq fmap list_fmap concat]. rewrite producer_inputs_first. cbn [app]. constructor. etrans; [|exact IH].
    rewrite <- fmap_S_seq, <- list_fmap_compose.
    assert ((producer_inputs (x :: inputs) (S k) ∘ S) <$> seq 0 k = producer_inputs inputs (S k) <$> seq 0 k) as ->.
    { apply list_fmap_ext. intros _ i _. apply producer_inputs_cons. lia. }
    rewrite seq_S, fmap_app, concat_app. cbn. rewrite app_nil_r.
    apply Permutation_app_comm.
Qed.
End stride.

(** * The runs *)

Definition configurations : list (nat * Z) := [(1%nat, 1); (2%nat, 2); (4%nat, 4); (8%nat, 8)].

(** [result.valid] of [runOnce]: a book is only asked while the result is still good. *)
Fixpoint validate_books (p : PartitionedEngine) (symbols : list Symbol) (valid : bool) : result bool :=
  match symbols with
  | [] => Ok valid
  | symbol :: symbols =>
    valid ← (if valid then partitioned_validate p symbol else Ok false);
    validate_books p symbols valid
  end.
Definition run_valid (inputs : list (Symbol * Order.t)) (d : Driver) : result bool :=
  let p := engine (d_sys d) in
  let stats := partitioned_stats p in
  let size := Z.of_nat (length inputs) in
  validate_books p main_symbols
    (negb (d_failed d) && (st_submitted stats =? size) && (st_processed stats =? size) && (st_pending stats =? 0)).

(** [main] between two runs, or inside one with the engine and the threads of [runOnce];
    [fine] is [all_valid]. *)
Record Bench : Type := mkBench { to_run : list (nat * Z); running : option Driver; fine : bool }.

Definition threads_of (inputs : list (Symbol * Order.t)) (producers : nat) : list (list (Symbol * Order.t)) :=
  producer_inputs inputs producers <$> seq 0 producers.

(** The producers wait for [start]; main for their end and for idleness: [waitUntilIdle] is
    taken to return once nothing is pending (see [waitUntilIdle_can_miss_wakeup]). *)
Inductive bench_step (args : BenchArgs) (inputs : list (Symbol * Order.t)) (b : Bench) : Bench -> Prop :=
| run_begins producers shards rest p :
    running b = None -> to_run b = (producers, shards) :: rest ->
    PartitionedEngine_new shards (ba_capacity args) RiskLimits.default 200 = Some p ->
    bench_step args inputs b
      (mkBench rest (Some (mkDriver (mkSystem p [] ∅ [] [] []) (threads_of inputs producers) false)) (fine b))
| run_goes_on d d' :
    running b = Some d -> driver_step d d' -> bench_step args inputs b (mkBench (to_run b) (Some d') (fine b))
| run_ends d valid :
    running b = Some d -> drained d -> run_valid inputs d = Ok valid ->
    bench_step args inputs b (mkBench (to_run b) None (fine b && valid)).

Definition bench_main (b : Bench) : option Z :=
  match running b, to_run b with
  | None, [] => Some (if fine b then 0 else 2)
  | _, _ => None
  end.

Lemma validate_books_true p symbols :
  (forall symbol, partitioned_validate p symbol = Ok true) -> validate_books p symbols true = Ok true.
Proof. intros Hv. induction symbols as [|symbol symbols IH]; cbn [validate_books]; [done|]. by rewrite Hv. Qed.

Section runs.
Context (args : BenchArgs) (inputs : list (Symbol * Order.t)).
Hypothesis (Hcap : 0 < ba_capacity args) (Hrange : Forall (fun x => Order.in_range x.2) inputs).
Hypothesis (Hfew : Z.of_nat (length inputs) < max_resting).
#[local] Abbreviation done_well := (fun b => bench_main b = Some 0).

Lemma threads_share producers : (0 < producers)%nat -> concat (threads_of inputs producers) ≡ₚ inputs.
Proof using Type. apply producers_share. Qed.

(** One run ends, valid, whatever its threads do. *)
Lemma run_completes producers shards rest p :
  (0 < producers)%nat -> 0 <= shards ->
  PartitionedEngine_new shards (ba_capacity args) RiskLimits.default 200 = Some p ->
  inevitably (bench_step args inputs) done_well (mkBench rest None true) ->
  inevitably (bench_step args inputs) done_well
    (mkBench rest (Some (mkDriver (mkSystem p [] ∅ [] [] []) (threads_of inputs producers) false)) true).
Proof using Hcap Hrange Hfew.
  intros Hp Hs Hnew Hrest. set (plans := threads_of inputs producers).
  pose proof (threads_share producers Hp) as Hshare. fold plans in Hshare.
  assert (Forall (fun x => Order.in_range x.2) (concat plans)) as Hr by (by rewrite Hshare).
  assert (Z.of_nat (length (concat plans)) < max_resting) as Hn by (by rewrite Hshare).
  assert (RiskLimits.in_range RiskLimits.default) as Hl by (by apply (bool_decide_unpack _)).
  assert (0 <= ba_capacity args) as Hc by lia.
  assert (forall d, drained d -> driver_reachable p plans d -> run_valid inputs d = Ok true) as Hvalid.
  { intros d Hd Hreach. pose proof (drained_passes _ _ _ _ _ _ Hnew Hs Hc Hl Hr Hn d Hd Hreach) as Hok.
    rewrite Hshare in Hok. destruct Hok. unfold run_valid. rewrite ps_failed, ps_submitted, ps_processed, ps_pending.
    rewrite !Z.eqb_refl. by apply validate_books_true. }
  assert (driver_reachable p plans (mkDriver (mkSystem p [] ∅ [] [] []) plans false)) as H0 by constructor.
  pose proof (driver_drains _ _ _ _ _ _ Hnew Hs Hc Hl Hr Hn) as Hd. revert H0.
  induction Hd as [d [Hd _]|d d' Hstep _ IH]; intros Hreach.
  - eapply inevitably_later; [by eapply run_ends; [done|done|apply Hvalid]|].
    intros b' [ | d1 d2 [= <-] Hstep|d1 valid [= <-] _ Hv]; [done|by eapply drained_stuck in Hstep|].
    rewrite Hvalid in Hv by done. by injection Hv as <-.
  - eapply inevitably_later; [by eapply run_goes_on|].
    intros b' [ | d1 d2 [= <-] Hstep'|d1 valid [= <-] Hdr _]; [done| |by eapply drained_stuck in Hstep].
    apply IH; [done|]. by eapply driver_next.
Qed.

Lemma all_runs_complete configs :
  Forall (fun '(producers, shards) => (0 < producers)%nat /\ 0 < shards /\ Z.land shards (shards - 1) = 0) configs ->
  inevitably (bench_step args inputs) done_well (mkBench configs None true).
Proof using Hcap Hrange Hfew.
  induction 1 as [|[producers shards] rest (Hp & Hs & Hpow) _ IH]; [by apply inevitably_now|].
  assert (exists p, PartitionedEngine_new shards (ba_capacity args) RiskLimits.default 200 = Some p) as [p Hnew].
  { unfold PartitionedEngine_new, MPMCQueue_new. rewrite Hpow, (proj2 (Z.eqb_neq shards 0)), (proj2 (Z.eqb_neq (ba_capacity args) 0)) by lia. by eexists. }
  eapply inevitably_later; [by eapply run_begins|].
  intros b' [producers' shards' rest' p' _ [= <- <- <-] Hp'|d d' [=]|d valid [=]]. rewrite Hnew in Hp'. injection Hp' as <-.
  apply (run_completes producers shards); (done || lia).
Qed.
End runs.

(** The partitioned benchmark passes.  For all accepted arguments (fewer than 2^32
    orders) the inputs are generated without fault, with ids 1, 2, ...; and in every
    schedule of the threads of the four runs - 1, 2, 4 and 8 producers that take the
    inputs in turns, with as many shards - each run comes to its end with every input
    submitted and processed and all books intact, and [main] returns 0 (if the wait
    for idleness does not miss its wake-up). *)
Theorem benchmark_partitioned_passes `{Random Rng} argv args :
  bench_parseArgs argv = Parsed_args args -> ba_orders args < max_resting ->
  exists inputs, generateInputs (ba_orders args) (ba_seed args) = Ok inputs
    /\ (fun x => Order.id x.2) <$> inputs = seqZ 1 (ba_orders args)
    /\ inevitably (bench_step args inputs) (fun b => bench_main b = Some 0) (mkBench configurations None true).
Proof.
  intros [Ho Hc]%bench_parseArgs_ok Hfew. unfold generateInputs.
  destruct (generate_from_ok (Z.to_nat (ba_orders args)) 0 (seeded (ba_seed args))) as (inputs & -> & Hr & Hids); [lia|lia|].
  rewrite Z2Nat.id in Hids by lia. exists inputs. split_and!; [done..|]. apply all_runs_complete; [lia|done| |].
  - apply (f_equal length) in Hids. rewrite length_fmap, length_seqZ in Hids. lia.
  - repeat constructor; lia.
Qed.

Lemma benchmark_partitioned_passes_witness :
  let argv := ["--orders"; "5"; "--queue-capacity"; "1"; "--seed"; "7"]%string in
  bench_parseArgs argv = Parsed_args (mkBenchArgs 5 1 7)
  /\ exists inputs, generateInputs (Rng := Z) 5 7 = Ok inputs /\ length inputs = 5%nat
       /\ length <$> threads_of inputs 2 = [3; 2]%nat
       /\ inevitably (bench_step (mkBenchArgs 5 1 7) inputs) (fun b => bench_main b = Some 0) (mkBench configurations None true).
Proof.
  cbv zeta. split; [by vm_compute|].
  destruct (benchmark_partitioned_passes (Rng := Z) ["--orders"; "5"; "--queue-capacity"; "1"; "--seed"; "7"]%string
    (mkBenchArgs 5 1 7)) as (inputs & Hi & _ & Hd); [by vm_compute|by vm_compute|].
  exists inputs. split; [exact Hi|]. vm_compute in Hi. injection Hi as <-. split_and!; [done|done|exact Hd].
Defined.
