(* ===== verification/MpmcMain.v ===== *)
(** [mpmc_matching_main.cpp]: producers and workers around one blocking queue and the
    sharded engine.

    A thread moves at each access to something shared: the id counter, the queue's
    critical section, a shard's mutex, the trade log, the counters.  A thread whose
    wait predicate is false does not move; that no sleeper misses its wake-up is
    [mpmc_no_lost_wakeup]. *)

From stdpp Require Import strings.
From S2P Require Import Prelude.
From S2P Require Import Arguments.
From S2P Require Import OrderTypes.
From S2P Require Import OrderBook.
From S2P Require Import Risk.
From S2P Require Import MatchingEngine.
From S2P Require Import Market.
From S2P Require Import Session.
From S2P Require Import SessionRuns.
From S2P Require Import MatchFacts.
From S2P Require Import EngineProps.
From S2P Require Import Symbols.
From S2P Require Import Mpmc.
From S2P Require Import Sharded.
From S2P Require Import Generators.

#[local] Open Scope Z_scope.

(** * Arguments *)

Record MpmcArgs : Type := mkMpmcArgs {
  mm_producers : Z;
  mm_consumers : Z;
  mm_orders : Z;
  mm_capacity : Z
}.
Definition MpmcArgs_default : MpmcArgs := mkMpmcArgs 4 4 20000 4096.

(** [std::stoul]: what follows the digits is ignored; [None] is an exception. *)
Definition stoul (value : string) : option Z := fst <$> strtoull value.

Definition mpmc_flag (flag : string) : option (Z -> MpmcArgs -> MpmcArgs) :=
  if bool_decide (flag = "--producers"%string) then
    Some (fun v a => mkMpmcArgs v (mm_consumers a) (mm_orders a) (mm_capacity a))
  else if bool_decide (flag = "--consumers"%string) then
    Some (fun v a => mkMpmcArgs (mm_producers a) v (mm_orders a) (mm_capacity a))
  else if bool_decide (flag = "--orders-per-producer"%string) then
    Some (fun v a => mkMpmcArgs (mm_producers a) (mm_consumers a) v (mm_capacity a))
  else if bool_decide (flag = "--queue-capacity"%string) then
    Some (fun v a => mkMpmcArgs (mm_producers a) (mm_consumers a) (mm_orders a) v)
  else None.

(** Unknown arguments, and a flag at the end without its value, are ignored. *)
Fixpoint mpmc_parse (argv : list string) (a : MpmcArgs) : option MpmcArgs :=
  match argv with
  | [] => Some a
  | flag :: rest =>
    match mpmc_flag flag with
    | None => mpmc_parse rest a
    | Some set =>
      match rest with
      | [] => Some a
      | value :: rest => v ← stoul value; mpmc_parse rest (set v a)
      end
    end
  end.
Definition mpmc_parseArgs (argv : list string) : option MpmcArgs := mpmc_parse argv MpmcArgs_default.

(** * Threads *)

(** AAPL, MSFT, GOOG, AMZN, TSLA, NVDA. *)
Definition mpmc_symbols : list Symbol :=
  (fun text => symbol_of (Some text)) <$>
    [[65; 65; 80; 76]; [77; 83; 70; 84]; [71; 79; 79; 71]; [65; 77; 90; 78]; [84; 83; 76; 65]; [78; 86; 68; 65]].

Record Shop : Type := mkShop {
  id_gen : Z;
  produced : Z;
  consumed : Z;
  trades_generated : Z;
  mm_queue : MPMCQueue (T := SymbolOrder);
  mm_engine : ShardedEngine
}.
Definition with_queue (sh : Shop) (q : MPMCQueue) : Shop :=
  mkShop (id_gen sh) (produced sh) (consumed sh) (trades_generated sh) q (mm_engine sh).
Definition with_book (sh : Shop) (e : ShardedEngine) : Shop :=
  mkShop (id_gen sh) (produced sh) (consumed sh) (trades_generated sh) (mm_queue sh) e.

Section demo.
Context `{Random Rng}.

(** [left] orders are to be made after the one at hand. *)
Inductive Producer : Type :=
| Making (rng : Rng) (left : nat)
| Pushing (so : SymbolOrder) (rng : Rng) (left : nat)
| Counting (rng : Rng) (left : nat)
| ProducerExited.

Definition next_order (rng : Rng) (left : nat) : Producer :=
  match left with O => ProducerExited | S left => Making rng left end.

(** One order with the given id: symbol, side, price and quantity in this order. *)
Definition make_order (id : Z) (rng : Rng) : result (SymbolOrder * Rng) :=
  '(index, rng) ← draw size_type 0 (Z.of_nat (length mpmc_symbols) - 1) rng;
  symbol ← defined (mpmc_symbols !! Z.to_nat index);
  let '(buy, rng) := coin rng in
  '(price, rng) ← draw int64_type 9900 10100 rng;
  '(quantity, rng) ← draw uint32_type 1 100 rng;
  Ok (mkSymbolOrder symbol (limit_order id (if (buy : bool) then BUY else SELL) price quantity), rng).

(** [None]: the thread waits, or is gone. *)
Definition producer_step (sh : Shop) (p : Producer) : result (option (Shop * Producer)) :=
  match p with
  | Making rng left =>
    '(so, rng) ← make_order (id_gen sh) rng;
    Ok (Some (mkShop (u64 (id_gen sh + 1)) (produced sh) (consumed sh) (trades_generated sh)
                (mm_queue sh) (mm_engine sh), Pushing so rng left))
  | Pushing so rng left =>
    Ok ('(pushed, q) ← push (mm_queue sh) so;
        Some (with_queue sh q, if (pushed : bool) then Counting rng left else ProducerExited))
  | Counting rng left =>
    Ok (Some (mkShop (id_gen sh) (u64 (produced sh + 1)) (consumed sh) (trades_generated sh)
                (mm_queue sh) (mm_engine sh), next_order rng left))
  | ProducerExited => Ok None
  end.

(** [n] is what [submit] is going to return. *)
Inductive Worker : Type :=
| Popping
| Submitting (so : SymbolOrder)
| Recording (symbol : Symbol) (trades : list Trade.t) (n : Z)
| Applied
| WorkerExited.

Definition worker_step (sh : Shop) (w : Worker) : result (option (Shop * Worker)) :=
  match w with
  | Popping =>
    Ok ('(out, q) ← pop (mm_queue sh);
        Some (with_queue sh q, match out with Some so => Submitting so | None => WorkerExited end))
  | Submitting so =>
    '(trades, e) ← locked_submit (mm_engine sh) (so_symbol so) (so_order so) [];
    Ok (Some (with_book sh e, Recording (so_symbol so) trades (Z.of_nat (length trades))))
  | Recording symbol (t :: trades) n =>
    Ok (Some (with_book sh (record_trade (mm_engine sh) symbol t), Recording symbol trades n))
  | Recording symbol [] n =>
    Ok (Some (mkShop (id_gen sh) (produced sh) (consumed sh) (u64 (trades_generated sh + n))
                (mm_queue sh) (mm_engine sh), Applied))
  | Applied =>
    Ok (Some (mkShop (id_gen sh) (produced sh) (u64 (consumed sh + 1)) (trades_generated sh)
                (mm_queue sh) (mm_engine sh), Popping))
  | WorkerExited => Ok None
  end.

Inductive MainPhase : Type := JoiningProducers | JoiningConsumers | Summary.

Record Demo : Type := mkDemo {
  shop : Shop;
  makers : list Producer;
  workers : list Worker;
  main : MainPhase
}.

(** Producer [k], with its own random engine. *)
Definition producer_start (args : MpmcArgs) (k : nat) : Producer :=
  next_order (seeded (u64 (0xC0FFEE0000 + Z.of_nat k))) (Z.to_nat (mm_orders args)).

Definition demo_new (args : MpmcArgs) (q : MPMCQueue) : Demo :=
  mkDemo (mkShop 1 0 0 0 q (ShardedEngine_new 200))
    (producer_start args <$> seq 0 (Z.to_nat (mm_producers args)))
    (replicate (Z.to_nat (mm_consumers args)) Popping) JoiningProducers.

Inductive demo_step (d : Demo) : Demo -> Prop :=
| maker_moves k p sh p' :
    makers d !! k = Some p -> producer_step (shop d) p = Ok (Some (sh, p')) ->
    demo_step d (mkDemo sh (<[k := p']> (makers d)) (workers d) (main d))
| worker_moves k w sh w' :
    workers d !! k = Some w -> worker_step (shop d) w = Ok (Some (sh, w')) ->
    demo_step d (mkDemo sh (makers d) (<[k := w']> (workers d)) (main d))
| main_closes :
    main d = JoiningProducers -> Forall (eq ProducerExited) (makers d) ->
    demo_step d (mkDemo (with_queue (shop d) (close (mm_queue (shop d)))) (makers d) (workers d) JoiningConsumers)
| main_ends :
    main d = JoiningConsumers -> Forall (eq WorkerExited) (workers d) ->
    demo_step d (mkDemo (shop d) (makers d) (workers d) Summary).

Inductive demo_reachable (d0 : Demo) : Demo -> Prop :=
| demo_start : demo_reachable d0 d0
| demo_next d d' : demo_reachable d0 d -> demo_step d d' -> demo_reachable d0 d'.
End demo.

(** What is printed of a symbol at the end. *)
Record SymbolLine : Type := mkSymbolLine {
  ln_symbol : Symbol;
  ln_resting : Z;
  ln_bid : option Z;
  ln_ask : option Z;
  ln_trades : Z;
  ln_latest : option (Z * Z)
}.
Definition symbol_line (e : ShardedEngine) (symbol : Symbol) : result SymbolLine :=
  snap ← sharded_snapshot e symbol;
  let log := sharded_log e in
  Ok (mkSymbolLine symbol (ss_order_count snap) (ss_best_bid snap) (ss_best_ask snap) (log_count log symbol)
        ((fun t => (Trade.price t, Trade.quantity t)) <$> last (recent log symbol 3))).
