(* ===== verification/MpmcMainProps.v ===== *)
(** The run of [mpmc_matching_main]: it ends, and what it has then done. *)

From Stdlib Require Import Relation_Operators Wellfounded Wf_nat.
From stdpp Require Import strings.
From S2P Require Import Prelude.
From S2P Require Import Arguments.
From S2P Require Import OrderTypes.
From S2P Require Import OrderBook.
From S2P Require Import BookQueries.
From S2P Require Import Risk.
From S2P Require Import MatchingEngine.
From S2P Require Import Market.
From S2P Require Import Session.
From S2P Require Import SessionRuns.
From S2P Require Import MatchFacts.
From S2P Require Import EngineProps.
From S2P Require Import Symbols.
From S2P Require Import Mpmc.
From S2P Require Import Sharded.
From S2P Require Import Generators.
From S2P Require Import MpmcMain.

#[local] Open Scope Z_scope.

Section demo.
Context `{Random Rng}.
Implicit Types (d : Demo (Rng := Rng)) (p : Producer (Rng := Rng)).

(** * No run goes on for ever *)

Definition producer_work p : Z :=
  match p with
  | Making _ left => 8 * Z.of_nat left + 8
  | Pushing _ _ left => 8 * Z.of_nat left + 7
  | Counting _ left => 8 * Z.of_nat left + 1
  | ProducerExited => 0
  end.
Definition worker_work (w : Worker) : Z :=
  match w with Popping => 1 | Submitting _ => 5 | Recording _ _ _ => 4 | Applied => 3 | WorkerExited => 0 end.
Definition main_work (m : MainPhase) : Z :=
  match m with JoiningProducers => 2 | JoiningConsumers => 1 | Summary => 0 end.
Definition to_record (w : Worker) : Z :=
  match w with Recording _ trades _ => Z.of_nat (length trades) | _ => 0 end.

(** Work that does not depend on the number of trades, and trades to be recorded. *)
Definition work d : nat :=
  Z.to_nat (sum producer_work (makers d) + sum worker_work (workers d)
            + 5 * mpmc_size (mm_queue (shop d)) + main_work (main d)).
Definition backlog d : nat := Z.to_nat (sum to_record (workers d)).

Lemma work_parts d : 0 <= sum producer_work (makers d) /\ 0 <= sum worker_work (workers d) /\ 0 <= sum to_record (workers d).
Proof.
  split_and!; apply sum_nonneg, Forall_true; intros []; cbn; lia.
Qed.

Lemma next_order_work (rng : Rng) left : producer_work (next_order rng left) = 8 * Z.of_nat left.
Proof. destruct left; cbn; lia. Qed.

Lemma producer_step_work sh p sh' p' :
  producer_step sh p = Ok (Some (sh', p')) ->
  producer_work p' + 5 * mpmc_size (mm_queue sh') < producer_work p + 5 * mpmc_size (mm_queue sh).
Proof.
  destruct p as [rng left|so rng left|rng left|]; cbn.
  - intros ([so rng'] & _ & [= <- <-])%bind_Ok. cbn. lia.
  - intros [= ([pushed q] & Hp & [= <- <-])%bind_Some]. pose proof (push_cases (mm_queue sh) so) as Hc. rewrite Hp in Hc.
    destruct pushed; cbn; [destruct Hc as (_ & _ & ->); rewrite push_back_size|destruct Hc as [_ ->]]; lia.
  - intros [= <- <-]. rewrite next_order_work. cbn. lia.
  - done.
Qed.

Lemma worker_step_work sh w sh' w' :
  worker_step sh w = Ok (Some (sh', w')) ->
  let before := worker_work w + 5 * mpmc_size (mm_queue sh) in
  let after := worker_work w' + 5 * mpmc_size (mm_queue sh') in
  after < before \/ after = before /\ to_record w' < to_record w.
Proof.
  destruct w as [|so|symbol [|t trades] n| |]; cbn.
  - intros [= ([out q] & Hp & [= <- <-])%bind_Some]. pose proof (pop_cases (mm_queue sh)) as Hc. rewrite Hp in Hc.
    left. destruct out; cbn; [|destruct Hc as (_ & _ & ->); lia].
    destruct Hc as ([rest Hb] & ->). unfold mpmc_size. cbn. rewrite Hb. cbn [tail length]. lia.
  - intros ([trades e] & _ & [= <- <-])%bind_Ok. left. cbn. lia.
  - intros [= <- <-]. left. cbn. lia.
  - intros [= <- <-]. right. cbn. lia.
  - intros [= <- <-]. left. cbn. lia.
  - done.
Qed.

Lemma demo_step_work d d' :
  demo_step d d' -> (work d' < work d)%nat \/ work d' = work d /\ (backlog d' < backlog d)%nat.
Proof.
  pose proof (work_parts d). pose proof (work_parts d') as Hd'.
  intros Hs. unfold work, backlog.
  assert (0 <= mpmc_size (mm_queue (shop d')) /\ 0 <= main_work (main d')) as [? ?].
  { unfold mpmc_size. split; [lia|]. by destruct (main d'). }
  destruct Hs as [k p sh p' Hk Hs|k w sh w' Hk Hs|Hm _|Hm _]; cbn in *.
  - apply producer_step_work in Hs. rewrite (sum_insert _ _ _ _ _ Hk) in *. lia.
  - apply worker_step_work in Hs. cbn zeta in Hs. rewrite !(sum_insert _ _ _ _ _ Hk) in *. lia.
  - rewrite Hm in *. unfold mpmc_size in *. cbn in *. lia.
  - rewrite Hm in *. cbn in *. lia.
Qed.

Lemma demo_wf : well_founded (fun d' d => demo_step d d').
Proof.
  apply (wf_incl _ _ (fun d' d => slexprod nat nat lt lt (work d', backlog d') (work d, backlog d))).
  - intros d' d [Hl|[He Hl]]%demo_step_work; [by left|]. rewrite He. by right.
  - apply (wf_inverse_image _ _ (slexprod nat nat lt lt) (fun d => (work d, backlog d))).
    apply wf_slexprod; apply lt_wf.
Qed.

(** * Orders in flight *)

Definition anonymous (so : SymbolOrder) : SymbolOrder :=
  mkSymbolOrder (so_symbol so) (Order.with_id 0 (so_order so)).
Definition so_id (so : SymbolOrder) : Z := Order.id (so_order so).

(** What a producer is going to make, whatever the ids. *)
Fixpoint planned (n : nat) (rng : Rng) : list SymbolOrder :=
  match n with
  | O => []
  | S n => match make_order 0 rng with Ok (so, rng) => so :: planned n rng | Fault _ => [] end
  end.
Definition future p : list SymbolOrder :=
  match p with
  | Making rng left => planned (S left) rng
  | Pushing _ rng left | Counting rng left => planned left rng
  | ProducerExited => []
  end.
Definition offered p : list SymbolOrder := match p with Pushing so _ _ => [so] | _ => [] end.
Definition taken (w : Worker) : list SymbolOrder := match w with Submitting so => [so] | _ => [] end.
Definition unrecorded (w : Worker) : list (Symbol * list Trade.t) :=
  match w with Recording symbol (t :: ts) _ => [(symbol, t :: ts)] | _ => [] end.
Definition applied (a : Arena) : list SymbolOrder :=
  entered a ≫= fun x => match x.1.2 with Submit order => [mkSymbolOrder x.1.1 order] | _ => [] end.

Lemma make_order_ok id (rng : Rng) :
  0 < id < 2 ^ 64 ->
  exists so rng', make_order id rng = Ok (so, rng') /\ make_order 0 rng = Ok (anonymous so, rng')
    /\ so_id so = id /\ Order.in_range (so_order so).
Proof.
  intros Hid. unfold make_order.
  destruct (draw_ok size_type 0 (Z.of_nat (length mpmc_symbols) - 1) rng) as (ix & r1 & -> & Hix); [cbn; lia|].
  cbn [mbind result_bind]. destruct (lookup_lt_is_Some_2 mpmc_symbols (Z.to_nat ix)) as [symbol ->]; [cbn in *; lia|].
  cbn [defined mbind result_bind]. destruct (coin r1) as [buy r2].
  destruct (draw_ok int64_type 9900 10100 r2) as (price & r3 & -> & Hp); [lia|]. cbn [mbind result_bind].
  destruct (draw_ok uint32_type 1 100 r3) as (quantity & r4 & -> & Hq); [lia|]. cbn [mbind result_bind].
  eexists _, _. split_and!; [done|done|done|].
  destruct (limit_order_quoted 9900 10100 100 id (if buy then 0 else 1) price quantity) as [_ Hr _ _ _]; [lia..|].
  by destruct buy.
Qed.

Lemma planned_next (rng : Rng) n id so rng' :
  make_order id rng = Ok (so, rng') -> 0 < id < 2 ^ 64 -> planned (S n) rng = anonymous so :: planned n rng'.
Proof.
  intros Hm Hid. destruct (make_order_ok id rng Hid) as (so' & rng2 & E & E0 & _). rewrite Hm in E.
  injection E as <- <-. cbn. by rewrite E0.
Qed.

Lemma planned_length n : forall rng : Rng, length (planned n rng) = n.
Proof.
  induction n as [|n IH]; intros rng; [done|].
  destruct (make_order_ok 1 rng) as (so & rng' & Hm & _); [lia|]. rewrite (planned_next _ _ _ _ _ Hm) by lia.
  cbn. by rewrite IH.
Qed.

Lemma next_order_future (rng : Rng) left : future (next_order rng left) = planned left rng /\ offered (next_order rng left) = [].
Proof. by destruct left. Qed.

(** Where the orders are: [issued] lists them by id. *)
Record flow (plan : list SymbolOrder) (issued : list SymbolOrder) d (a : Arena) : Prop := {
  fl_issued : issued ≡ₚ applied a ++ (workers d ≫= taken) ++ buffer_ (mm_queue (shop d)) ++ (makers d ≫= offered);
  fl_ids : so_id <$> issued = seqZ 1 (Z.of_nat (length issued));
  fl_next : id_gen (shop d) = 1 + Z.of_nat (length issued);
  fl_range : Forall (fun so => Order.in_range (so_order so)) issued;
  fl_plan : (anonymous <$> issued) ++ (makers d ≫= future) ≡ₚ plan
}.

(** Who is where. *)
Record control d : Prop := {
  co_queue : mpmc_ok (mm_queue (shop d));
  co_closed : closed_ (mm_queue (shop d)) = true <-> main d <> JoiningProducers;
  co_joined : main d <> JoiningProducers -> Forall (eq ProducerExited) (makers d);
  co_drained : WorkerExited ∈ workers d -> main d <> JoiningProducers /\ buffer_ (mm_queue (shop d)) = [];
  co_ended : main d = Summary -> Forall (eq WorkerExited) (workers d)
}.

(** What the counters count. *)
Record counters (issued : list SymbolOrder) d (a : Arena) : Prop := {
  cn_produced : produced (shop d)
    = u64 (Z.of_nat (length issued)
           - sum (fun p => match p with Pushing _ _ _ | Counting _ _ => 1 | _ => 0 end) (makers d));
  cn_consumed : consumed (shop d)
    = u64 (Z.of_nat (length (applied a))
           - sum (fun w => match w with Recording _ _ _ | Applied => 1 | _ => 0 end) (workers d));
  cn_trades : trades_generated (shop d)
    = u64 (sum (fun x => Z.of_nat (length x.2)) (entered a)
           - sum (fun w => match w with Recording _ _ n => n | _ => 0 end) (workers d))
}.

(** The sharded engine is where its threads could have brought it. *)
Record engaged d (a : Arena) : Prop := {
  en_reach : sreachable 200 a;
  en_arena : arena a = mm_engine (shop d);
  en_submits : Forall (fun x => exists order, x.1.2 = Submit order) (entered a);
  en_logging : filter (fun x => x.2 <> []) (logging a) ≡ₚ workers d ≫= unrecorded
}.

Definition demo_ok (plan : list SymbolOrder) d : Prop :=
  exists issued a, flow plan issued d a /\ control d /\ counters issued d a /\ engaged d a.

(** ** Producers *)

Lemma control_joining d :
  control d -> main d = JoiningProducers ->
  mpmc_ok (mm_queue (shop d)) /\ closed_ (mm_queue (shop d)) = false /\ WorkerExited ∉ workers d.
Proof.
  intros [Hq Hc Hj Hd He] Hm. split_and!; [done| |].
  - apply not_true_iff_false. rewrite Hc, Hm. by intros [].
  - by intros [? _]%Hd.
Qed.

Lemma joining_control d :
  main d = JoiningProducers -> mpmc_ok (mm_queue (shop d)) -> closed_ (mm_queue (shop d)) = false ->
  WorkerExited ∉ workers d -> control d.
Proof. intros Hm Hq Hc Hw. split; rewrite ?Hm; try done. rewrite Hc. split; [done|by intros []]. Qed.

Lemma maker_joining d k p : control d -> makers d !! k = Some p -> p <> ProducerExited -> main d = JoiningProducers.
Proof.
  intros Hc Hk Hp. destruct (main d) eqn:E; [done|..];
    (assert (main d <> JoiningProducers) as Hj%(co_joined _ Hc) by congruence;
     exfalso; apply Hp; by rewrite (Forall_lookup_1 _ _ _ _ Hj Hk)).
Qed.

Lemma flow_room plan issued d a : flow plan issued d a -> (length issued + length (makers d ≫= future) = length plan)%nat.
Proof. intros []. rewrite <- fl_plan0, length_app, length_fmap. done. Qed.

Lemma issue_ids issued so :
  so_id <$> issued = seqZ 1 (Z.of_nat (length issued)) -> so_id so = 1 + Z.of_nat (length issued) ->
  so_id <$> (issued ++ [so]) = seqZ 1 (Z.of_nat (length (issued ++ [so]))).
Proof.
  intros Hi Hs. rewrite fmap_app, Hi, length_app, Nat2Z.inj_add, seqZ_app by (cbn; lia). cbn. by rewrite Hs.
Qed.

Lemma worker_control d k w w' sh :
  control d -> workers d !! k = Some w -> w <> WorkerExited -> w' <> WorkerExited ->
  mpmc_ok (mm_queue sh) -> closed_ (mm_queue sh) = closed_ (mm_queue (shop d)) ->
  (buffer_ (mm_queue (shop d)) = [] -> buffer_ (mm_queue sh) = []) ->
  control (mkDemo sh (makers d) (<[k := w']> (workers d)) (main d)).
Proof.
  intros [Hq Hc Hj Hd He] Hk Hw Hw' Hq' Hcl Hb. split; cbn; [done|by rewrite Hcl|done| |].
  - intros [E|Hin]%elem_of_insert; [congruence|]. destruct (Hd Hin) as [? ?]. eauto.
  - intros Hm%He. exfalso. apply Hw. by rewrite (Forall_lookup_1 _ _ _ _ Hm Hk).
Qed.

Section step.
Context (plan : list SymbolOrder).

Lemma making_ok d k (rng rng' : Rng) left so :
  Z.of_nat (length plan) < max_resting -> demo_ok plan d -> makers d !! k = Some (Making rng left) -> make_order (id_gen (shop d)) rng = Ok (so, rng') ->
  let sh := shop d in
  demo_ok plan (mkDemo (mkShop (u64 (id_gen sh + 1)) (produced sh) (consumed sh) (trades_generated sh)
                          (mm_queue sh) (mm_engine sh)) (<[k := Pushing so rng' left]> (makers d)) (workers d) (main d)).
Proof.
  intros Hplan (issued & a & Hf & Hc & [Hn1 Hn2 Hn3] & []) Hk Hm sh. pose proof (flow_room _ _ _ _ Hf) as Hroom.
  pose proof (maker_joining _ _ _ Hc Hk ltac:(done)) as Hj.
  destruct (bind_insert future _ _ _ (Pushing so rng' left) Hk) as (rest & Hr1 & Hr2).
  destruct (bind_insert offered _ _ _ (Pushing so rng' left) Hk) as (orest & Ho1 & Ho2).
  rewrite Hr1, length_app in Hroom. cbn [future] in Hroom. rewrite planned_length in Hroom. unfold max_resting in Hplan.
  destruct Hf as [Hi Hids Hnext Hrange Hpl]. unfold sh in *.
  destruct (make_order_ok (id_gen (shop d)) rng) as (so' & rng2 & E & _ & Hid & Hso); [lia|].
  rewrite Hm in E. injection E as <- <-.
  exists (issued ++ [so]), a. split_and!.
  - split; cbn [shop makers workers main mm_queue id_gen].
    + rewrite Hi, Ho2, Ho1. cbn [offered app]. solve_Permutation.
    + apply issue_ids; [done|lia].
    + rewrite length_app, u64_small by range. cbn. lia.
    + by rewrite Forall_app, Forall_singleton.
    + rewrite <- Hpl, Hr1, Hr2, fmap_app. cbn [future]. rewrite (planned_next _ _ _ _ _ Hm) by lia.
      cbn [fmap list_fmap]. solve_Permutation.
  - destruct (control_joining _ Hc Hj) as (? & ? & ?). by apply joining_control.
  - split; cbn; [|done..]. rewrite Hn1, (sum_insert _ _ _ _ _ Hk), length_app. cbn. f_equal. lia.
  - by split.
Qed.

Lemma pushing_ok d k so (rng : Rng) left pushed q :
  demo_ok plan d -> makers d !! k = Some (Pushing so rng left) -> push (mm_queue (shop d)) so = Some (pushed, q) ->
  demo_ok plan (mkDemo (with_queue (shop d) q) (<[k := if pushed : bool then Counting rng left else ProducerExited]> (makers d))
                  (workers d) (main d)).
Proof.
  intros (issued & a & [Hi Hids Hnext Hrange Hpl] & Hc & [Hn1 Hn2 Hn3] & []) Hk Hp.
  pose proof (maker_joining _ _ _ Hc Hk ltac:(done)) as Hj. destruct (control_joining _ Hc Hj) as (Hq & Hopen & Hw).
  pose proof (push_cases (mm_queue (shop d)) so) as Hcs. rewrite Hp in Hcs.
  destruct pushed; [destruct Hcs as (_ & Hlt & ->)|by destruct Hcs; congruence].
  destruct (bind_insert future _ _ _ (Counting rng left) Hk) as (rest & Hr1 & Hr2).
  destruct (bind_insert offered _ _ _ (Counting rng left) Hk) as (orest & Ho1 & Ho2).
  exists issued, a. split_and!.
  - split; cbn [shop makers workers main mm_queue id_gen with_queue buffer_ push_back]; try done.
    + rewrite Hi, Ho2, Ho1. cbn [offered app]. solve_Permutation.
    + by rewrite <- Hpl, Hr1, Hr2.
  - apply joining_control; cbn; [done|by apply push_back_ok|done..].
  - split; cbn; [|done..]. rewrite Hn1, (sum_insert _ _ _ _ _ Hk). f_equal. lia.
  - by split.
Qed.

Lemma counting_ok d k (rng : Rng) left :
  demo_ok plan d -> makers d !! k = Some (Counting rng left) ->
  let sh := shop d in
  demo_ok plan (mkDemo (mkShop (id_gen sh) (u64 (produced sh + 1)) (consumed sh) (trades_generated sh)
                          (mm_queue sh) (mm_engine sh)) (<[k := next_order rng left]> (makers d)) (workers d) (main d)).
Proof.
  intros (issued & a & [Hi Hids Hnext Hrange Hpl] & Hc & [Hn1 Hn2 Hn3] & []) Hk sh.
  pose proof (maker_joining _ _ _ Hc Hk ltac:(done)) as Hj. destruct (next_order_future rng left) as [Hfut Hoff].
  destruct (bind_insert future _ _ _ (next_order rng left) Hk) as (rest & Hr1 & Hr2).
  destruct (bind_insert offered _ _ _ (next_order rng left) Hk) as (orest & Ho1 & Ho2).
  unfold sh. exists issued, a. split_and!.
  - split; cbn [shop makers workers main mm_queue id_gen]; try done.
    + by rewrite Hi, Ho2, Ho1, Hoff.
    + by rewrite <- Hpl, Hr1, Hr2, Hfut.
  - destruct (control_joining _ Hc Hj) as (? & ? & ?). by apply joining_control.
  - split; cbn [shop makers workers produced consumed trades_generated]; [|done..].
    rewrite (sum_insert _ _ _ _ _ Hk), Hn1, u64_add_l.
    assert (match next_order rng left with Pushing _ _ _ | Counting _ _ => 1 | _ => 0 end = 0) as -> by (by destruct left).
    f_equal. lia.
  - by split.
Qed.

(** ** Workers *)

Lemma popping_ok d k out q :
  demo_ok plan d -> workers d !! k = Some Popping -> pop (mm_queue (shop d)) = Some (out, q) ->
  demo_ok plan (mkDemo (with_queue (shop d) q) (makers d)
    (<[k := match out with Some so => Submitting so | None => WorkerExited end]> (workers d)) (main d)).
Proof.
  intros (issued & a & [Hi Hids Hnext Hrange Hpl] & Hc & [Hn1 Hn2 Hn3] & []) Hk Hp.
  pose proof (pop_cases (mm_queue (shop d))) as Hcs. rewrite Hp in Hcs.
  set (w := match out with Some so => Submitting so | None => WorkerExited end).
  destruct (bind_insert taken _ _ _ w Hk) as (rest & Hr1 & Hr2).
  destruct (bind_insert unrecorded _ _ _ w Hk) as (urest & Hu1 & Hu2).
  exists issued, a. split_and!.
  - split; cbn [shop makers workers main mm_queue id_gen with_queue]; try done.
    rewrite Hi, Hr2, Hr1. unfold w. destruct out as [so|]; [|by destruct Hcs as (_ & _ & ->)].
    destruct Hcs as ([tl Hb] & ->). cbn [buffer_ pop_front taken app]. rewrite Hb. cbn [tail]. solve_Permutation.
  - unfold w. destruct out as [so|].
    + destruct Hcs as ([tl Hb] & ->). apply (worker_control _ _ _ _ _ Hc Hk); try done.
      * apply pop_front_ok, Hc.
      * cbn. by intros ->.
    + destruct Hcs as (Hcl & Hb & ->). destruct Hc as [Hq Hcc Hj Hd He]. split; cbn; try done; [by rewrite <- Hcc|].
      intros Hm%He. by pose proof (Forall_lookup_1 _ _ _ _ Hm Hk).
  - split; cbn; [done|..]; rewrite (sum_insert _ _ _ _ _ Hk); unfold w.
    + rewrite Hn2. f_equal. destruct out; lia.
    + rewrite Hn3. f_equal. destruct out; lia.
  - split; cbn; try done. rewrite en_logging0, Hu1, Hu2. unfold w. by destruct out.
Qed.

(** The worker moves within [submit]: nothing of the queue changes. *)
Lemma submitting_ok d k so trades e :
  demo_ok plan d -> workers d !! k = Some (Submitting so) ->
  locked_submit (mm_engine (shop d)) (so_symbol so) (so_order so) [] = Ok (trades, e) ->
  demo_ok plan (mkDemo (with_book (shop d) e) (makers d)
    (<[k := Recording (so_symbol so) trades (Z.of_nat (length trades))]> (workers d)) (main d)).
Proof.
  intros (issued & a & [Hi Hids Hnext Hrange Hpl] & Hc & [Hn1 Hn2 Hn3] & [Hreach Har Hsub Hlog]) Hk Hs.
  set (w := Recording (so_symbol so) trades (Z.of_nat (length trades))).
  destruct (bind_insert taken _ _ _ w Hk) as (rest & Hr1 & Hr2).
  destruct (bind_insert unrecorded _ _ _ w Hk) as (urest & Hu1 & Hu2).
  set (a' := mkArena e (entered a ++ [(so_symbol so, Submit (so_order so), trades)])
               ((so_symbol so, trades) :: logging a) (logged a)).
  assert (applied a' = applied a ++ [so]) as Happ.
  { unfold applied, a'. cbn. rewrite bind_app. cbn. by destruct so. }
  exists issued, a'. split_and!.
  - split; cbn [shop makers workers main mm_queue id_gen with_book]; try done.
    rewrite Hi, Hr2, Hr1, Happ. cbn [taken w app]. solve_Permutation.
  - apply (worker_control _ _ _ _ _ Hc Hk); try done. apply Hc.
  - split; cbn [shop makers workers produced consumed trades_generated with_book]; [done|..];
      rewrite (sum_insert _ _ _ _ _ Hk); unfold w.
    + rewrite Hn2, Happ, length_app. cbn. f_equal. lia.
    + rewrite Hn3. unfold a'. cbn. autorewrite with sums. cbn. f_equal. lia.
  - split; cbn [shop workers with_book mm_engine a' arena entered logging]; [|done| |].
    + eapply sreachable_step; [exact Hreach|]. apply enter_submit. by rewrite Har.
    + rewrite Forall_app, Forall_singleton. split; [done|by eexists].
    + rewrite Hu2. unfold w. cbn [unrecorded]. rewrite Hu1 in Hlog. cbn [unrecorded app] in Hlog.
      destruct trades; [rewrite filter_cons_False by (by intros [])|rewrite filter_cons_True by done];
        cbn [app]; by rewrite Hlog.
Qed.

Lemma recording_ok d k symbol t ts n :
  demo_ok plan d -> workers d !! k = Some (Recording symbol (t :: ts) n) ->
  demo_ok plan (mkDemo (with_book (shop d) (record_trade (mm_engine (shop d)) symbol t)) (makers d)
    (<[k := Recording symbol ts n]> (workers d)) (main d)).
Proof.
  intros (issued & a & [Hi Hids Hnext Hrange Hpl] & Hc & [Hn1 Hn2 Hn3] & [Hreach Har Hsub Hlog]) Hk.
  set (w := Recording symbol ts n).
  destruct (bind_insert taken _ _ _ w Hk) as (rest & Hr1 & Hr2).
  destruct (bind_insert unrecorded _ _ _ w Hk) as (urest & Hu1 & Hu2).
  assert ((symbol, t :: ts) ∈ logging a) as (l1 & l2 & Hsplit)%list_elem_of_split.
  { assert ((symbol, t :: ts) ∈ filter (fun x => x.2 <> []) (logging a)) as [_ ?]%list_elem_of_filter; [|done].
    rewrite Hlog, Hu1. cbn. set_solver. }
  exists issued, (mkArena (record_trade (arena a) symbol t) (entered a) (l1 ++ (symbol, ts) :: l2) (logged a ++ [(symbol, t)])).
  split_and!.
  - split; cbn [shop makers workers main mm_queue id_gen with_book]; try done.
    rewrite Hi, Hr2, Hr1. done.
  - apply (worker_control _ _ _ _ _ Hc Hk); try done. apply Hc.
  - split; cbn [shop makers workers produced consumed trades_generated with_book]; [done|..];
      rewrite (sum_insert _ _ _ _ _ Hk); unfold w; [rewrite Hn2|rewrite Hn3]; unfold applied; cbn; f_equal; lia.
  - split; cbn [shop workers with_book mm_engine arena entered logging]; [|by rewrite Har|done|].
    + eapply sreachable_step; [exact Hreach|]. by apply log_trade.
    + rewrite Hsplit, Hu1, filter_app, filter_cons_True in Hlog by done.
      rewrite Hu2, filter_app. cbn [unrecorded app] in Hlog. rewrite <- Permutation_middle in Hlog.
      apply (Permutation_cons_inv (a := (symbol, t :: ts))) in Hlog. unfold w. cbn [unrecorded].
      destruct ts; [rewrite filter_cons_False by (by intros [])|rewrite filter_cons_True, <- Permutation_middle by done];
        cbn [app]; by rewrite Hlog.
Qed.

Lemma recorded_ok d k symbol n :
  demo_ok plan d -> workers d !! k = Some (Recording symbol [] n) ->
  let sh := shop d in
  demo_ok plan (mkDemo (mkShop (id_gen sh) (produced sh) (consumed sh) (u64 (trades_generated sh + n))
                          (mm_queue sh) (mm_engine sh)) (makers d) (<[k := Applied]> (workers d)) (main d)).
Proof.
  intros (issued & a & [Hi Hids Hnext Hrange Hpl] & Hc & [Hn1 Hn2 Hn3] & []) Hk sh. unfold sh.
  destruct (bind_insert taken _ _ _ Applied Hk) as (rest & Hr1 & Hr2).
  destruct (bind_insert unrecorded _ _ _ Applied Hk) as (urest & Hu1 & Hu2).
  exists issued, a. split_and!.
  - split; cbn [shop makers workers main mm_queue id_gen]; try done. by rewrite Hi, Hr2, Hr1.
  - apply (worker_control _ _ _ _ _ Hc Hk); try done. apply Hc.
  - split; cbn; [done|..]; rewrite (sum_insert _ _ _ _ _ Hk);
      [rewrite Hn2|rewrite Hn3, u64_add_l]; f_equal; lia.
  - split; cbn; try done. by rewrite en_logging0, Hu1, Hu2.
Qed.

Lemma applied_ok d k :
  demo_ok plan d -> workers d !! k = Some Applied ->
  let sh := shop d in
  demo_ok plan (mkDemo (mkShop (id_gen sh) (produced sh) (u64 (consumed sh + 1)) (trades_generated sh)
                          (mm_queue sh) (mm_engine sh)) (makers d) (<[k := Popping]> (workers d)) (main d)).
Proof.
  intros (issued & a & [Hi Hids Hnext Hrange Hpl] & Hc & [Hn1 Hn2 Hn3] & []) Hk sh. unfold sh.
  destruct (bind_insert taken _ _ _ Popping Hk) as (rest & Hr1 & Hr2).
  destruct (bind_insert unrecorded _ _ _ Popping Hk) as (urest & Hu1 & Hu2).
  exists issued, a. split_and!.
  - split; cbn [shop makers workers main mm_queue id_gen]; try done. by rewrite Hi, Hr2, Hr1.
  - apply (worker_control _ _ _ _ _ Hc Hk); try done. apply Hc.
  - split; cbn; [done|..]; rewrite (sum_insert _ _ _ _ _ Hk);
      [rewrite Hn2, u64_add_l|rewrite Hn3]; f_equal; lia.
  - split; cbn; try done. by rewrite en_logging0, Hu1, Hu2.
Qed.

(** ** Every step *)

Lemma close_step_ok d :
  demo_ok plan d -> main d = JoiningProducers -> Forall (eq ProducerExited) (makers d) ->
  demo_ok plan (mkDemo (with_queue (shop d) (close (mm_queue (shop d)))) (makers d) (workers d) JoiningConsumers).
Proof.
  intros (issued & a & [] & Hc & [] & []) Hm Hf. exists issued, a. split_and!; [by split| |by split|by split].
  destruct (control_joining _ Hc Hm) as (? & ? & Hw). split; cbn; try done. by apply close_ok.
Qed.

Lemma end_step_ok d :
  demo_ok plan d -> main d = JoiningConsumers -> Forall (eq WorkerExited) (workers d) ->
  demo_ok plan (mkDemo (shop d) (makers d) (workers d) Summary).
Proof.
  intros (issued & a & [] & [Hq Hc Hj Hd He] & [] & []) Hm Hf. rewrite Hm in *.
  exists issued, a. split_and!; [by split| |by split|by split]. split; cbn; try done.
  - by rewrite Hc.
  - intros _. by apply Hj.
  - intros Hin. by destruct (Hd Hin).
Qed.

Lemma demo_step_ok d d' :
  Z.of_nat (length plan) < max_resting -> demo_ok plan d -> demo_step d d' -> demo_ok plan d'.
Proof.
  intros Hplan Hd [k p sh p' Hk Hs|k w sh w' Hk Hs|Hm Hf|Hm Hf].
  - destruct p as [rng left|so rng left|rng left|]; cbn in Hs; [|..|done].
    + apply bind_Ok in Hs as ([so rng'] & Hm & [= <- <-]). by eapply making_ok.
    + injection Hs as ([pushed q] & Hp & [= <- <-])%bind_Some. by eapply pushing_ok.
    + injection Hs as <- <-. by apply counting_ok.
  - destruct w as [|so|symbol [|t ts] n| |]; cbn in Hs; [..|done].
    + injection Hs as ([out q] & Hp & [= <- <-])%bind_Some. by apply popping_ok.
    + apply bind_Ok in Hs as ([trades e] & Hp & [= <- <-]). by apply submitting_ok.
    + injection Hs as <- <-. by eapply recorded_ok.
    + injection Hs as <- <-. by apply recording_ok.
    + injection Hs as <- <-. by apply applied_ok.
  - by apply close_step_ok.
  - by apply end_step_ok.
Qed.
End step.

(** * Something can always move *)

Lemma shardFor_lt symbol : (shardFor symbol < Z.to_nat kShardCount)%nat.
Proof.
  unfold shardFor, kShardCount. change (8 - 1) with (Z.ones 3). rewrite Z.land_ones by lia.
  pose proof (Z.mod_pos_bound (hash symbol) (2 ^ 3) ltac:(lia)). lia.
Qed.

Lemma sstep_shards s s' : sstep s s' -> length (sharded_shards (arena s')) = length (sharded_shards (arena s)).
Proof.
  intros [symbol order trades e Hs|l1 symbol t ts l2 _|symbol i ok e _ Hs]; [|done|].
  - unfold locked_submit in Hs. apply bind_Ok in Hs as (engines & _ & ([[e' out] r] & _ & [= _ <-])%bind_Ok).
    cbn. by rewrite length_insert.
  - unfold sharded_cancel in Hs. apply bind_Ok in Hs as (engines & _ & Hs). case_match; [|by injection Hs as _ <-].
    apply bind_Ok in Hs as ([e' b] & _ & [= _ <-]). cbn. by rewrite length_insert.
Qed.

Lemma shard_present depth a symbol : sreachable depth a -> is_Some (sharded_shards (arena a) !! shardFor symbol).
Proof.
  intros Hr. apply lookup_lt_is_Some_2. pose proof (shardFor_lt symbol).
  assert (length (sharded_shards (arena a)) = Z.to_nat kShardCount) as ->; [|done].
  induction Hr as [|s s' _ IH Hs]; [apply length_replicate|]. by rewrite (sstep_shards _ _ Hs).
Qed.

(** [submit] cannot fault within the bound on sessions. *)
Lemma submit_defined depth a symbol order :
  sreachable depth a -> Forall (fun x => command_in_range x.1.2) (entered a) ->
  Z.of_nat (length (entered a)) < max_resting -> Order.in_range order ->
  exists trades e, locked_submit (arena a) symbol order [] = Ok (trades, e).
Proof.
  intros Hr Hf Hn Ho. destruct (shard_present _ _ symbol Hr) as [engines Hs]. unfold locked_submit. rewrite Hs.
  cbn [defined mbind result_bind].
  destruct (ar_engine _ _ (sreachable_ok _ _ Hr) symbol) as [rs Hrun]. unfold engine_at in Hrun. rewrite Hs in Hrun.
  cbn in Hrun. set (cs := (fun x => x.1.2) <$> of_symbol symbol (entered a)) in *.
  assert (length cs <= length (entered a))%nat as Hlen by (unfold cs; rewrite length_fmap; apply length_filter).
  assert (Forall command_in_range cs) as Hcs.
  { unfold cs. apply Forall_fmap, Forall_forall. intros x [_ Hx]%list_elem_of_filter. by eapply Forall_forall in Hf. }
  assert (RiskLimits.in_range RiskLimits.default) as Hl by (by apply (bool_decide_unpack _)).
  pose proof (run_ok cs 0 _ [] (session_new _ Hl) ltac:(lia) Hcs) as Hok.
  destruct (market_run _ _) as [[m ts] rs']. destruct Hok as (e & Hrun' & Hse & _). rewrite Hrun in Hrun'.
  injection Hrun' as -> _ _.
  pose proof (apply_command_ok _ e [] (Submit order) Hse ltac:(lia) Ho) as Ha.
  destruct (market_apply _ _) as [[m' ts'] rs2]. destruct Ha as (e' & Ha & _). cbn in Ha.
  apply bind_Ok in Ha as ([[e1 out] rep] & Hp & _). unfold submitOrder. rewrite Hp. by eexists _, _.
Qed.

Lemma applied_length d a : engaged d a -> length (applied a) = length (entered a).
Proof.
  intros [_ _ Hs _]. unfold applied. induction Hs as [|x l [order Hx] _ IH]; [done|].
  rewrite bind_cons, Hx. cbn. by rewrite IH.
Qed.

Lemma entered_typed d a :
  engaged d a -> Forall (fun so => Order.in_range (so_order so)) (applied a) ->
  Forall (fun x => command_in_range x.1.2) (entered a).
Proof.
  intros [_ _ Hs _]. unfold applied. induction Hs as [|x l [order Hx] _ IH]; [done|].
  rewrite bind_cons, Hx. cbn. intros [Ho Hl]%Forall_cons. constructor; [by rewrite Hx|by apply IH].
Qed.

Lemma worker_can_move plan d k w :
  Z.of_nat (length plan) < max_resting -> demo_ok plan d -> workers d !! k = Some w -> w <> WorkerExited ->
  (w = Popping -> may_pop (mm_queue (shop d)) = true) -> exists d', demo_step d d'.
Proof.
  intros Hplan (issued & a & Hf & _ & _ & He) Hk Hw Hpop.
  assert (exists sh w', worker_step (shop d) w = Ok (Some (sh, w'))) as (sh & w' & Hs); [|by eexists; eapply worker_moves].
  destruct w as [|so|symbol [|t ts] n| |]; cbn; [| |by eexists _, _..|done].
  - unfold pop. rewrite (Hpop eq_refl). cbn. destruct (buffer_ _); by eexists _, _.
  - pose proof (flow_room _ _ _ _ Hf) as Hroom. destruct Hf as [Hi _ _ Hrange _].
    rewrite Hi, !Forall_app in Hrange. destruct Hrange as (Ha & Hb & _).
    apply Permutation_length in Hi. rewrite !length_app in Hi.
    assert (so ∈ workers d ≫= taken) as Hso.
    { apply list_elem_of_bind. exists (Submitting so). split; [by apply list_elem_of_singleton|]. by eapply list_elem_of_lookup_2. }
    pose proof (applied_length _ _ He) as Hal.
    destruct (submit_defined 200 a (so_symbol so) (so_order so)) as (trades & e & Hs).
    + apply He.
    + by eapply entered_typed.
    + lia.
    + by eapply Forall_forall in Hb.
    + rewrite (en_arena _ _ He) in Hs. rewrite Hs. by eexists _, _.
Qed.

Lemma maker_can_move plan d k p :
  Z.of_nat (length plan) < max_resting -> demo_ok plan d -> workers d <> [] ->
  makers d !! k = Some p -> p <> ProducerExited -> exists d', demo_step d d'.
Proof.
  intros Hplan Hd Hne Hk Hp. pose proof Hd as (issued & a & Hf & Hc & _ & _).
  pose proof (maker_joining _ _ _ Hc Hk Hp) as Hj. destruct (control_joining _ Hc Hj) as (Hq & Hopen & Hw).
  destruct p as [rng left|so rng left|rng left|]; [| |eexists; by eapply maker_moves|done].
  - pose proof (flow_room _ _ _ _ Hf) as Hroom. destruct (bind_insert future _ _ _ ProducerExited Hk) as (rest & Hr & _).
    rewrite Hr, length_app in Hroom. cbn [future] in Hroom. rewrite planned_length in Hroom. unfold max_resting in Hplan.
    destruct (make_order_ok (id_gen (shop d)) rng) as (so & rng' & Hm & _); [rewrite (fl_next _ _ _ _ Hf); lia|].
    eexists. eapply maker_moves; [exact Hk|]. cbn. by rewrite Hm.
  - destruct (may_push (mm_queue (shop d))) eqn:Hm.
    + eexists. eapply maker_moves; [exact Hk|]. cbn. unfold push. rewrite Hm, Hopen. done.
    + destruct (workers d) as [|w ws] eqn:Ew; [done|].
      apply (worker_can_move plan d 0 w Hplan Hd); [by rewrite Ew|intros ->; apply Hw; by left|].
      intros _. unfold may_push, may_pop, mpmc_size in *. rewrite Hopen in *. destruct Hq as [Hcap _ _].
      destruct (buffer_ _); [|done]. cbn [orb length] in Hm. apply Z.ltb_ge in Hm. lia.
Qed.

Lemma all_or_active {A} (x : A) `{forall y, Decision (x = y)} (l : list A) :
  Forall (eq x) l \/ exists k y, l !! k = Some y /\ y <> x.
Proof.
  destruct (decide (Forall (eq x) l)) as [|Hn]; [by left|right].
  apply not_Forall_Exists in Hn; [|done]. apply Exists_exists in Hn as (y & [k Hk]%list_elem_of_lookup & Hy).
  exists k, y. split; [done|]. intros ->. by apply Hy.
Qed.

#[local] Instance exited_producer_dec p : Decision (ProducerExited = p).
Proof. destruct p; (by left) || (by right). Defined.
#[local] Instance exited_worker_dec w : Decision (WorkerExited = w).
Proof. destruct w; (by left) || (by right). Defined.

Lemma demo_progress plan d :
  Z.of_nat (length plan) < max_resting -> demo_ok plan d -> workers d <> [] ->
  main d = Summary \/ exists d', demo_step d d'.
Proof.
  intros Hplan Hd Hne. destruct (main d) eqn:Em; [right..|by left].
  - destruct (all_or_active ProducerExited (makers d)) as [Hf|(k & p & Hk & Hp)].
    + eexists. by apply main_closes.
    + by eapply maker_can_move.
  - destruct (all_or_active WorkerExited (workers d)) as [Hf|(k & w & Hk & Hw)].
    + eexists. by apply main_ends.
    + eapply worker_can_move; try done. intros _. destruct Hd as (issued & a & _ & Hc & _ & _).
      unfold may_pop. by rewrite (proj2 (co_closed _ Hc)) by congruence.
Qed.

(** * The whole run *)

(** The orders of all producers, whatever the ids. *)
Definition main_plan (args : MpmcArgs) : list SymbolOrder :=
  (producer_start args <$> seq 0 (Z.to_nat (mm_producers args))) ≫= future.

(** [d] is what the summary reports on: every order of the plan was applied once, with
    the ids 1 to [total]; the counters are exact (the trade counter modulo [2 ^ 64]);
    the engine of each symbol is the sequential engine on that symbol's orders in some
    order, and the log has each of its trades once. *)
Record finished (total : Z) (plan : list SymbolOrder) d : Prop := {
  fin_main : main d = Summary;
  fin_produced : produced (shop d) = total;
  fin_consumed : consumed (shop d) = total;
  fin_lines symbol : exists line, symbol_line (mm_engine (shop d)) symbol = Ok line;
  fin_engine : exists a,
    arena a = mm_engine (shop d)
    /\ so_id <$> applied a ≡ₚ seqZ 1 total /\ anonymous <$> applied a ≡ₚ plan
    /\ trades_generated (shop d) = u64 (sum (fun x => Z.of_nat (length x.2)) (entered a))
    /\ sharded_log (arena a) = foldl (fun log ev => log_record log ev.1 ev.2) (TradeLog_new 200) (logged a)
    /\ forall symbol,
         (exists rs, run (MatchingEngine_new RiskLimits.default) [] ((fun x => x.1.2) <$> of_symbol symbol (entered a))
            = Ok (default (MatchingEngine_new RiskLimits.default) (engine_at (arena a) symbol),
                  trades_for symbol (entered a), rs))
         /\ logged_for symbol (logged a) ≡ₚ trades_for symbol (entered a)
}.

Lemma bind_nothing {A B} (f : A -> list B) (l : list A) : Forall (fun x => f x = []) l -> l ≫= f = [].
Proof. induction 1 as [|y l Hy _ IH]; [done|]. by rewrite bind_cons, Hy, IH. Qed.

Lemma unlogged_none symbol l :
  filter (fun x : Symbol * list Trade.t => x.2 <> []) l = [] -> unlogged_for symbol l = [].
Proof.
  unfold unlogged_for. induction l as [|[sy ts] l IH]; [done|]. rewrite !filter_cons. cbn [fst snd].
  destruct ts as [|t ts]; [|by rewrite decide_True by done].
  rewrite decide_False by (by intros []). intros Hl%IH. case_decide; cbn; by rewrite ?Hl.
Qed.

Lemma summary_finished plan d :
  Z.of_nat (length plan) < max_resting -> demo_ok plan d -> workers d <> [] -> main d = Summary ->
  finished (Z.of_nat (length plan)) plan d.
Proof.
  intros Hplan (issued & a & Hf & Hc & [Hn1 Hn2 Hn3] & He) Hne Hm. pose proof (flow_room _ _ _ _ Hf) as Hroom.
  assert (main d <> JoiningProducers) as Hj by congruence.
  pose proof (co_joined _ Hc Hj) as Hp. pose proof (co_ended _ Hc Hm) as Hw.
  destruct Hf as [Hi Hids _ _ Hpl]. destruct He as [Hr Har _ Hlog].
  assert (buffer_ (mm_queue (shop d)) = []) as Hb.
  { apply (co_drained _ Hc). destruct (workers d) as [|w ws]; [done|]. apply Forall_cons in Hw as [<- _]. by left. }
  assert (forall (f : Worker -> list SymbolOrder), f WorkerExited = [] -> workers d ≫= f = []) as Hwb.
  { intros f E. apply bind_nothing. by eapply Forall_impl; [exact Hw|]; intros ? <-. }
  assert (forall f : Producer (Rng := Rng) -> list SymbolOrder, f ProducerExited = [] -> makers d ≫= f = []) as Hpb.
  { intros f E. apply bind_nothing. by eapply Forall_impl; [exact Hp|]; intros ? <-. }
  rewrite Hb, Hpb, Hwb, !app_nil_r in Hi by done.
  rewrite Hpb in Hroom, Hpl by done. cbn in Hroom. rewrite app_nil_r in Hpl.
  rewrite bind_nothing in Hlog by (by eapply Forall_impl; [exact Hw|]; intros ? <-). apply Permutation_nil_r in Hlog.
  rewrite sum_zero, Z.sub_0_r in Hn1 by (by eapply Forall_impl; [exact Hp|]; intros ? <-).
  rewrite sum_zero, Z.sub_0_r in Hn2, Hn3 by (by eapply Forall_impl; [exact Hw|]; intros ? <-).
  pose proof (Permutation_length Hi) as Hlen. unfold max_resting in Hplan. rewrite u64_small in Hn1, Hn2 by range.
  split; [done|rewrite Hn1; lia|rewrite Hn2; lia| |].
  - intros symbol. unfold symbol_line, sharded_snapshot. rewrite <- Har.
    destruct (shard_present _ _ symbol Hr) as [engines ->]. by eexists.
  - exists a. destruct (sreachable_ok _ _ Hr) as [Hae _ Hat Hal]. split_and!; try done.
    + rewrite <- Hi, Hids. by rewrite Hroom || (replace (length issued) with (length plan) by lia).
    + by rewrite <- Hi.
    + intros symbol. split; [apply Hae|]. rewrite <- Hat, (unlogged_none _ _ Hlog), app_nil_r. done.
Qed.

Lemma main_plan_length args : 0 <= mm_producers args -> 0 <= mm_orders args ->
  Z.of_nat (length (main_plan args)) = mm_producers args * mm_orders args.
Proof.
  intros Hp Ho. unfold main_plan.
  assert (forall n k, length ((producer_start args <$> seq k n) ≫= future) = (n * Z.to_nat (mm_orders args))%nat) as ->; [|lia].
  induction n as [|n IH]; intros k; [done|]. cbn [seq]. rewrite fmap_cons, bind_cons, length_app, IH.
  unfold producer_start. rewrite (proj1 (next_order_future _ _)), planned_length. lia.
Qed.

Lemma starts_idle args k : offered (producer_start args k) = []
  /\ match producer_start args k with Pushing _ _ _ | Counting _ _ => 1 | _ => 0 end = 0.
Proof. unfold producer_start. by destruct (Z.to_nat (mm_orders args)). Qed.

Lemma demo_new_ok args q :
  0 <= mm_capacity args -> MPMCQueue_new (mm_capacity args) = Some q -> demo_ok (main_plan args) (demo_new args q).
Proof.
  intros Hcap Hq. pose proof (mpmc_new_ok _ _ Hcap Hq) as Hok.
  assert (buffer_ q = [] /\ closed_ q = false) as [Hb Hcl].
  { unfold MPMCQueue_new in Hq. case_match; [done|]. by injection Hq as <-. }
  exists [], (mkArena (ShardedEngine_new 200) [] [] []). split_and!.
  - split; cbn [demo_new shop makers workers main mm_queue id_gen]; try done.
    rewrite Hb, !bind_nothing; [done| |by apply Forall_replicate].
    apply Forall_fmap, Forall_true. intros k. apply starts_idle.
  - apply joining_control; try done. cbn. by intros [? _]%elem_of_replicate.
  - split; cbn [demo_new shop makers workers produced consumed trades_generated entered]; rewrite ?sum_nil;
      (rewrite sum_zero; [done|]); [|by apply Forall_replicate..].
    apply Forall_fmap, Forall_true. intros k. apply starts_idle.
  - split; cbn [demo_new shop workers mm_engine arena entered logging]; [constructor|done|constructor|].
    rewrite bind_nothing; [done|by apply Forall_replicate].
Qed.

Lemma demo_step_workers d d' : demo_step d d' -> workers d <> [] -> workers d' <> [].
Proof.
  intros [] Hne; cbn; try done. rewrite <- length_zero_iff_nil, length_insert in *. done.
Qed.

Lemma mpmc_parse_ok argv : forall a a',
  is_u64 (mm_producers a) /\ is_u64 (mm_consumers a) /\ is_u64 (mm_orders a) /\ is_u64 (mm_capacity a) ->
  mpmc_parse argv a = Some a' ->
  is_u64 (mm_producers a') /\ is_u64 (mm_consumers a') /\ is_u64 (mm_orders a') /\ is_u64 (mm_capacity a').
Proof.
  induction argv as [argv IH] using (induction_ltof1 _ length).
  destruct argv as [|flag rest]; intros a a' Ha; cbn [mpmc_parse]; [by intros [= <-]|].
  destruct (mpmc_flag flag) as [set|] eqn:Ef; [|apply IH; [unfold ltof; cbn; lia|done]].
  destruct rest as [|value rest]; [by intros [= <-]|].
  intros (v & Hv & Hp)%bind_Some. unfold stoul in Hv. apply fmap_Some in Hv as ([w r] & Hw%strtoull_range & ->).
  apply IH in Hp; [done|unfold ltof; cbn; lia|]. unfold mpmc_flag in Ef. destruct Ha as (? & ? & ? & ?).
  by repeat case_bool_decide; simplify_eq; cbn.
Qed.
End demo.



(** Without consumers - an argument the program accepts - the producer waits for room
    for ever, and [main] for the producer. *)
Module Unattended.
Definition args : MpmcArgs := mkMpmcArgs 1 0 2 1.

Definition advance (d : Demo (Rng := Z)) : option Demo :=
  p ← makers d !! 0%nat;
  match producer_step (shop d) p with
  | Ok (Some (sh, p')) => Some (mkDemo sh (<[0%nat := p']> (makers d)) (workers d) (main d))
  | _ => None
  end.
Definition waiting : Demo := played (fun d _ => advance d) (demo_new args (mkMpmc [] 1 0 false)) (replicate 4 tt).

Lemma hangs_without_consumers :
  mpmc_parseArgs ["--producers"; "1"; "--consumers"; "0"; "--orders-per-producer"; "2"; "--queue-capacity"; "1"]%string
    = Some args
  /\ demo_reachable (demo_new args (mkMpmc [] 1 0 false)) waiting
  /\ main waiting = JoiningProducers /\ forall d, ~ demo_step waiting d.
Proof.
  split_and!; [done| |done|].
  - unfold waiting. apply (played_preserves _ (demo_reachable (demo_new args (mkMpmc [] 1 0 false)))); [|constructor].
    intros d _ d' Hd (p & Hp & Ha)%bind_Some. destruct (producer_step (shop d) p) as [[[sh p']|]|] eqn:E; try done.
    injection Ha as <-. eapply demo_next; [exact Hd|]. by apply maker_moves with p.
  - intros d [k p sh p' Hk Hs|k w sh w' Hk Hs|Hm Hf|Hm Hf].
    + destruct k as [|k]; [|by destruct k]. by vm_compute in Hk; injection Hk as <-; vm_compute in Hs.
    + by destruct k.
    + by vm_compute in Hf; apply Forall_cons in Hf as [? _].
    + done.
Qed.
End Unattended.
