(* ===== verification/BenchmarkStats.v ===== *)
(** [benchmark.hpp]: the statistics of the benchmark programs. *)

From S2P Require Import Prelude.
From S2P Require Import Doubles.

#[local] Open Scope Z_scope.

Record LatencyStats : Type := mkLatencyStats {
  bs_count : Z; bs_mean_ns : double; bs_min_ns : Z; bs_p50_ns : Z; bs_p95_ns : Z; bs_p99_ns : Z;
  bs_p999_ns : Z; bs_max_ns : Z
}.

(** The lambda [pct], on the sorted samples. *)
Definition pct (samples_ns : list Z) (p : double) : result Z :=
  let n := Z.of_nat (length samples_ns) in
  idx ← uint64_of_double (double_mul p (double_of n 0));
  defined (samples_ns !! Z.to_nat (if n <=? idx then n - 1 else idx)).

Definition mean_ns (samples_ns : list Z) : double :=
  let total := foldl (fun acc v => long_add acc (long_of v)) (long_of 0) samples_ns in
  double_of_long (long_div total (long_of (Z.of_nat (length samples_ns)))).

(** The statistics, and the vector, which is sorted in place. *)
Definition computeStats (samples_ns : list Z) : result (LatencyStats * list Z) :=
  match samples_ns with
  | [] => Ok (mkLatencyStats 0 (double_of 0 0) 0 0 0 0 0 0, [])
  | _ =>
    let samples_ns := merge_sort Z.le samples_ns in
    front ← defined (head samples_ns);
    back ← defined (last samples_ns);
    p50 ← pct samples_ns (double_literal 50 100);
    p95 ← pct samples_ns (double_literal 95 100);
    p99 ← pct samples_ns (double_literal 99 100);
    p999 ← pct samples_ns (double_literal 999 1000);
    Ok (mkLatencyStats (Z.of_nat (length samples_ns)) (mean_ns samples_ns) front p50 p95 p99 p999 back, samples_ns)
  end.

(** The index is the integer part of the exact product. *)
Lemma pct_index l num den mp :
  double_literal num den = SpecFloat.S754_finite false mp (-53) -> percentile num den (Z.pos mp) ->
  0 <= num < den -> l <> [] -> Z.of_nat (length l) < 2 ^ 40 ->
  exists v, pct l (double_literal num den) = Ok v /\ l !! Z.to_nat (num * Z.of_nat (length l) / den) = Some v.
Proof.
  intros Hl Hp Hnum Hne Hn. assert (0 < Z.of_nat (length l)) as Hpos by (destruct l; cbn; [done|lia]).
  destruct (percentile_of_count num den mp (Z.of_nat (length l)) Hp ltac:(lia)) as [Ht _].
  assert (0 <= num * Z.of_nat (length l) / den < Z.of_nat (length l)) as Hidx.
  { split; [apply Z.div_pos; lia|]. apply Z.div_lt_upper_bound; nia. }
  destruct (lookup_lt_is_Some_2 l (Z.to_nat (num * Z.of_nat (length l) / den))) as [v Hv]; [lia|].
  exists v. split; [|done]. unfold pct, uint64_of_double. rewrite Hl, Ht. cbn [defined mbind result_bind].
  rewrite bool_decide_eq_true_2 by range. cbn [mbind result_bind].
  rewrite (proj2 (Z.leb_gt _ _)), Hv by lia. done.
Qed.

(** The index the comment promises: [ceil(p * n) - 1]. *)
Definition nearest_rank_index (num den n : Z) : Z := - (- (num * n) / den) - 1.

Lemma floor_index num den n :
  0 < den -> num * n / den = nearest_rank_index num den n + if (num * n) mod den =? 0 then 1 else 0.
Proof.
  intros Hd. unfold nearest_rank_index. pose proof (Z.div_mod (num * n) den ltac:(lia)) as Hdm.
  pose proof (Z.mod_pos_bound (num * n) den ltac:(lia)). destruct (Z.eqb_spec ((num * n) mod den) 0) as [E|E].
  - assert (- (num * n) / den = - (num * n / den)) as ->; [|lia]. symmetry. apply Z.div_unique with 0; lia.
  - assert (- (num * n) / den = - (num * n / den + 1)) as ->; [|lia].
    symmetry. apply Z.div_unique with (den - (num * n) mod den); lia.
Qed.

Definition percentiles : list (Z * Z) := [(50, 100); (95, 100); (99, 100); (999, 1000)].

(** On the sorted samples nothing is out of range. *)
Lemma computeStats_ok xs :
  xs <> [] -> Z.of_nat (length xs) < 2 ^ 40 ->
  let l := merge_sort Z.le xs in
  exists s, computeStats xs = Ok (s, l) /\ bs_count s = Z.of_nat (length xs)
    /\ head l = Some (bs_min_ns s) /\ last l = Some (bs_max_ns s)
    /\ Forall2 (fun '(num, den) v => l !! Z.to_nat (num * Z.of_nat (length xs) / den) = Some v) percentiles
         [bs_p50_ns s; bs_p95_ns s; bs_p99_ns s; bs_p999_ns s].
Proof.
  intros Hne Hn l. assert (l ≡ₚ xs) as Hperm by apply merge_sort_Permutation.
  assert (length l = length xs) as Hlen by (by rewrite Hperm). rewrite <- Hlen in *.
  assert (l <> []) as Hl by (intros E; rewrite E in Hperm; by apply Permutation_nil_l in Hperm).
  destruct l as [|x l0] eqn:El; [done|]. rewrite <- El in *.
  assert (exists y, last l = Some y) as [y Hy] by (rewrite El; apply last_is_Some; done).
  assert (forall num den mp, double_literal num den = SpecFloat.S754_finite false mp (-53) ->
    percentile num den (Z.pos mp) -> 0 <= num < den -> exists v, pct l (double_literal num den) = Ok v
      /\ l !! Z.to_nat (num * Z.of_nat (length l) / den) = Some v) as Hpc.
  { intros num den mp Hm Hp Hnum. by apply (pct_index l num den mp). }
  destruct (Hpc 50 100 _ eq_refl) as (p50 & E50 & H50); [by apply (bool_decide_unpack _)|lia|].
  destruct (Hpc 95 100 _ eq_refl) as (p95 & E95 & H95); [by apply (bool_decide_unpack _)|lia|].
  destruct (Hpc 99 100 _ eq_refl) as (p99 & E99 & H99); [by apply (bool_decide_unpack _)|lia|].
  destruct (Hpc 999 1000 _ eq_refl) as (p999 & E999 & H999); [by apply (bool_decide_unpack _)|lia|].
  exists (mkLatencyStats (Z.of_nat (length l)) (mean_ns l) x p50 p95 p99 p999 y).
  split; [|split_and!; [done|by rewrite El|done|by repeat constructor]].
  destruct xs as [|x0 xs]; [done|]. unfold computeStats. fold l.
  replace (head l) with (Some x) by (by rewrite El). rewrite Hy. cbn [defined mbind result_bind].
  rewrite E50. cbn [mbind result_bind]. rewrite E95. cbn [mbind result_bind]. rewrite E99. cbn [mbind result_bind].
  by rewrite E999.
Qed.

(** C37. The benchmark statistics.  On up to [2 ^ 40] samples [computeStats] does not
    fault; it sorts the samples, count, minimum and maximum are theirs, and percentile
    [num / den] is the sample at index [floor (num * n / den)], exactly.  That is one
    more than the nearest-rank index the comment promises whenever [den] divides
    [num * n]. *)
Theorem compute_stats_percentiles xs :
  xs <> [] -> Z.of_nat (length xs) < 2 ^ 40 ->
  exists s sorted, computeStats xs = Ok (s, sorted)
    /\ sorted ≡ₚ xs /\ StronglySorted Z.le sorted /\ bs_count s = Z.of_nat (length xs)
    /\ head sorted = Some (bs_min_ns s) /\ last sorted = Some (bs_max_ns s)
    /\ Forall (fun '(num, den, v) =>
         let n := Z.of_nat (length xs) in
         sorted !! Z.to_nat (num * n / den) = Some v
         /\ num * n / den = nearest_rank_index num den n + if (num * n) mod den =? 0 then 1 else 0)
       [(50, 100, bs_p50_ns s); (95, 100, bs_p95_ns s); (99, 100, bs_p99_ns s); (999, 1000, bs_p999_ns s)].
Proof.
  intros Hne Hn. destruct (computeStats_ok xs Hne Hn) as (s & Hs & Hc & Hh & Hl & Hp).
  exists s, (merge_sort Z.le xs).
  split_and!; [done|apply merge_sort_Permutation|apply StronglySorted_merge_sort; apply _|done..|].
  unfold percentiles in Hp. rewrite !Forall2_cons in Hp. destruct Hp as (H1 & H2 & H3 & H4 & _).
  repeat (constructor; [split; [done|by apply floor_index]|]). constructor.
Qed.

Lemma compute_stats_percentiles_witness :
  exists s sorted, computeStats [700; 100; 5000; 300] = Ok (s, sorted)
    /\ sorted = [100; 300; 700; 5000] /\ bs_p50_ns s = 700 /\ nearest_rank_index 50 100 4 = 1.
Proof.
  destruct (compute_stats_percentiles [700; 100; 5000; 300]) as (s & l & Hs & _); [done|cbn; lia|].
  exists s, l. split; [exact Hs|]. vm_compute in Hs. injection Hs as <- <-. done.
Defined.
