(* ===== verification/Channel.v ===== *)
(** A channel between two threads: what the queue benchmarks need of a queue.

    [Channel] states the promise: a first-in first-out queue that refuses an item only
    while it holds some.  The ring buffer of [spsc_queue.hpp] and the [MutexQueue] of
    [benchmark_spsc.cpp] keep it.  The operations are taken as atomic: the mutex makes
    them so, and [Spsc] shows it for the ring with one thread on each side. *)

From S2P Require Import Prelude.
From S2P Require Import Spsc.

#[local] Open Scope Z_scope.

Class Channel (Q T : Type) := {
  send : Q -> T -> bool * Q;
  receive : Q -> result (option T * Q);
  carries : Q -> list T -> Prop;
  send_law q items x : carries q items ->
    match send q x with
    | (true, q') => carries q' (items ++ [x])
    | (false, q') => q' = q /\ items <> []
    end;
  receive_law q items : carries q items ->
    match items with
    | [] => receive q = Ok (None, q)
    | x :: rest => exists q', receive q = Ok (Some x, q') /\ carries q' rest
    end
}.

Section laws.
Context {Q T : Type} {C : Channel Q T}.

Lemma sent q items x q' : carries q items -> send q x = (true, q') -> carries q' (items ++ [x]).
Proof using Type. intros Hq Hs. pose proof (send_law q items x Hq) as Hl. by rewrite Hs in Hl. Qed.

Lemma received_item q items x q' :
  carries q items -> receive q = Ok (Some x, q') -> exists rest, items = x :: rest /\ carries q' rest.
Proof using Type.
  intros Hq Hr. pose proof (receive_law q items Hq) as Hl. destruct items as [|y rest]; [congruence|].
  destruct Hl as (q2 & E & Hc). rewrite E in Hr. injection Hr as -> ->. by exists rest.
Qed.

(** One of the two sides can always go on. *)
Lemma send_or_receive q items x :
  carries q items -> (exists q', send q x = (true, q')) \/ exists y q', receive q = Ok (Some y, q').
Proof using Type.
  intros Hq. pose proof (send_law q items x Hq) as Hl. destruct (send q x) as [[] q'] eqn:E; [left; by eexists|].
  right. pose proof (receive_law q items Hq) as Hr. destruct Hl as [_ Hne]. destruct items as [|y rest]; [done|].
  destruct Hr as (q2 & -> & _). by eauto.
Qed.

Lemma send_empty q x : carries q [] -> exists q', send q x = (true, q').
Proof using Type.
  intros Hq. pose proof (send_law q [] x Hq) as Hl. destruct (send q x) as [[] q']; [by eexists|by destruct Hl].
Qed.
End laws.

(** * The ring *)

Definition ring_carries {T} (bits : nat) (q : SPSCQueue (T := T)) (items : list T) : Prop :=
  exists popped, represents bits q popped items.

#[program] Definition spsc_channel {T} (bits : nat) (Hbits : (bits <= 63)%nat) : Channel (SPSCQueue (T := T)) T := {|
  send := try_push bits;
  receive := try_pop bits;
  carries := ring_carries bits
|}.
Next Obligation.
  intros T bits Hbits q items x [popped Hr]. pose proof (rep_push bits Hbits q popped items x Hr) as Hp.
  case_bool_decide as Hfull.
  - rewrite Hp. split; [done|]. pose proof (Capacity_range bits Hbits). intros ->. cbn in Hfull. lia.
  - destruct Hp as (q' & -> & Hr'). by exists popped.
Qed.
Next Obligation.
  intros T bits Hbits q items [popped Hr]. pose proof (rep_pop bits Hbits q popped items Hr) as Hp.
  destruct items as [|x rest]; [done|]. destruct Hp as (q' & -> & Hr'). exists q'. split; [done|by eexists].
Qed.

Lemma spsc_channel_new {T} bits Hbits (zero : T) :
  carries (Channel := spsc_channel bits Hbits) (SPSCQueue_new bits zero) [].
Proof. exists 0%nat. by apply represents_new. Qed.

(** * The queue under a mutex *)

Section mutex.
Context {T : Type}.
(** [q_]; each operation holds [m_]. *)
Record MutexQueue : Type := mkMutexQueue { q_ : list T }.
Definition mutex_push (q : MutexQueue) (v : T) : MutexQueue := mkMutexQueue (q_ q ++ [v]).
Definition mutex_try_pop (q : MutexQueue) : option T * MutexQueue :=
  match q_ q with [] => (None, q) | x :: rest => (Some x, mkMutexQueue rest) end.
End mutex.
Arguments MutexQueue : clear implicits.

#[program] Definition mutex_channel {T} : Channel (MutexQueue T) T := {|
  send q x := (true, mutex_push q x);
  receive q := Ok (mutex_try_pop q);
  carries q items := q_ q = items
|}.
Next Obligation. by intros T q items x <-. Qed.
Next Obligation.
  intros T [[|x rest]] items <-; [done|]. cbn. by exists (mkMutexQueue rest).
Qed.
