(* ===== verification/Timing.v ===== *)
(** [timestamp.hpp] and [timestamp.cpp]: the clock reading as an unsigned number, and the
    busy loop that benchmarks run before a timed region. *)

From S2P Require Import Prelude.

#[local] Open Scope Z_scope.

(** [count] is the clock's number of nanoseconds since its epoch. *)
Definition now_ns (count : Z) : Z := u64 count.

(** The loop from [i] on, with [sink] read and written in every round. *)
Fixpoint warmup_loop (fuel : nat) (iterations i sink : Z) : result Z :=
  match fuel with
  | O => Fault OutOfFuel
  | S fuel => if i <? iterations then warmup_loop fuel iterations (u64 (i + 1)) (u64 (sink + i)) else Ok sink
  end.
(** One round more than there are iterations ends the loop. *)
Definition busy_warmup (iterations : Z) : result Z := warmup_loop (S (Z.to_nat iterations)) iterations 0 0.

Lemma warmup_loop_ends fuel iterations : forall i sink,
  0 <= i <= iterations -> iterations < 2 ^ 64 -> iterations - i < Z.of_nat fuel ->
  warmup_loop fuel iterations i (u64 sink) = Ok (u64 (sink + (iterations * (iterations - 1) - i * (i - 1)) / 2)).
Proof.
  induction fuel as [|fuel IH]; intros i sink Hi Hn Hf; [lia|]. cbn [warmup_loop].
  destruct (Z.ltb_spec i iterations) as [Hlt|Hge].
  - rewrite (u64_small (i + 1)), u64_add_l by range. rewrite IH by lia. do 2 f_equal.
    replace (iterations * (iterations - 1) - i * (i - 1)) with
      (iterations * (iterations - 1) - (i + 1) * (i + 1 - 1) + i * 2) by lia.
    rewrite Z.div_add by lia. lia.
  - assert (i = iterations) as -> by lia. by rewrite Z.sub_diag, Z.div_0_l, Z.add_0_r by lia.
Qed.

(** The warm-up returns for every argument, having added up the numbers below it. *)
Theorem busy_warmup_ends iterations :
  is_u64 iterations -> busy_warmup iterations = Ok (u64 (iterations * (iterations - 1) / 2)).
Proof.
  intros Hn. unfold busy_warmup. rewrite (warmup_loop_ends _ _ 0 0) by range.
  by rewrite Z.add_0_l, Z.mul_0_l, Z.sub_0_r.
Qed.

(** Readings of a monotonic clock that has not run for 2^64 ns are in order, and their
    difference as the benchmarks compute it is the time between them. *)
Lemma now_ns_elapsed a b : 0 <= a <= b -> b < 2 ^ 64 -> now_ns a <= now_ns b /\ u64 (now_ns b - now_ns a) = b - a.
Proof. intros Ha Hb. unfold now_ns. rewrite !u64_small by range. by split; [lia|]. Qed.

Lemma busy_warmup_ends_witness : busy_warmup 1000 = Ok 499500.
Proof. rewrite (busy_warmup_ends 1000) by range. reflexivity. Defined.
