(* ===== verification/BenchmarkQueues.v ===== *)
(** [benchmark_spsc.cpp] and [benchmark_ipc.cpp]: throughput and ping-pong over the queues,
    between two threads and between two processes.

    A thread that spins on a full or empty queue changes nothing, so a failed attempt
    is not a step: that a run comes to its end means that there is always a thread
    whose next attempt succeeds, and that only finitely many do.  The timing is left
    out, but for the clock readings of the ping-pong. *)

From S2P Require Import Prelude.
From S2P Require Import Doubles.
From S2P Require Import Spsc.
From S2P Require Import Channel.
From S2P Require Import BenchmarkStats.

#[local] Open Scope Z_scope.

(** * [throughputSPSC] and [throughputMutex] *)

Section transfer.
Context {Q : Type} {C : Channel Q Z}.

(** The queue, the producer's [i], and what the consumer has popped: [received] of the
    source is its length. *)
Record Transfer : Type := mkTransfer { tr_queue : Q; tr_next : Z; tr_received : list Z }.

Inductive transfer_step (n : Z) (t : Transfer) : Transfer -> Prop :=
| transfer_push q :
    tr_next t < n -> send (tr_queue t) (tr_next t) = (true, q) ->
    transfer_step n t (mkTransfer q (tr_next t + 1) (tr_received t))
| transfer_pop v q :
    Z.of_nat (length (tr_received t)) < n -> receive (tr_queue t) = Ok (Some v, q) ->
    transfer_step n t (mkTransfer q (tr_next t) (tr_received t ++ [v])).

(** Both threads have returned. *)
Definition transferred (n : Z) (t : Transfer) : Prop := tr_next t = n /\ n <= Z.of_nat (length (tr_received t)).

Record transfer_ok (n : Z) (t : Transfer) : Prop := {
  to_next : 0 <= tr_next t <= n;
  to_queue : exists items, carries (tr_queue t) items /\ tr_received t ++ items = seqZ 0 (tr_next t)
}.

Lemma seqZ_snoc i k : 0 <= k -> seqZ i (k + 1) = seqZ i k ++ [i + k].
Proof using Type. intros Hk. by rewrite seqZ_app by lia. Qed.

Lemma transfer_step_ok n t t' :
  transfer_ok n t -> transfer_step n t t' ->
  transfer_ok n t' /\ (Z.to_nat (2 * n - tr_next t' - Z.of_nat (length (tr_received t')))
                       < Z.to_nat (2 * n - tr_next t - Z.of_nat (length (tr_received t))))%nat.
Proof using Type.
  intros [Hn (items & Hq & Hi)] [q Hlt Hs|v q Hlt Hr].
  - split; [split; cbn; [lia|]|cbn].
    + exists (items ++ [tr_next t]). split; [by eapply sent|]. by rewrite app_assoc, Hi, seqZ_snoc by lia.
    + apply (f_equal length) in Hi. rewrite length_app, length_seqZ in Hi. lia.
  - destruct (received_item _ _ _ _ Hq Hr) as (rest & -> & Hq'). split; [split; cbn; [lia|]|cbn].
    + exists rest. split; [done|]. by rewrite <- app_assoc.
    + rewrite length_app. cbn. lia.
Qed.

Lemma transfer_progress n t : transfer_ok n t -> transferred n t \/ exists t', transfer_step n t t'.
Proof using Type.
  intros [Hn (items & Hq & Hi)].
  assert (Z.of_nat (length (tr_received t)) + Z.of_nat (length items) = tr_next t) as Hlen.
  { apply (f_equal length) in Hi. rewrite length_app, length_seqZ in Hi. lia. }
  destruct (decide (tr_next t < n)) as [Hlt|Hge].
  - right. destruct (send_or_receive _ _ (tr_next t) Hq) as [[q Hs]|(y & q & Hr)]; [by eexists; apply transfer_push|].
    eexists. eapply transfer_pop; [|exact Hr]. lia.
  - destruct (decide (n <= Z.of_nat (length (tr_received t)))) as [Hd|Hd]; [left; split; lia|]. right.
    destruct items as [|y rest]; [cbn in Hlen; lia|]. destruct (receive_law _ _ Hq) as (q & Hr & _).
    eexists. eapply transfer_pop; [lia|exact Hr].
Qed.

Lemma transfer_delivers n q :
  0 <= n -> carries q [] ->
  inevitably (transfer_step n) (fun t => transferred n t /\ tr_received t = seqZ 0 n /\ carries (tr_queue t) [])
    (mkTransfer q 0 []).
Proof using Type.
  intros Hn Hq.
  apply (inevitably_measure _ _ (transfer_ok n)
    (fun t => Z.to_nat (2 * n - tr_next t - Z.of_nat (length (tr_received t))))).
  - apply transfer_step_ok.
  - intros t Ht. destruct (transfer_progress n t Ht) as [[He Hl]|Hs]; [left|by right].
    destruct Ht as [_ (items & Hc & Hi)]. rewrite He in Hi.
    assert (items = []) as ->.
    { apply nil_length_inv. apply (f_equal length) in Hi. rewrite length_app, length_seqZ in Hi. lia. }
    rewrite app_nil_r in Hi. done.
  - split; cbn; [lia|]. by exists [].
Qed.
End transfer.
Arguments Transfer : clear implicits.

Definition throughputSPSC_step (Hbits : (16 <= 63)%nat) (n : Z) := transfer_step (C := spsc_channel 16 Hbits) n.
Definition throughputMutex_step (n : Z) := transfer_step (C := mutex_channel) n.

(** Both throughput benchmarks deliver.  For every message count the two threads
    come to their end, through the ring of [2^16] slots as through the queue under the
    mutex, and the consumer has received exactly 0, 1, ..., n - 1, in this order; the
    queue is empty. *)
Theorem throughput_delivers n :
  0 <= n < 2 ^ 64 ->
  (forall Hbits : (16 <= 63)%nat,
    inevitably (throughputSPSC_step Hbits n)
      (fun t => transferred n t /\ tr_received t = seqZ 0 n /\ spsc_empty (tr_queue t) = true)
      (mkTransfer (SPSCQueue_new 16 0) 0 []))
  /\ inevitably (throughputMutex_step n)
       (fun t => transferred n t /\ tr_received t = seqZ 0 n /\ tr_queue t = mkMutexQueue [])
       (mkTransfer (mkMutexQueue []) 0 []).
Proof.
  intros Hn. split.
  - intros Hbits. eapply inevitably_weaken; [|apply transfer_delivers; [lia|apply spsc_channel_new]].
    intros t (H1 & H2 & popped & [Ht Hh _ _ _]). split_and!; [done..|]. unfold spsc_empty.
    rewrite Ht, Hh, Nat.add_0_r. apply Z.eqb_refl.
  - eapply inevitably_weaken; [|apply (transfer_delivers (C := mutex_channel)); [lia|done]].
    intros t (H1 & H2 & H3). split_and!; [done..|]. destruct (tr_queue t) as [l]. cbn in H3. by rewrite H3.
Qed.

Lemma throughput_delivers_witness :
  inevitably (throughputMutex_step 1000000)
    (fun t => transferred 1000000 t /\ tr_received t = seqZ 0 1000000 /\ tr_queue t = mkMutexQueue [])
    (mkTransfer (mkMutexQueue []) 0 []).
Proof. apply (throughput_delivers 1000000). lia. Defined.

(** * [runThroughput]: the consumer is a child process *)

Inductive ParentPlace : Type :=
| ParentForked
| ParentSends
| ParentWaits (timing : bool)     (** after [read], which returned the timing or nothing *)
| ParentDone (timing : bool).     (** after [waitpid] *)
Inductive ChildPlace : Type :=
| ChildOpens
| ChildPolls                      (** waits for [ready] *)
| ChildReceives
| ChildExits (status : Z).

#[global] Instance parent_dec : EqDecision ParentPlace.
Proof. solve_decision. Defined.

Section ipc.
Context {Q : Type} {C : Channel Q Z}.

Record Ipc : Type := mkIpc {
  ip_ready : bool;
  ip_child_done : bool;
  ip_queue : Q;
  ip_parent : ParentPlace;
  ip_next : Z;
  ip_child : ChildPlace;
  ip_received : list Z;
  ip_pipe : bool                  (** the timing is in the pipe *)
}.
Definition ipc_forked (q : Q) : Ipc := mkIpc false false q ParentForked 0 ChildOpens [] false.

(** [opens]: whether the child can open the region; [write] to the pipe may fail.  [read]
    returns when there is something in the pipe or its last writing end is closed. *)
Inductive ipc_step (opens : bool) (n : Z) (s : Ipc) : Ipc -> Prop :=
| child_open :
    ip_child s = ChildOpens ->
    ipc_step opens n s (mkIpc (ip_ready s) (ip_child_done s) (ip_queue s) (ip_parent s) (ip_next s)
                          (if opens then ChildPolls else ChildExits 1) (ip_received s) (ip_pipe s))
| child_ready :
    ip_child s = ChildPolls -> ip_ready s = true ->
    ipc_step opens n s (mkIpc (ip_ready s) (ip_child_done s) (ip_queue s) (ip_parent s) (ip_next s)
                          ChildReceives (ip_received s) (ip_pipe s))
| child_pop v q :
    ip_child s = ChildReceives -> Z.of_nat (length (ip_received s)) < n -> receive (ip_queue s) = Ok (Some v, q) ->
    ipc_step opens n s (mkIpc (ip_ready s) (ip_child_done s) q (ip_parent s) (ip_next s)
                          ChildReceives (ip_received s ++ [v]) (ip_pipe s))
| child_reports written :
    ip_child s = ChildReceives -> n <= Z.of_nat (length (ip_received s)) ->
    ipc_step opens n s (mkIpc (ip_ready s) true (ip_queue s) (ip_parent s) (ip_next s)
                          (ChildExits 0) (ip_received s) written)
| parent_ready :
    ip_parent s = ParentForked ->
    ipc_step opens n s (mkIpc true (ip_child_done s) (ip_queue s) ParentSends (ip_next s)
                          (ip_child s) (ip_received s) (ip_pipe s))
| parent_push q :
    ip_parent s = ParentSends -> ip_next s < n -> send (ip_queue s) (ip_next s) = (true, q) ->
    ipc_step opens n s (mkIpc (ip_ready s) (ip_child_done s) q ParentSends (ip_next s + 1)
                          (ip_child s) (ip_received s) (ip_pipe s))
| parent_read :
    ip_parent s = ParentSends -> n <= ip_next s -> ip_pipe s = true \/ (exists status, ip_child s = ChildExits status) ->
    ipc_step opens n s (mkIpc (ip_ready s) (ip_child_done s) (ip_queue s) (ParentWaits (ip_pipe s)) (ip_next s)
                          (ip_child s) (ip_received s) (ip_pipe s))
| parent_wait timing status :
    ip_parent s = ParentWaits timing -> ip_child s = ChildExits status ->
    ipc_step opens n s (mkIpc (ip_ready s) (ip_child_done s) (ip_queue s) (ParentDone timing) (ip_next s)
                          (ip_child s) (ip_received s) (ip_pipe s)).

Definition parent_weight (p : ParentPlace) : Z :=
  match p with ParentForked => 3 | ParentSends => 2 | ParentWaits _ => 1 | ParentDone _ => 0 end.
Definition child_weight (c : ChildPlace) : Z :=
  match c with ChildOpens => 3 | ChildPolls => 2 | ChildReceives => 1 | ChildExits _ => 0 end.
Definition ipc_weight (n : Z) (s : Ipc) : Z :=
  2 * n - ip_next s - Z.of_nat (length (ip_received s)) + parent_weight (ip_parent s) + child_weight (ip_child s).

Record ipc_ok (opens : bool) (n : Z) (s : Ipc) : Prop := {
  io_next : 0 <= ip_next s <= n;
  io_queue : exists items, carries (ip_queue s) items /\ ip_received s ++ items = seqZ 0 (ip_next s);
  io_ready : ip_ready s = bool_decide (ip_parent s <> ParentForked);
  io_parent : match ip_parent s with ParentForked => ip_next s = 0 | ParentSends => True | _ => ip_next s = n end;
  io_child : match ip_child s with
    | ChildOpens | ChildPolls => ip_received s = [] /\ ip_child_done s = false
    | ChildReceives => opens = true /\ ip_child_done s = false
    | ChildExits status =>
      if opens then status = 0 /\ ip_child_done s = true /\ Z.of_nat (length (ip_received s)) = n
      else status = 1 /\ ip_received s = [] /\ ip_child_done s = false
    end;
  io_polls : ip_child s = ChildPolls -> opens = true
}.

Lemma ipc_counts opens n s : ipc_ok opens n s -> Z.of_nat (length (ip_received s)) <= ip_next s <= n.
Proof using Type.
  intros [Hn (items & _ & Hi) _ _ _ _]. apply (f_equal length) in Hi. rewrite length_app, length_seqZ in Hi. lia.
Qed.

Lemma ipc_step_ok opens n s s' : ipc_ok opens n s -> ipc_step opens n s s' -> ipc_ok opens n s'.
Proof using Type.
  intros Hok Hs. pose proof (ipc_counts _ _ _ Hok) as Hcount. destruct Hok as [Hn (items & Hq & Hi) Hr Hp Hc Hpo].
  destruct Hs as [E|E E'|v q E Hlt Hv|w E Hge|E|q E Hlt Hv|E Hge _|timing st E E'];
    rewrite E in *; (split; cbn [ip_ready ip_child_done ip_queue ip_parent ip_next ip_child ip_received ip_pipe]);
    try done; try (by exists items).
  - by destruct opens; destruct Hc.
  - by destruct opens.
  - by split; [apply Hpo|destruct Hc].
  - destruct (received_item _ _ _ _ Hq Hv) as (rest & -> & Hq'). exists rest. split; [done|]. by rewrite <- app_assoc.
  - destruct Hc as [-> _]. split_and!; [done..|lia].
  - lia.
  - exists (items ++ [ip_next s]). split; [by eapply sent|]. by rewrite app_assoc, Hi, seqZ_snoc by lia.
  - lia.
Qed.

Lemma ipc_step_weight opens n s s' : ipc_ok opens n s -> ipc_step opens n s s' -> ipc_weight n s' < ipc_weight n s.
Proof using Type.
  intros _ Hs. unfold ipc_weight.
  destruct Hs as [E|E E'|v q E Hlt Hv|w E Hge|E|q E Hlt Hv|E Hge _|timing st E E'];
    cbn [ip_parent ip_next ip_child ip_received]; rewrite ?E, ?E'; rewrite ?length_app;
    cbn [parent_weight child_weight length]; try lia.
  destruct opens; cbn; lia.
Qed.

Lemma ipc_runs opens n (P : Ipc -> Prop) q :
  0 <= n -> carries q [] -> (forall s, ipc_ok opens n s -> P s \/ exists s', ipc_step opens n s s') ->
  inevitably (ipc_step opens n) P (ipc_forked q).
Proof using Type.
  intros Hn Hq Hp. apply (inevitably_measure _ _ (ipc_ok opens n) (fun s => Z.to_nat (ipc_weight n s))).
  - intros s s' Hs Hst. pose proof (ipc_step_ok _ _ _ _ Hs Hst) as Hs'. split; [done|].
    pose proof (ipc_step_weight _ _ _ _ Hs Hst). pose proof (ipc_counts _ _ _ Hs').
    assert (0 <= ipc_weight n s'); [|lia].
    unfold ipc_weight. destruct (ip_parent s'), (ip_child s'); cbn; lia.
  - exact Hp.
  - split; cbn; try done; [by exists []].
Qed.

Lemma ipc_progress n s : ipc_ok true n s -> (exists timing, ip_parent s = ParentDone timing) /\ ip_child s = ChildExits 0
    /\ ip_received s = seqZ 0 n /\ ip_child_done s = true \/ exists s', ipc_step true n s s'.
Proof using Type.
  intros Hok. pose proof (ipc_counts _ _ _ Hok) as Hcount. destruct Hok as [Hn (items & Hq & Hi) Hr Hp Hc Hpo].
  assert (Z.of_nat (length (ip_received s)) + Z.of_nat (length items) = ip_next s) as Hlen.
  { apply (f_equal length) in Hi. rewrite length_app, length_seqZ in Hi. lia. }
  destruct (decide (ip_parent s = ParentForked)) as [E|E]; [right; eexists; by apply parent_ready|].
  rewrite bool_decide_eq_true_2 in Hr by done.
  destruct (ip_child s) as [| | |status] eqn:Ec.
  - right. eexists. by apply child_open.
  - right. eexists. by apply child_ready.
  - right. destruct (decide (n <= Z.of_nat (length (ip_received s)))) as [Hd|Hd]; [eexists; by apply (child_reports _ _ _ true)|].
    destruct items as [|y rest].
    + destruct (send_empty _ (ip_next s) Hq) as [q Hs]. cbn in Hlen. destruct (ip_parent s) eqn:Ep; try done; try lia.
      eexists. eapply parent_push; [done|lia|exact Hs].
    + destruct (receive_law _ _ Hq) as (q & Hrv & _). eexists. eapply child_pop; [done|lia|exact Hrv].
  - destruct Hc as (-> & Hd & Hl). destruct (ip_parent s) as [| |timing|timing] eqn:Ep; [done| | |left].
    + right. eexists. apply parent_read; [done|lia|right; by eexists].
    + right. eexists. by eapply parent_wait.
    + split; [by eexists|]. split_and!; [done| |done]. assert (items = []) as -> by (apply nil_length_inv; lia).
      by rewrite app_nil_r, Hp in Hi.
Qed.
End ipc.
Arguments Ipc : clear implicits.

(** The parent spins on the full ring, and nobody will ever take anything out. *)
Definition ipc_hangs (bits : nat) (Hbits : (bits <= 63)%nat) (n : Z) (s : Ipc (SPSCQueue (T := Z))) : Prop :=
  ip_parent s = ParentSends /\ ip_child s = ChildExits 1 /\ ip_next s = Capacity bits /\ ip_next s < n
  /\ send (Channel := spsc_channel bits Hbits) (ip_queue s) (ip_next s) = (false, ip_queue s)
  /\ forall s', ~ ipc_step (C := spsc_channel bits Hbits) false n s s'.

Lemma ipc_hang_progress bits Hbits n s :
  Capacity bits < n -> ipc_ok (C := spsc_channel bits Hbits) false n s ->
  ipc_hangs bits Hbits n s \/ exists s', ipc_step (C := spsc_channel bits Hbits) false n s s'.
Proof.
  intros Hbig [Hn (items & Hq & Hi) Hr Hp Hc Hpo].
  destruct (decide (ip_parent s = ParentForked)) as [E|E]; [right; eexists; by apply parent_ready|].
  destruct (ip_child s) as [| | |status] eqn:Ec; [right; eexists; by apply child_open|by discriminate Hpo|by destruct Hc|].
  destruct Hc as (-> & Hnil & _). rewrite Hnil in Hi. cbn in Hi.
  assert (Z.of_nat (length items) = ip_next s) as Hlen by (rewrite Hi, length_seqZ; lia).
  pose proof Hq as [popped Hrep]. pose proof (rep_room _ _ _ _ Hrep) as Hroom.
  pose proof (rep_push bits Hbits _ _ _ (ip_next s) Hrep) as Hs.
  assert (ip_parent s = ParentSends) as Ep by (destruct (ip_parent s); try done; lia).
  case_bool_decide as Hfull.
  - left. split_and!; [done|done|lia|lia|exact Hs|]. intros s' Hst.
    destruct Hst as [E'|E' _|v q E' _ _|w E' _|E'|q _ _ Hpush|_ Hge _|timing st E' _]; try congruence; [|lia].
    change (try_push bits (ip_queue s) (ip_next s) = (true, q)) in Hpush. congruence.
  - right. destruct Hs as (q & Hs & _). eexists. eapply parent_push; [done|lia|exact Hs].
Qed.

Definition runThroughput_step (Hbits : (14 <= 63)%nat) (opens : bool) (n : Z) :=
  ipc_step (C := spsc_channel 14 Hbits) opens n.

(** C26. [runThroughput] of the inter-process benchmark.  If the child can open the region,
    every run ends, for every message count: the child has received exactly 0, 1, ...,
    n - 1 in order and exits with 0, and the parent has collected it.  If it cannot,
    the child exits with 1 - and for more messages than the ring has slots, as in all
    three calls of [main], every run ends with the parent spinning on the full ring for
    ever, having noticed nothing. *)
Theorem ipc_throughput_outcome n (Hbits : (14 <= 63)%nat) :
  0 <= n < 2 ^ 64 ->
  inevitably (runThroughput_step Hbits true n)
    (fun s => (exists timing, ip_parent s = ParentDone timing) /\ ip_child s = ChildExits 0
       /\ ip_received s = seqZ 0 n /\ ip_child_done s = true)
    (ipc_forked (SPSCQueue_new 14 0))
  /\ (Capacity 14 < n ->
      inevitably (runThroughput_step Hbits false n) (ipc_hangs 14 Hbits n)
        (ipc_forked (SPSCQueue_new 14 0))).
Proof.
  intros Hn. split; [|intros Hbig].
  - apply ipc_runs; [lia|apply spsc_channel_new|]. apply ipc_progress.
  - apply ipc_runs; [lia|apply spsc_channel_new|]. intros s. by apply ipc_hang_progress.
Qed.

Lemma ipc_throughput_outcome_witness :
  exists Hbits, inevitably (runThroughput_step Hbits false 1000000) (ipc_hangs 14 Hbits 1000000)
    (ipc_forked (SPSCQueue_new 14 0)).
Proof.
  assert (14 <= 63)%nat as Hbits by lia. exists Hbits.
  apply (proj2 (ipc_throughput_outcome 1000000 Hbits ltac:(lia))). by vm_compute.
Defined.

(** * Ping-pong: [pingPongSPSC] and [runLatency] *)

Inductive Pinger : Type :=
| PingForked               (** before [ready.store(1)] *)
| PingNext
| PingSends (t0 : Z)
| PingAwaits (t0 : Z)
| PingStopped              (** after the loop: [join], respectively [waitpid] *)
| PingDone.
Inductive Ponger : Type :=
| PongOpens
| PongPolls
| PongTakes
| PongEchoes (v : Z)
| PongDone.

#[global] Instance pinger_dec : EqDecision Pinger.
Proof. solve_decision. Defined.
#[global] Instance ponger_dec : EqDecision Ponger.
Proof. solve_decision. Defined.

(** How the responder's loop ends: at the flag [stop], or after [n] messages. *)
Inductive Ending : Type := ByFlag | ByCount.

Section ping_pong.
Context {Q : Type} {C : Channel Q Z}.

Record PingPong : Type := mkPingPong {
  pp_ready : bool;
  pp_stop : bool;
  pp_out : Q;
  pp_in : Q;
  pp_pinger : Pinger;
  pp_rtt : list Z;
  pp_echoes : list (Z * Z);       (** what was sent and what came back *)
  pp_ponger : Ponger;
  pp_handled : Z
}.

(** Two threads; or a child that opens the region and waits for [ready]. *)
Definition threads_begin (q1 q2 : Q) : PingPong := mkPingPong true false q1 q2 PingNext [] [] PongTakes 0.
Definition processes_begin (q1 q2 : Q) : PingPong := mkPingPong false false q1 q2 PingForked [] [] PongOpens 0.

Definition ponger_goes_on (e : Ending) (n : Z) (s : PingPong) : bool :=
  match e with ByFlag => negb (pp_stop s) | ByCount => pp_handled s <? n end.

Definition pinger_at (s : PingPong) (p : Pinger) : PingPong :=
  mkPingPong (pp_ready s) (pp_stop s) (pp_out s) (pp_in s) p (pp_rtt s) (pp_echoes s) (pp_ponger s) (pp_handled s).
Definition ponger_at (s : PingPong) (p : Ponger) : PingPong :=
  mkPingPong (pp_ready s) (pp_stop s) (pp_out s) (pp_in s) (pp_pinger s) (pp_rtt s) (pp_echoes s) p (pp_handled s).

(** [steady_clock] does not go back: [t0 <= t1]. *)
Inductive pp_step (e : Ending) (n : Z) (s : PingPong) : PingPong -> Prop :=
| ping_ready :
    pp_pinger s = PingForked ->
    pp_step e n s (mkPingPong true (pp_stop s) (pp_out s) (pp_in s) PingNext (pp_rtt s) (pp_echoes s)
                     (pp_ponger s) (pp_handled s))
| ping_begins t0 :
    pp_pinger s = PingNext -> Z.of_nat (length (pp_rtt s)) < n -> is_u64 t0 -> pp_step e n s (pinger_at s (PingSends t0))
| ping_sends t0 q :
    pp_pinger s = PingSends t0 -> send (pp_out s) t0 = (true, q) ->
    pp_step e n s (mkPingPong (pp_ready s) (pp_stop s) q (pp_in s) (PingAwaits t0) (pp_rtt s) (pp_echoes s)
                     (pp_ponger s) (pp_handled s))
| ping_receives t0 t1 echoed q :
    pp_pinger s = PingAwaits t0 -> receive (pp_in s) = Ok (Some echoed, q) -> t0 <= t1 < 2 ^ 64 ->
    pp_step e n s (mkPingPong (pp_ready s) (pp_stop s) (pp_out s) q PingNext (pp_rtt s ++ [u64 (t1 - t0)])
                     (pp_echoes s ++ [(t0, echoed)]) (pp_ponger s) (pp_handled s))
| ping_stops :
    pp_pinger s = PingNext -> n <= Z.of_nat (length (pp_rtt s)) ->
    pp_step e n s (mkPingPong (pp_ready s) true (pp_out s) (pp_in s) PingStopped (pp_rtt s) (pp_echoes s)
                     (pp_ponger s) (pp_handled s))
| ping_joins :
    pp_pinger s = PingStopped -> pp_ponger s = PongDone -> pp_step e n s (pinger_at s PingDone)
| pong_opens : pp_ponger s = PongOpens -> pp_step e n s (ponger_at s PongPolls)
| pong_ready : pp_ponger s = PongPolls -> pp_ready s = true -> pp_step e n s (ponger_at s PongTakes)
| pong_takes v q :
    pp_ponger s = PongTakes -> ponger_goes_on e n s = true -> receive (pp_out s) = Ok (Some v, q) ->
    pp_step e n s (mkPingPong (pp_ready s) (pp_stop s) q (pp_in s) (pp_pinger s) (pp_rtt s) (pp_echoes s)
                     (PongEchoes v) (pp_handled s))
| pong_echoes v q :
    pp_ponger s = PongEchoes v -> send (pp_in s) v = (true, q) ->
    pp_step e n s (mkPingPong (pp_ready s) (pp_stop s) (pp_out s) q (pp_pinger s) (pp_rtt s) (pp_echoes s)
                     PongTakes (pp_handled s + 1))
| pong_ends :
    pp_ponger s = PongTakes -> ponger_goes_on e n s = false -> pp_step e n s (ponger_at s PongDone).

(** Where the one token is: with the pinger, on its way, with the ponger, on its way back. *)
Inductive Token : Type := AtHome | Going (t0 : Z) | Away (t0 : Z) | Coming (t0 : Z).

Definition pinger_fits (s : PingPong) (tok : Token) : Prop :=
  match pp_pinger s with
  | PingForked => tok = AtHome /\ pp_rtt s = []
  | PingNext => tok = AtHome
  | PingSends t0 => tok = AtHome /\ is_u64 t0
  | PingAwaits t0 => is_u64 t0 /\ (tok = Going t0 \/ tok = Away t0 \/ tok = Coming t0)
  | PingStopped => tok = AtHome
  | PingDone => tok = AtHome /\ pp_ponger s = PongDone
  end.
Definition ponger_fits (e : Ending) (n : Z) (s : PingPong) (tok : Token) : Prop :=
  match pp_ponger s with
  | PongOpens | PongPolls => pp_handled s = 0 /\ (tok = AtHome \/ exists t0, tok = Going t0)
  | PongTakes => forall t0, tok <> Away t0
  | PongEchoes v => tok = Away v
  | PongDone => ponger_goes_on e n s = false /\ (forall t0, tok <> Going t0) /\ (forall t0, tok <> Away t0)
  end.

Record pp_ok (e : Ending) (n : Z) (s : PingPong) (tok : Token) : Prop := {
  ppk_out : carries (pp_out s) (match tok with Going t0 => [t0] | _ => [] end);
  ppk_in : carries (pp_in s) (match tok with Coming t0 => [t0] | _ => [] end);
  ppk_handled : pp_handled s = Z.of_nat (length (pp_rtt s)) + match tok with Coming _ => 1 | _ => 0 end;
  ppk_pinger : pinger_fits s tok;
  ppk_ponger : ponger_fits e n s tok;
  ppk_ready : pp_ready s = bool_decide (pp_pinger s <> PingForked);
  ppk_stop : pp_stop s = bool_decide (pp_pinger s = PingStopped \/ pp_pinger s = PingDone);
  ppk_rounds : Z.of_nat (length (pp_rtt s)) + match pp_pinger s with PingSends _ | PingAwaits _ => 1 | _ => 0 end <= n;
  ppk_over : pp_stop s = true -> Z.of_nat (length (pp_rtt s)) = n;
  ppk_rtt : Forall is_u64 (pp_rtt s);
  ppk_echoes : length (pp_echoes s) = length (pp_rtt s) /\ Forall (fun x => x.1 = x.2) (pp_echoes s)
}.

Definition pinger_weight (p : Pinger) : Z :=
  match p with PingForked => 9 | PingNext => 8 | PingSends _ => 7 | PingAwaits _ => 6 | PingStopped => 1 | PingDone => 0 end.
Definition ponger_weight (p : Ponger) : Z :=
  match p with PongOpens => 4 | PongPolls => 3 | PongTakes => 2 | PongEchoes _ => 1 | PongDone => 0 end.
Definition pp_weight (n : Z) (s : PingPong) : Z :=
  8 * (n - Z.of_nat (length (pp_rtt s))) - 3 * (pp_handled s - Z.of_nat (length (pp_rtt s)))
  + pinger_weight (pp_pinger s) + ponger_weight (pp_ponger s).

Lemma pp_step_weight e n s s' : pp_step e n s s' -> pp_weight n s' < pp_weight n s.
Proof using Type.
  intros Hs. unfold pp_weight. destruct Hs as [E|t0 E Hlt _|t0 q E _|t0 t1 v q E _ _|E Hge|E _|E|E _|v q E _ _|v q E _|E _];
    cbn [pp_rtt pp_handled pp_pinger pp_ponger pinger_at ponger_at]; rewrite E; rewrite ?length_app;
    cbn [pinger_weight ponger_weight length]; lia.
Qed.

Ltac pp_fields :=
  split; unfold pinger_fits, ponger_fits, ponger_goes_on in *;
  cbn [pp_ready pp_stop pp_out pp_in pp_pinger pp_rtt pp_echoes pp_ponger pp_handled pinger_at ponger_at] in *;
  try done.

(** The pinger's place says the same of the token. *)
Ltac pinger_still :=
  try match goal with
  | |- match pp_pinger ?s with PingForked => _ | _ => _ end => destruct (pp_pinger s); naive_solver
  end.

Lemma pinger_step_ok e n s s' tok :
  pp_ok e n s tok -> pp_step e n s s' -> pp_ponger s' = pp_ponger s -> exists tok', pp_ok e n s' tok'.
Proof using Type.
  intros [Ho Hi Hh Hp Hq Hr Hs Hn Hv Hrt He] Hst Hsame. unfold pinger_fits in Hp.
  destruct Hst as [E|t0 E Hlt Ht|t0 q E Hq'|t0 t1 v q E Hq' Ht|E Hge|E Hd|E|E _|v q E _ _|v q E _|E _];
    try (cbn in Hsame; congruence); rewrite E in *.
  - exists tok. pp_fields. by destruct Hp.
  - exists AtHome. rewrite Hp in *. pp_fields; try done; lia.
  - destruct Hp as [-> Hu]. exists (Going t0). pp_fields.
    + by apply (sent (pp_out s) []).
    + split; [done|by left].
    + destruct (pp_ponger s); try done; [naive_solver|naive_solver|].
      destruct Hq as (Hstop & _ & _). exfalso. destruct e; [by rewrite Hs in Hstop|]. apply Z.ltb_ge in Hstop. lia.
  - destruct Hp as [Hu Hp]. destruct (received_item _ _ _ _ Hi Hq') as (rest & Hrest & Hc).
    destruct Hp as [->|[->| ->]]; try done. injection Hrest as <- <-. exists AtHome. pp_fields.
    + rewrite length_app. cbn. lia.
    + destruct (pp_ponger s); try done; naive_solver.
    + rewrite length_app. cbn. lia.
    + intros Hx. rewrite Hs in Hx. by apply bool_decide_eq_true in Hx as [|].
    + apply Forall_app_2; [done|]. constructor; [apply u64_range|done].
    + rewrite !length_app. destruct He as [He1 He2]. split; [cbn; lia|]. by apply Forall_app_2; [|constructor].
  - subst tok. exists AtHome. pp_fields; try lia.
    destruct (pp_ponger s); try done. destruct Hq as (Hstop & H1 & H2). split_and!; [by destruct e|done|done].
  - subst tok. exists AtHome. pp_fields; try lia.
Qed.

Lemma ponger_step_ok e n s s' tok :
  pp_ok e n s tok -> pp_step e n s s' -> pp_ponger s' <> pp_ponger s -> exists tok', pp_ok e n s' tok'.
Proof using Type.
  intros [Ho Hi Hh Hp Hq Hr Hs Hn Hv Hrt He] Hst Hsame. unfold pinger_fits, ponger_fits in Hp, Hq.
  destruct Hst as [E|t0 E Hlt Ht|t0 q E Hq'|t0 t1 v q E Hq' Ht|E Hge|E Hd|E|E Hrd|v q E Hgo Hq'|v q E Hq'|E Hgo];
    try (by exfalso; apply Hsame); rewrite E in *.
  - exists tok. pp_fields; pinger_still.
  - exists tok. pp_fields; pinger_still. destruct Hq as [_ [->|[t0 ->]]]; done.
  - destruct (received_item _ _ _ _ Ho Hq') as (rest & Hrest & Hc). destruct tok as [|t0|t0|t0]; try done.
    injection Hrest as <- <-. exists (Away t0). pp_fields; pinger_still.
  - subst tok. exists (Coming v). pp_fields; pinger_still.
    + by apply (sent (pp_in s) []).
    + lia.
  - exists tok. pp_fields; pinger_still. split_and!; [done| |done]. intros t0 ->.
    destruct (pp_pinger s) eqn:Ep; try done; try (by destruct Hp).
    destruct e; [by rewrite Hs in Hgo|]. apply Z.ltb_ge in Hgo. lia.
Qed.

Lemma pp_progress e n s tok : pp_ok e n s tok -> pp_pinger s = PingDone \/ exists s', pp_step e n s s'.
Proof using Type.
  intros [Ho Hi Hh Hp Hq Hr Hs Hn Hv _ _]. unfold pinger_fits, ponger_fits in *.
  assert (pp_pinger s <> PingForked -> pp_ponger s = PongOpens \/ pp_ponger s = PongPolls -> exists s', pp_step e n s s') as Hboot.
  { intros Hf [E|E]; eexists; [by apply pong_opens|]. apply pong_ready; [done|]. by rewrite Hr, bool_decide_eq_true_2. }
  destruct (pp_pinger s) as [| |t0|t0| |] eqn:Ep; [right..|by left].
  - eexists. by apply ping_ready.
  - destruct (decide (Z.of_nat (length (pp_rtt s)) < n)); eexists; [by apply (ping_begins _ _ _ 0)|apply ping_stops; [done|lia]].
  - destruct Hp as [-> _]. destruct (send_empty _ t0 Ho) as [q Hsend]. eexists. by eapply ping_sends.
  - destruct Hp as [Hu [->|[->| ->]]].
    + destruct (receive_law _ _ Ho) as (q & Htake & _).
      destruct (pp_ponger s) eqn:Eo; [by apply Hboot; [|left]|by apply Hboot; [|right]| |done|naive_solver].
      eexists. eapply pong_takes; [done| |exact Htake]. unfold ponger_goes_on. destruct e; [by rewrite Hs|]. apply Z.ltb_lt. lia.
    + destruct (pp_ponger s) eqn:Eo; [naive_solver|naive_solver|naive_solver| |naive_solver].
      destruct (send_empty _ v Hi) as [q Hsend]. eexists. by eapply pong_echoes.
    + destruct (receive_law _ _ Hi) as (q & Htake & _). eexists. eapply (ping_receives _ _ _ t0 t0); [done|exact Htake|range].
  - subst tok. destruct (pp_ponger s) eqn:Eo; [by apply Hboot; [|left]|by apply Hboot; [|right]| |done|by eexists; apply ping_joins].
    eexists. apply pong_ends; [done|]. unfold ponger_goes_on. rewrite Hs in *. destruct e; [done|].
    apply Z.ltb_ge. specialize (Hv eq_refl). lia.
Qed.

(** All rounds done, every message echoed as it was sent, and the round trips summarised. *)
Record ping_pong_done (n : Z) (s : PingPong) : Prop := {
  pd_pinger : pp_pinger s = PingDone;
  pd_ponger : pp_ponger s = PongDone;
  pd_rounds : Z.of_nat (length (pp_rtt s)) = n /\ Z.of_nat (length (pp_echoes s)) = n;
  pd_echoes : Forall (fun x => x.1 = x.2) (pp_echoes s);
  pd_empty : carries (pp_out s) [] /\ carries (pp_in s) [];
  pd_stats : exists stats sorted, computeStats (pp_rtt s) = Ok (stats, sorted) /\ bs_count stats = n
}.

Lemma ping_pong_finishes e n s :
  0 <= n < 2 ^ 40 -> pp_ok e n s AtHome -> inevitably (pp_step e n) (ping_pong_done n) s.
Proof using Type.
  intros Hn Hs. apply (inevitably_measure _ _ (fun s => exists tok, pp_ok e n s tok) (fun s => Z.to_nat (pp_weight n s))).
  - intros a b [tok Ha] Hst. pose proof (pp_step_weight _ _ _ _ Hst) as Hw.
    assert (exists tok', pp_ok e n b tok') as [tok' Hb].
    { destruct (decide (pp_ponger b = pp_ponger a)); [by eapply pinger_step_ok|by eapply ponger_step_ok]. }
    split; [by eexists|]. assert (0 <= pp_weight n b); [|lia].
    destruct Hb as [_ _ Hh Hp _ _ _ Hr _ _ _]. unfold pp_weight, pinger_fits in *. rewrite Hh.
    assert (0 <= ponger_weight (pp_ponger b)) by (by destruct (pp_ponger b)).
    destruct (pp_pinger b); cbn [pinger_weight]; destruct tok'; try lia; naive_solver.
  - intros a [tok Ha]. destruct (pp_progress _ _ _ _ Ha) as [Hd|Hd]; [left|by right].
    destruct Ha as [Ho Hi Hh Hp _ _ Hstop _ Hv _ [He1 He2]]. unfold pinger_fits in Hp. rewrite Hd in Hp, Hstop.
    destruct Hp as [-> Hpo]. rewrite bool_decide_eq_true_2 in Hstop by (by right). specialize (Hv Hstop).
    split; [done|done|lia|done|done|].
    destruct (decide (pp_rtt a = [])) as [Hnil|Hne]; [rewrite Hnil in *; eexists _, _; split; [done|done]|].
    destruct (computeStats_ok (pp_rtt a) Hne ltac:(lia)) as (stats & Hc & Hcount & _).
    eexists _, _. split; [exact Hc|lia].
  - by eexists.
Qed.
End ping_pong.
Arguments PingPong : clear implicits.

Definition pingPongSPSC_step (H10 : (10 <= 63)%nat) (n : Z) := pp_step (C := spsc_channel 10 H10) ByFlag n.
Definition runLatency_step (H14 : (14 <= 63)%nat) (n : Z) := pp_step (C := spsc_channel 14 H14) ByCount n.

(** The ping-pong benchmarks.  Between two threads over rings of [2^10] slots, the
    responder ended by the flag, and between two processes over rings of [2^14], the
    child ending after [n] messages (it can open the region): for every number of
    rounds below [2^40] every run ends.  Each message has come back as it was sent,
    one at a time; there are exactly [n] round-trip times, and the statistics of them
    are computed without fault; the queues are empty and the responder is gone. *)
Theorem ping_pong_completes n (H10 : (10 <= 63)%nat) (H14 : (14 <= 63)%nat) :
  0 <= n < 2 ^ 40 ->
  inevitably (pingPongSPSC_step H10 n) (ping_pong_done (C := spsc_channel 10 H10) n)
    (threads_begin (SPSCQueue_new 10 0) (SPSCQueue_new 10 0))
  /\ inevitably (runLatency_step H14 n) (ping_pong_done (C := spsc_channel 14 H14) n)
       (processes_begin (SPSCQueue_new 14 0) (SPSCQueue_new 14 0)).
Proof.
  intros Hn. split; (apply ping_pong_finishes; [done|]).
  - pose proof (spsc_channel_new 10 H10 0). by split; cbn; try lia.
  - pose proof (spsc_channel_new 14 H14 0). split; cbn; try done; try lia. by split; [|left].
Qed.

Lemma ping_pong_completes_witness :
  exists H10 : (10 <= 63)%nat,
    inevitably (pingPongSPSC_step H10 3000) (ping_pong_done (C := spsc_channel 10 H10) 3000)
      (threads_begin (SPSCQueue_new 10 0) (SPSCQueue_new 10 0)).
Proof.
  assert (10 <= 63)%nat as H10 by lia. assert (14 <= 63)%nat as H14 by lia. exists H10.
  apply (ping_pong_completes 3000 H10 H14). lia.
Defined.
