(* ===== verification/BenchmarkIpc.v ===== *)
(** [benchmark_ipc.cpp] around its two experiments: what [runThroughput] and [runLatency]
    set up before [fork] and take down after [waitpid], with every call that can fail.
    (The experiments themselves are in [BenchmarkQueues].) *)

From stdpp Require Import strings.
From S2P Require Import Prelude.
From S2P Require Import SharedMemory.

#[local] Open Scope Z_scope.

Definition kPath : string := "/tmp/lob_bench_ipc.dat".

(** [pipe(pipefd)]: two new descriptors. *)
Definition sys_pipe (k : Kernel) : Z * Z * Kernel :=
  let '(a, k) := sys_open k "pipe" (k_files k) in
  let '(b, k) := sys_open k "pipe" (k_files k) in (a, b, k).

(** What the parent holds after [fork]: the region and the ends of the pipe. *)
Record Setup : Type := mkSetup { su_region : SharedMemoryRegion; su_pipe : option (Z * Z) }.

(** Up to [fork]; [None] is an early return, at which the region's destructor has run.
    [piped]: [runThroughput] has a pipe, [runLatency] has none. *)
Definition ipc_setup (piped : bool) (script : list Call) (k : Kernel) (size : Z) :
    result (option Setup * Kernel * list Call) :=
  match script with
  | [] => Fault OutOfFuel
  | unlinked :: script =>
    let '(_, k) := remove_file unlinked k kPath in
    '(ok, r, k, script) ← create script k SharedMemoryRegion_new kPath size;
    if negb ok then Ok (None, (region_close k r).2, script)
    else
      '(p, k, script) ←
        (if (piped : bool) then
           match script with
           | [] => Fault OutOfFuel
           | Success :: script => let '(a, b, k) := sys_pipe k in Ok (Some (Some (a, b)), k, script)
           | _ :: script => Ok (None, k, script)
           end
         else Ok (Some None, k, script));
      match p with
      | None => Ok (None, (region_close k r).2, script)
      | Some p =>
        match script with
        | [] => Fault OutOfFuel
        | Success :: script => Ok (Some (mkSetup r p), k, script)
        | _ :: script => Ok (None, (region_close k r).2, script)
        end
      end
  end.

(** The parent after the experiment: both ends of the pipe are closed, the child has been
    waited for. *)
Definition ipc_teardown (unlinked : Call) (k : Kernel) (s : Setup) : Kernel :=
  let k := match su_pipe s with Some (a, b) => sys_close (sys_close k b) a | None => k end in
  let '(_, k) := region_close k (su_region s) in
  (remove_file unlinked k kPath).2.

(** Numbers from [k_next] on are free. *)
Definition fresh_kernel (k : Kernel) : Prop :=
  forall x, k_next k <= x -> k_fds k !! x = None /\ k_maps k !! x = None.

Section setup.
Context (k : Kernel) (size : Z).
Hypothesis (Hk : fresh_kernel k).

(** [create] into a new object: it fails without a trace but the file, or the object holds
    the next descriptor and the next mapping. *)
Lemma create_new script ok r k' script' :
  create script k SharedMemoryRegion_new kPath size = Ok (ok, r, k', script') ->
  if ok then
    r = mkRegionObject (Some (k_next k + 1)) size (Some (k_next k))
    /\ k_fds k' = <[k_next k := kPath]> (k_fds k) /\ k_maps k' = <[k_next k + 1 := size]> (k_maps k)
    /\ k_files k' = <[kPath := size]> (k_files k) /\ k_next k' = k_next k + 2
  else r = SharedMemoryRegion_new /\ k_fds k' = k_fds k /\ k_maps k' = k_maps k.
Proof using Hk.
  destruct (Hk (k_next k)) as [Hfd _]; [lia|]. unfold create. cbn [region_close addr_ fd_ SharedMemoryRegion_new].
  destruct script as [|[] script]; [done| |by intros [= <- <- <- _]..]. cbn [sys_open].
  destruct script as [|[] script]; [done| |intros [= <- <- <- _]; cbn; by rewrite delete_insert_id..].
  unfold map_common. destruct script as [|[] script]; [done| |intros [= <- <- <- _]; cbn; by rewrite delete_insert_id..].
  intros [= <- <- <- _]. cbn. rewrite insert_insert_eq. split_and!; try done. lia.
Qed.
End setup.

(** The benchmark leaves nothing behind.  Whatever fails, [runThroughput] and [runLatency]
    lose no mapping; after an experiment that ran, the descriptors and mappings of the
    process are what they were and the file is gone; after an early return the file may
    be left, and - if [fork] failed - the two descriptors of the pipe. *)
Theorem ipc_cleans_up piped script k size outcome k' script' :
  fresh_kernel k -> ipc_setup piped script k size = Ok (outcome, k', script') ->
  match outcome with
  | Some s =>
    let k2 := ipc_teardown Success k' s in
    k_fds k2 = k_fds k /\ k_maps k2 = k_maps k /\ k_files k2 = delete kPath (k_files k)
  | None =>
    k_maps k' = k_maps k
    /\ (k_fds k' = k_fds k
        \/ piped = true /\ exists a b, k_fds k' = <[b := "pipe"%string]> (<[a := "pipe"%string]> (k_fds k)))
  end.
Proof.
  intros Hk. unfold ipc_setup. destruct script as [|unlinked script]; [done|].
  destruct (remove_file unlinked k kPath) as [ok0 k0] eqn:E0.
  assert (k_fds k0 = k_fds k /\ k_maps k0 = k_maps k /\ k_next k0 = k_next k
    /\ delete kPath (k_files k0) = delete kPath (k_files k)) as (Hf0 & Hm0 & Hn0 & Hd0).
  { unfold remove_file in E0. destruct unlinked; injection E0 as <- <-; cbn; split_and!; try done. apply delete_delete_eq. }
  assert (fresh_kernel k0) as Hk0 by (unfold fresh_kernel; by rewrite Hf0, Hm0, Hn0).
  intros ([[[ok r] k1] sc] & Hc & H)%bind_Ok. pose proof (create_new k0 size Hk0 _ _ _ _ _ Hc) as Hr.
  rewrite Hf0, Hm0, Hn0 in Hr.
  destruct ok; cbn [negb] in H; [|destruct Hr as (-> & Hf & Hm); injection H as <- <- _; by split; [|left]].
  destruct Hr as (-> & Hf & Hm & Hd & Hn). destruct (Hk (k_next k)) as [Hfree _]; [lia|].
  destruct (Hk (k_next k + 1)) as [_ Hfree']; [lia|]. apply bind_Ok in H as ([[p k2] sc2] & Hp & H).
  assert (match p with
    | None => k2 = k1
    | Some None => k2 = k1
    | Some (Some (a, b)) =>
      piped = true /\ a = k_next k + 2 /\ b = k_next k + 3
      /\ k_fds k2 = <[b := "pipe"%string]> (<[a := "pipe"%string]> (k_fds k1)) /\ k_maps k2 = k_maps k1 /\ k_files k2 = k_files k1
    end) as Hpipe.
  { destruct piped; [|by injection Hp as <- <- _]. destruct sc as [|[] sc]; [done| |by injection Hp as <- <- _..].
    injection Hp as <- <- _. cbn. rewrite Hn. split_and!; try done. lia. }
  destruct p as [[[a b]|]|]; [destruct Hpipe as (Hpiped & -> & -> & Hf2 & Hm2 & Hd2)|subst k2..].
  - destruct (Hk (k_next k + 2)) as [Ha _], (Hk (k_next k + 3)) as [Hb _]; [lia..|].
    destruct sc2 as [|[] sc2]; [done| |injection H as <- <- _; cbn;
      rewrite Hm2, Hm, delete_insert_id, Hf2, Hf, !delete_insert_ne, delete_insert_id by (done || lia);
      split; [done|right; split; [done|by eexists _, _]]..].
    injection H as <- <- _. cbn. rewrite Hf2, Hm2, Hd2, Hd, Hf, Hm. split_and!.
    + rewrite delete_insert_id by (rewrite !lookup_insert_ne by lia; done).
      rewrite delete_insert_id by (rewrite lookup_insert_ne by lia; done). by apply delete_insert_id.
    + by apply delete_insert_id.
    + by rewrite delete_insert_eq.
  - destruct sc2 as [|[] sc2]; [done| |injection H as <- <- _; cbn; rewrite Hm, Hf, !delete_insert_id by done; by split; [|left]..].
    injection H as <- <- _. cbn. rewrite Hf, Hm, Hd, !delete_insert_id, delete_insert_eq by done. done.
  - injection H as <- <- _. cbn. rewrite Hm, Hf, !delete_insert_id by done. by split; [|left].
Qed.

Lemma ipc_cleans_up_witness :
  exists outcome k' script', ipc_setup true (replicate 6 Success) (mkKernel ∅ ∅ ∅ 0) 262272 = Ok (outcome, k', script')
    /\ match outcome with Some s => k_fds (ipc_teardown Success k' s) = ∅ | None => False end.
Proof.
  destruct (ipc_setup true (replicate 6 Success) (mkKernel ∅ ∅ ∅ 0) 262272) as [[[outcome k'] script']|] eqn:E;
    [|vm_compute in E; discriminate E].
  exists outcome, k', script'. split; [done|].
  pose proof (ipc_cleans_up true (replicate 6 Success) (mkKernel ∅ ∅ ∅ 0) 262272 outcome k' script') as H.
  destruct outcome as [s|]; [|vm_compute in E; discriminate E]. refine (proj1 (H _ E)). intros x _. by split; apply lookup_empty.
Defined.
