(* ===== verification/BenchmarkOrderBook.v ===== *)
(** [benchmark_order_book.cpp]: a random walk of limit orders, a fraction of them priced to
    cross, submitted one by one to a matching engine.  The throughput figure and the
    printing are left out; the clock readings are a parameter. *)

From Stdlib Require Import SpecFloat.
From S2P Require Import Prelude.
From S2P Require Import Doubles.
From S2P Require Import OrderTypes.
From S2P Require Import PriceTime.
From S2P Require Import OrderBook.
From S2P Require Import BookInvariant.
From S2P Require Import BookQueries.
From S2P Require Import Risk.
From S2P Require Import MatchingEngine.
From S2P Require Import Market.
From S2P Require Import MarketInvariant.
From S2P Require Import Refinement.
From S2P Require Import Session.
From S2P Require Import SessionProps.
From S2P Require Import Generators.
From S2P Require Import BenchmarkStats.

#[local] Open Scope Z_scope.

(** [uniform_real_distribution<double>(0.0, 1.0)]. *)
Class UnitReal (Rng : Type) := unit_real : Rng -> double * Rng.

(** * The workload *)

Section workload.
Context `{Random Rng, !UnitReal Rng}.

(** The order, [running_mid] and the engine's state afterwards. *)
Definition makeOrder (rng : Rng) (id : Z) (crossing_fraction : double) (running_mid : Z) :
    result (Order.t * Z * Rng) :=
  '(s, rng) ← draw int_t 0 1 rng;
  let side := if s =? 0 then BUY else SELL in
  '(quantity, rng) ← draw uint32_type 1 500 rng;
  let '(c, rng) := unit_real rng in
  let cross := SFltb c crossing_fraction in
  '(offset, rng) ← draw int64_type 1 50 rng;
  price ← i64 (if s =? 0 then (if cross then running_mid + offset else running_mid - offset)
               else (if cross then running_mid - offset else running_mid + offset));
  let order := limit_order id side price quantity in
  if id mod 97 =? 0 then
    '(up, rng) ← draw int_t 0 1 rng;
    mid ← i64 (running_mid + if up =? 0 then 1 else -1);
    Ok (order, mid, rng)
  else Ok (order, running_mid, rng).

(** The loop that fills [orders], from [i] on. *)
Fixpoint make_orders (n : nat) (i : Z) (crossing_fraction : double) (mid : Z) (rng : Rng) : result (list Order.t) :=
  match n with
  | O => Ok []
  | S n =>
    '(order, mid, rng) ← makeOrder rng (u64 (i + 1)) crossing_fraction mid;
    rest ← make_orders n (i + 1) crossing_fraction mid rng;
    Ok (order :: rest)
  end.

(** The timed loop: the engine, the latencies and the trades of each call.  [clock k] is
    the [k]-th reading. *)
Fixpoint submit_each (clock : nat -> Z) (k : nat) (e : MatchingEngine) (orders : list Order.t) :
    result (MatchingEngine * list Z * list (list Trade.t)) :=
  match orders with
  | [] => Ok (e, [], [])
  | order :: orders =>
    '(e, trades, _) ← submitOrder e order [];
    '(e, latencies, made) ← submit_each clock (2 + k) e orders;
    Ok (e, u64 (clock (S k) - clock k) :: latencies, trades :: made)
  end.

(** What [runWorkload] prints. *)
Record WorkloadReport : Type := mkWorkload {
  wl_engine : MatchingEngine;
  wl_stats : LatencyStats;
  wl_trades : Z;
  wl_buy_depth : Z;
  wl_sell_depth : Z
}.

Definition runWorkload (clock : nat -> Z) (crossing_fraction : double) (n : Z) : result WorkloadReport :=
  orders ← make_orders (Z.to_nat n) 0 crossing_fraction 10000 (seeded 12345);
  '(e, latencies, _) ← submit_each clock 1 (MatchingEngine_new RiskLimits.default) orders;
  '(stats, _) ← computeStats latencies;
  Ok (mkWorkload e stats (tradeCount e) (depth (book_ e) BUY) (depth (book_ e) SELL)).

(** * The orders *)

(** The [i]-th order (from 0): the mid has walked one tick per 97 orders at most. *)
Record walked (i : Z) (o : Order.t) : Prop := {
  wk_plain : exists side price quantity, o = limit_order (i + 1) side price quantity /\ (side = BUY \/ side = SELL);
  wk_quantity : 1 <= Order.quantity o <= 500;
  wk_price : Z.abs (Order.price o - 10000) <= i / 97 + 50
}.

Lemma makeOrder_ok rng i fraction mid :
  0 <= i < 2 ^ 40 -> Z.abs (mid - 10000) <= i / 97 ->
  exists o mid' rng', makeOrder rng (i + 1) fraction mid = Ok (o, mid', rng') /\ walked i o
    /\ Z.abs (mid' - 10000) <= (i + 1) / 97.
Proof using Type.
  intros Hi Hmid. unfold makeOrder. assert (0 <= i / 97 < 2 ^ 40) as Hd.
  { split; [apply Z.div_pos; lia|]. apply Z.div_lt_upper_bound; lia. }
  assert (i / 97 <= (i + 1) / 97) as Hmono by (apply Z.div_le_mono; lia).
  destruct (draw_ok int_t 0 1 rng) as (s & r1 & -> & _); [lia|]. cbn [mbind result_bind].
  destruct (draw_ok uint32_type 1 500 r1) as (quantity & r2 & -> & Hq); [lia|]. cbn [mbind result_bind].
  destruct (unit_real r2) as [c r3].
  destruct (draw_ok int64_type 1 50 r3) as (offset & r4 & -> & Ho); [lia|]. cbn [mbind result_bind].
  match goal with |- context [i64 ?z] => set (price := z) end.
  assert (Z.abs (price - 10000) <= i / 97 + 50) as Hp by (unfold price; repeat case_match; lia).
  rewrite i64_ok by range. cbn [mbind result_bind]. set (o := limit_order _ _ _ _).
  assert (walked i o) as Hw.
  { split; cbn; [|lia|done]. eexists _, price, quantity. split; [done|]. by destruct (s =? 0); [left|right]. }
  destruct (Z.eqb_spec ((i + 1) mod 97) 0) as [Hz|Hz]; [|by eexists _, _, _; split_and!; [done|done|lia]].
  destruct (draw_ok int_t 0 1 r4) as (up & r5 & -> & _); [lia|]. cbn [mbind result_bind].
  assert ((i + 1) / 97 = i / 97 + 1) as Hstep.
  { pose proof (Z.div_mod (i + 1) 97 ltac:(lia)). pose proof (Z.div_mod i 97 ltac:(lia)).
    pose proof (Z.mod_pos_bound i 97 ltac:(lia)). lia. }
  rewrite i64_ok by (case_match; range). eexists _, _, _. split_and!; [done|done|]. case_match; lia.
Qed.

Lemma make_orders_ok fraction n : forall i mid rng,
  0 <= i -> i + Z.of_nat n < 2 ^ 40 -> Z.abs (mid - 10000) <= i / 97 ->
  exists orders, make_orders n i fraction mid rng = Ok orders /\ Forall2 walked (seqZ i (Z.of_nat n)) orders.
Proof using Type.
  induction n as [|n IH]; intros i mid rng Hi Hn Hmid; cbn [make_orders]; [by exists []|]. rewrite u64_small by range.
  destruct (makeOrder_ok rng i fraction mid) as (o & mid' & rng' & -> & Hw & Hmid'); [lia|done|]. cbn [mbind result_bind].
  destruct (IH (i + 1) mid' rng') as (orders & -> & Hf); [lia|lia|done|]. cbn [mbind result_bind].
  exists (o :: orders). split; [done|]. rewrite Nat2Z.inj_succ, seqZ_cons by lia.
  replace (Z.pred (Z.succ (Z.of_nat n))) with (Z.of_nat n) by lia. replace (Z.succ i) with (i + 1) by lia. by constructor.
Qed.
End workload.

Lemma walked_ids ixs orders : Forall2 walked ixs orders -> Order.id <$> orders = Z.add 1 <$> ixs.
Proof.
  induction 1 as [|i o ixs orders [(side & price & quantity & -> & _) _ _] _ IH]; [done|].
  rewrite !fmap_cons, IH. cbn. f_equal. lia.
Qed.

(** The orders whose limit is not positive. *)
Definition unpriced (orders : list Order.t) : Z := sum (fun o => if Order.price o <=? 0 then 1 else 0) orders.

Lemma walked_priced ixs orders :
  Forall2 walked ixs orders -> Forall (fun i => 0 <= i < 965150) ixs -> unpriced orders = 0.
Proof.
  intros Hf Hi. apply sum_zero. induction Hf as [|i o ixs orders [_ _ Hp] _ IH]; [constructor|].
  apply Forall_cons in Hi as [Hi Hr]. constructor; [|by apply IH].
  assert (i / 97 < 9950) by (apply Z.div_lt_upper_bound; lia). destruct (Z.leb_spec (Order.price o) 0); lia.
Qed.

(** * The engine *)

Section engine.

(** With the default limits an order of the workload is refused for its price only. *)
Lemma plain_reason m i o :
  0 <= i < max_resting -> walked i o -> m_risk m = RiskManager_new RiskLimits.default ->
  (forall j, j ∈ m_seen m -> j <= i) -> resting_count m < max_resting ->
  market_reason m o = if Order.price o <=? 0 then INVALID_LIMIT_PRICE else NONE.
Proof using Type.
  intros Hi [(side & price & quantity & -> & Hsd) Hq Hp] Hrisk Hseen Hrest. unfold max_resting in *.
  cbn [limit_order Order.quantity Order.price] in *.
  assert (0 <= i / 97 < 2 ^ 32) as Hd by (split; [apply Z.div_pos; lia|apply Z.div_lt_upper_bound; lia]).
  assert (validateStatic (limit_order (i + 1) side price quantity) = if price <=? 0 then INVALID_LIMIT_PRICE else NONE) as Hs.
  { unfold validateStatic. cbn. rewrite (proj2 (Z.eqb_neq (i + 1) 0)), (proj2 (Z.eqb_neq quantity 0)) by lia.
    by destruct Hsd as [-> | ->]; destruct (price <=? 0). }
  unfold market_reason. rewrite Hs. destruct (Z.leb_spec price 0) as [|Hpos]; [done|].
  change (negb (bool_decide (NONE = NONE))) with false. cbn [limit_order Order.id].
  rewrite bool_decide_eq_false_2 by (intros Hin; apply Hseen in Hin; cbn in Hin; lia). rewrite Hrisk.
  set (adds := may_rest _ && _).
  assert (validate (RiskManager_new RiskLimits.default) (limit_order (i + 1) side price quantity) (resting_count m) adds = NONE) as ->.
  { unfold validate, bits_of_i64. cbn -[Z.div Z.modulo].
    assert (bool_decide (LIMIT = LIMIT) = true) as -> by done.
    rewrite (proj2 (Z.ltb_ge UINT32_MAX _)) by (unfold UINT32_MAX; lia).
    rewrite (proj2 (Z.ltb_ge price 1)), (proj2 (Z.ltb_ge INT64_MAX price)) by (unfold INT64_MAX; lia). cbn [orb].
    rewrite (proj2 (Z.eqb_neq quantity 0)) by lia. cbn [negb andb]. rewrite (Z.mod_small price) by lia.
    rewrite (proj2 (Z.ltb_ge (UINT64_MAX / quantity) price))
      by (apply Z.div_le_lower_bound; [lia|]; unfold UINT64_MAX; nia).
    rewrite (proj2 (Z.leb_gt UINT64_MAX _)) by (unfold UINT64_MAX, resting_count in *; lia). by rewrite andb_false_r. }
  done.
Qed.
(** The engine after [k] orders of the workload. *)
Record bench_session (k : nat) (trades rejected : Z) (e : MatchingEngine) : Prop := {
  be_session : session_ok k e;
  be_numbered : numbered k (abs e);
  be_risk : risk_ e = RiskManager_new RiskLimits.default;
  be_seen : forall j, j ∈ seen_order_ids_ e -> j <= Z.of_nat k;
  be_trades : next_trade_id_ e = 1 + trades;
  be_rejected : rejected_orders_ e = rejected;
  be_accepted : accepted_orders_ e = Z.of_nat k - rejected;
  be_bounds : 0 <= rejected <= Z.of_nat k
}.

Lemma bench_session_new : bench_session 0 0 0 (MatchingEngine_new RiskLimits.default).
Proof using Type.
  split; try done. apply session_new. by apply (bool_decide_unpack _).
Qed.

(** What an order of the workload does to the market. *)
Lemma walked_market k m o m' trades report :
  walked (Z.of_nat k) o -> m_risk m = RiskManager_new RiskLimits.default ->
  (forall j, j ∈ m_seen m -> j <= Z.of_nat k) -> resting_count m < max_resting -> Z.of_nat k < max_resting ->
  market_process m o = (m', trades, report) ->
  m_risk m' = m_risk m /\ (forall j, j ∈ m_seen m' -> j <= Z.of_nat (S k))
  /\ m_rejected m' = (if Order.price o <=? 0 then u64 (m_rejected m + 1) else m_rejected m)
  /\ m_accepted m' = (if Order.price o <=? 0 then m_accepted m else u64 (m_accepted m + 1)).
Proof using Type.
  intros Hw Hr Hs Hc Hk. unfold market_process.
  rewrite (plain_reason (market_tick m) (Z.of_nat k) o) by (done || lia).
  destruct Hw as [(side & price & quantity & -> & _) _ _].
  destruct (Order.price (limit_order _ side price quantity) <=? 0) eqn:Ep.
  - rewrite bool_decide_eq_false_2 by done. intros [= <- <- <-]. cbn. split_and!; [done|intros j Hj%Hs; lia|done..].
  - rewrite bool_decide_eq_true_2 by done. unfold market_execute.
    destruct (pt_match _ _ _ _) as [[tr q] mk]. intros [= <- <- <-]. cbn. split_and!; [done| |done..].
    intros j [->%elem_of_singleton|Hj%Hs]%elem_of_union; lia.
Qed.

Lemma walked_in_range k o : Z.of_nat k < max_resting -> walked (Z.of_nat k) o -> Order.in_range o.
Proof using Type.
  unfold max_resting. intros Hk [(side & price & quantity & -> & Hsd) Hq Hp]. cbn in Hq, Hp.
  assert (0 <= Z.of_nat k / 97 < 2 ^ 32) by (split; [apply Z.div_pos; lia|apply Z.div_lt_upper_bound; lia]).
  split; cbn; try done; try range. by destruct Hsd as [-> | ->].
Qed.

Lemma submit_one k trades rejected e o :
  bench_session k trades rejected e -> Z.of_nat k < max_resting -> walked (Z.of_nat k) o ->
  exists e' made count, submitOrder e o [] = Ok (e', made, count)
    /\ bench_session (S k) (trades + Z.of_nat (length made)) (rejected + unpriced [o]) e'.
Proof using Type.
  intros [Hs Hn Hr Hseen Ht Hrej Hacc Hb] Hk Hw. pose proof (walked_in_range k o Hk Hw) as Hrange.
  pose proof (apply_command_ok k e [] (Submit o) Hs Hk Hrange) as Hx. cbn [market_apply] in Hx.
  destruct (market_process (abs e) o) as [[m' made] report] eqn:Em. destruct Hx as (e' & Ha & Hs' & <-).
  cbn [apply_command] in Ha. apply bind_Ok in Ha as ([[e1 out1] rep1] & Hpo & [= -> -> ->]).
  exists e', made, (ExecutionReport.trade_count report). unfold submitOrder. rewrite Hpo. split; [done|].
  destruct (process_numbered _ _ _ _ _ _ Hn Hk Hrange Em) as (Hn' & _ & Ht' & _).
  assert (resting_count (abs e) < max_resting) as Hc by (destruct Hn; lia).
  destruct (walked_market k (abs e) o _ _ _ Hw Hr Hseen Hc Hk Em) as (Hr' & Hseen' & Hrej' & Hacc').
  cbn in Ht', Hr', Hseen', Hrej', Hacc'. rewrite Hrej in Hrej'. rewrite Hacc in Hacc'. unfold max_resting in Hk.
  unfold unpriced. rewrite sum_cons. change (sum _ []) with 0.
  destruct (Order.price o <=? 0); rewrite u64_small in Hrej' || rewrite u64_small in Hacc'; try range;
    split; try done; try lia; congruence.
Qed.

Lemma submit_each_ok clock orders : forall k c trades rejected e,
  bench_session k trades rejected e -> Z.of_nat (k + length orders) <= max_resting ->
  Forall2 walked (seqZ (Z.of_nat k) (Z.of_nat (length orders))) orders ->
  exists e' latencies made, submit_each clock c e orders = Ok (e', latencies, made)
    /\ length latencies = length orders
    /\ bench_session (k + length orders) (trades + Z.of_nat (length (concat made))) (rejected + unpriced orders) e'.
Proof using Type.
  induction orders as [|o orders IH]; intros k c trades rejected e He Hn Hf; cbn [submit_each].
  { exists e, [], []. split_and!; [done..|]. change (unpriced []) with 0. by rewrite Nat.add_0_r, !Z.add_0_r. }
  cbn [length] in *. rewrite Nat2Z.inj_succ, seqZ_cons, Forall2_cons in Hf by lia. destruct Hf as [Hw Hf].
  destruct (submit_one k trades rejected e o He) as (e1 & made & count & -> & He1); [lia|done|]. cbn [mbind result_bind].
  destruct (IH (S k) (2 + c)%nat _ _ e1 He1) as (e2 & latencies & made' & -> & Hl & He2); [lia| |].
  { by replace (Z.of_nat (S k)) with (Z.succ (Z.of_nat k)) by lia; rewrite Z.pred_succ in Hf. }
  cbn [mbind result_bind]. eexists _, _, _. split_and!; [done|cbn; lia|].
  replace (k + S (length orders))%nat with (S k + length orders)%nat by lia. cbn [concat]. rewrite length_app.
  unfold unpriced in *. rewrite sum_cons in *. change (sum _ []) with 0 in He2.
  match type of He2 with bench_session _ ?t ?r _ =>
    match goal with |- bench_session _ ?t' ?r' _ => replace t' with t by lia; replace r' with r by lia end
  end. exact He2.
Qed.
End engine.

(** The order-book benchmark.  For every crossing fraction, every sequence of random
    numbers and clock readings and fewer than 2^32 orders, generating the orders never
    overflows and submitting them never faults.  The latency statistics are over one
    sample per order, the trade counter printed is the number of trades the calls
    returned, and every order is accepted but those whose limit the walk of the mid
    has taken to zero or below - none among the first 965,150, whatever the walk. *)
Theorem order_book_benchmark_runs `{Random Rng, !UnitReal Rng} clock fraction n :
  0 <= n < max_resting ->
  exists orders e latencies made report,
    make_orders (Rng := Rng) (Z.to_nat n) 0 fraction 10000 (seeded 12345) = Ok orders
    /\ submit_each clock 1 (MatchingEngine_new RiskLimits.default) orders = Ok (e, latencies, made)
    /\ runWorkload (Rng := Rng) clock fraction n = Ok report /\ wl_engine report = e
    /\ Order.id <$> orders = seqZ 1 n /\ bs_count (wl_stats report) = n
    /\ wl_trades report = Z.of_nat (length (concat made))
    /\ rejected_orders_ e = unpriced orders /\ accepted_orders_ e = n - unpriced orders
    /\ (n <= 965150 -> unpriced orders = 0).
Proof.
  intros Hn. assert (max_resting < 2 ^ 40) as Hmax by (unfold max_resting; lia).
  destruct (make_orders_ok (Rng := Rng) fraction (Z.to_nat n) 0 10000 (seeded 12345)) as (orders & Ho & Hf); [lia|lia|done|].
  pose proof (Forall2_length _ _ _ Hf) as Hlen. rewrite length_seqZ in Hlen.
  destruct (submit_each_ok clock orders 0 1 0 0 _ bench_session_new) as (e & latencies & made & Hs & Hl & He);
    [cbn; lia|by replace (Z.of_nat (length orders)) with (Z.of_nat (Z.to_nat n)) by lia|].
  assert (exists stats sorted, computeStats latencies = Ok (stats, sorted) /\ bs_count stats = n) as (stats & sorted & Hst & Hc).
  { destruct (decide (latencies = [])) as [->|Hne]; [eexists _, _; split; [done|cbn in *; lia]|].
    destruct (computeStats_ok latencies Hne) as (stats & Hst & Hc & _); [lia|]. eexists _, _. split; [exact Hst|lia]. }
  exists orders, e, latencies, made, (mkWorkload e stats (tradeCount e) (depth (book_ e) BUY) (depth (book_ e) SELL)).
  destruct He as [_ Hnum _ _ Ht Hrej Hacc _]. unfold runWorkload. rewrite Ho. cbn [mbind result_bind]. rewrite Hs.
  cbn [mbind result_bind]. rewrite Hst. split_and!; try done.
  - rewrite (walked_ids _ _ Hf), fmap_add_seqZ. f_equal. lia.
  - cbn [wl_trades]. unfold tradeCount. destruct Hnum as [_ _ H3 H4]. unfold resting_count in H4. cbn in H3, H4.
    unfold max_resting in Hn. rewrite u64_small by range. lia.
  - rewrite Hacc. cbn. lia.
  - intros Hsmall. apply (walked_priced _ _ Hf). apply Forall_forall. intros i Hi%elem_of_seqZ. lia.
Qed.

#[local] Instance half : UnitReal Z := fun rng => (double_literal (rng mod 100) 100, u64 (rng * 6364136223846793005 + 1)).

Lemma order_book_benchmark_runs_witness :
  exists report, runWorkload (Rng := Z) (fun k => 7 * Z.of_nat k) (double_literal 50 100) 100 = Ok report
    /\ bs_count (wl_stats report) = 100 /\ accepted_orders_ (wl_engine report) = 100 /\ 0 < wl_trades report.
Proof.
  destruct (order_book_benchmark_runs (Rng := Z) (fun k => 7 * Z.of_nat k) (double_literal 50 100) 100)
    as (orders & e & latencies & made & report & _ & _ & Hr & He & _ & Hc & _ & _ & Ha & Hu); [by vm_compute|].
  exists report. split; [exact Hr|]. split; [exact Hc|]. rewrite He, Ha, Hu by lia. split; [done|].
  assert (match runWorkload (Rng := Z) (fun k => 7 * Z.of_nat k) (double_literal 50 100) 100 with
          | Ok r => 0 <? wl_trades r | Fault _ => false end = true) as Ht by (by vm_compute).
  rewrite Hr in Ht. by apply Z.ltb_lt.
Defined.
