(* ===== verification/CleanupTool.v ===== *)
(** [cleanup_shared_memory.cpp]: remove the backing file. *)

From stdpp Require Import strings.
From S2P Require Import Prelude.
From S2P Require Import SharedMemory.

#[local] Open Scope Z_scope.

(** The last [--path] that has a value wins; anything else is ignored. *)
Fixpoint cleanup_path (argv : list string) (path : string) : string :=
  match argv with
  | flag :: (value :: argv) as rest =>
    if bool_decide (flag = "--path"%string) then cleanup_path argv value else cleanup_path rest path
  | _ => path
  end.

(** [call] is what [unlink] did. *)
Definition cleanup_main (call : Call) (k : Kernel) (argv : list string) : Z * Kernel :=
  let '(ok, k) := remove_file call k (cleanup_path argv "/tmp/lob_shared_memory.dat") in
  (if (ok : bool) then 0 else 1, k).

(** Exit code 0 means that there is no such file any more, and nothing else changed. *)
Lemma cleanup_removes call k argv k' :
  let path := cleanup_path argv "/tmp/lob_shared_memory.dat" in
  (call = Enoent -> k_files k !! path = None) -> cleanup_main call k argv = (0, k') ->
  k_files k' = delete path (k_files k) /\ k_fds k' = k_fds k /\ k_maps k' = k_maps k.
Proof.
  intros path Hc. unfold cleanup_main, remove_file. fold path. destruct call; intros [= <-]; [done|].
  by rewrite delete_id by auto.
Qed.
