(* ===== verification/ProgramOutput.v ===== *)
(** What the programs write to the terminal: the lines of [market_viewer.cpp], the
    report of [journal_replay_main.cpp], and the book lines of
    [partitioned_matching_main.cpp] and [mpmc_matching_main.cpp], character by
    character, each as the pieces of its [printf] calls.  Everything that is shown can
    be read back from the text. *)

From Stdlib Require Import Ascii.
From stdpp Require Import strings.
From S2P Require Import Prelude.
From S2P Require Import Arguments.
From S2P Require Import OrderTypes.
From S2P Require Import OrderBook.
From S2P Require Import Risk.
From S2P Require Import Journal.
From S2P Require Import JournalProps.
From S2P Require Import Symbols.
From S2P Require Import Partitioned.
From S2P Require Import Spsc.
From S2P Require Import EngineProcess.
From S2P Require Import CsvReader.
From S2P Require Import CsvProps.
From S2P Require Import Printing.
From S2P Require Import Connection.
From S2P Require Import ReportNames.
From S2P Require Import MarketViewer.
From S2P Require Import PipelineRuns.
From S2P Require Import ReplayTool.
From S2P Require Import MpmcMain.

#[local] Open Scope Z_scope.

(** A literal part with the line end after it. *)
Definition ending (s : string) : Piece := Lit (s +:+ String newline "").

(** * The viewer *)

Definition line_pieces (line : Line) : list Piece :=
  match line with
  | TradeLine t =>
    [Lit "TRADE #"; Num (Trade.trade_id t); Lit " buy="; Num (Trade.buy_order_id t); Lit " sell=";
     Num (Trade.sell_order_id t); Lit " price="; Num (Trade.price t); Lit " qty="; Num (Trade.quantity t);
     Lit " seq="; Num (Trade.sequence t); ending ""]
  | ReportLine sequence command order_id status reason requested executed remaining trade_count =>
    [Lit "REPORT seq="; Num sequence; Lit " cmd="; Word command; Lit " order="; Num order_id; Lit " status=";
     Word status; Lit " reason="; Word reason; Lit " requested="; Num requested; Lit " executed="; Num executed;
     Lit " remaining="; Num remaining; Lit " trades="; Num trade_count; ending ""]
  | BookLine bid ask spread processed accepted rejected trades sequence order_size trade_size report_size age =>
    [Lit "-- book bid="; Word (price_word bid); Lit " ask="; Word (price_word ask); Lit " spread=";
     Word (price_word spread); Lit " | processed="; Num processed; Lit " accepted="; Num accepted; Lit " rejected=";
     Num rejected; Lit " trades="; Num trades; Lit " seq="; Num sequence; Lit " | q(order/trade/report)=";
     Num order_size; Lit "/"; Num trade_size; Lit "/"; Num report_size; Lit " engine-heartbeat-age="; Num age;
     ending "ms --"]
  | SummaryLine reports rejected trades =>
    [Lit "[market_viewer] engine finished; reports="; Num reports; Lit " rejected="; Num rejected; Lit " trades=";
     Num trades; ending ""]
  end.
Definition line_text (line : Line) : string := render (line_pieces line).
Definition viewer_text (lines : list Line) : string := foldr (fun line s => line_text line +:+ s) ""%string lines.

(** * The replay tool *)

Definition level_pieces (level : LevelSnapshot) : list Piece :=
  [Lit "  price="; Num (snap_price level); Lit " quantity="; Num (snap_total_quantity level); Lit " orders=";
   Num (snap_order_count level); ending ""].

Definition printLevels (label : string) (levels : list LevelSnapshot) : list Piece :=
  [Lit label; Lit " ("; Num (Z.of_nat (length levels)); ending " levels shown)"]
  ++ match levels with [] => [ending "  <empty>"] | _ => levels ≫= level_pieces end.

Definition result_pieces (r : JournalReplayResult) : list Piece :=
  [Lit "records="; Num (replay_records r); Lit " new_orders="; Num (replay_new_orders r); Lit " cancels=";
   Num (replay_cancels r); Lit " accepted="; Num (replay_accepted r); Lit " rejected="; Num (replay_rejected r);
   Lit " trades="; Num (replay_trades r); Lit " last_ordinal="; Num (replay_last_ordinal r); ending ""].

(** The spread is printed when there is one. *)
Definition spread_pieces (spread : option Z) : list Piece :=
  match spread with Some s => [Lit "spread="; Num s; Lit " "] | None => [] end.

Definition replay_pieces (path : string) (o : ReplayOutput) : list Piece :=
  [Lit "Journal: "; Lit path; ending ""] ++ result_pieces (out_result o)
  ++ [Lit "recovered_sequence="; Num (out_sequence o); Lit " active_orders="; Num (out_active_orders o);
      Lit " best_bid="; Word (price_word (out_bid o)); Lit " best_ask="; Word (price_word (out_ask o)); Lit " "]
  ++ spread_pieces (out_spread o)
  ++ [Lit "invariants="; Word (if out_invariants o then "PASS" else "FAIL"); ending ""]
  ++ printLevels "BIDS (best first)" (out_bids o) ++ printLevels "ASKS (best first)" (out_asks o).
Definition replay_text (path : string) (o : ReplayOutput) : string := render (replay_pieces path o).

(** * The books of the drivers *)

(** [c_str()]. *)
Definition symbol_text (s : Symbol) : string :=
  text ((fun c => Ascii.ascii_of_nat (Z.to_nat c)) <$> c_string (data s)) "".

Definition snapshot_pieces (symbol : Symbol) (s : PartitionedSnapshot) (recent_trades : Z) : list Piece :=
  [Lit "  "; Padded 5 (symbol_text symbol); Lit " bid="; Word (printable (ps_best_bid s) 32); Lit " ask=";
   Word (printable (ps_best_ask s) 32); Lit " orders="; Num (ps_order_count s); Lit " depth="; Num (ps_buy_depth s);
   Lit "/"; Num (ps_sell_depth s); Lit " seq="; Num (ps_sequence s); Lit " recent_trades="; Num recent_trades; ending ""].

(** The line for every symbol, in the order of the table. *)
Fixpoint partitioned_books (p : PartitionedEngine) (symbols : list Symbol) : result (list Piece) :=
  match symbols with
  | [] => Ok []
  | symbol :: symbols =>
    s ← partitioned_snapshot p symbol;
    rest ← partitioned_books p symbols;
    Ok (snapshot_pieces symbol s (log_count (trade_log_ p) symbol) ++ rest)
  end.

(** The verdict. *)
Definition validation_pieces (ok : bool) : list Piece :=
  [Lit "[partitioned] validation="; Word (if ok then "PASS" else "FAIL"); ending ""].

Definition symbol_line_pieces (l : SymbolLine) : list Piece :=
  [Padded 6 (symbol_text (ln_symbol l)); Lit "  resting_orders="; Padded 6 (print_unsigned (ln_resting l)); Lit " bid=";
   Padded 8 (price_word (ln_bid l)); Lit " ask="; Padded 8 (price_word (ln_ask l)); Lit "  last_trades="; Num (ln_trades l)]
  ++ match ln_latest l with
     | Some (price, quantity) => [Lit "  (most recent: px="; Num price; Lit " qty="; Num quantity; Lit ")"]
     | None => []
     end
  ++ [ending ""].

(** * Reading the viewer's lines *)

(** The strings in a line contain no space. *)
Definition line_ok (line : Line) : Prop :=
  match line with
  | ReportLine _ command _ status reason _ _ _ _ =>
    Forall (fun w => lacks " "%char w = true) [command; status; reason]
  | _ => True
  end.

Lemma report_line_ok r : line_ok (report_line r).
Proof.
  unfold report_line. cbn. repeat constructor;
    [by destruct (ExecutionReport.command r)|by destruct (ExecutionReport.status r)|by destruct (ExecutionReport.reject_reason r)].
Qed.

Lemma price_word_spaceless price : lacks " "%char (price_word price) = true.
Proof. by apply price_word_lacks. Qed.

Lemma line_delimited line : line_ok line -> delimited (line_pieces line) = true.
Proof.
  destruct line as [t|sequence command order_id status reason requested executed remaining count
    |bid ask spread processed accepted rejected trades sequence osize tsize rsize age|reports rejected trades]; try done; cbn.
  - intros (H1 & (H2 & (H3 & _)%Forall_cons)%Forall_cons)%Forall_cons. cbn in *. by rewrite H1, H2, H3.
  - intros _. pose proof price_word_spaceless as H. cbn in H. by rewrite !H.
Qed.

(** Lines of different kinds start with different characters. *)
Definition first_char (line : Line) : Ascii.ascii :=
  match line with
  | TradeLine _ => "T"
  | ReportLine _ _ _ _ _ _ _ _ _ => "R"
  | BookLine _ _ _ _ _ _ _ _ _ _ _ _ => "-"
  | SummaryLine _ _ _ => "["
  end%char.

Lemma line_starts line s : exists rest, line_text line +:+ s = String (first_char line) rest.
Proof. destruct line; unfold line_text; cbn [line_pieces first_char]; rewrite render_lit; by eexists. Qed.

Lemma line_readable a b s t :
  line_ok a -> line_ok b -> line_text a +:+ s = line_text b +:+ t -> a = b /\ s = t.
Proof.
  intros Ha Hb E. destruct (line_starts a s) as [ra Ea], (line_starts b t) as [rb Eb].
  assert (first_char a = first_char b) as Hc by (rewrite Ea, Eb in E; by injection E).
  apply render_readable in E as [E ->]; [|by destruct a, b|by apply line_delimited..].
  split; [|done]. destruct a as [[]| | |], b as [[]| | |]; try done; injection E; intros; subst; try done.
  repeat match goal with H : price_word _ = price_word _ |- _ => apply price_word_inj in H end. by subst.
Qed.

Lemma viewer_text_readable l : forall l',
  Forall line_ok l -> Forall line_ok l' -> viewer_text l = viewer_text l' -> l = l'.
Proof.
  induction l as [|a l IH]; intros [|b l'] Hl Hl'; cbn [viewer_text foldr]; try done.
  - intros E. destruct (line_starts b (viewer_text l')) as [r Hr]. unfold viewer_text in Hr. by rewrite Hr in E.
  - intros E. destruct (line_starts a (viewer_text l)) as [r Hr]. unfold viewer_text in Hr. by rewrite Hr in E.
  - apply Forall_cons in Hl as [Ha Hl], Hl' as [Hb Hl']. intros [-> E]%line_readable; [|done..]. f_equal. by apply IH.
Qed.

Section viewer.
Context (bits : nat) (region_bytes : Z) (args : ViewerArgs).

(** A viewer at any moment of any run, whatever the other processes do to the region. *)
Inductive viewer_reachable : Viewer -> Prop :=
| viewer_start : viewer_reachable Viewer_new
| viewer_goes_on env v r v' r' :
    viewer_reachable v -> viewer_step bits region_bytes args env v r = Ok (v', r') -> viewer_reachable v'.

Lemma show_ok line lines : line_ok line -> Forall line_ok lines -> Forall line_ok (show args line lines).
Proof. intros Hl H. unfold show. destruct (quiet args); [done|]. by apply Forall_app_2; [|constructor]. Qed.

Lemma viewer_lines_ok v : viewer_reachable v -> Forall line_ok (printed v).
Proof.
  induction 1 as [|env v r v' r' _ IH Hs]; [done|]. unfold viewer_step in Hs.
  destruct (viewer_phase v) as [c|got|got|got|got bid|got bid ask| | | | |code].
  - destruct (viewer_connect region_bytes env c r). by injection Hs as <- _.
  - apply bind_Ok in Hs as ([out q] & _ & Hs). destruct out; injection Hs as <- _; [by apply show_ok|done].
  - apply bind_Ok in Hs as ([out q] & _ & Hs). destruct out as [rep|]; injection Hs as <- _; [|done].
    apply show_ok; [apply report_line_ok|done].
  - destruct (book_due env); by injection Hs as <- _.
  - by injection Hs as <- _.
  - apply bind_Ok in Hs as (v1 & Hv & [= <- _]). unfold print_book in Hv. apply bind_Ok in Hv as (sp & _ & [= <-]). cbn.
    by apply Forall_app_2; [|constructor].
  - by injection Hs as <- _.
  - by injection Hs as <- _.
  - by injection Hs as <- _.
  - injection Hs as <- _. cbn. by apply Forall_app_2; [|constructor].
  - by injection Hs as <- _.
Qed.
End viewer.


(** * Reading the report of the replay tool *)

Lemma render_app l m t : render (l ++ m) +:+ t = render l +:+ (render m +:+ t).
Proof. induction l as [|p l IH]; [done|]. cbn [app]. by rewrite !render_cons, IH. Qed.

Lemma levels_delimited levels : delimited (levels ≫= level_pieces) = true.
Proof. induction levels as [|level levels IH]; [done|]. cbn in *. by rewrite IH. Qed.

Lemma levels_format levels : forall levels', length levels = length levels' ->
  directive <$> (levels ≫= level_pieces) = directive <$> (levels' ≫= level_pieces).
Proof.
  induction levels as [|level levels IH]; intros [|level' levels'] E; try done. injection E as E.
  rewrite !bind_cons, !fmap_app, (IH _ E). done.
Qed.

Lemma level_pieces_inj levels : forall levels', levels ≫= level_pieces = levels' ≫= level_pieces -> levels = levels'.
Proof.
  induction levels as [|[p q o] levels IH]; intros [|[p' q' o'] levels'] E; try done. cbn in E.
  injection E as -> -> -> E. f_equal. by apply IH.
Qed.

Lemma printLevels_readable label l l' s t :
  render (printLevels label l) +:+ s = render (printLevels label l') +:+ t -> l = l' /\ s = t.
Proof.
  unfold printLevels. rewrite !(render_app [_; _; _; _]). intros [Hh E]%render_readable; [|done..].
  injection Hh as Hlen. apply Nat2Z.inj in Hlen. destruct l as [|a l], l' as [|a' l']; try done.
  - apply render_readable in E as [_ ->]; done.
  - apply render_readable in E as [E ->]; [|by apply levels_format|apply levels_delimited..]. split; [|done].
    by apply level_pieces_inj.
Qed.

Lemma spread_readable spread spread' s t :
  render (spread_pieces spread) +:+ (render [Lit "invariants="] +:+ s)
  = render (spread_pieces spread') +:+ (render [Lit "invariants="] +:+ t) -> spread = spread' /\ s = t.
Proof.
  destruct spread as [a|], spread' as [b|]; cbn [spread_pieces]; intros E.
  - apply render_readable in E as [[= ->] E]; [|done..]. by apply render_readable in E as [_ ->].
  - rewrite render_lit in E. cbn in E. discriminate E.
  - rewrite (render_lit "s"%char) in E. cbn in E. discriminate E.
  - apply append_inj, append_inj in E. done.
Qed.

(** What the report shows: all but the fields of a failed replay. *)
Definition shown (o : ReplayOutput) : ReplayOutput :=
  let r := out_result o in
  mkReplayOutput (mkReplay true (replay_records r) (replay_new_orders r) (replay_cancels r) (replay_accepted r)
                    (replay_rejected r) (replay_trades r) (replay_last_ordinal r) 0 "")
    (out_sequence o) (out_active_orders o) (out_bid o) (out_ask o) (out_spread o) (out_invariants o) (out_bids o)
    (out_asks o).

(** The report up to the spread. *)
Definition head_pieces (path : string) (o : ReplayOutput) : list Piece :=
  [Lit "Journal: "; Lit path; ending ""] ++ result_pieces (out_result o)
  ++ [Lit "recovered_sequence="; Num (out_sequence o); Lit " active_orders="; Num (out_active_orders o);
      Lit " best_bid="; Word (price_word (out_bid o)); Lit " best_ask="; Word (price_word (out_ask o)); Lit " "].
Definition verdict_pieces (o : ReplayOutput) : list Piece :=
  [Word (if out_invariants o then "PASS" else "FAIL"); ending ""].

Lemma replay_text_parts path o :
  replay_text path o
  = render (head_pieces path o) +:+ (render (spread_pieces (out_spread o)) +:+ (render [Lit "invariants="] +:+
      (render (verdict_pieces o) +:+ (render (printLevels "BIDS (best first)" (out_bids o)) +:+
        (render (printLevels "ASKS (best first)" (out_asks o)) +:+ ""))))).
Proof.
  rewrite <- !render_app, append_nil_r. unfold replay_text, replay_pieces, head_pieces, verdict_pieces.
  by rewrite <- !app_assoc.
Qed.

Lemma head_readable path o o' s t :
  render (head_pieces path o) +:+ s = render (head_pieces path o') +:+ t ->
  s = t /\ head_pieces path o = head_pieces path o'.
Proof.
  assert (forall o, delimited (head_pieces path o) = true) as Hd.
  { intros x. unfold head_pieces. cbn. pose proof price_word_spaceless as H. by rewrite !H. }
  intros [E ->]%render_readable; [done|done|apply Hd..].
Qed.


(** * Reading the books of the drivers *)

Lemma printable_word price : (forall v, price = Some v -> is_i64 v) -> printable price 32 = price_word price.
Proof.
  intros Hv. destruct price as [v|]; [|done]. cbn [printable price_word]. apply cut_short.
  pose proof (print_signed_length v (Hv v eq_refl)). lia.
Qed.

Record snapshot_typed (s : PartitionedSnapshot) : Prop := {
  st_bid v : ps_best_bid s = Some v -> is_i64 v;
  st_ask v : ps_best_ask s = Some v -> is_i64 v
}.

(** A book line of the partitioned driver. *)
Lemma snapshot_readable symbol s s' n n' x y :
  lacks " "%char (symbol_text symbol) = true -> snapshot_typed s -> snapshot_typed s' ->
  render (snapshot_pieces symbol s n) +:+ x = render (snapshot_pieces symbol s' n') +:+ y ->
  (ps_best_bid s, ps_best_ask s, ps_order_count s, ps_buy_depth s, ps_sell_depth s, ps_sequence s, n, x)
  = (ps_best_bid s', ps_best_ask s', ps_order_count s', ps_buy_depth s', ps_sell_depth s', ps_sequence s', n', y).
Proof.
  intros Hsym [Hb Ha] [Hb' Ha']. unfold snapshot_pieces. rewrite !printable_word by done.
  pose proof price_word_spaceless as Hw. intros [E ->]%render_readable; [|done|cbn; by rewrite Hsym, !Hw..].
  injection E. intros. repeat match goal with H : price_word _ = price_word _ |- _ => apply price_word_inj in H end. congruence.
Qed.

Lemma print_unsigned_signed z : 0 <= z -> print_unsigned z = price_word (Some z).
Proof. intros Hz. cbn [price_word]. unfold print_signed. by destruct (Z.ltb_spec z 0); [lia|]. Qed.

(** The part of a line of the queue driver before the number of trades. *)
Definition line_head (l : SymbolLine) : list Piece :=
  [Padded 6 (symbol_text (ln_symbol l)); Lit "  resting_orders="; Padded 6 (print_unsigned (ln_resting l)); Lit " bid=";
   Padded 8 (price_word (ln_bid l)); Lit " ask="; Padded 8 (price_word (ln_ask l)); Lit "  last_trades="].
Definition line_tail (latest : option (Z * Z)) : list Piece :=
  match latest with
  | Some (price, quantity) => [Lit "  (most recent: px="; Num price; Lit " qty="; Num quantity; Lit ")"]
  | None => []
  end ++ [ending ""].

Lemma line_tail_readable n n' latest latest' x y :
  print_signed n +:+ (render (line_tail latest) +:+ x) = print_signed n' +:+ (render (line_tail latest') +:+ y) ->
  n = n' /\ latest = latest' /\ x = y.
Proof.
  assert (forall latest x, exists c rest, render (line_tail latest) +:+ x = String c rest /\ is_digit c = false) as Hstart.
  { intros [[p q]|] z; unfold line_tail; cbn [app ending]; rewrite ?render_lit; by eexists _, _. }
  intros E. destruct (Hstart latest x) as (c & r & Hc & Hd), (Hstart latest' y) as (c' & r' & Hc' & Hd').
  pose proof E as En. rewrite Hc, Hc' in En. apply (f_equal read_number) in En. rewrite !read_number_print in En by done.
  injection En as -> _ _. apply append_inj in E. split; [done|].
  destruct latest as [[p q]|], latest' as [[p' q']|].
  - by apply render_readable in E as [[= -> ->] ->].
  - unfold line_tail in E. cbn [app ending] in E. rewrite !render_lit in E. discriminate E.
  - unfold line_tail in E. cbn [app ending] in E. rewrite !render_lit in E. discriminate E.
  - by apply render_readable in E as [_ ->].
Qed.

(** A line of the queue driver, with or without a most recent trade. *)
Lemma symbol_line_readable l l' x y :
  lacks " "%char (symbol_text (ln_symbol l)) = true -> 0 <= ln_resting l -> 0 <= ln_resting l' ->
  ln_symbol l = ln_symbol l' ->
  render (symbol_line_pieces l) +:+ x = render (symbol_line_pieces l') +:+ y -> l = l' /\ x = y.
Proof.
  intros Hsym Hr Hr' Es.
  assert (forall l x, render (symbol_line_pieces l) +:+ x
    = render (line_head l) +:+ (print_signed (ln_trades l) +:+ (render (line_tail (ln_latest l)) +:+ x))) as Hparts.
  { intros k z. change (symbol_line_pieces k) with (line_head k ++ Num (ln_trades k) :: line_tail (ln_latest k)).
    by rewrite render_app, (render_cons (Num _)). }
  rewrite !Hparts. clear Hparts. unfold line_head at 1 2. rewrite !print_unsigned_signed by done.
  pose proof price_word_spaceless as Hw. rewrite <- Es.
  intros [E (Hn & Hl & ->)%line_tail_readable]%render_readable; [|done|cbn [delimited]; by rewrite Hsym, !Hw..].
  split; [|done]. injection E. intros Hask Hbid Hrest. apply print_signed_inj in Hrest. apply price_word_inj in Hask, Hbid.
  destruct l, l'. cbn in *. congruence.
Qed.

(** * Witnesses *)

Module Screen.
(** A region with one trade in its ring, and two viewers of it, of which the second has
    to try twice to open it. *)
Definition region : SharedRegion :=
  let r := p_region Trading.begun in
  mkRegion (header r) (order_queue r)
    (Spsc.try_push 2 (trade_queue r) (Trade.mk 1 7 8 (-25) 4 3)).2
    (report_queue r).

Fixpoint watch (envs : list ViewerEnv) (v : Viewer) (r : SharedRegion) : Viewer :=
  match envs with
  | [] => v
  | env :: envs =>
    match viewer_step 2 Trading.bytes Trading.vargs env v r with Ok (v, r) => watch envs v r | Fault _ => v end
  end.
Definition seen : Viewer := watch (replicate 9 (mkViewerEnv true true 0)) Viewer_new region.
Definition seen_later : Viewer := watch (mkViewerEnv false true 0 :: replicate 9 (mkViewerEnv true true 0)) Viewer_new region.

Lemma watch_reachable envs : forall v r,
  viewer_reachable 2 Trading.bytes Trading.vargs v -> viewer_reachable 2 Trading.bytes Trading.vargs (watch envs v r).
Proof.
  induction envs as [|env envs IH]; intros v r Hv; cbn [watch]; [done|].
  destruct (viewer_step _ _ _ _ _ _) as [[v' r']|] eqn:E; [|done]. by apply IH, (viewer_goes_on _ _ _ env v r v' r').
Qed.
End Screen.


Module Recovered.
(** The two whole records of the journal of [JournalScenario], read in large and in small
    pieces. *)
Definition disk : FileSystem := {[ "j"%string := take 96 (default [] (JournalScenario.written.1.2 !! "j"%string)) ]}.
Definition args : ReplayArgs := mkReplayArgs "j" 10 RiskLimits.default.
Definition outcome (piece : nat) : result (Z * option ReplayOutput * JournalReplayResult) :=
  replay_main (replicate 200 (Transfer piece)) disk args.
Definition nothing : ReplayOutput := mkReplayOutput JournalReplayResult_default 0 0 None None None false [] [].
Definition output (piece : nat) : ReplayOutput :=
  match outcome piece with Ok (_, Some o, _) => o | _ => nothing end.
Definition replayed (piece : nat) : JournalReplayResult :=
  match outcome piece with Ok (_, _, res) => res | Fault _ => JournalReplayResult_default end.
End Recovered.

