(* ===== verification/ProgramSummaries.v ===== *)
(** The figures the programs print at their start and end: [printStats] and
    [printThroughput] of [benchmark.hpp], the banners and summaries of the feed, the
    engine and the two drivers.  Elapsed times are [double] arguments; rates are computed
    from them. *)

From Stdlib Require Import Ascii SpecFloat.
From stdpp Require Import strings.
From S2P Require Import Prelude.
From S2P Require Import Arguments.
From S2P Require Import Doubles.
From S2P Require Import OrderTypes.
From S2P Require Import OrderBook.
From S2P Require Import MatchingEngine.
From S2P Require Import LatencyHistogram.
From S2P Require Import CsvReader.
From S2P Require Import CsvProps.
From S2P Require Import Printing.
From S2P Require Import EngineProcess.
From S2P Require Import Connection.
From S2P Require Import FeedHandler.
From S2P Require Import IngressDriver.
From S2P Require Import PartitionedMain.
From S2P Require Import MpmcMain.
From S2P Require Import BenchmarkStats.
From S2P Require Import ProgramOutput.

#[local] Open Scope Z_scope.

Definition zero : double := double_of 0 0.

(** [seconds > 0 ? ops / seconds : 0.0]. *)
Definition rate (ops : Z) (seconds : double) : double :=
  if SFltb zero seconds then double_div (double_of ops 0) seconds else zero.

(** * Benchmarks *)

Definition figure (label : string) (value : string) : list Piece := [Lit label; Aligned 10 value; ending " ns"].

Definition printStats (label : string) (s : LatencyStats) : list Piece :=
  [Lit "---- "; Lit label; Lit " (n="; Num (bs_count s); ending ") ----"]
  ++ figure "  min:   " (print_unsigned (bs_min_ns s))
  ++ figure "  mean:  " (print_fixed 1 (bs_mean_ns s))
  ++ figure "  p50:   " (print_unsigned (bs_p50_ns s))
  ++ figure "  p95:   " (print_unsigned (bs_p95_ns s))
  ++ figure "  p99:   " (print_unsigned (bs_p99_ns s))
  ++ figure "  p99.9: " (print_unsigned (bs_p999_ns s))
  ++ figure "  max:   " (print_unsigned (bs_max_ns s)).

Definition printThroughput (label : string) (ops : Z) (seconds : double) : list Piece :=
  [Lit "---- "; Lit label; ending " throughput ----"; Lit "  ops:     "; Num ops; ending "";
   Lit "  time:    "; Word (print_fixed 4 seconds); ending " s";
   Lit "  ops/sec: "; Word (print_fixed 0 (rate ops seconds)); ending ""].

(** * Feed and engine *)

Definition feed_summary {Rng} (f : Feed (Rng := Rng)) (seconds : double) : list Piece :=
  let messages := u64 (orders_pushed f + cancels_pushed f) in
  [Lit "[feed_handler] pushed "; Num (orders_pushed f); Lit " orders + "; Num (cancels_pushed f); Lit " cancels = ";
   Num messages; Lit " commands in "; Word (print_fixed 4 seconds); Lit " s ("; Word (print_fixed 0 (rate messages seconds));
   ending " commands/sec)"].

Definition engine_summary (p : Process) : list Piece :=
  let h := header (p_region p) in
  let b := book_ (p_engine p) in
  [Lit "[matching_engine] processed="; Num (SharedHeader.processed_commands h); Lit " accepted=";
   Num (SharedHeader.accepted_commands h); Lit " rejected="; Num (SharedHeader.rejected_commands h); Lit " canceled=";
   Num (SharedHeader.canceled_orders h); Lit " trades="; Num (SharedHeader.trades_generated h); Lit " sequence=";
   Num (sequence_ (p_engine p)); ending "";
   Lit "[matching_engine] final book: depth(BUY)="; Num (depth b BUY); Lit " depth(SELL)="; Num (depth b SELL);
   Lit " orders="; Num (orderCount b); ending ""].

(** * Drivers *)

Definition part_total (a : PartArgs) : Z := u64 (part_producers a * part_orders a).

Definition part_banner (a : PartArgs) : list Piece :=
  [Lit "[partitioned] producers="; Num (part_producers a); Lit " shards="; Num (part_shards a); Lit " orders=";
   Num (part_total a); Lit " queue/shard="; Num (part_capacity a); Lit " mode=";
   Word (if part_advanced a then "advanced" else "GTC-limit"); ending ""].

Definition part_summary (s : PartitionedEngineStats) (latency : LatencySnapshot) (elapsed : double) : list Piece :=
  [Lit "[partitioned] elapsed="; Word (print_fixed 6 elapsed); Lit " s throughput=";
   Word (print_fixed 0 (rate (st_processed s) elapsed)); Lit " commands/s submitted="; Num (st_submitted s);
   Lit " processed="; Num (st_processed s); Lit " accepted="; Num (st_accepted s); Lit " rejected="; Num (st_rejected s);
   Lit " trades="; Num (st_trades s); ending "";
   Lit "[partitioned] end-to-end latency (log2 histogram, upper-bound percentiles): min="; Num (lat_min_ns latency);
   Lit " ns mean="; Word (print_fixed 1 (lat_mean latency)); Lit " ns p50<="; Num (lat_p50_ns latency);
   Lit " ns p95<="; Num (lat_p95_ns latency); Lit " ns p99<="; Num (lat_p99_ns latency); Lit " ns p99.9<=";
   Num (lat_p999_ns latency); Lit " ns max="; Num (lat_max_ns latency); Lit " ns; queue high-water=";
   Num (st_max_queue_high_watermark s); ending ""].

Definition mpmc_banner (a : MpmcArgs) : list Piece :=
  [ending "[legacy MPMC comparison; use partitioned_matching_main for deterministic same-symbol sequencing]";
   Lit "mpmc_matching_main: "; Num (mm_producers a); Lit " producer thread(s), "; Num (mm_consumers a);
   Lit " consumer thread(s), "; Num (mm_orders a); Lit " orders/producer, queue capacity "; Num (mm_capacity a);
   Lit ", "; Num (Z.of_nat (length mpmc_symbols)); ending " instruments"].

(** [std::max(seconds, 1e-9)]: the smaller one only if it is less. *)
Definition at_least (seconds least : double) : double := if SFltb seconds least then least else seconds.

Definition mpmc_summary (s : Shop) (seconds : double) : list Piece :=
  [ending ""; ending "=== summary ==="; Lit "produced="; Num (produced s); Lit " consumed="; Num (consumed s);
   Lit " trades="; Num (trades_generated s); Lit " elapsed="; Word (print_fixed 3 seconds); Lit "s (";
   Word (print_fixed 0 (double_div (double_of (consumed s) 0) (at_least seconds (double_literal 1 1000000000))));
   ending " orders/sec)"; ending ""; ending "=== per-symbol book state ==="].

(** * Reading them *)

Lemma print_unsigned_lacks c z : 0 <= z -> is_digit c = false -> lacks c (print_unsigned z) = true.
Proof. intros (ds & -> & Hds & _)%print_unsigned_spec Hc. by rewrite lacks_text. Qed.

Lemma print_places_lacks c k z :
  0 <= z -> is_digit c = false -> c <> "."%char -> lacks c (print_places k z) = true.
Proof.
  intros Hz Hc Hd. unfold print_places. rewrite lacks_append, print_unsigned_lacks by (try apply Z.div_pos; lia || done).
  destruct k as [|k]; [done|]. destruct (low_digits_spec (S k) z "" Hz) as (ds & -> & _ & Hds & _). cbn [lacks andb].
  rewrite lacks_text by done. by rewrite bool_decide_eq_false_2 by (intros <-; by apply Hd).
Qed.

Lemma places_nonneg k m e : 0 <= places k m e.
Proof.
  unfold places. assert (0 < 10 ^ Z.of_nat k) by (apply Z.pow_pos_nonneg; lia). destruct (Z.leb_spec 0 e) as [He|He].
  - assert (0 < 2 ^ e) by (apply Z.pow_pos_nonneg; lia). lia.
  - assert (0 < 2 ^ (- e)) by (apply Z.pow_pos_nonneg; lia). unfold round_even.
    assert (0 <= Z.pos m * 10 ^ Z.of_nat k / 2 ^ (- e)) by (apply Z.div_pos; lia). case_match; lia.
Qed.

(** A printed [double] has no spaces, line ends, brackets or unit letters in it. *)
Lemma print_fixed_lacks c k d :
  is_digit c = false -> c ∉ ["."; "-"; "i"; "n"; "f"; "a"]%char -> lacks c (print_fixed k d) = true.
Proof.
  intros Hc Hn. rewrite !not_elem_of_cons in Hn. destruct Hn as (H1 & H2 & H3 & H4 & H5 & H6 & _).
  assert (forall s t, lacks c t = true -> lacks c (if s : bool then String (Ascii.ascii_of_nat 45) t else t) = true) as Hs.
  { intros s t Ht. destruct s; [|done]. cbn [lacks]. rewrite Ht. by rewrite bool_decide_eq_false_2 by (intros <-; by apply H2). }
  unfold print_fixed. destruct d as [s|s| |s m e].
  - apply Hs. by apply print_places_lacks.
  - apply Hs. cbn. by rewrite !bool_decide_eq_false_2 by congruence.
  - cbn. by rewrite !bool_decide_eq_false_2 by congruence.
  - apply Hs. apply print_places_lacks; [apply places_nonneg|done..].
Qed.

Definition no_blank (w : string) : bool := match w with String a _ => negb (is_space a) | EmptyString => false end.

Lemma print_unsigned_starts z : 0 <= z -> no_blank (print_unsigned z) = true.
Proof.
  intros (ds & -> & Hds & Hne & _)%print_unsigned_spec. destruct ds as [|c ds]; [done|]. apply Forall_cons in Hds as [Hc _].
  cbn. by rewrite (proj1 (digit_not_sign c Hc)).
Qed.

Lemma no_blank_append a b : no_blank a = true -> no_blank (a +:+ b) = true.
Proof. by destruct a. Qed.

Lemma print_fixed_starts k d : no_blank (print_fixed k d) = true.
Proof.
  assert (forall z, 0 <= z -> no_blank (print_places k z) = true) as Hp.
  { intros z Hz. apply no_blank_append, print_unsigned_starts, Z.div_pos; [done|apply Z.pow_pos_nonneg; lia]. }
  unfold print_fixed. destruct d as [[]|[]| |[] m e]; try done; apply Hp; try done; apply places_nonneg.
Qed.

Lemma print_unsigned_inj a b : 0 <= a -> 0 <= b -> print_unsigned a = print_unsigned b -> a = b.
Proof. intros Ha Hb. rewrite !print_unsigned_signed by done. by intros [= ->]%price_word_inj. Qed.

Record stats_typed (s : LatencyStats) : Prop := {
  sty_min : 0 <= bs_min_ns s; sty_p50 : 0 <= bs_p50_ns s; sty_p95 : 0 <= bs_p95_ns s; sty_p99 : 0 <= bs_p99_ns s;
  sty_p999 : 0 <= bs_p999_ns s; sty_max : 0 <= bs_max_ns s
}.

Lemma figure_delimited label w l :
  no_blank w = true -> lacks " "%char w = true -> delimited l = true -> delimited (figure label w ++ l) = true.
Proof.
  intros H1 H2 H3. unfold figure. cbn. unfold no_blank in H1. rewrite H1, H3.
  change (" ns" +:+ String newline "") with (String " "%char ("ns" +:+ String newline "")). cbn. by rewrite H2.
Qed.

Lemma printStats_delimited label s : stats_typed s -> delimited (printStats label s) = true.
Proof.
  intros []. unfold printStats. cbn [delimited app]. rewrite <- (app_nil_r (figure "  max:   " _)).
  repeat (apply figure_delimited;
    [first [by apply print_unsigned_starts | apply print_fixed_starts]
    |first [by apply print_unsigned_lacks | apply print_fixed_lacks; [done|set_solver by done]]|]); done.
Qed.

(** The table of a benchmark shows its statistics: two tables with the same label and the
    same text have the same count, extremes and percentiles, and the same mean as far as
    it is shown. *)
Theorem printStats_readable label s s' :
  stats_typed s -> stats_typed s' -> render (printStats label s) = render (printStats label s') ->
  (bs_count s, bs_min_ns s, print_fixed 1 (bs_mean_ns s), bs_p50_ns s, bs_p95_ns s, bs_p99_ns s, bs_p999_ns s, bs_max_ns s)
  = (bs_count s', bs_min_ns s', print_fixed 1 (bs_mean_ns s'), bs_p50_ns s', bs_p95_ns s', bs_p99_ns s', bs_p999_ns s',
     bs_max_ns s').
Proof.
  intros Hs Hs' E. apply (f_equal (fun t => t +:+ "")) in E.
  apply render_readable in E as [E _]; [|done|by apply printStats_delimited..].
  destruct Hs, Hs'. injection E. intros.
  repeat match goal with H : print_unsigned _ = print_unsigned _ |- _ => apply print_unsigned_inj in H; [|done..] end.
  congruence.
Qed.

Lemma part_summary_delimited s latency elapsed : delimited (part_summary s latency elapsed) = true.
Proof.
  assert (forall k d, lacks " "%char (print_fixed k d) = true) as H by (intros; apply print_fixed_lacks; [done|set_solver by done]).
  unfold part_summary. cbn [delimited ending]. rewrite !H. done.
Qed.

(** The partitioned driver's summary shows all counters and percentiles exactly. *)
Theorem part_summary_readable s s' l l' e e' :
  render (part_summary s l e) = render (part_summary s' l' e') ->
  (st_submitted s, st_processed s, st_accepted s, st_rejected s, st_trades s, st_max_queue_high_watermark s)
  = (st_submitted s', st_processed s', st_accepted s', st_rejected s', st_trades s', st_max_queue_high_watermark s')
  /\ (lat_min_ns l, lat_p50_ns l, lat_p95_ns l, lat_p99_ns l, lat_p999_ns l, lat_max_ns l)
     = (lat_min_ns l', lat_p50_ns l', lat_p95_ns l', lat_p99_ns l', lat_p999_ns l', lat_max_ns l')
  /\ print_fixed 6 e = print_fixed 6 e'.
Proof.
  intros E. apply (f_equal (fun t => t +:+ "")) in E.
  apply render_readable in E as [E _]; [|done|apply part_summary_delimited..]. injection E. intros. split_and!; congruence.
Qed.

(** Decimals to the nearest. *)
Example third_printed : print_fixed 4 (double_literal 1 3) = "0.3333"%string /\ print_fixed 0 (double_literal 5 2) = "2"%string
  /\ print_fixed 1 (double_literal 1999 100) = "20.0"%string.
Proof. by vm_compute. Qed.
